(* ===== verification/_CoqProject ===== *)
-Q . S2P
Prelude.v
Text.v
Protocol.v
Zstd.v
MuxFrame.v
MuxStream.v
MuxSession.v
MuxFlow.v
StreamEnd.v
QuicStream.v
QuicSession.v
QuicEndpoint.v
RateLimiter.v
BufferPool.v
Bridge.v
PooledBridge.v
Tunnel.v
Bandwidth.v
TunnelRequests.v
Closing.v
Interrupted.v
Draining.v
WebSocket.v
UdpBridge.v
Pending.v
Registry.v
Vhost.v
ControlFrame.v
Control.v
WorkStream.v
Accept.v
Client.v
Login.v
Config.v
Mgmt.v
Serve.v
Certs.v
Transport.v
QuicSetup.v
Daemon.v
Startup.v
Listeners.v
