(* ===== verification/Prelude.v ===== *)
(** * cfrp: a verification library of the reverse proxy

    cfrp exposes local services through a public server.  A client dials the
    server over TCP, WebSocket or QUIC, multiplexes streams over that one
    connection, logs in on the first stream (the control stream) and registers
    proxies.  When a user connects to a proxy, the server keeps the connection
    under a ticket and announces the ticket on the control stream; the client
    connects to the local service, opens a new stream (a work stream) and writes
    the ticket; the server claims the user's connection and both ends splice the
    stream to their socket.  This library models the program's own logic from
    src/src, as definitions that evaluate, and proves what makes each part
    correct.  Asio, ngtcp2, wolfSSL, Zstandard and the operating system are the
    environment.

    ** Files, in order, and the code each one models

    - Prelude: results, error codes, bytes and integers of fixed width
      ([wrap], [be_bytes], [be_val]), the list lemmas and tactics all files use.
    - Text: [std::string::find] and the trimming loops.
    - Protocol: common/protocol.h.  [BinaryWriter], [BinaryReader] with its
      exceptions, every message, the envelope; the class [WireLaws] is what the
      other files use of it.
    - Zstd: the interface of Zstandard ([Zstd], with the documented laws
      [ZstdLaws]), and a run-length compressor that satisfies it.
    - MuxFrame, MuxStream, MuxSession: common/mux.h and mux.cpp.  The header
      codec; one stream ([do_read_from_buffer], [do_write], [close],
      [handle_data], [handle_window_update], [handle_close]); the session
      ([do_read_header], [handle_frame], [open_stream], [async_send_frame],
      [do_write], [stop], the heartbeat).
    - MuxFlow: two [MuxStream]s joined by FIFO links, as MuxSession shows them
      to be.  StreamEnd: when the session forgets a stream.
    - QuicStream, QuicSession: common/quic_ngtcp2.h and quic_ngtcp2.cpp.  The
      reads of one stream; the session with its stream table, its one queue of
      writes, the packet loops, the timer and the closing.  What ngtcp2 and the
      UDP socket answer is an argument of every operation ([ng_env]).
      QuicEndpoint: the session with its stream objects, which it tells of data
      and of the end and which hold it by a weak reference.
    - RateLimiter: common/rate_limiter.h.  The token arithmetic is a class with
      a binary64 instance (what runs) and a rational one (what bounds are proved
      for).
    - BufferPool: common/buffer_pool.h.  Buffers are numbers, so that sharing
      would show.
    - Bridge: common/async_bridge.cpp, both directions of a splice, on bytes.
      PooledBridge: the same with the buffers it takes from the pool and those
      of common/zstd_utils.h, in a memory shared with the rest of the program.
    - Tunnel: two [Bridge]s, at the server and at the client, over the link of
      MuxFlow: every request a bridge makes of the work stream is an operation
      of its [MuxStream], every read the stream completes is an event of the
      bridge.  TunnelRequests: what a bridge has outstanding at its stream.
      Closing: the tunnel after the end of one of its connections, with the FIN
      under way, up to both bridges' stop.  Draining: that it gets there.
      Interrupted: what holds when anything fails at any time.
      Bandwidth: the bridges of one proxy, in both directions, at the one
      limiter of the proxy (server.cpp, [CreateRateLimiter]), with the handlers
      it posts run in any order.
    - WebSocket: common/websocket_stream.cpp and websocket_utils.h.
    - UdpBridge: the UDP bridges of server.cpp and client.cpp.
    - Pending: server.cpp, [ProxyListener], [UdpProxyListener], and the ticket
      table of [Server] ([RegisterUserConn], [RegisterUdpSession],
      [DoLazyCleanup], [ClearPendingForProxy], the claim in
      [HandleNewMuxStream]).
    - Registry: server.cpp, client names, vhost routes, rate limiters, the
      mux-to-control table, the allow lists.
    - Vhost: server.cpp, [DoVhostAccept]: Host header, TLS server name, routing,
      and one connection with its timer and its read.
    - ControlFrame: the framing both ends give control messages.
    - Control: server.cpp, [ControlSession]: login, registration, [Stop].
    - WorkStream: the ticket from client.cpp to [Server::HandleNewMuxStream].
    - Accept: how a connection becomes a mux session.  common/stream.h,
      [BufferedStream]; server.cpp, [Server::DoAccept] (peeking at the first
      byte, TLS, the WebSocket handshake, the timer), [DoUdpRead] with the table
      of QUIC sessions, [Run] and what [Stop] does to QUIC.
    - Client: client.cpp, [Client]: connecting, failover, the control stream,
      the monitor of the configuration directory.
    - Login: a [Client] and its [ControlSession] given each other's frames.
    - Config: main.cpp (command line, choice of mode, the files it generates,
      [config set], [status], [stop], server.toml, client.toml, threads),
      utils.h ([ParseBandwidth], the level of [Logger]) and the reading of the
      configuration directory by client.cpp.  toml++ is the class [Toml], with
      the laws [TomlLaws]; a small document type satisfies them.
    - Mgmt: mgmt_server.cpp, from the bytes of a request to the bytes of the
      answer, and the statistics of server.cpp it shows.
    - Serve: a user's way through both programs, from a listener of server.cpp
      over the announcement, the client's local connection and its work stream
      to the splice, for many users, sessions and clients at once.
    - Certs: common/ssl_utils.h and ssl_utils.cpp, and the TLS contexts of
      [Server::Server].  Transport: common/stream.h ([TcpStream], [SslStream] and
      the towers built of them), common/hash_utils.h, the keepalive options of
      utils.h, and what client.cpp sets up for TLS and for the socket of QUIC.
    - QuicSetup: quic_ngtcp2.cpp, the constructor, [init] and the destructor of
      [QuicSession], with what is allocated and freed.
    - Daemon: main.cpp as a process: commands, [config get] and [config ls],
      background mode, the process and status files, signals, the event loop;
      utils.h, log lines and paths.  Startup: [main] from the options to a
      running service or an exit code.
    - Listeners: the accept and receive loops of server.cpp and mgmt_server.cpp
      and what ends them; a management connection with its timer.

    ** How the code is rendered

    A component is a record of its fields, and each operation or completion
    handler a function from the state to the new state and the list of actions
    it takes, in order: frames sent, reads and writes begun, handlers posted,
    sockets closed, timers armed.  The code runs handlers of one object on one
    strand, or under one mutex, so a history is a list of events, and [*_run]
    folds the handlers over it, refusing events that cannot happen, such as the
    completion of a read that was not begun.  Theorems about histories hold for
    every list of events.  Exceptions are values of [result]; an access outside
    a buffer, which C++ leaves undefined, is [None].  Objects with identity
    (streams, sockets, listeners, sessions, buffers, handlers) are numbers.
    Clock readings, random bytes, bind failures and the results of system calls
    are arguments.  An [async_read] of the environment completes with all the
    bytes asked for or with an error; [MuxStream] itself implements that read,
    and where it does not keep the promise a theorem says so.

    ** What is proved

    - The data path as a whole: two bridges over the two ends of a stream carry
      each direction's bytes unchanged in every interleaving, and completely
      when nothing is held back ([tunnel_prefix]); the end of a connection cuts
      off nothing of what was read from it, and the other end gets to its own end
      ([tunnel_drains_after_end]), and whatever fails whenever, bytes are lost
      at the end only ([interrupted_prefix]); with its
      pooled buffers a bridge does what it does on bytes
      ([pooled_bridge_refines]); the bridges of a proxy together keep to its
      rate ([proxy_bandwidth_bounded]) and lose no packet at the limiter
      ([proxy_waits_once]).
    - Users end to end: a user meets the service of the proxy it connected to
      ([users_reach_their_proxy]), and is served ([user_connection_served]).
    - The control path as a whole: a client and the server's session for it,
      exchanging frames, end with the client's proxies registered under its name
      ([login_registers_proxies]).
    - Encodings: control messages, their envelope and their framing, mux
      headers, bridge packets, datagram frames and tickets come back as they
      were sent ([control_message_roundtrip], [control_frame_roundtrip],
      [header_codec_bijection], [bridge_roundtrip], [udp_datagrams_cross],
      [work_stream_takes_connection]); parsers accept exactly the encodings
      ([register_proxy_deserialize_iff]).
    - The multiplexer: a stream refines a byte queue
      ([mux_stream_refines_byte_queue]); two ends preserve bytes and credit, and
      stall only on a reader ([flow_bytes_preserved], [flow_credit_conserved],
      [flow_stalls_only_on_reader]); two sessions are a queue of frames
      ([session_frames_cross]); a session writes in order, keeps identifiers
      apart and closes once ([session_*]), and forgets a stream when both ends
      have closed it and nothing arrived late ([stream_given_back]);
      handlers, fragments: [mux_stream_handlers_once], [mux_do_write_fragments].
    - QUIC: its streams refine the same byte queue and read as mux streams do
      ([quic_stream_refines_byte_queue], [streams_read_alike]); session and
      streams together serve every read, and none waits once the session has
      closed ([quic_endpoint_serves]); writes reach
      ngtcp2 in order ([quic_writes_in_order]); the session closes once and
      takes its streams with it ([quic_session_closes_once]); two ends agree on
      the identifiers they address each other by ([quic_ends_meet]), and what
      [init] acquires is released once ([quic_resources_released]).
    - TLS: after a start the certificates are there and belong together
      ([certificates_ensured], [server_tls_ready]); the ends of a connection
      build towers that meet ([transport_negotiated]); what a client verifies
      ([client_verification_uniform]).
    - Accepting: bytes read ahead are not lost ([buffered_reads_transparent]),
      a connection is handed over once or closed ([connection_handed_over_once]),
      datagrams reach the session of their sender ([quic_datagrams_routed]);
      a loop that looks at its socket ends with it ([listener_stops]).
    - The process: a daemon is found by [status] and [stop] ([daemon_found]); a
      start serves what its file says or ends with an error ([program_starts]).
    - Configuration: values have their types ([settings_typed]), texts are read
      as written ([port_ranges_read], [bandwidth_read]), [config_set_edits].
    - Management page: nothing without the credentials ([mgmt_needs_credentials]),
      answers are framed ([mgmt_response_framed]), pages can be read back
      ([mgmt_clients_page_faithful]), a connection is answered once
      ([mgmt_connection_answers_once]).
    - Users and tickets: no connection is lost or spliced twice, tables are
      bounded and expire, the ticket reaches its connection ([pending_*],
      [work_stream_takes_connection]).
    - Control: nothing without the token, complete clean-up, fresh names, the
      directory monitor in step with the server ([control_*],
      [client_name_allocated], [client_poll_synchronises], [client_failover]).
    - Transports and services: [ws_*], [limiter_*], [pool_sound], [bridge_*],
      [sni_parser_correct], [http_request_routed].
    - Behaviour that departs from the intent, each a theorem about the same
      definitions: [client_quic_endpoints_abandoned],
      [client_dynamic_proxies_lost], [client_reconnects_after_stop],
      [flow_large_read_all_never_completes], [vhost_initial_data_garbled], and
      the lemmas [mux_read_after_close_out_of_bounds],
      [mux_read_all_short_at_eof], [session_write_error_drops_handlers],
      [write_string_truncates], [limiter_starves],
      [udp_rejected_endpoint_never_served], [udp_large_datagram_misread],
      [control_relogin_leaks_name], [quic_bare_fin_completes_read],
      [quic_would_block_offers_again], [quic_empty_write_blocks],
      [dropped_session_answers_no_read],
      [quic_retry_loses_expiry], [ca_key_file_throws], [port_range_truncated],
      [bandwidth_two_letter_unit], [server_pool_ignores_section],
      [generated_server_vhost_unread], [mgmt_name_not_escaped],
      [crossing_keeps_stream], [end_of_input_cuts_answer],
      [short_body_discloses], [repeated_clock_crosses],
      [half_written_chain_accepted], [ca_replaced_with_server_certificate],
      [quic_context_left_without_roots], [verification_depends_on_transport],
      [quic_session_receives_20MiB], [quic_reference_leaked],
      [quic_buffer_released_unacknowledged], [failed_generator_unreported],
      [stop_terminates_reused_number], [foreground_leaves_status],
      [unwritable_daemon_not_found], [failed_start_leaves_status],
      [proxy_listener_never_ends].

    ** Fuel

    [do_write_loop] gets one round per queued write and per full frame the
    window allows; [extensions_loop] one per byte, each extension taking at
    least four; [allocate_loop] one more round than there are active names; the
    QUIC [do_write_loop] seventeen rounds, one more than the packets it may
    send, and one per queued write; [packet_loop] the thirty-two of its source.
    Lemmas of their files show that the fuel is not used up.  The loop of
    [ReadWsFrame] and the other reading loops are one event per completion.

    ** Not modelled

    The libraries themselves: Asio, ngtcp2, wolfSSL, Zstandard, toml++.  What the
    program asks of them is an action, what they answer an argument or an event.
    Memory is followed where the program shares it (the pool, the bridges'
    buffers, the objects of Certs and QuicSetup); that Asio keeps the buffers and
    handlers it was given, and what a freed object's memory is used for next, are
    not.  Handlers of one strand are steps one after the other; two threads
    inside operations that one mutex guards do not overlap, and data races
    outside mutexes and strands are not looked for.  [kill] is taken to succeed
    for every running process, as it does among one user's.  Left out as mere
    calls: [StopProcess], whose success is an argument, [get_executor], the members
    of [TcpStream] and [SslStream] that hand a read or write to Asio, the
    branches for Windows and macOS; [IsIpAddress] is used by nobody.  The
    completeness of [tunnel_drains_after_end] is for a connection read to its
    end, when the bridge holds nothing of that direction; for every other way
    to stop [interrupted_prefix] says that bytes are lost at the end only, and
    the failure of the session under the streams is left to MuxSession.

    Nor stated: a tunnel over a QUIC stream, and several client sessions sharing
    one server down to the frames.  What is handed to a plain connection counts
    as written to it; of the last packet a failing write may pass on a part.  The
    bandwidth bound is for a limit that stays as it is and for exact arithmetic,
    and UDP bridges, which the server's limiter holds up only towards the users,
    are not among the bridges of Bandwidth. *)
From Stdlib Require Import ZArith Lia Strings.Byte String.
From stdpp Require Import base tactics list gmap strings.
Local Open Scope Z_scope.

(** ** Results of fallible code: C++ exceptions become [Err]. *)
Inductive result (E A : Type) : Type :=
| Ok (a : A)
| Err (e : E).
Arguments Ok {E A} a.
Arguments Err {E A} e.

Definition result_bind {E A B} (f : A -> result E B) (m : result E A) : result E B :=
  match m with Ok a => f a | Err e => Err e end.

#[export] Instance result_mret {E} : MRet (result E) := fun A a => Ok a.
#[export] Instance result_mbind {E} : MBind (result E) := fun A B f m => result_bind f m.
#[export] Instance result_fmap {E} : FMap (result E) :=
  fun A B f m => match m with Ok a => Ok (f a) | Err e => Err e end.

(** [std::error_code] values the program produces or tests; anything the
    operating system or asio reports besides these is [ec_other n]. *)
Inductive error_code : Type :=
| ec_ok
| ec_eof
| ec_operation_aborted
| ec_no_buffer_space
| ec_connection_reset
| ec_connection_refused
| ec_access_denied
| ec_invalid_argument
| ec_message_size
| ec_would_block
| ec_try_again
| ec_other (n : Z).

#[export] Instance error_code_eq_dec : EqDecision error_code.
Proof. solve_decision. Defined.

(** ** Bytes *)
#[export] Instance byte_eq_dec : EqDecision byte := Byte.byte_eq_dec.

Definition byte_to_Z (b : byte) : Z := Z.of_N (Byte.to_N b).
(** [static_cast<uint8_t>]: the low eight bits. *)
Definition byte_of_Z (z : Z) : byte :=
  default Byte.x00 (Byte.of_N (Z.to_N (z mod 256))).

(** Byte order on the wire: [host_to_network_*] followed by [memcpy] lays an
    integer out most significant byte first on every host. *)
Fixpoint be_bytes (n : nat) (v : Z) : list byte :=
  match n with
  | O => []
  | S k => byte_of_Z (Z.shiftr v (8 * Z.of_nat k)) :: be_bytes k v
  end.

Fixpoint be_val_acc (acc : Z) (bs : list byte) : Z :=
  match bs with
  | [] => acc
  | b :: bs' => be_val_acc (acc * 256 + byte_to_Z b) bs'
  end.
Definition be_val (bs : list byte) : Z := be_val_acc 0 bs.

(** ** Sizes: [std::size_t] quantities are integers, list lengths are [zlen]. *)
Definition zlen {A} (l : list A) : Z := Z.of_nat (length l).
Definition ztake {A} (n : Z) (l : list A) : list A := take (Z.to_nat n) l.
Definition zdrop {A} (n : Z) (l : list A) : list A := drop (Z.to_nat n) l.

(** [std::string] contents as bytes, and back. *)
Definition bytes_of (s : string) : list byte := String.list_byte_of_string s.
Definition string_of (bs : list byte) : string := String.string_of_list_byte bs.

(** Machine-width wrap-around. *)
Definition wrap (w : Z) (z : Z) : Z := z mod 2 ^ w.
(** Two's complement reading of a [w]-bit pattern. *)
Definition to_signed (w : Z) (z : Z) : Z :=
  let u := wrap w z in if u <? 2 ^ (w - 1) then u else u - 2 ^ w.

(** ** Finite sequences of steps *)
Section Star.
Context {S : Type} (R : S -> S -> Prop).
Inductive star : S -> S -> Prop :=
| star_refl a : star a a
| star_snoc a b c : star a b -> R b c -> star a c.
End Star.

Create HintDb cfrp.
Create Rewrite HintDb cfrp.
Create Rewrite HintDb mux.

(** Case analysis on every boolean test and option match of the goal. *)
Ltac case_step :=
  match goal with
  | |- context [match ?x with _ => _ end] => destruct x eqn:?
  | H : context [match ?x with _ => _ end] |- _ => destruct x eqn:?
  end.
Ltac case_goal :=
  match goal with
  | |- context [match ?x with _ => _ end] => destruct x eqn:?
  end.

(** Turns boolean comparisons of the context into propositions for [lia]. *)
Ltac bool_hyps :=
  repeat match goal with
  | H : (_ && _)%bool = true |- _ => apply andb_true_iff in H; destruct H
  | H : (_ || _)%bool = false |- _ => apply orb_false_iff in H; destruct H
  | H : negb _ = true |- _ => apply negb_true_iff in H
  | H : negb _ = false |- _ => apply negb_false_iff in H
  | H : (_ <? _) = true |- _ => apply Z.ltb_lt in H
  | H : (_ <? _) = false |- _ => apply Z.ltb_ge in H
  | H : (_ <=? _) = true |- _ => apply Z.leb_le in H
  | H : (_ <=? _) = false |- _ => apply Z.leb_gt in H
  | H : (_ =? _) = true |- _ => apply Z.eqb_eq in H
  | H : (_ =? _) = false |- _ => apply Z.eqb_neq in H
  end.

(** ** Lemmas on results *)
Lemma result_bind_ok {E A B} (m : result E A) (f : A -> result E B) b :
  result_bind f m = Ok b <-> exists a, m = Ok a /\ f a = Ok b.
Proof. destruct m as [x|e]; cbn; split; intros H; [eauto|destruct H as (y & [= ->] & H); done|done|destruct H as (y & ? & _); done]. Qed.

(** ** Lemmas on bytes *)
Lemma byte_to_Z_range b : 0 <= byte_to_Z b < 256.
Proof.
  unfold byte_to_Z. pose proof (Byte.to_N_bounded b). lia.
Qed.

Lemma byte_of_to_Z b : byte_of_Z (byte_to_Z b) = b.
Proof.
  unfold byte_of_Z. rewrite Z.mod_small by apply byte_to_Z_range.
  unfold byte_to_Z. rewrite N2Z.id, Byte.of_to_N. reflexivity.
Qed.

Lemma byte_to_of_Z z : byte_to_Z (byte_of_Z z) = z mod 256.
Proof.
  unfold byte_of_Z, byte_to_Z.
  assert (Hb : 0 <= z mod 256 < 256) by (apply Z.mod_pos_bound; lia).
  destruct (Byte.of_N (Z.to_N (z mod 256))) as [b|] eqn:E.
  - cbn. apply Byte.to_of_N in E. rewrite E. lia.
  - apply Byte.of_N_None_iff in E. lia.
Qed.

Lemma byte_to_Z_inj b1 b2 : byte_to_Z b1 = byte_to_Z b2 -> b1 = b2.
Proof. intros H. rewrite <- (byte_of_to_Z b1), <- (byte_of_to_Z b2). by f_equal. Qed.

Lemma byte_to_of_Z_small z : 0 <= z < 256 -> byte_to_Z (byte_of_Z z) = z.
Proof. intros. rewrite byte_to_of_Z. apply Z.mod_small. lia. Qed.

#[export] Hint Rewrite byte_of_to_Z byte_to_of_Z : cfrp.
#[export] Hint Resolve byte_to_Z_range : cfrp.

(** ** Big-endian integers *)
Lemma length_be_bytes n v : length (be_bytes n v) = n.
Proof. induction n; cbn; congruence. Qed.

Lemma be_val_acc_app acc xs ys : be_val_acc acc (xs ++ ys) = be_val_acc (be_val_acc acc xs) ys.
Proof. revert acc. induction xs; cbn; auto. Qed.

Lemma be_val_acc_bytes n v acc :
  be_val_acc acc (be_bytes n v) = acc * 2 ^ (8 * Z.of_nat n) + v mod 2 ^ (8 * Z.of_nat n).
Proof.
  revert acc. induction n as [|k IH]; intros acc.
  - cbn. rewrite Z.mod_1_r. lia.
  - cbn [be_bytes be_val_acc]. rewrite IH, byte_to_of_Z, Z.shiftr_div_pow2 by lia.
    replace (8 * Z.of_nat (S k)) with (8 + 8 * Z.of_nat k) by lia.
    rewrite Z.pow_add_r by lia. change (2 ^ 8) with 256.
    rewrite (Z.mul_comm 256), (Z.rem_mul_r v) by lia. lia.
Qed.

Lemma be_val_bytes n v : be_val (be_bytes n v) = v mod 2 ^ (8 * Z.of_nat n).
Proof. unfold be_val. rewrite be_val_acc_bytes. lia. Qed.

Lemma be_val_bytes_small n v :
  0 <= v < 2 ^ (8 * Z.of_nat n) -> be_val (be_bytes n v) = v.
Proof. intros. rewrite be_val_bytes. apply Z.mod_small. lia. Qed.

Lemma be_val_acc_shift acc bs :
  be_val_acc acc bs = acc * 2 ^ (8 * Z.of_nat (length bs)) + be_val_acc 0 bs.
Proof.
  revert acc. induction bs as [|b bs IH]; intros acc; cbn [be_val_acc length].
  - cbn. lia.
  - rewrite IH, (IH (0 * 256 + _)).
    replace (8 * Z.of_nat (S (length bs))) with (8 + 8 * Z.of_nat (length bs)) by lia.
    rewrite Z.pow_add_r by lia. lia.
Qed.

Lemma be_val_range bs : 0 <= be_val bs < 2 ^ (8 * Z.of_nat (length bs)).
Proof.
  unfold be_val. induction bs as [|b bs IH]; cbn [be_val_acc length].
  - cbn. lia.
  - rewrite be_val_acc_shift. pose proof (byte_to_Z_range b).
    replace (8 * Z.of_nat (S (length bs))) with (8 + 8 * Z.of_nat (length bs)) by lia.
    rewrite Z.pow_add_r by lia. nia.
Qed.

Lemma be_bytes_mod n v w :
  v mod 2 ^ (8 * Z.of_nat n) = w mod 2 ^ (8 * Z.of_nat n) -> be_bytes n v = be_bytes n w.
Proof.
  induction n as [|k IH]; intros H; [done|]. cbn [be_bytes].
  revert H. replace (8 * Z.of_nat (S k)) with (8 * Z.of_nat k + 8) by lia.
  rewrite Z.pow_add_r by lia. change (2 ^ 8) with 256.
  set (p := 2 ^ (8 * Z.of_nat k)) in *. assert (Hp : 0 < p) by (apply Z.pow_pos_nonneg; lia).
  rewrite !Z.rem_mul_r by lia. intros H.
  pose proof (Z.mod_pos_bound v p Hp). pose proof (Z.mod_pos_bound w p Hp).
  assert (Hlo : v mod p = w mod p).
  { apply (f_equal (fun z => z mod p)) in H. revert H.
    rewrite !(Z.mul_comm p), !Z.mod_add, !Z.mod_mod by lia. done. }
  assert (Hhi : (v / p) mod 256 = (w / p) mod 256) by nia.
  f_equal; [|by apply IH].
  rewrite !Z.shiftr_div_pow2 by lia. fold p.
  apply byte_to_Z_inj. by rewrite !byte_to_of_Z.
Qed.

Lemma be_bytes_val bs : be_bytes (length bs) (be_val bs) = bs.
Proof.
  induction bs as [|b bs IH]; [done|]. cbn [length be_bytes].
  unfold be_val. cbn [be_val_acc]. rewrite be_val_acc_shift.
  set (p := 2 ^ (8 * Z.of_nat (length bs))). assert (Hp : 0 < p) by (apply Z.pow_pos_nonneg; lia).
  pose proof (be_val_range bs) as Hr. fold p in Hr. unfold be_val in Hr.
  f_equal.
  - rewrite Z.shiftr_div_pow2 by lia. fold p.
    rewrite Z.add_comm, Z.div_add, Z.div_small by lia. cbn.
    apply byte_of_to_Z.
  - etransitivity; [|exact IH]. apply be_bytes_mod. fold p. unfold be_val.
    rewrite Z.add_comm, Z.mod_add by lia. reflexivity.
Qed.

(** ** Sizes *)
Lemma zlen_nonneg {A} (l : list A) : 0 <= zlen l.
Proof. unfold zlen. lia. Qed.
Lemma zlen_nil {A} : zlen (@nil A) = 0.
Proof. done. Qed.
Lemma zlen_cons {A} (x : A) l : zlen (x :: l) = 1 + zlen l.
Proof. unfold zlen. cbn [length]. lia. Qed.
Lemma zlen_app {A} (l1 l2 : list A) : zlen (l1 ++ l2) = zlen l1 + zlen l2.
Proof. unfold zlen. rewrite length_app. lia. Qed.
Lemma zlen_be_bytes n v : zlen (be_bytes n v) = Z.of_nat n.
Proof. unfold zlen. by rewrite length_be_bytes. Qed.
Lemma zlen_0_nil {A} (l : list A) : zlen l = 0 -> l = [].
Proof. destruct l; [done|]. rewrite zlen_cons. pose proof (zlen_nonneg l). lia. Qed.
Lemma ztake_drop {A} n (l : list A) : ztake n l ++ zdrop n l = l.
Proof. apply take_drop. Qed.
Lemma ztake_app_exact {A} n (l1 l2 : list A) : n = zlen l1 -> ztake n (l1 ++ l2) = l1.
Proof. intros ->. unfold ztake, zlen. rewrite Nat2Z.id. apply take_app_length. Qed.
Lemma zdrop_app_exact {A} n (l1 l2 : list A) : n = zlen l1 -> zdrop n (l1 ++ l2) = l2.
Proof. intros ->. unfold zdrop, zlen. rewrite Nat2Z.id. apply drop_app_length. Qed.
Lemma zlen_ztake {A} n (l : list A) : 0 <= n -> zlen (ztake n l) = Z.min n (zlen l).
Proof. intros. unfold zlen, ztake. rewrite length_take. lia. Qed.
Lemma zlen_zdrop {A} n (l : list A) : 0 <= n -> zlen (zdrop n l) = Z.max 0 (zlen l - n).
Proof. intros. unfold zlen, zdrop. rewrite length_drop. lia. Qed.
Lemma ztake_ge {A} n (l : list A) : zlen l <= n -> ztake n l = l.
Proof. intros. unfold ztake. apply take_ge. unfold zlen in *. lia. Qed.
Lemma zdrop_ge {A} n (l : list A) : zlen l <= n -> zdrop n l = [].
Proof. intros. unfold zdrop. apply drop_ge. unfold zlen in *. lia. Qed.
Lemma ztake_0 {A} (l : list A) : ztake 0 l = [].
Proof. done. Qed.
Lemma zdrop_0 {A} (l : list A) : zdrop 0 l = l.
Proof. done. Qed.
Lemma zdrop_zdrop {A} n m (l : list A) : 0 <= n -> 0 <= m -> zdrop n (zdrop m l) = zdrop (m + n) l.
Proof. intros. unfold zdrop. rewrite drop_drop. f_equal. lia. Qed.
Lemma ztake_app_le {A} n (l1 l2 : list A) : n <= zlen l1 -> ztake n (l1 ++ l2) = ztake n l1.
Proof. intros. unfold ztake. apply take_app_le. unfold zlen in *. lia. Qed.
Lemma zdrop_app_le {A} n (l1 l2 : list A) : n <= zlen l1 -> zdrop n (l1 ++ l2) = zdrop n l1 ++ l2.
Proof. intros. unfold zdrop. apply drop_app_le. unfold zlen in *. lia. Qed.
Lemma ztake_app_ge {A} n (l1 l2 : list A) :
  zlen l1 <= n -> ztake n (l1 ++ l2) = l1 ++ ztake (n - zlen l1) l2.
Proof.
  intros. unfold ztake, zlen in *. rewrite take_app_ge by lia. do 2 f_equal. lia.
Qed.
Lemma zdrop_app_ge {A} n (l1 l2 : list A) :
  zlen l1 <= n -> zdrop n (l1 ++ l2) = zdrop (n - zlen l1) l2.
Proof. intros. unfold zdrop, zlen in *. rewrite drop_app_ge by lia. f_equal. lia. Qed.

Lemma ztake_split {A} n m (l : list A) :
  0 <= n -> n <= m -> ztake n l ++ ztake (m - n) (zdrop n l) = ztake m l.
Proof.
  intros. unfold ztake, zdrop. rewrite take_take_drop. f_equal. lia.
Qed.

#[export] Hint Rewrite @zlen_nil @zlen_cons @zlen_app @zlen_be_bytes @ztake_0 @zdrop_0 : cfrp.
#[export] Hint Resolve zlen_nonneg : cfrp.

(** Size goals: push [zlen] inward, add non-negativity, call [lia]. *)
Ltac zsize :=
  autorewrite with cfrp in *;
  repeat match goal with
  | |- context [zlen ?l] =>
      lazymatch goal with H : 0 <= zlen l |- _ => fail | _ => pose proof (zlen_nonneg l) end
  | H0 : context [zlen ?l] |- _ =>
      lazymatch goal with H : 0 <= zlen l |- _ => fail | _ => pose proof (zlen_nonneg l) end
  end; lia.

(** ** Strings as bytes *)
Lemma string_of_bytes_of s : string_of (bytes_of s) = s.
Proof. apply String.string_of_list_byte_of_string. Qed.
Lemma bytes_of_string_of bs : bytes_of (string_of bs) = bs.
Proof. apply String.list_byte_of_string_of_list_byte. Qed.
Lemma length_bytes_of s : length (bytes_of s) = String.length s.
Proof.
  unfold bytes_of, String.list_byte_of_string.
  rewrite length_map. induction s as [|a s IH]; cbn; [done|]. by rewrite IH.
Qed.
#[export] Hint Rewrite string_of_bytes_of bytes_of_string_of : cfrp.

(** ** Bit operations the wire formats use *)
Lemma land_ones_mod n v : 0 <= n -> Z.land v (2 ^ n - 1) = v mod 2 ^ n.
Proof. intros. rewrite <- Z.land_ones by lia. f_equal. rewrite Z.ones_equiv. lia. Qed.

Lemma testbit_small n v : 0 <= n -> 0 <= v < 2 ^ n -> Z.testbit v n = false.
Proof.
  intros Hn Hv. rewrite Z.testbit_false, Z.div_small by lia. done.
Qed.

Lemma land_flag n v : 0 <= n -> Z.land v (2 ^ n) = if Z.testbit v n then 2 ^ n else 0.
Proof.
  intros Hn. apply Z.bits_inj'. intros k Hk.
  rewrite Z.land_spec, Z.pow2_bits_eqb by lia. destruct (Z.eqb_spec n k) as [<-|Hne].
  - rewrite andb_true_r. destruct (Z.testbit v n); [|by rewrite Z.bits_0].
    by rewrite Z.pow2_bits_true by lia.
  - rewrite andb_false_r. destruct (Z.testbit v n); [|by rewrite Z.bits_0].
    by rewrite Z.pow2_bits_false by lia.
Qed.

Lemma lor_flag_add n v : 0 <= n -> 0 <= v < 2 ^ n -> Z.lor v (2 ^ n) = v + 2 ^ n.
Proof.
  intros Hn Hv.
  assert (Hland : Z.land v (2 ^ n) = 0) by (rewrite land_flag, testbit_small by lia; done).
  rewrite Z.add_nocarry_lxor by done. by rewrite Z.lxor_lor.
Qed.

Lemma testbit_flag n v : 0 <= n -> 0 <= v < 2 ^ n -> Z.testbit (v + 2 ^ n) n = true.
Proof.
  intros Hn Hv. rewrite Z.testbit_true by lia.
  replace (v + 2 ^ n) with (v + 1 * 2 ^ n) by lia.
  rewrite Z.div_add, Z.div_small by lia. done.
Qed.

Lemma lor_shiftl_add n h l :
  0 <= n -> 0 <= l < 2 ^ n -> Z.lor (Z.shiftl h n) l = h * 2 ^ n + l.
Proof.
  intros Hn Hl.
  assert (Hland : Z.land (Z.shiftl h n) l = 0).
  { apply Z.bits_inj'. intros k Hk. rewrite Z.land_spec, Z.bits_0.
    destruct (Z.lt_ge_cases k n); [by rewrite Z.shiftl_spec_low by lia|].
    rewrite (testbit_small k l); [apply andb_false_r|lia|].
    split; [lia|]. apply Z.lt_le_trans with (2 ^ n); [lia|]. apply Z.pow_le_mono_r; lia. }
  rewrite <- Z.shiftl_mul_pow2 by lia. rewrite Z.add_nocarry_lxor by done. by rewrite Z.lxor_lor.
Qed.

(** ** Sequences of steps *)
Lemma star_one {S} (R : S -> S -> Prop) a b : R a b -> star R a b.
Proof. intros. eapply star_snoc; [apply star_refl|done]. Qed.
Lemma star_trans {S} (R : S -> S -> Prop) a b c : star R a b -> star R b c -> star R a c.
Proof. intros H1 H2. induction H2; eauto using star. Qed.
Lemma star_invariant {S} (R : S -> S -> Prop) (P : S -> Prop) a b :
  (forall x y, P x -> R x y -> P y) -> P a -> star R a b -> P b.
Proof. intros Hstep Ha H. induction H; eauto. Qed.
