(* ===== verification/Text.v ===== *)
(** * Byte strings searched and trimmed

    [std::string::find] and the trimming idioms the program uses on text, with
    the lemmas its parsers share. *)
From Stdlib Require Import ZArith Lia Strings.Byte String.
From stdpp Require Import base tactics list.
From S2P Require Import Prelude.
Local Open Scope Z_scope.

(** ** Searching *)
Fixpoint is_prefix (p s : list byte) : bool :=
  match p, s with
  | [], _ => true
  | a :: p', b :: s' => Byte.eqb a b && is_prefix p' s'
  | _, _ => false
  end.
(** [std::string::find]; [None] is [npos]. *)
Fixpoint find (p s : list byte) : option nat :=
  if is_prefix p s then Some 0%nat
  else match s with [] => None | _ :: s' => option_map S (find p s') end.
Definition find_from (pos : nat) (p s : list byte) : option nat :=
  option_map (fun k => (pos + k)%nat) (find p (drop pos s)).

Definition crlf : list byte := [Byte.x0d; Byte.x0a].
Definition line (s : string) : list byte := bytes_of s ++ crlf.

(** ** Trimming *)
(** [s.erase(0, s.find_first_not_of(set))] *)
Fixpoint trim_front (set s : list byte) : list byte :=
  match s with
  | [] => []
  | c :: s' => if existsb (Byte.eqb c) set then trim_front set s' else s
  end.
(** [s.erase(s.find_last_not_of(set) + 1)] *)
Definition trim_back (set s : list byte) : list byte := rev (trim_front set (rev s)).

(** ** Paths of files *)
(** [fs::path::parent_path] of a POSIX path; empty when there is none. *)
Definition slash : byte := x2f.
Definition strip_slashes (p : list byte) : list byte :=
  match trim_back [slash] p with [] => match p with [] => [] | _ => [slash] end | q => q end.
Fixpoint parent_of (rp : list byte) : list byte :=          (* of the reversed path *)
  match rp with
  | [] => []
  | b :: rp' => if Byte.eqb b slash then strip_slashes (rev (b :: rp')) else parent_of rp'
  end.
Definition parent_path (p : list byte) : list byte := parent_of (rev p).
(** [fs::path(dir) / name] for a plain name. *)
Definition path_join (dir name : list byte) : list byte :=
  match list.last dir with
  | None => name
  | Some b => if Byte.eqb b slash then dir ++ name else dir ++ [slash] ++ name
  end.

(** ** Lemmas: searching *)
Lemma is_prefix_app p s t : is_prefix p s = true -> is_prefix p (s ++ t) = true.
Proof.
  revert s. induction p as [|a p IH]; intros [|b s]; cbn; try done.
  intros H. apply andb_true_iff in H as [-> H]. cbn. auto.
Qed.
Lemma is_prefix_self p t : is_prefix p (p ++ t) = true.
Proof. induction p as [|a p IH]; cbn; [done|]. by rewrite (Byte.byte_dec_lb (eq_refl a)). Qed.
Lemma is_prefix_length p s : is_prefix p s = true -> (length p <= length s)%nat.
Proof.
  revert s. induction p as [|a p IH]; intros [|b s]; cbn; try done; try lia.
  intros H. apply andb_true_iff in H as [_ H]. apply IH in H. lia.
Qed.

Lemma find_app p s t k : find p s = Some k -> find p (s ++ t) = Some k /\ (k + length p <= length s)%nat.
Proof.
  revert k. induction s as [|b s IH]; intros k; cbn [find app].
  - destruct (is_prefix p []) eqn:E; [|done]. intros [= <-].
    apply is_prefix_length in E as El. cbn in El. destruct p; [|cbn in El; lia]. by destruct t.
  - destruct (is_prefix p (b :: s)) eqn:E.
    + intros [= <-]. apply is_prefix_length in E as El. apply (is_prefix_app p (b :: s) t) in E.
      cbn [app] in E. rewrite E. done.
    + destruct (find p s) as [k'|] eqn:Ef; [|done]. intros [= <-]. destruct (IH k' eq_refl) as [IH1 IH2].
      cbn [length]. split; [|lia]. destruct (is_prefix p (b :: s ++ t)) eqn:E2; [|by rewrite IH1].
      exfalso. assert (Hlen : (length p <= length (b :: s))%nat) by (cbn; lia).
      assert (Hb : is_prefix p (b :: s) = true); [|congruence].
      clear -E2 Hlen. change (b :: s ++ t) with ((b :: s) ++ t) in E2. revert E2 Hlen.
      generalize (b :: s). induction p as [|a p IH]; intros [|c l]; cbn; try done; try lia.
      intros H Hl. apply andb_true_iff in H as [-> H]. cbn. apply IH; [done|lia].
Qed.

Lemma find_mid p xs t : exists k, find p (xs ++ p ++ t) = Some k.
Proof.
  induction xs as [|x xs [k IH]]; cbn [app].
  - exists 0%nat. pose proof (is_prefix_self p t) as H. destruct (p ++ t); cbn [find]; by rewrite H.
  - cbn [find]. destruct (is_prefix p _); [by eexists|]. rewrite IH. by eexists.
Qed.

Lemma is_prefix_split p s : is_prefix p s = true -> s = p ++ drop (length p) s.
Proof.
  revert s. induction p as [|a p IH]; intros [|b s]; cbn; try done. intros H.
  apply andb_true_iff in H as [->%Byte.byte_dec_bl H]. by rewrite <- (IH s H).
Qed.
Lemma find_skip a p xs t :
  a ∉ xs -> find (a :: p) (xs ++ t) = option_map (fun k => (length xs + k)%nat) (find (a :: p) t).
Proof.
  intros Ha. induction xs as [|x xs IH]; cbn [app length].
  - by destruct (find (a :: p) t).
  - apply not_elem_of_cons in Ha as [Hax Ha]. cbn [find is_prefix].
    replace (Byte.eqb a x) with false
      by (symmetry; destruct (Byte.eqb a x) eqn:E; [apply Byte.byte_dec_bl in E; congruence|done]).
    cbn [andb]. rewrite IH by done. by destruct (find (a :: p) t).
Qed.

(** No occurrence of [p] starts in [xs], whatever follows. *)
Fixpoint clash (p s : list byte) : bool :=
  match p, s with
  | a :: p', b :: s' => if Byte.eqb a b then clash p' s' else true
  | _, _ => false
  end.
Fixpoint all_clash (p xs : list byte) : bool :=
  match xs with [] => true | _ :: xs' => clash p xs && all_clash p xs' end.

Lemma clash_prefix p s t : clash p s = true -> is_prefix p (s ++ t) = false.
Proof.
  revert s. induction p as [|a p IH]; intros [|b s]; cbn; try done.
  destruct (Byte.eqb a b); [apply IH|done].
Qed.

Lemma find_past p xs t :
  all_clash p xs = true -> find p (xs ++ t) = option_map (fun k => (length xs + k)%nat) (find p t).
Proof.
  induction xs as [|x xs IH]; cbn [all_clash app]; intros H.
  - by destruct (find p t).
  - apply andb_true_iff in H as [H1 H2]. cbn [find].
    rewrite (clash_prefix p (x :: xs) t H1 : is_prefix p (x :: xs ++ t) = false).
    rewrite IH by done. by destruct (find p t).
Qed.

Lemma existsb_byte c set : existsb (Byte.eqb c) set = true <-> c ∈ set.
Proof.
  rewrite existsb_exists. split.
  - intros (x & Hx & ->%Byte.byte_dec_bl). by apply list_elem_of_In.
  - intros H%list_elem_of_In. exists c. split; [done|]. by apply Byte.byte_dec_lb.
Qed.
Lemma trim_front_stop set c s : c ∉ set -> trim_front set (c :: s) = c :: s.
Proof. intros H. cbn. destruct (existsb _ set) eqn:E; [|done]. by apply existsb_byte in E. Qed.
Lemma trim_front_skip set ws s : Forall (fun c => c ∈ set) ws -> trim_front set (ws ++ s) = trim_front set s.
Proof.
  induction 1 as [|c ws Hc _ IH]; [done|]. cbn. apply existsb_byte in Hc as ->. done.
Qed.
Lemma trim_front_all set ws : Forall (fun c => c ∈ set) ws -> trim_front set ws = [].
Proof. intros H. rewrite <- (app_nil_r ws). by rewrite trim_front_skip. Qed.
Lemma trim_back_skip set ws s : Forall (fun c => c ∈ set) ws -> trim_back set (s ++ ws) = trim_back set s.
Proof. intros H. unfold trim_back. rewrite rev_app_distr, trim_front_skip; [done|]. by apply Forall_rev. Qed.
Lemma trim_back_stop set c s : c ∉ set -> trim_back set (s ++ [c]) = s ++ [c].
Proof.
  intros H. unfold trim_back. rewrite rev_app_distr. cbn [rev app]. rewrite trim_front_stop by done.
  cbn. by rewrite rev_involutive.
Qed.
Lemma trim_back_last set s : (forall c, list.last s = Some c -> c ∉ set) -> trim_back set s = s.
Proof.
  intros H. destruct s as [|c s] using rev_ind; [done|]. apply trim_back_stop, H. apply last_snoc.
Qed.
(** Text without such characters at its ends is what trimming leaves. *)
Lemma trim_both set ws1 ws2 s : Forall (fun c => c ∈ set) ws1 -> Forall (fun c => c ∈ set) ws2 ->
  (forall c, head s = Some c -> c ∉ set) -> (forall c, list.last s = Some c -> c ∉ set) ->
  trim_back set (trim_front set (ws1 ++ s ++ ws2)) = s.
Proof.
  intros H1 H2 Hh Hl. rewrite trim_front_skip by done. destruct s as [|c s].
  - cbn [app]. by rewrite trim_front_all.
  - change ((c :: s) ++ ws2) with (c :: (s ++ ws2)). rewrite trim_front_stop by (by apply Hh).
    change (c :: s ++ ws2) with ((c :: s) ++ ws2). rewrite trim_back_skip by done. by apply trim_back_last.
Qed.

(** A pattern whose first byte does not come back cannot straddle. *)
Lemma is_prefix_cut a q xs t : a ∉ q -> is_prefix q (xs ++ a :: t) = true -> is_prefix q xs = true.
Proof.
  revert xs. induction q as [|b q IH]; intros [|c xs]; cbn; try done.
  - intros Ha H. apply andb_true_iff in H as [->%Byte.byte_dec_bl _]. by apply not_elem_of_cons in Ha as [? _].
  - intros Ha H. apply not_elem_of_cons in Ha as [_ Ha]. apply andb_true_iff in H as [-> H]. cbn. by apply IH.
Qed.
Lemma find_first a q xs t : a ∉ q -> find (a :: q) xs = None ->
  find (a :: q) (xs ++ (a :: q) ++ t) = Some (length xs).
Proof.
  intros Ha. induction xs as [|x xs IH]; intros Hn.
  - pose proof (is_prefix_self (a :: q) t) as H. cbn [app] in *. cbn [find length]. by rewrite H.
  - cbn [find] in Hn. destruct (is_prefix (a :: q) (x :: xs)) eqn:E; [done|].
    destruct (find (a :: q) xs) eqn:Ef; [done|]. cbn [app find length].
    destruct (is_prefix (a :: q) (x :: xs ++ a :: q ++ t)) eqn:E2.
    + exfalso. cbn [is_prefix] in E, E2. apply andb_true_iff in E2 as [Hx E2]. rewrite Hx in E. cbn [andb] in E.
      apply is_prefix_cut in E2; [congruence|done].
    + change (a :: q ++ t) with ((a :: q) ++ t). by rewrite IH.
Qed.
Lemma find_none a xs : a ∉ xs -> find [a] xs = None.
Proof.
  induction xs as [|x xs IH]; intros H; [done|]. apply not_elem_of_cons in H as [Hx H]. cbn [find is_prefix].
  destruct (Byte.eqb a x) eqn:E; [by apply Byte.byte_dec_bl in E|]. cbn [andb]. by rewrite IH.
Qed.
