(* ===== verification/Protocol.v ===== *)
(** * The control protocol codec (src/common/protocol.h)

    [BinaryWriter] is its accumulated vector; [BinaryReader] is a vector with a
    position, and a reading method is a function from a reader to a value and
    the advanced reader, or the exception it throws.  Every message class is a
    record with its [Serialize] and [Deserialize]; [Message] is the typed
    envelope.  The codec is specified by the class [WireLaws]: a buffer
    deserialises to [m] exactly when it starts with the serialisation of [m]
    and [m] fits the field widths. *)
From Stdlib Require Import ZArith Lia Strings.Byte String Morphisms.
From stdpp Require Import base tactics list strings.
From S2P Require Import Prelude.
Local Open Scope Z_scope.

(** ** Constants *)
Definition COMPRESSION_FLAG : Z := 0x80000000.
Definition LENGTH_MASK : Z := 0x7FFFFFFF.
Definition MAX_MESSAGE_SIZE : Z := 1024 * 1024.
Definition MAX_CONTROL_MESSAGE_SIZE : Z := 4 * 1024 * 1024.
Definition MAX_DECOMPRESSED_SIZE : Z := 16 * 1024 * 1024.

(** ** Message types: the enumerators, and the other values a byte can be cast to *)
Inductive MessageType : Type :=
| Login
| LoginResp
| RegisterProxy
| RegisterProxyResp
| NewUserConn
| StartWorkConn
| WorkConnAuth
| UnregisterProxy
| OtherType (n : Z).

Definition message_type_code (t : MessageType) : Z :=
  match t with
  | Login => 0 | LoginResp => 1 | RegisterProxy => 2 | RegisterProxyResp => 3
  | NewUserConn => 4 | StartWorkConn => 5 | WorkConnAuth => 6 | UnregisterProxy => 7
  | OtherType n => n
  end.

(** [static_cast<MessageType>(byte)] *)
Definition message_type_of (n : Z) : MessageType :=
  match n with
  | 0 => Login | 1 => LoginResp | 2 => RegisterProxy | 3 => RegisterProxyResp
  | 4 => NewUserConn | 5 => StartWorkConn | 6 => WorkConnAuth | 7 => UnregisterProxy
  | _ => OtherType n
  end.

(** ** BinaryWriter *)
Definition AppendBytes (src : list byte) (data_ : list byte) : list byte := data_ ++ src.
Definition WriteUint8 (v : Z) (data_ : list byte) : list byte := data_ ++ [byte_of_Z v].
Definition WriteUint16 (v : Z) (data_ : list byte) : list byte :=
  AppendBytes (be_bytes 2 v) data_.
Definition WriteUint32 (v : Z) (data_ : list byte) : list byte :=
  AppendBytes (be_bytes 4 v) data_.
Definition WriteInt64 (v : Z) (data_ : list byte) : list byte :=
  let net_high := be_bytes 4 (wrap 32 (Z.land (Z.shiftr (wrap 64 v) 32) 0xFFFFFFFF)) in
  let net_low := be_bytes 4 (wrap 32 (Z.land v 0xFFFFFFFF)) in
  AppendBytes net_low (AppendBytes net_high data_).
Definition WriteString (s : string) (data_ : list byte) : list byte :=
  AppendBytes (bytes_of s) (WriteUint16 (wrap 16 (zlen (bytes_of s))) data_).
Definition WriteStringVector (v : list string) (data_ : list byte) : list byte :=
  fold_left (fun d s => WriteString s d) v (WriteUint16 (wrap 16 (zlen v)) data_).

(** ** BinaryReader *)
Inductive exn : Type := BufferOverflow | OutOfRange | EmptyMessage.

Record BinaryReader : Type := { reader_data : list byte; reader_pos : Z }.

Definition reader (A : Type) : Type := BinaryReader -> result exn (A * BinaryReader).
#[export] Instance reader_ret : MRet reader := fun A a br => Ok (a, br).
#[export] Instance reader_bind : MBind reader :=
  fun A B f m br => result_bind (fun '(a, br') => f a br') (m br).

Definition ReadBytes (len : Z) : reader (list byte) := fun br =>
  if zlen (reader_data br) <? reader_pos br + len then Err BufferOverflow
  else Ok (ztake len (zdrop (reader_pos br) (reader_data br)),
           {| reader_data := reader_data br; reader_pos := reader_pos br + len |}).
(** [data_.at(pos_++)]: the position advances before [at] can throw. *)
Definition ReadUint8 : reader Z := fun br =>
  match reader_data br !! Z.to_nat (reader_pos br) with
  | None => Err OutOfRange
  | Some b => Ok (byte_to_Z b, {| reader_data := reader_data br; reader_pos := reader_pos br + 1 |})
  end.
Definition ReadUint16 : reader Z := v ← ReadBytes 2; mret (be_val v).
Definition ReadUint32 : reader Z := v ← ReadBytes 4; mret (be_val v).
Definition ReadInt64 : reader Z :=
  high ← ReadUint32; low ← ReadUint32;
  mret (to_signed 64 (Z.lor (Z.shiftl high 32) low)).
Definition ReadString : reader string :=
  len ← ReadUint16; bs ← ReadBytes len; mret (string_of bs).
Fixpoint read_strings (n : nat) : reader (list string) :=
  match n with
  | O => mret []
  | S k => s ← ReadString; v ← read_strings k; mret (s :: v)
  end.
Definition ReadStringVector : reader (list string) :=
  count ← ReadUint16; read_strings (Z.to_nat count).

Definition run_reader {A} (r : reader A) (data : list byte) : result exn A :=
  fst <$> r {| reader_data := data; reader_pos := 0 |}.

(** ** The envelope *)
Record Message : Type := { msg_type : MessageType; msg_body : list byte }.

Definition Encode (m : Message) : list byte :=
  byte_of_Z (message_type_code (msg_type m)) :: msg_body m.
Definition Decode (data : list byte) : result exn Message :=
  match data with
  | [] => Err EmptyMessage
  | b :: body => Ok {| msg_type := message_type_of (byte_to_Z b); msg_body := body |}
  end.

(** ** Message classes *)
Record LoginMessage : Type := { login_token : string; login_name : string }.
Definition LoginMessage_Serialize (m : LoginMessage) : list byte :=
  WriteString (login_name m) (WriteString (login_token m) []).
Definition LoginMessage_Deserialize (data : list byte) : result exn LoginMessage :=
  run_reader (token ← ReadString; name ← ReadString;
              mret {| login_token := token; login_name := name |}) data.

Record LoginRespMessage : Type :=
  { lresp_status : string; lresp_name : string; lresp_message : string }.
Definition LoginRespMessage_Serialize (m : LoginRespMessage) : list byte :=
  WriteString (lresp_message m) (WriteString (lresp_name m) (WriteString (lresp_status m) [])).
Definition LoginRespMessage_Deserialize (data : list byte) : result exn LoginRespMessage :=
  run_reader (status ← ReadString; name ← ReadString; message ← ReadString;
              mret {| lresp_status := status; lresp_name := name; lresp_message := message |}) data.

Record RegisterProxyMessage : Type :=
  { rp_name : string; rp_type : string; rp_remote_port : Z;
    rp_custom_domains : list string; rp_bandwidth_limit : Z }.
Definition RegisterProxyMessage_Serialize (m : RegisterProxyMessage) : list byte :=
  WriteInt64 (rp_bandwidth_limit m) (WriteStringVector (rp_custom_domains m)
    (WriteUint16 (rp_remote_port m) (WriteString (rp_type m) (WriteString (rp_name m) [])))).
Definition RegisterProxyMessage_Deserialize (data : list byte) : result exn RegisterProxyMessage :=
  run_reader (name ← ReadString; type ← ReadString; port ← ReadUint16;
              domains ← ReadStringVector; limit ← ReadInt64;
              mret {| rp_name := name; rp_type := type; rp_remote_port := port;
                      rp_custom_domains := domains; rp_bandwidth_limit := limit |}) data.

Record RegisterProxyRespMessage : Type :=
  { rresp_status : string; rresp_name : string; rresp_message : string }.
Definition RegisterProxyRespMessage_Serialize (m : RegisterProxyRespMessage) : list byte :=
  WriteString (rresp_message m) (WriteString (rresp_name m) (WriteString (rresp_status m) [])).
Definition RegisterProxyRespMessage_Deserialize (data : list byte)
  : result exn RegisterProxyRespMessage :=
  run_reader (status ← ReadString; name ← ReadString; message ← ReadString;
              mret {| rresp_status := status; rresp_name := name; rresp_message := message |}) data.

Record NewUserConnMessage : Type := { nuc_proxy_name : string; nuc_ticket : string }.
Definition NewUserConnMessage_Serialize (m : NewUserConnMessage) : list byte :=
  WriteString (nuc_ticket m) (WriteString (nuc_proxy_name m) []).
Definition NewUserConnMessage_Deserialize (data : list byte) : result exn NewUserConnMessage :=
  run_reader (proxy_name ← ReadString; ticket ← ReadString;
              mret {| nuc_proxy_name := proxy_name; nuc_ticket := ticket |}) data.

Record UnregisterProxyMessage : Type := { up_name : string }.
Definition UnregisterProxyMessage_Serialize (m : UnregisterProxyMessage) : list byte :=
  WriteString (up_name m) [].
Definition UnregisterProxyMessage_Deserialize (data : list byte)
  : result exn UnregisterProxyMessage :=
  run_reader (name ← ReadString; mret {| up_name := name |}) data.

(** ** The interface every message class offers to the sessions *)
Class Wire (A : Type) : Type := {
  Serialize : A -> list byte;
  Deserialize : list byte -> result exn A;
  wire_wf : A -> Prop
}.
Class WireLaws (A : Type) `{Wire A} : Prop := {
  deserialize_iff (data : list byte) (m : A) :
    Deserialize data = Ok m <-> wire_wf m /\ exists rest, data = Serialize m ++ rest
}.

(** The widths: string lengths and vector counts are 16-bit on the wire. *)
Definition str_fits (s : string) : Prop := zlen (bytes_of s) < 2 ^ 16.
Definition vec_fits (v : list string) : Prop := zlen v < 2 ^ 16 /\ Forall str_fits v.
Definition uint16_fits (v : Z) : Prop := 0 <= v < 2 ^ 16.
Definition int64_fits (v : Z) : Prop := - 2 ^ 63 <= v < 2 ^ 63.

#[export] Instance LoginMessage_wire : Wire LoginMessage := {|
  Serialize := LoginMessage_Serialize; Deserialize := LoginMessage_Deserialize;
  wire_wf m := str_fits (login_token m) /\ str_fits (login_name m) |}.
#[export] Instance LoginRespMessage_wire : Wire LoginRespMessage := {|
  Serialize := LoginRespMessage_Serialize; Deserialize := LoginRespMessage_Deserialize;
  wire_wf m := str_fits (lresp_status m) /\ str_fits (lresp_name m) /\ str_fits (lresp_message m) |}.
#[export] Instance RegisterProxyMessage_wire : Wire RegisterProxyMessage := {|
  Serialize := RegisterProxyMessage_Serialize; Deserialize := RegisterProxyMessage_Deserialize;
  wire_wf m := str_fits (rp_name m) /\ str_fits (rp_type m) /\ uint16_fits (rp_remote_port m) /\
               vec_fits (rp_custom_domains m) /\ int64_fits (rp_bandwidth_limit m) |}.
#[export] Instance RegisterProxyRespMessage_wire : Wire RegisterProxyRespMessage := {|
  Serialize := RegisterProxyRespMessage_Serialize;
  Deserialize := RegisterProxyRespMessage_Deserialize;
  wire_wf m := str_fits (rresp_status m) /\ str_fits (rresp_name m) /\ str_fits (rresp_message m) |}.
#[export] Instance NewUserConnMessage_wire : Wire NewUserConnMessage := {|
  Serialize := NewUserConnMessage_Serialize; Deserialize := NewUserConnMessage_Deserialize;
  wire_wf m := str_fits (nuc_proxy_name m) /\ str_fits (nuc_ticket m) |}.
#[export] Instance UnregisterProxyMessage_wire : Wire UnregisterProxyMessage := {|
  Serialize := UnregisterProxyMessage_Serialize; Deserialize := UnregisterProxyMessage_Deserialize;
  wire_wf m := str_fits (up_name m) |}.

(** Any message of the protocol with its class, as the sessions dispatch on
    [Message::type]; the types without a class carry their raw body. *)
Inductive control_message : Type :=
| CLogin (m : LoginMessage)
| CLoginResp (m : LoginRespMessage)
| CRegisterProxy (m : RegisterProxyMessage)
| CRegisterProxyResp (m : RegisterProxyRespMessage)
| CNewUserConn (m : NewUserConnMessage)
| CUnregisterProxy (m : UnregisterProxyMessage)
| COther (t : MessageType) (body : list byte).

Definition control_envelope (c : control_message) : Message :=
  match c with
  | CLogin m => {| msg_type := Login; msg_body := Serialize m |}
  | CLoginResp m => {| msg_type := LoginResp; msg_body := Serialize m |}
  | CRegisterProxy m => {| msg_type := RegisterProxy; msg_body := Serialize m |}
  | CRegisterProxyResp m => {| msg_type := RegisterProxyResp; msg_body := Serialize m |}
  | CNewUserConn m => {| msg_type := NewUserConn; msg_body := Serialize m |}
  | CUnregisterProxy m => {| msg_type := UnregisterProxy; msg_body := Serialize m |}
  | COther t body => {| msg_type := t; msg_body := body |}
  end.

Definition control_parse (msg : Message) : result exn control_message :=
  match msg_type msg with
  | Login => CLogin <$> Deserialize (msg_body msg)
  | LoginResp => CLoginResp <$> Deserialize (msg_body msg)
  | RegisterProxy => CRegisterProxy <$> Deserialize (msg_body msg)
  | RegisterProxyResp => CRegisterProxyResp <$> Deserialize (msg_body msg)
  | NewUserConn => CNewUserConn <$> Deserialize (msg_body msg)
  | UnregisterProxy => CUnregisterProxy <$> Deserialize (msg_body msg)
  | t => Ok (COther t (msg_body msg))
  end.

Definition control_wf (c : control_message) : Prop :=
  match c with
  | CLogin m => wire_wf m
  | CLoginResp m => wire_wf m
  | CRegisterProxy m => wire_wf m
  | CRegisterProxyResp m => wire_wf m
  | CNewUserConn m => wire_wf m
  | CUnregisterProxy m => wire_wf m
  | COther t _ => match t with
                  | StartWorkConn | WorkConnAuth => True
                  | OtherType n => 8 <= n < 256
                  | _ => False
                  end
  end.

(** [r] recognises exactly the encodings [enc a] of the values with [wf a]. *)
Definition parses {A} (r : reader A) (enc : A -> list byte) (wf : A -> Prop) : Prop :=
  forall br a br', 0 <= reader_pos br <= zlen (reader_data br) ->
    (r br = Ok (a, br') <->
     wf a /\ (exists rest, zdrop (reader_pos br) (reader_data br) = enc a ++ rest) /\
     br' = {| reader_data := reader_data br; reader_pos := reader_pos br + zlen (enc a) |}).

(** ** Lemmas on recognisers *)
#[export] Instance parses_proper {A} (r : reader A) :
  Proper (pointwise_relation A eq ==> pointwise_relation A iff ==> iff) (parses r).
Proof.
  intros e1 e2 He w1 w2 Hw. unfold parses.
  split; intros H br a br' Hpos; specialize (H br a br' Hpos);
    specialize (He a); specialize (Hw a); rewrite He in *; tauto.
Qed.

Lemma parses_conseq {A} (r : reader A) e1 e2 w1 w2 :
  parses r e1 w1 -> (forall a, w1 a <-> w2 a) -> (forall a, w2 a -> e1 a = e2 a) ->
  parses r e2 w2.
Proof.
  intros H Hw He br a br' Hpos. rewrite (H br a br' Hpos), (Hw a).
  split; intros (Ha & Hb); (split; [done|]); rewrite (He a Ha) in *; done.
Qed.

Lemma parses_end {A} (r : reader A) enc wf br a br' :
  parses r enc wf -> 0 <= reader_pos br <= zlen (reader_data br) -> r br = Ok (a, br') ->
  0 <= reader_pos br' <= zlen (reader_data br').
Proof.
  intros Hp Hpos Hr. apply Hp in Hr as (_ & (rest & Hrest) & ->); [|done]. cbn.
  apply (f_equal zlen) in Hrest. rewrite zlen_zdrop in Hrest by lia. zsize.
Qed.

Lemma parses_ret {A} (a0 : A) (wf : A -> Prop) :
  (forall a, wf a <-> a = a0) -> parses (mret a0) (fun _ => []) wf.
Proof.
  intros Hwf br a br' Hpos. rewrite Hwf. unfold mret, reader_ret.
  rewrite zlen_nil, Z.add_0_r. destruct br as [d p]; cbn. split.
  - intros [= <- <-]. eauto.
  - by intros (-> & _ & ->).
Qed.

(** Sequencing: the first field is a projection of the whole result. *)
Lemma parses_bind {A B} (r : reader A) (k : A -> reader B) (prj : B -> A)
    (e1 : A -> list byte) w1 (e2 : B -> list byte) w2 :
  parses r e1 w1 ->
  (forall a, w1 a -> parses (k a) e2 (fun b => w2 b /\ prj b = a)) ->
  parses (r ≫= k) (fun b => e1 (prj b) ++ e2 b) (fun b => w1 (prj b) /\ w2 b).
Proof.
  intros Hr Hk br b br' Hpos. unfold mbind, reader_bind. rewrite result_bind_ok. split.
  - intros ([a br1] & Ha & Hb). pose proof (parses_end _ _ _ _ _ _ Hr Hpos Ha) as Hpos1.
    apply Hr in Ha as (Hw1 & (rest1 & E1) & ->); [|done]. cbn in Hpos1.
    apply Hk in Hb as ((Hw2 & <-) & (rest2 & E2) & ->); [|done|done]. cbn in E2 |- *.
    split_and!; [done..| |].
    + exists rest2. rewrite <- app_assoc, <- E2, E1.
      rewrite <- zdrop_zdrop, E1 by zsize. by rewrite zdrop_app_exact.
    + f_equal. zsize.
  - intros ((Hw1 & Hw2) & (rest & E) & ->). rewrite <- app_assoc in E.
    assert (Hsz : reader_pos br + zlen (e1 (prj b)) <= zlen (reader_data br)).
    { apply (f_equal zlen) in E. rewrite zlen_zdrop in E by lia. zsize. }
    eexists (_, _). split; [apply Hr; [done|]; split_and!; eauto|]. cbn.
    apply Hk; [done|cbn; zsize|cbn]. split_and!; [done..| |].
    + exists rest. rewrite <- zdrop_zdrop, E by zsize. by rewrite zdrop_app_exact.
    + f_equal. zsize.
Qed.

Lemma parses_run {A} (r : reader A) enc wf data m :
  parses r enc wf ->
  (run_reader r data = Ok m <-> wf m /\ exists rest, data = enc m ++ rest).
Proof.
  intros Hp. unfold run_reader. split.
  - destruct (r _) as [[a br]|] eqn:E; [|done]. intros [= <-].
    apply Hp in E as (Hw & (rest & E) & _); [|cbn; zsize]. cbn in E. eauto.
  - intros (Hw & rest & ->).
    assert (E : r {| reader_data := enc m ++ rest; reader_pos := 0 |} =
      Ok (m, {| reader_data := enc m ++ rest; reader_pos := 0 + zlen (enc m) |})).
    { apply Hp; [cbn; zsize|]. cbn. rewrite zdrop_0. eauto. }
    by rewrite E.
Qed.

(** ** Primitive recognisers *)
Lemma parses_bytes len :
  0 <= len -> parses (ReadBytes len) (fun bs => bs) (fun bs => zlen bs = len).
Proof.
  intros Hlen br bs br' Hpos. unfold ReadBytes.
  pose proof (zlen_zdrop (reader_pos br) (reader_data br) ltac:(lia)) as Hd.
  case_step; bool_hyps; split.
  - done.
  - intros (<- & (rest & E) & _). apply (f_equal zlen) in E. zsize.
  - intros [= <- <-]. rewrite zlen_ztake by lia. split_and!; [lia| |do 2 f_equal; lia].
    exists (zdrop len (zdrop (reader_pos br) (reader_data br))). by rewrite ztake_drop.
  - intros (<- & (rest & ->) & ->). rewrite ztake_app_exact by done. done.
Qed.

Lemma parses_uint n :
  parses (v ← ReadBytes (Z.of_nat n); mret (be_val v)) (be_bytes n)
    (fun v => 0 <= v < 2 ^ (8 * Z.of_nat n)).
Proof.
  eapply parses_conseq.
  - eapply (parses_bind _ _ (be_bytes n) _ _ (fun _ => []) (fun v => 0 <= v < 2 ^ (8 * Z.of_nat n))).
    + apply parses_bytes. lia.
    + intros bs Hbs. apply parses_ret. intros v. unfold zlen in Hbs.
      apply Nat2Z.inj in Hbs. subst n. split.
      * intros (Hv & <-). by rewrite be_val_bytes_small.
      * intros ->. split; [apply be_val_range|apply be_bytes_val].
  - intros v. cbn beta. rewrite zlen_be_bytes. tauto.
  - intros v _. apply app_nil_r.
Qed.

Lemma parses_uint16 : parses ReadUint16 (be_bytes 2) uint16_fits.
Proof. apply (parses_uint 2). Qed.
Lemma parses_uint32 : parses ReadUint32 (be_bytes 4) (fun v => 0 <= v < 2 ^ 32).
Proof. apply (parses_uint 4). Qed.

(** The two halves of a 64-bit integer. *)
Definition int64_high (v : Z) : Z := wrap 64 v / 2 ^ 32.
Definition int64_low (v : Z) : Z := v mod 2 ^ 32.

Lemma int64_halves v high low :
  0 <= high < 2 ^ 32 -> 0 <= low < 2 ^ 32 ->
  (int64_fits v /\ int64_high v = high /\ int64_low v = low <->
   v = to_signed 64 (Z.lor (Z.shiftl high 32) low)).
Proof.
  intros Hh Hl.
  rewrite lor_shiftl_add by lia. unfold int64_high, int64_low, int64_fits, to_signed, wrap.
  set (w := high * 2 ^ 32 + low).
  assert (Hw : 0 <= w < 2 ^ 64) by (unfold w; lia).
  rewrite (Z.mod_small w) by lia. change (64 - 1) with 63.
  destruct (Z.ltb_spec w (2 ^ 63)); split.
  - intros (Hv & H1 & H2). pose proof (Z.div_mod (v mod 2 ^ 64) (2 ^ 32)).
    pose proof (Z.mod_pos_bound v (2 ^ 64)).
    assert ((v mod 2 ^ 64) mod 2 ^ 32 = v mod 2 ^ 32) by (Z.div_mod_to_equations; lia).
    assert (v mod 2 ^ 64 = w) by (unfold w; lia). Z.div_mod_to_equations; lia.
  - intros ->. unfold w in *. Z.div_mod_to_equations; lia.
  - intros (Hv & H1 & H2). pose proof (Z.div_mod (v mod 2 ^ 64) (2 ^ 32)).
    pose proof (Z.mod_pos_bound v (2 ^ 64)).
    assert ((v mod 2 ^ 64) mod 2 ^ 32 = v mod 2 ^ 32) by (Z.div_mod_to_equations; lia).
    assert (v mod 2 ^ 64 = w) by (unfold w; lia). Z.div_mod_to_equations; lia.
  - intros ->. unfold w in *. Z.div_mod_to_equations; lia.
Qed.

Definition int64_enc (v : Z) : list byte := be_bytes 4 (int64_high v) ++ be_bytes 4 (int64_low v).

Lemma parses_int64 : parses ReadInt64 int64_enc int64_fits.
Proof.
  eapply parses_conseq.
  - eapply (parses_bind _ _ int64_high _ _ (fun v => be_bytes 4 (int64_low v) ++ [])
              (fun v => 0 <= int64_low v < 2 ^ 32 /\ int64_fits v)); [apply parses_uint32|].
    intros high Hh. eapply parses_conseq.
    + eapply (parses_bind _ _ int64_low _ _ (fun _ => [])
                (fun v => int64_fits v /\ int64_high v = high)); [apply parses_uint32|].
      intros low Hl. apply parses_ret. intros v.
      rewrite <- (int64_halves v high low) by done. tauto.
    + intros v. cbn beta. tauto.
    + done.
  - intros v. cbn beta. unfold int64_high, int64_low, wrap.
    split; [tauto|]. intros. split_and!; try done; Z.div_mod_to_equations; lia.
  - intros v _. unfold int64_enc. by rewrite app_nil_r.
Qed.

Definition str_enc (s : string) : list byte := be_bytes 2 (zlen (bytes_of s)) ++ bytes_of s.
Definition vec_enc (v : list string) : list byte := be_bytes 2 (zlen v) ++ concat (map str_enc v).

Lemma parses_string : parses ReadString str_enc str_fits.
Proof.
  eapply parses_conseq.
  - eapply (parses_bind _ _ (fun s => zlen (bytes_of s)) _ _ (fun s => bytes_of s ++ [])
              (fun _ => True)); [apply parses_uint16|].
    intros len Hlen. eapply parses_conseq.
    + eapply (parses_bind _ _ bytes_of _ _ (fun _ => []) (fun _ => True));
        [apply parses_bytes; unfold uint16_fits in *; lia|].
      intros bs Hbs. apply parses_ret. intros s. split.
      * intros (_ & <-). by rewrite string_of_bytes_of.
      * intros ->. by rewrite bytes_of_string_of.
    + intros s. cbn beta. tauto.
    + done.
  - intros s. cbn beta. unfold str_fits, uint16_fits. pose proof (zlen_nonneg (bytes_of s)). lia.
  - intros s _. cbn beta. by rewrite app_nil_r.
Qed.

Lemma parses_strings n :
  parses (read_strings n) (fun v => concat (map str_enc v))
    (fun v => length v = n /\ Forall str_fits v).
Proof.
  induction n as [|n IH].
  - eapply parses_conseq; [apply (parses_ret [] (fun v => v = [])); done| |].
    + intros v. split; [by intros ->|]. by intros [->%nil_length_inv _].
    + intros v [->%nil_length_inv _]. done.
  - eapply parses_conseq.
    + eapply (parses_bind _ _ (fun v => default EmptyString (head v)) _ _
                (fun v => concat (map str_enc (tail v)))
                (fun v => length v = S n /\ Forall str_fits (tail v))); [apply parses_string|].
      intros s Hs. eapply parses_conseq.
      * eapply (parses_bind _ _ tail _ _ (fun _ => [])
                  (fun v => length v = S n /\ default EmptyString (head v) = s)); [apply IH|].
        intros v [Hv1 Hv2]. apply parses_ret. intros [|x v']; cbn; [intuition (lia || congruence)|].
        split; [intros ((H1 & H2) & H3); congruence|intros [= -> ->]; auto].
      * intros [|x v]; cbn; [intuition lia|]. split; [tauto|]. intros; split_and!; try tauto. lia.
      * intros v _. cbn beta. by rewrite app_nil_r.
    + intros [|x v]; cbn; [intuition lia|]. rewrite Forall_cons. tauto.
    + intros [|x v]; cbn; [intuition lia|]. done.
Qed.

Lemma parses_string_vector : parses ReadStringVector vec_enc vec_fits.
Proof.
  eapply parses_conseq.
  - eapply (parses_bind _ _ zlen _ _ (fun v => concat (map str_enc v)) (Forall str_fits));
      [apply parses_uint16|].
    intros n Hn. eapply parses_conseq; [apply parses_strings| |done].
    intros v. cbn beta. unfold zlen, uint16_fits in *. split; intros [? ?]; split; try done; lia.
  - intros v. cbn beta. unfold vec_fits, uint16_fits. pose proof (zlen_nonneg v).
    split; [intuition lia|]. intros []. split; [lia|done].
  - done.
Qed.

(** ** What the writer appends *)
Lemma wrap_small w v : 0 <= v < 2 ^ w -> wrap w v = v.
Proof. intros. unfold wrap. by apply Z.mod_small. Qed.

Lemma WriteString_enc s d : str_fits s -> WriteString s d = d ++ str_enc s.
Proof.
  intros Hs. unfold WriteString, WriteUint16, AppendBytes, str_enc.
  rewrite wrap_small by (split; [apply zlen_nonneg|done]). by rewrite app_assoc.
Qed.

Lemma WriteStringVector_enc v d : vec_fits v -> WriteStringVector v d = d ++ vec_enc v.
Proof.
  intros [Hn Hv]. unfold WriteStringVector, WriteUint16, AppendBytes, vec_enc.
  rewrite wrap_small by (split; [apply zlen_nonneg|done]). rewrite app_assoc.
  generalize (d ++ be_bytes 2 (zlen v)). clear Hn.
  induction Hv as [|s v Hs Hv IH]; intros d'; cbn [fold_left map concat]; [by rewrite app_nil_r|].
  rewrite IH, WriteString_enc by done. by rewrite app_assoc.
Qed.

Lemma WriteInt64_enc v d :
  WriteInt64 v d = d ++ int64_enc v.
Proof.
  unfold WriteInt64, AppendBytes, int64_enc, int64_high, int64_low. rewrite <- app_assoc.
  change 0xFFFFFFFF with (2 ^ 32 - 1). rewrite !land_ones_mod, Z.shiftr_div_pow2 by lia.
  unfold wrap. do 2 f_equal; [|f_equal; apply Z.mod_mod; lia].
  f_equal. rewrite Z.mod_mod by lia. rewrite Z.mod_small; [done|]. Z.div_mod_to_equations; lia.
Qed.

(** ** Message recognisers, one field at a time

    [ctx] collects what the fields read so far fix of the record. *)
Lemma parses_field {A B} (ctx : B -> Prop) (prj : B -> A) (r : reader A) (k : A -> reader B)
    (e1 : A -> list byte) w1 (e2 : B -> list byte) w2 :
  parses r e1 w1 ->
  (forall a, w1 a -> parses (k a) e2 (fun b => (ctx b /\ prj b = a) /\ w2 b)) ->
  parses (r ≫= k) (fun b => e1 (prj b) ++ e2 b) (fun b => ctx b /\ w1 (prj b) /\ w2 b).
Proof.
  intros Hr Hk. eapply parses_conseq.
  - eapply (parses_bind _ _ prj _ _ e2 (fun b => ctx b /\ w2 b)); [done|].
    intros a Ha. eapply parses_conseq; [by apply Hk| |done]. intros b. cbn beta. tauto.
  - intros b. cbn beta. tauto.
  - done.
Qed.

Lemma parses_done {A} (ctx : A -> Prop) (a0 : A) :
  (forall a, ctx a <-> a = a0) -> parses (mret a0) (fun _ => []) (fun a => ctx a /\ True).
Proof. intros H. apply parses_ret. intros a. rewrite H. tauto. Qed.

Lemma and_iff_dep (P P' Q R : Prop) :
  (P <-> P') -> (P -> Q <-> R) -> (P /\ Q <-> P' /\ R).
Proof. tauto. Qed.

Create HintDb parses.
#[export] Hint Resolve parses_string parses_uint16 parses_int64 parses_string_vector : parses.

(** Reads the next field, described by the projection [prj] of the record. *)
Ltac parse_field prj :=
  eapply (parses_field _ prj); [solve [eauto with parses]|intros ? ?].
(** All fields are read: the record is determined by its projections. *)
Ltac parse_done :=
  apply parses_done; intros []; cbn;
  split; [intros; destruct_and?; congruence|intros [=]; subst; tauto].
(** From a recogniser of the fields to the class law: [Serialize] writes them. *)
Ltac wire_law Hp :=
  constructor; intros data m; autounfold with serialize; cbn [Deserialize Serialize wire_wf];
  etransitivity; [apply (parses_run _ _ _ _ _ Hp)|]; cbn beta;
  apply and_iff_dep; [tauto|intros];
  match goal with |- (exists r, _ = ?e ++ r) <-> (exists r2, _ = ?f ++ r2) =>
    enough (f = e) as -> by done
  end;
  unfold WriteUint16;
  repeat first [rewrite WriteInt64_enc | rewrite WriteStringVector_enc by tauto
               | rewrite WriteString_enc by tauto | unfold AppendBytes];
  rewrite <- ?app_assoc, ?app_nil_r; reflexivity.

Create HintDb serialize.
#[export] Hint Unfold LoginMessage_Serialize LoginRespMessage_Serialize
  RegisterProxyMessage_Serialize RegisterProxyRespMessage_Serialize
  NewUserConnMessage_Serialize UnregisterProxyMessage_Serialize
  LoginMessage_wire LoginRespMessage_wire RegisterProxyMessage_wire
  RegisterProxyRespMessage_wire NewUserConnMessage_wire UnregisterProxyMessage_wire : serialize.

Lemma LoginMessage_fields :
  parses (token ← ReadString; name ← ReadString;
          mret {| login_token := token; login_name := name |})
    (fun m => str_enc (login_token m) ++ str_enc (login_name m) ++ [])
    (fun m => True /\ str_fits (login_token m) /\ str_fits (login_name m) /\ True).
Proof. parse_field login_token. parse_field login_name. parse_done. Qed.

Lemma LoginRespMessage_fields :
  parses (status ← ReadString; name ← ReadString; message ← ReadString;
          mret {| lresp_status := status; lresp_name := name; lresp_message := message |})
    (fun m => str_enc (lresp_status m) ++ str_enc (lresp_name m) ++ str_enc (lresp_message m) ++ [])
    (fun m => True /\ str_fits (lresp_status m) /\ str_fits (lresp_name m) /\
              str_fits (lresp_message m) /\ True).
Proof.
  parse_field lresp_status. parse_field lresp_name. parse_field lresp_message. parse_done.
Qed.

Lemma RegisterProxyMessage_fields :
  parses (name ← ReadString; type ← ReadString; port ← ReadUint16;
          domains ← ReadStringVector; limit ← ReadInt64;
          mret {| rp_name := name; rp_type := type; rp_remote_port := port;
                  rp_custom_domains := domains; rp_bandwidth_limit := limit |})
    (fun m => str_enc (rp_name m) ++ str_enc (rp_type m) ++ be_bytes 2 (rp_remote_port m) ++
              vec_enc (rp_custom_domains m) ++
              int64_enc (rp_bandwidth_limit m) ++ [])
    (fun m => True /\ str_fits (rp_name m) /\ str_fits (rp_type m) /\
              uint16_fits (rp_remote_port m) /\ vec_fits (rp_custom_domains m) /\
              int64_fits (rp_bandwidth_limit m) /\ True).
Proof.
  parse_field rp_name. parse_field rp_type. parse_field rp_remote_port.
  parse_field rp_custom_domains. parse_field rp_bandwidth_limit. parse_done.
Qed.

Lemma RegisterProxyRespMessage_fields :
  parses (status ← ReadString; name ← ReadString; message ← ReadString;
          mret {| rresp_status := status; rresp_name := name; rresp_message := message |})
    (fun m => str_enc (rresp_status m) ++ str_enc (rresp_name m) ++ str_enc (rresp_message m) ++ [])
    (fun m => True /\ str_fits (rresp_status m) /\ str_fits (rresp_name m) /\
              str_fits (rresp_message m) /\ True).
Proof.
  parse_field rresp_status. parse_field rresp_name. parse_field rresp_message. parse_done.
Qed.

Lemma NewUserConnMessage_fields :
  parses (proxy_name ← ReadString; ticket ← ReadString;
          mret {| nuc_proxy_name := proxy_name; nuc_ticket := ticket |})
    (fun m => str_enc (nuc_proxy_name m) ++ str_enc (nuc_ticket m) ++ [])
    (fun m => True /\ str_fits (nuc_proxy_name m) /\ str_fits (nuc_ticket m) /\ True).
Proof. parse_field nuc_proxy_name. parse_field nuc_ticket. parse_done. Qed.

Lemma UnregisterProxyMessage_fields :
  parses (name ← ReadString; mret {| up_name := name |})
    (fun m => str_enc (up_name m) ++ []) (fun m => True /\ str_fits (up_name m) /\ True).
Proof. parse_field up_name. parse_done. Qed.

#[export] Instance LoginMessage_laws : WireLaws LoginMessage.
Proof. wire_law LoginMessage_fields. Qed.
#[export] Instance LoginRespMessage_laws : WireLaws LoginRespMessage.
Proof. wire_law LoginRespMessage_fields. Qed.
#[export] Instance RegisterProxyMessage_laws : WireLaws RegisterProxyMessage.
Proof. wire_law RegisterProxyMessage_fields. Qed.
#[export] Instance RegisterProxyRespMessage_laws : WireLaws RegisterProxyRespMessage.
Proof. wire_law RegisterProxyRespMessage_fields. Qed.
#[export] Instance NewUserConnMessage_laws : WireLaws NewUserConnMessage.
Proof. wire_law NewUserConnMessage_fields. Qed.
#[export] Instance UnregisterProxyMessage_laws : WireLaws UnregisterProxyMessage.
Proof. wire_law UnregisterProxyMessage_fields. Qed.

Lemma deserialize_serialize {A} `{WireLaws A} (m : A) :
  wire_wf m -> Deserialize (Serialize m) = Ok m.
Proof. intros Hm. apply deserialize_iff. split; [done|]. exists []. by rewrite app_nil_r. Qed.

Lemma message_type_of_code t :
  match t with OtherType n => 8 <= n < 256 | _ => True end ->
  message_type_of (byte_to_Z (byte_of_Z (message_type_code t))) = t.
Proof.
  destruct t; intros Ht; try reflexivity. cbn [message_type_code].
  rewrite byte_to_of_Z_small by lia. destruct n as [|p|p]; [lia| |lia].
  destruct p as [[[p|p|]|[p|p|]|]|[[p|p|]|[p|p|]|]|]; try lia; reflexivity.
Qed.

Lemma decode_encode msg :
  match msg_type msg with OtherType n => 8 <= n < 256 | _ => True end ->
  Decode (Encode msg) = Ok msg.
Proof.
  intros Ht. destruct msg as [t b]; cbn in *. by rewrite message_type_of_code.
Qed.

(** ** Properties *)

(** C1 every message class survives the trip through its envelope: encoding a
    typed message, decoding the envelope and deserialising the body by the
    decoded type gives the message back, for all field values that fit their
    16-bit lengths, ports and 64-bit limits. *)
Theorem control_message_roundtrip (c : control_message) :
  control_wf c -> (Decode (Encode (control_envelope c)) ≫= control_parse) = Ok c.
Proof.
  intros Hc. rewrite decode_encode.
  - unfold mbind, result_mbind, result_bind, control_parse.
    destruct c; cbn [control_envelope msg_type msg_body control_wf] in *;
      try (by rewrite deserialize_serialize); by destruct t.
  - destruct c; cbn [control_envelope msg_type control_wf] in *; try done. by destruct t.
Qed.

Definition sample_register : RegisterProxyMessage :=
  {| rp_name := "web"; rp_type := "http"; rp_remote_port := 8080;
     rp_custom_domains := ["a.example.com"; "b.example.com"];
     rp_bandwidth_limit := -5 |}.

Lemma control_message_roundtrip_witness :
  (Decode (Encode (control_envelope (CRegisterProxy sample_register))) ≫= control_parse)
  = Ok (CRegisterProxy sample_register).
Proof.
  apply (control_message_roundtrip (CRegisterProxy sample_register)).
  unfold control_wf, wire_wf, RegisterProxyMessage_wire, str_fits, uint16_fits, vec_fits, int64_fits.
  split_and!; try (repeat constructor); try reflexivity; discriminate.
Defined.

(** the [RegisterProxy] parser accepts a buffer with message [m] exactly
    when the buffer starts with the serialisation of [m] and the fields of [m]
    fit: no other byte string is read as [m], and a truncated one is refused. *)
Theorem register_proxy_deserialize_iff (data : list byte) (m : RegisterProxyMessage) :
  RegisterProxyMessage_Deserialize data = Ok m <->
  (str_fits (rp_name m) /\ str_fits (rp_type m) /\ uint16_fits (rp_remote_port m) /\
   vec_fits (rp_custom_domains m) /\ int64_fits (rp_bandwidth_limit m)) /\
  exists rest, data = RegisterProxyMessage_Serialize m ++ rest.
Proof. exact (deserialize_iff (A := RegisterProxyMessage) data m). Qed.

(** The length prefix of a string is its size modulo 65536 while all its
    bytes are appended: reading back an oversized string yields only the first
    [size mod 65536] bytes, and the reader stops inside the string. *)
Theorem write_string_truncates (s : string) :
  let n := zlen (bytes_of s) mod 2 ^ 16 in
  ReadString {| reader_data := WriteString s []; reader_pos := 0 |} =
  Ok (string_of (ztake n (bytes_of s)),
      {| reader_data := WriteString s []; reader_pos := 2 + n |}).
Proof.
  intros n. set (t := string_of (ztake n (bytes_of s))).
  pose proof (zlen_nonneg (bytes_of s)) as Hs.
  assert (Hn : 0 <= n < 2 ^ 16 /\ n <= zlen (bytes_of s)) by (unfold n; Z.div_mod_to_equations; lia).
  assert (Ht : zlen (bytes_of t) = n).
  { unfold t. rewrite bytes_of_string_of, zlen_ztake; lia. }
  apply parses_string; [cbn; zsize|]. unfold str_fits. split; [lia|]. cbn [reader_data reader_pos].
  split.
  - exists (zdrop n (bytes_of s)). rewrite zdrop_0. unfold WriteString, WriteUint16, AppendBytes, str_enc.
    rewrite Ht, app_nil_l. unfold t. rewrite bytes_of_string_of, <- app_assoc, ztake_drop. done.
  - f_equal. unfold str_enc. rewrite zlen_app, zlen_be_bytes, Ht. lia.
Qed.
