(* ===== verification/Zstd.v ===== *)
(** * Zstandard, as the program uses it (src/common/zstd_utils.h)

    The compressor is the library's: a class of the three calls the program
    makes, a class of the laws its documentation states, and one small
    compressor that satisfies them, on which concrete runs are evaluated. *)
From Stdlib Require Import ZArith Lia Strings.Byte.
From stdpp Require Import base tactics list.
From S2P Require Import Prelude.
Local Open Scope Z_scope.

(** ** Zstandard *)
Class Zstd : Type := {
  (** [ZSTD_compressCCtx] at a level, [None] for an error code. *)
  compress : Z -> list byte -> option (list byte);
  (** [ZSTD_getFrameContentSize], [None] for ERROR or UNKNOWN. *)
  frame_content_size : list byte -> option Z;
  (** [ZSTD_decompressDCtx] into a buffer of the given capacity. *)
  decompress : Z -> list byte -> option (list byte)
}.
Class ZstdLaws `{Zstd} : Prop := {
  content_size_compress : forall level x c, compress level x = Some c ->
    frame_content_size c = Some (zlen x);
  decompress_compress : forall level x c, compress level x = Some c ->
    decompress (zlen x) c = Some x;
  decompress_fits : forall cap c x, decompress cap c = Some x -> zlen x <= cap
}.

(** ** A concrete compressor: run lengths of a single byte *)
Definition all_equal (b : byte) (x : list byte) : bool := forallb (fun c => bool_decide (c = b)) x.
Definition rle_zstd : Zstd := {|
  compress := fun _ x =>
    match x with
    | b :: _ => if all_equal b x && (zlen x <? 2 ^ 32) then Some (be_bytes 4 (zlen x) ++ [b]) else None
    | [] => None
    end;
  frame_content_size := fun c => if zlen c =? 5 then Some (be_val (ztake 4 c)) else None;
  decompress := fun cap c =>
    if (zlen c =? 5) && (be_val (ztake 4 c) <=? cap)
    then Some (repeat (nth 4 c Byte.x00) (Z.to_nat (be_val (ztake 4 c)))) else None |}.

#[local] Existing Instance rle_zstd.

Lemma all_equal_repeat b x : all_equal b x = true -> x = repeat b (length x).
Proof.
  induction x as [|c x IH]; cbn; [done|]. intros H. apply andb_true_iff in H as [H1 H2].
  apply bool_decide_eq_true in H1 as ->. f_equal. by apply IH.
Qed.

Lemma rle_laws : @ZstdLaws rle_zstd.
Proof.
  assert (Hshape : forall level x c, compress level x = Some c ->
    exists b, c = be_bytes 4 (zlen x) ++ [b] /\ x = repeat b (length x) /\ be_val (ztake 4 c) = zlen x).
  { intros level x c Hc. cbn in Hc. destruct x as [|b x]; [done|].
    destruct (all_equal b (b :: x) && _) eqn:E; [|done]. apply andb_true_iff in E as [E1 E2].
    bool_hyps. injection Hc as <-. exists b. split; [done|]. split; [by apply all_equal_repeat|].
    change (ztake 4 _) with (be_bytes 4 (zlen (b :: x))). apply be_val_bytes_small.
    split; [apply zlen_nonneg|exact E2]. }
  split.
  - intros level x c Hc. destruct (Hshape level x c Hc) as (b & Hc1 & Hx & Hv).
    cbn [frame_content_size rle_zstd]. rewrite Hv. by rewrite Hc1.
  - intros level x c Hc. destruct (Hshape level x c Hc) as (b & Hc1 & Hx & Hv).
    cbn [decompress rle_zstd]. rewrite Hv, Z.leb_refl, Hc1. cbn -[zlen repeat].
    f_equal. rewrite Hx at 2. unfold zlen. by rewrite Nat2Z.id.
  - intros cap c x Hd. cbn [decompress rle_zstd] in Hd. destruct (_ && _) eqn:E; [|done].
    apply andb_true_iff in E as [_ E]. bool_hyps. injection Hd as <-. unfold zlen.
    rewrite repeat_length. pose proof (be_val_range (ztake 4 c)). lia.
Qed.
