(* ===== verification/MuxFrame.v ===== *)
(** * Multiplexer frame headers (src/common/mux.h, mux.cpp: Header)

    Frame types and flags, the 12-byte header and its wire form. *)
From Stdlib Require Import ZArith Lia Strings.Byte.
From stdpp Require Import base tactics list.
From S2P Require Import Prelude.
Local Open Scope Z_scope.

(** [enum class Type] and [struct Flags] *)
Inductive FrameType : Type := Data | WindowUpdate | Ping | GoAway.
Definition frame_type_code (t : FrameType) : Z :=
  match t with Data => 0x0 | WindowUpdate => 0x1 | Ping => 0x2 | GoAway => 0x3 end.

Definition SYN : Z := 0x1.
Definition ACK : Z := 0x2.
Definition FIN : Z := 0x4.
Definition RST : Z := 0x8.
(** [h.flags & f], as a condition *)
Definition has_flag (flags f : Z) : bool := negb (Z.land flags f =? 0).

Record Header : Type := {
  version : Z;    (* uint8_t *)
  type : Z;       (* uint8_t *)
  flags : Z;      (* uint16_t *)
  stream_id : Z;  (* uint32_t *)
  length_ : Z     (* uint32_t *)
}.

Definition header_size : Z := 12.

#[export] Instance Header_eq_dec : EqDecision Header.
Proof. solve_decision. Defined.

(** [Header::encode] writes the 12 bytes of [buf]. *)
Definition encode (h : Header) : list byte :=
  byte_of_Z (version h) :: byte_of_Z (type h) ::
  be_bytes 2 (flags h) ++ be_bytes 4 (stream_id h) ++ be_bytes 4 (length_ h).

(** [Header::decode] reads the first 12 bytes of [buf]. *)
Definition decode (buf : list byte) : Header := {|
  version := byte_to_Z (nth 0 buf Byte.x00);
  type := byte_to_Z (nth 1 buf Byte.x00);
  flags := be_val (ztake 2 (zdrop 2 buf));
  stream_id := be_val (ztake 4 (zdrop 4 buf));
  length_ := be_val (ztake 4 (zdrop 8 buf))
|}.

(** The header a sender fills in field by field. *)
Definition mk_header (t : FrameType) (fl id len : Z) : Header :=
  {| version := 0; type := frame_type_code t; flags := fl; stream_id := id; length_ := len |}.

Definition header_wf (h : Header) : Prop :=
  0 <= version h < 2 ^ 8 /\ 0 <= type h < 2 ^ 8 /\ 0 <= flags h < 2 ^ 16 /\
  0 <= stream_id h < 2 ^ 32 /\ 0 <= length_ h < 2 ^ 32.

(** ** Lemmas *)
Lemma zlen_encode h : zlen (encode h) = header_size.
Proof. done. Qed.

Lemma encode_take4 h :
  ztake 2 (zdrop 2 (encode h)) = be_bytes 2 (flags h) /\
  ztake 4 (zdrop 4 (encode h)) = be_bytes 4 (stream_id h) /\
  ztake 4 (zdrop 8 (encode h)) = be_bytes 4 (length_ h).
Proof. done. Qed.

Lemma header_decode_encode_app h rest : header_wf h -> decode (encode h ++ rest) = h.
Proof.
  intros (Hv & Ht & Hf & Hs & Hl). destruct h as [v t f s l]; cbn in *.
  unfold decode. f_equal.
  - cbn. by apply byte_to_of_Z_small.
  - cbn. by apply byte_to_of_Z_small.
  - change (be_val (be_bytes 2 f) = f). by apply be_val_bytes_small.
  - change (be_val (be_bytes 4 s) = s). by apply be_val_bytes_small.
  - change (be_val (be_bytes 4 l) = l). by apply be_val_bytes_small.
Qed.

Lemma header_decode_encode h : header_wf h -> decode (encode h) = h.
Proof. intros. rewrite <- (app_nil_r (encode h)). by apply header_decode_encode_app. Qed.

Lemma decode_wf buf : header_wf (decode buf).
Proof.
  assert (Hr : forall n l, 0 <= be_val (ztake (Z.of_nat n) l) < 2 ^ (8 * Z.of_nat n)).
  { intros n l. pose proof (be_val_range (ztake (Z.of_nat n) l)) as [H1 H2].
    split; [done|]. eapply Z.lt_le_trans; [exact H2|]. apply Z.pow_le_mono_r; [lia|].
    unfold ztake. rewrite length_take. lia. }
  unfold header_wf, decode; cbn [version type flags stream_id length_].
  change (2 ^ 8) with 256.
  split; [apply byte_to_Z_range|]. split; [apply byte_to_Z_range|].
  split; [apply (Hr 2%nat)|]. split; apply (Hr 4%nat).
Qed.

Lemma encode_decode buf : zlen buf = header_size -> encode (decode buf) = buf.
Proof.
  intros Hlen. unfold zlen, header_size in Hlen.
  do 12 (destruct buf as [|? buf]; [cbn in Hlen; lia|]).
  destruct buf; [|cbn [length] in Hlen; lia].
  unfold encode, decode. cbn [version type flags stream_id length_ nth].
  rewrite !byte_of_to_Z.
  pose proof (be_bytes_val [b1; b2]) as E1. pose proof (be_bytes_val [b3; b4; b5; b6]) as E2.
  pose proof (be_bytes_val [b7; b8; b9; b10]) as E3. cbn [length] in E1, E2, E3.
  repeat match goal with |- context [be_val ?x] =>
    let y := eval cbv in x in progress change x with y end.
  by rewrite E1, E2, E3.
Qed.

Lemma mk_header_wf t fl id len :
  0 <= fl < 2 ^ 16 -> 0 <= id < 2 ^ 32 -> 0 <= len < 2 ^ 32 -> header_wf (mk_header t fl id len).
Proof. intros. unfold header_wf, mk_header; cbn. destruct t; cbn; lia. Qed.

(** ** Property *)

(** the header codec is a bijection between headers whose fields fit their
    widths and 12-byte buffers: decoding an encoded header gives it back, and
    encoding a decoded buffer gives the same 12 bytes. *)
Theorem header_codec_bijection (h : Header) (buf : list byte) :
  (header_wf h -> zlen (encode h) = header_size /\ decode (encode h) = h) /\
  (zlen buf = header_size -> header_wf (decode buf) /\ encode (decode buf) = buf).
Proof.
  split; intros H.
  - split; [apply zlen_encode|by apply header_decode_encode].
  - split; [apply decode_wf|by apply encode_decode].
Qed.

Lemma header_codec_bijection_witness :
  (let h := mk_header Data SYN 7 300 in zlen (encode h) = header_size /\ decode (encode h) = h) /\
  encode (decode (encode (mk_header Ping ACK 0 0))) = encode (mk_header Ping ACK 0 0).
Proof.
  split.
  - apply (proj1 (header_codec_bijection (mk_header Data SYN 7 300) [])).
    apply mk_header_wf; unfold SYN; lia.
  - apply (proj2 (header_codec_bijection (mk_header Ping ACK 0 0) (encode (mk_header Ping ACK 0 0)))).
    reflexivity.
Defined.
