(* ===== verification/MuxStream.v ===== *)
(** * A multiplexed stream (src/common/mux.cpp: MuxStream)

    The state of a [MuxStream] with its operations as they run on the stream's
    strand: each takes the state and returns the new state with the actions it
    performs, in order.  Posted completion handlers are identified by numbers;
    the bytes a read handler finds in its buffer are part of its action.

    [session_.lock()] is the boolean [sess]: whether the session object is still
    alive.  An operation that would make [memcpy] read outside a received block
    returns [None]. *)
From Stdlib Require Import ZArith Lia Strings.Byte Permutation.
From stdpp Require Import base tactics list.
From S2P Require Import Prelude Protocol MuxFrame.
Local Open Scope Z_scope.

Definition kMuxStreamMaxPendingReads : Z := 1024.
Definition kMuxStreamMaxPendingWrites : Z := 1024.

(** ** State *)
Record PendingRead : Type := { pr_size : Z; pr_handler : nat; pr_read_all : bool }.
Record PendingWrite : Type := { pw_buffers : list (list byte); pw_handler : nat }.

Record MuxStream : Type := {
  id_ : Z;
  local_window_size_ : Z;
  remote_window_size_ : Z;
  consumed_since_last_update_ : Z;
  read_queue_ : list (list byte);
  read_queue_offset_ : Z;
  pending_reads_ : list PendingRead;
  pending_writes_ : list PendingWrite;
  local_closed_ : bool;
  remote_closed_ : bool
}.

Definition new_mux_stream (id : Z) : MuxStream := {|
  id_ := id; local_window_size_ := 128 * 1024; remote_window_size_ := 128 * 1024;
  consumed_since_last_update_ := 0; read_queue_ := []; read_queue_offset_ := 0;
  pending_reads_ := []; pending_writes_ := []; local_closed_ := false; remote_closed_ := false |}.

(** Field updates. *)
Definition set_remote_window (w : Z) (st : MuxStream) : MuxStream := {|
  id_ := id_ st; local_window_size_ := local_window_size_ st; remote_window_size_ := w;
  consumed_since_last_update_ := consumed_since_last_update_ st;
  read_queue_ := read_queue_ st; read_queue_offset_ := read_queue_offset_ st;
  pending_reads_ := pending_reads_ st; pending_writes_ := pending_writes_ st;
  local_closed_ := local_closed_ st; remote_closed_ := remote_closed_ st |}.
Definition set_consumed (c : Z) (st : MuxStream) : MuxStream := {|
  id_ := id_ st; local_window_size_ := local_window_size_ st;
  remote_window_size_ := remote_window_size_ st; consumed_since_last_update_ := c;
  read_queue_ := read_queue_ st; read_queue_offset_ := read_queue_offset_ st;
  pending_reads_ := pending_reads_ st; pending_writes_ := pending_writes_ st;
  local_closed_ := local_closed_ st; remote_closed_ := remote_closed_ st |}.
Definition set_read_queue (q : list (list byte)) (off : Z) (st : MuxStream) : MuxStream := {|
  id_ := id_ st; local_window_size_ := local_window_size_ st;
  remote_window_size_ := remote_window_size_ st;
  consumed_since_last_update_ := consumed_since_last_update_ st;
  read_queue_ := q; read_queue_offset_ := off;
  pending_reads_ := pending_reads_ st; pending_writes_ := pending_writes_ st;
  local_closed_ := local_closed_ st; remote_closed_ := remote_closed_ st |}.
Definition set_pending_reads (prs : list PendingRead) (st : MuxStream) : MuxStream := {|
  id_ := id_ st; local_window_size_ := local_window_size_ st;
  remote_window_size_ := remote_window_size_ st;
  consumed_since_last_update_ := consumed_since_last_update_ st;
  read_queue_ := read_queue_ st; read_queue_offset_ := read_queue_offset_ st;
  pending_reads_ := prs; pending_writes_ := pending_writes_ st;
  local_closed_ := local_closed_ st; remote_closed_ := remote_closed_ st |}.
Definition set_pending_writes (pws : list PendingWrite) (st : MuxStream) : MuxStream := {|
  id_ := id_ st; local_window_size_ := local_window_size_ st;
  remote_window_size_ := remote_window_size_ st;
  consumed_since_last_update_ := consumed_since_last_update_ st;
  read_queue_ := read_queue_ st; read_queue_offset_ := read_queue_offset_ st;
  pending_reads_ := pending_reads_ st; pending_writes_ := pws;
  local_closed_ := local_closed_ st; remote_closed_ := remote_closed_ st |}.
Definition set_closed (loc rem : bool) (st : MuxStream) : MuxStream := {|
  id_ := id_ st; local_window_size_ := local_window_size_ st;
  remote_window_size_ := remote_window_size_ st;
  consumed_since_last_update_ := consumed_since_last_update_ st;
  read_queue_ := read_queue_ st; read_queue_offset_ := read_queue_offset_ st;
  pending_reads_ := pending_reads_ st; pending_writes_ := pending_writes_ st;
  local_closed_ := loc; remote_closed_ := rem |}.

(** ** Actions *)
(** The completion handler attached to a frame handed to the session. *)
Inductive completion : Type :=
| on_none
| on_partial                      (* fail every pending write on error *)
| on_full (h : nat) (to_send : Z). (* complete the write [h] *)

Inductive action : Type :=
| post_read (h : nat) (ec : error_code) (data : list byte)
| post_write (h : nat) (ec : error_code) (n : Z)
| send_frame (hdr : Header) (bodies : list (list byte)) (c : completion)
| remove_stream (id : Z).

(** ** Reading *)
Definition total_size (bufs : list (list byte)) : Z := foldr (fun b n => zlen b + n) 0 bufs.

(** [a - b] on [size_t]. *)
Definition size_sub (a b : Z) : Z := wrap 64 (a - b).

(** The inner copying loop of [do_read_from_buffer], over the front blocks of
    the queue; when a block is left partly read the buffer is full, so the
    loop condition fails and the loop ends there. *)
Fixpoint copy_blocks (q : list (list byte)) (off remaining : Z) (copied : list byte)
  : option (list (list byte) * Z * list byte) :=
  match q with
  | [] => Some ([], off, copied)
  | block :: q' =>
    if remaining <=? 0 then Some (q, off, copied) else
    let vec_available := size_sub (zlen block) off in
    let to_copy := Z.min remaining vec_available in
    if zlen block <? off + to_copy then None else
    let copied' := copied ++ ztake to_copy (zdrop off block) in
    if off + to_copy =? zlen block then copy_blocks q' 0 (remaining - to_copy) copied'
    else Some (q, off + to_copy, copied')
  end.

(** The window update sent once 32 KiB have been consumed. *)
Definition account_consumed (sess : bool) (n : Z) (st : MuxStream) : MuxStream * list action :=
  let consumed := consumed_since_last_update_ st + n in
  if (32 * 1024 <=? consumed) && sess then
    (set_consumed 0 st,
     [send_frame (mk_header WindowUpdate 0 (id_ st) (wrap 32 consumed)) [] on_none])
  else (set_consumed consumed st, []).

Definition check_cleanup (sess : bool) (st : MuxStream) : list action :=
  if local_closed_ st && remote_closed_ st &&
     match read_queue_ st with [] => true | _ => false end && sess
  then [remove_stream (id_ st)] else [].

(** The outer loop of [do_read_from_buffer] over the pending reads. *)
Fixpoint read_loop (sess : bool) (prs : list PendingRead) (st : MuxStream)
  : option (MuxStream * list action) :=
  match prs with
  | [] => Some (set_pending_reads [] st, [])
  | pr :: prs' =>
    match read_queue_ st with
    | [] =>
      if remote_closed_ st then
        '(st', acts) ← read_loop sess prs' st;
        mret (st', post_read (pr_handler pr) ec_eof [] :: acts)
      else Some (set_pending_reads prs st, [])
    | q =>
      let available := size_sub (total_size q) (read_queue_offset_ st) in
      if pr_read_all pr && (available <? pr_size pr) && negb (remote_closed_ st)
      then Some (set_pending_reads prs st, [])
      else
        '(q', off', data) ← copy_blocks q (read_queue_offset_ st) (pr_size pr) [];
        let '(st1, upd) := account_consumed sess (zlen data) (set_read_queue q' off' st) in
        '(st', acts) ← read_loop sess prs' st1;
        mret (st', post_read (pr_handler pr) ec_ok data :: upd ++ acts)
    end
  end.

Definition do_read_from_buffer (sess : bool) (st : MuxStream) : option (MuxStream * list action) :=
  '(st', acts) ← read_loop sess (pending_reads_ st) st;
  mret (st', acts ++ check_cleanup sess st').

Definition async_read_some (sess : bool) (size : Z) (handler : nat) (st : MuxStream)
  : option (MuxStream * list action) :=
  if kMuxStreamMaxPendingReads <=? zlen (pending_reads_ st)
  then Some (st, [post_read handler ec_no_buffer_space []])
  else do_read_from_buffer sess (set_pending_reads (pending_reads_ st ++
         [{| pr_size := size; pr_handler := handler; pr_read_all := false |}]) st).

Definition async_read (sess : bool) (size : Z) (handler : nat) (st : MuxStream)
  : option (MuxStream * list action) :=
  if kMuxStreamMaxPendingReads <=? zlen (pending_reads_ st)
  then Some (st, [post_read handler ec_no_buffer_space []])
  else do_read_from_buffer sess (set_pending_reads (pending_reads_ st ++
         [{| pr_size := size; pr_handler := handler; pr_read_all := true |}]) st).

(** ** Writing *)
(** The buffers cut to the first [remaining] bytes. *)
Fixpoint slice_buffers (remaining : Z) (bufs : list (list byte)) : list (list byte) :=
  match bufs with
  | [] => []
  | b :: bs =>
    if remaining =? 0 then [] else
    let n := Z.min remaining (zlen b) in
    ztake n b :: slice_buffers (remaining - n) bs
  end.

(** The buffers after the first [skipped] bytes. *)
Fixpoint skip_buffers (skipped : Z) (bufs : list (list byte)) : list (list byte) :=
  match bufs with
  | [] => []
  | b :: bs =>
    if zlen b <=? skipped then skip_buffers (skipped - zlen b) bs
    else zdrop skipped b :: skip_buffers 0 bs
  end.

(** The loop of [do_write]; [do_write_fuel] bounds its iterations. *)
Fixpoint do_write_loop (fuel : nat) (sess : bool) (st : MuxStream) : MuxStream * list action :=
  match fuel with
  | O => (st, [])
  | S fuel' =>
    match pending_writes_ st with
    | [] => (st, [])
    | pw :: pws =>
      if remote_window_size_ st <=? 0 then (st, []) else
      let total_length := total_size (pw_buffers pw) in
      if total_length =? 0 then
        let '(st', acts) := do_write_loop fuel' sess (set_pending_writes pws st) in
        (st', post_write (pw_handler pw) ec_ok 0 :: acts)
      else
      let to_send := Z.min (Z.min total_length (remote_window_size_ st)) MAX_MESSAGE_SIZE in
      if negb sess then
        let '(st', acts) := do_write_loop fuel' sess (set_pending_writes pws st) in
        (st', post_write (pw_handler pw) ec_connection_reset 0 :: acts)
      else
      let h := mk_header Data 0 (id_ st) (wrap 32 to_send) in
      let sliced := slice_buffers to_send (pw_buffers pw) in
      let st1 := set_remote_window (remote_window_size_ st - to_send) st in
      if to_send <? total_length then
        let next := {| pw_buffers := skip_buffers to_send (pw_buffers pw);
                       pw_handler := pw_handler pw |} in
        let '(st', acts) := do_write_loop fuel' sess (set_pending_writes (next :: pws) st1) in
        (st', send_frame h sliced on_partial :: acts)
      else
        let '(st', acts) := do_write_loop fuel' sess (set_pending_writes pws st1) in
        (st', send_frame h sliced (on_full (pw_handler pw) to_send) :: acts)
    end
  end.

Definition do_write_fuel (st : MuxStream) : nat :=
  S (length (pending_writes_ st) + Z.to_nat (remote_window_size_ st / MAX_MESSAGE_SIZE)).
Definition do_write (sess : bool) (st : MuxStream) : MuxStream * list action :=
  do_write_loop (do_write_fuel st) sess st.

Definition async_write_bufs (sess : bool) (buffers : list (list byte)) (handler : nat)
    (st : MuxStream) : MuxStream * list action :=
  if kMuxStreamMaxPendingWrites <=? zlen (pending_writes_ st)
  then (st, [post_write handler ec_no_buffer_space 0])
  else do_write sess (set_pending_writes (pending_writes_ st ++
         [{| pw_buffers := buffers; pw_handler := handler |}]) st).

Definition async_write (sess : bool) (buffer : list byte) (handler : nat) (st : MuxStream)
  : MuxStream * list action :=
  if kMuxStreamMaxPendingWrites <=? zlen (pending_writes_ st)
  then (st, [post_write handler ec_no_buffer_space 0])
  else do_write sess (set_pending_writes (pending_writes_ st ++
         [{| pw_buffers := [buffer]; pw_handler := handler |}]) st).

(** The session reports the outcome of a frame. *)
Definition on_send_done (c : completion) (ec : error_code) (st : MuxStream)
  : MuxStream * list action :=
  match c with
  | on_none => (st, [])
  | on_partial =>
    if decide (ec = ec_ok) then (st, [])
    else (set_pending_writes [] st,
          map (fun pw => post_write (pw_handler pw) ec 0) (pending_writes_ st))
  | on_full h to_send => (st, [post_write h ec (if decide (ec = ec_ok) then to_send else 0)])
  end.

(** ** Closing *)
Definition close (sess : bool) (st : MuxStream) : MuxStream * list action :=
  if local_closed_ st then (st, []) else
  let fin := if sess then [send_frame (mk_header Data FIN (id_ st) 0) [] on_none] else [] in
  let st' := set_closed true (remote_closed_ st)
               (set_read_queue [] (read_queue_offset_ st)
                  (set_pending_writes [] (set_pending_reads [] st))) in
  (st', fin
        ++ map (fun pr => post_read (pr_handler pr) ec_operation_aborted []) (pending_reads_ st)
        ++ map (fun pw => post_write (pw_handler pw) ec_operation_aborted 0) (pending_writes_ st)
        ++ check_cleanup sess st').

(** The destructor. *)
Definition destroy (st : MuxStream) : MuxStream * list action :=
  (set_closed true (remote_closed_ st) (set_pending_writes [] (set_pending_reads [] st)),
   map (fun pr => post_read (pr_handler pr) ec_operation_aborted []) (pending_reads_ st)
   ++ map (fun pw => post_write (pw_handler pw) ec_operation_aborted 0) (pending_writes_ st)).

(** ** Events from the session *)
Definition handle_data (sess : bool) (data : list byte) (st : MuxStream)
  : option (MuxStream * list action) :=
  do_read_from_buffer sess (set_read_queue (read_queue_ st ++ [data]) (read_queue_offset_ st) st).

Definition handle_window_update (sess : bool) (delta : Z) (st : MuxStream)
  : MuxStream * list action :=
  do_write sess (set_remote_window (Z.min (remote_window_size_ st + delta) MAX_MESSAGE_SIZE) st).

Definition handle_close (sess : bool) (st : MuxStream) : option (MuxStream * list action) :=
  '(st', acts) ← do_read_from_buffer sess (set_closed (local_closed_ st) true st);
  mret (st', acts ++ check_cleanup sess st').

(** ** Specification of reading: a byte queue served in order *)
(** The received bytes that no read has consumed yet. *)
Definition unread (st : MuxStream) : list byte :=
  zdrop (read_queue_offset_ st) (concat (read_queue_ st)).

(** The queue as the operations keep it: no empty block, and the offset inside
    the front block. *)
Definition queue_ok (st : MuxStream) : Prop :=
  Forall (fun b => b <> []) (read_queue_ st) /\
  match read_queue_ st with
  | [] => read_queue_offset_ st = 0
  | b :: _ => 0 <= read_queue_offset_ st < zlen b
  end /\
  zlen (concat (read_queue_ st)) < 2 ^ 64.

(** Serving a list of reads from a string of bytes: what is posted, which reads
    still wait, which bytes remain. *)
Fixpoint serve (closed : bool) (prs : list PendingRead) (bytes : list byte)
  : list (nat * error_code * list byte) * list PendingRead * list byte :=
  match prs with
  | [] => ([], [], bytes)
  | pr :: prs' =>
    match bytes with
    | [] => if closed then
              let '(out, rest, bs) := serve closed prs' [] in
              ((pr_handler pr, ec_eof, []) :: out, rest, bs)
            else ([], prs, bytes)
    | _ =>
      if pr_read_all pr && (zlen bytes <? pr_size pr) && negb closed then ([], prs, bytes)
      else let '(out, rest, bs) := serve closed prs' (zdrop (pr_size pr) bytes) in
           ((pr_handler pr, ec_ok, ztake (pr_size pr) bytes) :: out, rest, bs)
    end
  end.

(** What a list of actions posts to read handlers, sends as data bytes, and
    grants to the peer as window. *)
Definition read_posts (acts : list action) : list (nat * error_code * list byte) :=
  omap (fun a => match a with post_read h ec d => Some (h, ec, d) | _ => None end) acts.
Definition is_data (h : Header) : bool := type h =? frame_type_code Data.
Definition is_update (h : Header) : bool := type h =? frame_type_code WindowUpdate.
Definition sent_data (acts : list action) : list byte :=
  concat (map (fun a => match a with
                        | send_frame h bodies _ => if is_data h then concat bodies else []
                        | _ => [] end) acts).
Fixpoint granted (acts : list action) : Z :=
  match acts with
  | [] => 0
  | send_frame h _ _ :: acts' => (if is_update h then length_ h else 0) + granted acts'
  | _ :: acts' => granted acts'
  end.
(** The write handlers an action settles, in order: a posted one, or one that
    travels with the last frame of its write. *)
Definition settled (acts : list action) : list nat :=
  omap (fun a => match a with
                 | post_write h _ _ | send_frame _ _ (on_full h _) => Some h
                 | _ => None end) acts.

Definition delivered (acts : list action) : list byte :=
  concat (map (fun '(_, _, d) => d) (read_posts acts)).
Definition reads_sized (prs : list PendingRead) : Prop := Forall (fun pr => 0 <= pr_size pr) prs.

(** The bytes of the pending writes, in the order they will be sent. *)
Definition unsent (st : MuxStream) : list byte :=
  concat (map (fun pw => concat (pw_buffers pw)) (pending_writes_ st)).

(** ** Lemmas on reading *)
Lemma total_size_concat q : total_size q = zlen (concat q).
Proof.
  induction q as [|b q IH]; [done|]. unfold total_size in *. cbn [foldr concat].
  rewrite IH. zsize.
Qed.

Definition blocks_ok (q : list (list byte)) (off : Z) : Prop :=
  Forall (fun b => b <> []) q /\
  match q with [] => off = 0 | b :: _ => 0 <= off < zlen b end /\
  zlen (concat q) < 2 ^ 64.

Lemma blocks_ok_nonneg q off : blocks_ok q off -> 0 <= off <= zlen (concat q).
Proof. intros (_ & H & _). destruct q; cbn in *; zsize. Qed.

Lemma size_sub_small a b : 0 <= a - b < 2 ^ 64 -> size_sub a b = a - b.
Proof. intros. unfold size_sub, wrap. by apply Z.mod_small. Qed.

Lemma blocks_ok_tail b q off : blocks_ok (b :: q) off -> blocks_ok q 0.
Proof.
  intros (Hne & _ & Hl). cbn in Hl. apply Forall_cons in Hne as [_ Hne].
  split; [done|]. split; [|zsize]. destruct q as [|b' q]; [done|].
  apply Forall_cons in Hne as [Hne _]. destruct b'; [done|]. zsize.
Qed.

Lemma copy_blocks_spec q off remaining copied :
  blocks_ok q off -> 0 <= remaining ->
  exists q' off',
    copy_blocks q off remaining copied =
      Some (q', off', copied ++ ztake remaining (zdrop off (concat q))) /\
    blocks_ok q' off' /\ q' `suffix_of` q /\
    zdrop off' (concat q') = zdrop remaining (zdrop off (concat q)).
Proof.
  revert off remaining copied. induction q as [|block q IH]; intros off rem copied Hok Hrem.
  - exists [], off. destruct Hok as (? & -> & ?). cbn.
    unfold ztake, zdrop. rewrite !drop_nil, take_nil, app_nil_r. done.
  - cbn [copy_blocks]. destruct (rem <=? 0) eqn:E; bool_hyps.
    { exists (block :: q), off. replace rem with 0 by lia. by rewrite ztake_0, zdrop_0, app_nil_r. }
    destruct (Hok) as (Hne & Hoff & Hlen). cbn [concat] in *.
    rewrite size_sub_small by zsize. rewrite zdrop_app_le by lia.
    pose proof (zlen_zdrop off block ltac:(lia)) as Hd.
    replace (zlen block <? off + Z.min rem (zlen block - off)) with false
      by (symmetry; apply Z.ltb_ge; lia).
    destruct (off + Z.min rem (zlen block - off) =? zlen block) eqn:E2; bool_hyps.
    + destruct (IH 0 (rem - Z.min rem (zlen block - off))
                 (copied ++ ztake (Z.min rem (zlen block - off)) (zdrop off block)))
        as (q' & off' & Heq & Hok' & Hsuf & Hrest); [by eapply blocks_ok_tail|lia|].
      exists q', off'. rewrite Heq, zdrop_0.
      split; [|split; [done|split; [by apply suffix_cons_r|]]].
      * rewrite (ztake_ge _ (zdrop off block)) by lia. rewrite ztake_app_ge by lia.
        rewrite <- app_assoc. repeat f_equal. lia.
      * rewrite Hrest, zdrop_0, zdrop_app_ge by lia. f_equal. lia.
    + replace (Z.min rem (zlen block - off)) with rem by lia.
      exists (block :: q), (off + rem). rewrite ztake_app_le by lia.
      split; [done|]. split; [split; [done|split; [lia|done]]|]. split; [done|].
      cbn [concat]. rewrite !zdrop_app_le by lia. by rewrite zdrop_zdrop by lia.
Qed.

(** [unread] is empty exactly when the queue is. *)
Lemma unread_nil st : queue_ok st -> (unread st = [] <-> read_queue_ st = []).
Proof.
  unfold unread. intros (Hne & Hoff & _). destruct (read_queue_ st) as [|b q]; cbn in *.
  - split; [done|]. intros _. unfold zdrop. apply drop_nil.
  - split; [|done]. intros H. apply (f_equal zlen) in H. rewrite zlen_zdrop in H by lia. zsize.
Qed.

Lemma available_unread st :
  queue_ok st -> size_sub (total_size (read_queue_ st)) (read_queue_offset_ st) = zlen (unread st).
Proof.
  intros Hok. pose proof (blocks_ok_nonneg _ _ Hok). destruct Hok as (_ & _ & Hl).
  unfold unread. rewrite total_size_concat, size_sub_small, zlen_zdrop by zsize. lia.
Qed.

(** Everything reading leaves alone. *)
Definition same_writer (st st' : MuxStream) : Prop :=
  id_ st' = id_ st /\ local_window_size_ st' = local_window_size_ st /\
  remote_window_size_ st' = remote_window_size_ st /\
  pending_writes_ st' = pending_writes_ st /\
  local_closed_ st' = local_closed_ st /\ remote_closed_ st' = remote_closed_ st.

(** What reading does to the consumption counter: every delivered byte is
    either granted back to the peer or still counted. *)
Definition credit_ok (sess : bool) (st st' : MuxStream) (acts : list action) : Prop :=
  0 <= consumed_since_last_update_ st ->
  consumed_since_last_update_ st + zlen (delivered acts) < 2 ^ 32 ->
  granted acts + consumed_since_last_update_ st' =
    consumed_since_last_update_ st + zlen (delivered acts) /\
  0 <= granted acts /\ 0 <= consumed_since_last_update_ st' /\
  (sess = true -> consumed_since_last_update_ st < 32768 -> consumed_since_last_update_ st' < 32768).

Lemma account_consumed_spec sess n st st' upd :
  account_consumed sess n st = (st', upd) ->
  same_writer st st' /\ read_queue_ st' = read_queue_ st /\
  read_queue_offset_ st' = read_queue_offset_ st /\ pending_reads_ st' = pending_reads_ st /\
  read_posts upd = [] /\ sent_data upd = [] /\ settled upd = [] /\
  (0 <= consumed_since_last_update_ st -> 0 <= n -> consumed_since_last_update_ st + n < 2 ^ 32 ->
   granted upd + consumed_since_last_update_ st' = consumed_since_last_update_ st + n /\
   0 <= granted upd /\ 0 <= consumed_since_last_update_ st' /\
   (sess = true -> consumed_since_last_update_ st' < 32768)).
Proof.
  unfold account_consumed, same_writer. intros H.
  destruct (32 * 1024 <=? _) eqn:E; destruct sess; cbn [andb] in H; injection H as <- <-;
    split_and!; try done; bool_hyps; cbn [consumed_since_last_update_ set_consumed];
    intros; cbn [granted]; try (cbn; split_and!; lia).
  change (is_update _) with true. cbn [length_ mk_header].
  unfold wrap. rewrite Z.mod_small by lia. lia.
Qed.

Lemma read_posts_app xs ys : read_posts (xs ++ ys) = read_posts xs ++ read_posts ys.
Proof. apply omap_app. Qed.
Lemma sent_data_app xs ys : sent_data (xs ++ ys) = sent_data xs ++ sent_data ys.
Proof. unfold sent_data. by rewrite map_app, concat_app. Qed.
Lemma granted_app xs ys : granted (xs ++ ys) = granted xs + granted ys.
Proof. induction xs as [|a xs IH]; cbn; [done|]. rewrite IH. destruct a; lia. Qed.
Lemma delivered_app xs ys : delivered (xs ++ ys) = delivered xs ++ delivered ys.
Proof. unfold delivered. by rewrite read_posts_app, map_app, concat_app. Qed.

Lemma settled_app xs ys : settled (xs ++ ys) = settled xs ++ settled ys.
Proof. apply omap_app. Qed.

Lemma check_cleanup_quiet sess st :
  read_posts (check_cleanup sess st) = [] /\ sent_data (check_cleanup sess st) = [] /\
  settled (check_cleanup sess st) = [] /\ granted (check_cleanup sess st) = 0.
Proof. unfold check_cleanup. by case_match. Qed.

Lemma same_writer_trans st1 st2 st3 :
  same_writer st1 st2 -> same_writer st2 st3 -> same_writer st1 st3.
Proof. unfold same_writer. intuition congruence. Qed.

Lemma serve_wait closed pr prs bytes :
  (bytes = [] /\ closed = false) \/
  (bytes <> [] /\ pr_read_all pr && (zlen bytes <? pr_size pr) && negb closed = true) ->
  serve closed (pr :: prs) bytes = ([], pr :: prs, bytes).
Proof. intros [[-> ->]|[H1 H2]]; [done|]. destruct bytes; [done|]. cbn [serve]. by rewrite H2. Qed.

Lemma serve_ready closed pr prs bytes :
  bytes <> [] -> pr_read_all pr && (zlen bytes <? pr_size pr) && negb closed = false ->
  serve closed (pr :: prs) bytes =
    (let '(out, rest, bs) := serve closed prs (zdrop (pr_size pr) bytes) in
     ((pr_handler pr, ec_ok, ztake (pr_size pr) bytes) :: out, rest, bs)).
Proof. intros H1 H2. destruct bytes; [done|]. cbn [serve]. by rewrite H2. Qed.

(** What one run of the outer loop establishes. *)
Definition read_post (sess : bool) (prs : list PendingRead) (st : MuxStream)
    (st' : MuxStream) (acts : list action) : Prop :=
  queue_ok st' /\ read_queue_ st' `suffix_of` read_queue_ st /\ same_writer st st' /\
  (read_posts acts, pending_reads_ st', unread st') = serve (remote_closed_ st) prs (unread st) /\
  sent_data acts = [] /\ settled acts = [] /\ credit_ok sess st st' acts.

Lemma read_post_stop sess prs prs' st out :
  queue_ok st -> serve (remote_closed_ st) prs (unread st) = ([], prs', unread st) ->
  out = (set_pending_reads prs' st, []) -> read_post sess prs st out.1 out.2.
Proof.
  intros Hok Hs ->. unfold read_post, same_writer, credit_ok. rewrite Hs.
  split_and!; try done. intros ? _.
  assert (Hd : zlen (delivered []) = 0) by done.
  cbn [fst snd granted set_pending_reads consumed_since_last_update_]. lia.
Qed.

Lemma read_loop_spec sess prs st :
  queue_ok st -> reads_sized prs ->
  exists st' acts, read_loop sess prs st = Some (st', acts) /\ read_post sess prs st st' acts.
Proof.
  revert st. induction prs as [|pr prs IH]; intros st Hok Hsz.
  - eexists _, _. split; [done|]. by apply (read_post_stop _ _ [] st (_, _)).
  - apply Forall_cons in Hsz as [Hpr Hsz]. cbn [read_loop].
    pose proof (unread_nil st Hok) as Hnil. pose proof (available_unread st Hok) as Hav.
    destruct (read_queue_ st) as [|b q] eqn:Eq.
    + assert (Hu : unread st = []) by tauto. destruct (remote_closed_ st) eqn:Erc.
      * destruct (IH st Hok Hsz) as (st' & acts & E & Hok' & Hsf & Hw & Hs & Hsd & Hst & Hc).
        rewrite E. eexists _, _. split; [done|]. unfold read_post.
        rewrite Hu, Erc in *. cbn [serve]. rewrite <- Hs. split_and!; try done; cbn; congruence.
      * eexists _, _. split; [done|]. apply (read_post_stop _ _ (pr :: prs) st (_, _)); try done.
        rewrite Hu, Erc. by apply serve_wait; left.
    + assert (Hu : unread st <> []) by (intros H; apply Hnil in H; done).
      rewrite Hav. destruct (pr_read_all pr && _ && _) eqn:Ecase.
      * eexists _, _. split; [done|]. apply (read_post_stop _ _ (pr :: prs) st (_, _)); try done.
        apply serve_wait. by right.
      * destruct (copy_blocks_spec (b :: q) (read_queue_offset_ st) (pr_size pr) [])
          as (q' & off' & Ecp & Hok1 & Hsf1 & Hrest); [rewrite <- Eq; exact Hok|done|].
        rewrite Ecp. rewrite app_nil_l in *.
        change (zdrop (read_queue_offset_ st) (concat (b :: q))) with
          (zdrop (read_queue_offset_ st) (concat (b :: q))) in Hrest.
        rewrite <- Eq in *. fold (unread st) in *. cbn [mbind option_bind].
        destruct (account_consumed _ _ _) as [st1 upd] eqn:Eacc.
        apply account_consumed_spec in Eacc as (Hw1 & Hq1 & Ho1 & Hp1 & Hrp1 & Hsd1 & Hst1 & Hc1).
        cbn in Hq1, Ho1, Hp1.
        assert (Hok1' : queue_ok st1) by (unfold queue_ok; rewrite Hq1, Ho1; exact Hok1).
        destruct (IH st1 Hok1' Hsz) as (st' & acts & E & Hok' & Hsf & Hw & Hs & Hsd & Hst & Hc).
        rewrite E. eexists _, _. split; [done|].
        unfold unread in Hs at 2. rewrite Hq1, Ho1, Hrest in Hs.
        assert (Erc : remote_closed_ st1 = remote_closed_ st) by (destruct Hw1; tauto).
        split_and!; [done| |by eapply same_writer_trans| | | |].
        -- etrans; [exact Hsf|]. by rewrite Hq1.
        -- rewrite serve_ready by done. rewrite Erc in Hs. rewrite <- Hs.
           cbn. by rewrite read_posts_app, Hrp1.
        -- cbn. change (sent_data (upd ++ acts) = []). by rewrite sent_data_app, Hsd1, Hsd.
        -- change (settled (upd ++ acts) = []). by rewrite settled_app, Hst1, Hst.
        -- intros Hc0. unfold delivered. cbn [read_posts omap list_omap].
           change (omap _ (upd ++ acts)) with (read_posts (upd ++ acts)).
           rewrite read_posts_app, Hrp1. cbn [app map concat]. fold (delivered acts).
           rewrite zlen_app. intros Hlt.
           pose proof (zlen_nonneg (delivered acts)).
           pose proof (zlen_nonneg (ztake (pr_size pr) (unread st))).
           cbn in Hc1. destruct Hc1 as (Hc1a & Hc1b & Hc1c & Hc1d); [done..|lia|].
           destruct Hc as (Hca & Hcb & Hcc & Hcd); [lia|lia|].
           cbn [granted]. rewrite granted_app. split_and!; try lia.
           intros Hs1 Hs2. apply Hcd; auto.
Qed.

(** ** Lemmas on writing *)
Lemma total_size_nonneg bufs : 0 <= total_size bufs.
Proof. rewrite total_size_concat. apply zlen_nonneg. Qed.

Lemma slice_buffers_concat n bufs :
  0 <= n -> concat (slice_buffers n bufs) = ztake n (concat bufs).
Proof.
  revert n. induction bufs as [|b bs IH]; intros n Hn; cbn [slice_buffers concat].
  - unfold ztake. by rewrite take_nil.
  - destruct (n =? 0) eqn:E; bool_hyps; [by subst|]. cbn [concat].
    rewrite IH by zsize. destruct (Z.le_ge_cases n (zlen b)).
    + replace (n - Z.min n (zlen b)) with 0 by lia. rewrite ztake_0, app_nil_r.
      rewrite ztake_app_le by lia. f_equal. lia.
    + rewrite ztake_app_ge by lia. rewrite (ztake_ge _ b) by lia. do 2 f_equal. lia.
Qed.

Lemma skip_buffers_concat n bufs :
  0 <= n -> concat (skip_buffers n bufs) = zdrop n (concat bufs).
Proof.
  revert n. induction bufs as [|b bs IH]; intros n Hn; cbn [skip_buffers concat].
  - unfold zdrop. by rewrite drop_nil.
  - destruct (zlen b <=? n) eqn:E; bool_hyps.
    + rewrite IH, zdrop_app_ge by lia. done.
    + cbn [concat]. by rewrite IH, zdrop_0, zdrop_app_le by lia.
Qed.

(** Everything writing leaves alone. *)
Definition same_reader (st st' : MuxStream) : Prop :=
  id_ st' = id_ st /\ local_window_size_ st' = local_window_size_ st /\
  consumed_since_last_update_ st' = consumed_since_last_update_ st /\
  read_queue_ st' = read_queue_ st /\ read_queue_offset_ st' = read_queue_offset_ st /\
  pending_reads_ st' = pending_reads_ st /\
  local_closed_ st' = local_closed_ st /\ remote_closed_ st' = remote_closed_ st.

Lemma same_reader_trans st1 st2 st3 :
  same_reader st1 st2 -> same_reader st2 st3 -> same_reader st1 st3.
Proof. unfold same_reader. intuition congruence. Qed.

(** A well-formed data frame of stream [id]: what the peer's session accepts. *)
Definition frame_ok (id : Z) (a : action) : Prop :=
  match a with
  | send_frame h bodies _ =>
    h = mk_header Data 0 id (zlen (concat bodies)) /\
    0 < zlen (concat bodies) <= MAX_MESSAGE_SIZE
  | post_write _ _ _ => True
  | _ => False
  end.

Definition write_post (sess : bool) (st st' : MuxStream) (acts : list action) : Prop :=
  same_reader st st' /\
  settled acts ++ map pw_handler (pending_writes_ st') = map pw_handler (pending_writes_ st) /\
  Forall (frame_ok (id_ st)) acts /\ read_posts acts = [] /\ granted acts = 0 /\
  remote_window_size_ st' = remote_window_size_ st - zlen (sent_data acts) /\
  0 <= remote_window_size_ st' /\
  (sess = true -> sent_data acts ++ unsent st' = unsent st).

Lemma write_post_cons sess st st1 st' a acts :
  write_post sess st1 st' acts -> frame_ok (id_ st) a ->
  same_reader st st1 ->
  settled [a] ++ map pw_handler (pending_writes_ st1) = map pw_handler (pending_writes_ st) ->
  remote_window_size_ st1 = remote_window_size_ st - zlen (sent_data [a]) ->
  (sess = true -> sent_data [a] ++ unsent st1 = unsent st) ->
  write_post sess st st' (a :: acts).
Proof.
  intros (Hr & Hs & Hf & Hp & Hg & Hw & Hw0 & Hu) Ha Hr1 Hs1 Hw1 Hu1.
  change (a :: acts) with ([a] ++ acts). unfold write_post.
  rewrite read_posts_app, granted_app, sent_data_app. rewrite settled_app.
  assert (Hid : id_ st1 = id_ st) by (destruct Hr1; done). rewrite Hid in Hf.
  split_and!.
  - by eapply same_reader_trans.
  - by rewrite <- app_assoc, Hs.
  - by constructor.
  - rewrite Hp. destruct a; done.
  - rewrite Hg. destruct a as [| |h b c|]; try done. destruct Ha as [-> _].
    cbn [granted app]. change (is_update _) with false. done.
  - rewrite zlen_app. lia.
  - done.
  - intros Hsess. rewrite <- app_assoc, Hu by done. by apply Hu1.
Qed.

Lemma unsent_cons pw pws st :
  pending_writes_ st = pw :: pws ->
  unsent st = concat (pw_buffers pw) ++ unsent (set_pending_writes pws st).
Proof. intros H. unfold unsent. by rewrite H. Qed.

Definition ceil_frames (w : Z) : Z := (w + MAX_MESSAGE_SIZE - 1) / MAX_MESSAGE_SIZE.

Lemma ceil_frames_step w n :
  0 < n -> n <= w -> n = w \/ n = MAX_MESSAGE_SIZE ->
  0 <= ceil_frames (w - n) /\ ceil_frames (w - n) + 1 <= ceil_frames w.
Proof. unfold ceil_frames, MAX_MESSAGE_SIZE. intros. Z.div_mod_to_equations. lia. Qed.

Lemma write_post_refl sess st : 0 <= remote_window_size_ st -> write_post sess st st [].
Proof.
  intros H0. unfold write_post, same_reader. change (zlen (sent_data [])) with 0. split_and!; try done. lia.
Qed.
(** The frame of one round: its size and its bytes. *)
Lemma to_send_facts buffers w i (total := zlen (concat buffers)) (n := Z.min (Z.min total w) MAX_MESSAGE_SIZE) :
  0 < total -> 0 < w ->
  (0 < n <= MAX_MESSAGE_SIZE /\ n <= w /\ n <= total) /\ wrap 32 n = n /\
  concat (slice_buffers n buffers) = ztake n (concat buffers) /\ zlen (ztake n (concat buffers)) = n /\
  forall c, sent_data [send_frame (mk_header Data 0 i n) (slice_buffers n buffers) c] = ztake n (concat buffers).
Proof.
  intros Ht Hw.
  assert (Hn : 0 < n <= MAX_MESSAGE_SIZE /\ n <= w /\ n <= total) by (unfold n, MAX_MESSAGE_SIZE; lia).
  assert (Hsl : concat (slice_buffers n buffers) = ztake n (concat buffers)) by (apply slice_buffers_concat; lia).
  split; [done|]. split; [unfold wrap; apply Z.mod_small; unfold MAX_MESSAGE_SIZE in Hn; lia|].
  split; [done|]. split; [rewrite zlen_ztake; fold total; lia|].
  intros c. cbn. change (is_data _) with true. cbn iota. by rewrite app_nil_r.
Qed.
Lemma do_write_loop_spec fuel sess st :
  0 <= remote_window_size_ st ->
  (length (pending_writes_ st) + Z.to_nat (ceil_frames (remote_window_size_ st)) <= fuel)%nat ->
  let '(st', acts) := do_write_loop fuel sess st in
  write_post sess st st' acts /\ (pending_writes_ st' = [] \/ remote_window_size_ st' <= 0).
Proof.
  revert st. induction fuel as [|fuel IH]; intros st Hw0 Hfuel; pose proof (write_post_refl sess st Hw0) as Hrefl.
  { split; [done|]. left. apply nil_length_inv. lia. }
  cbn [do_write_loop]. destruct (pending_writes_ st) as [|pw pws] eqn:Epw; [by auto|].
  destruct (remote_window_size_ st <=? 0) eqn:Ew; bool_hyps; [by auto|].
  rewrite (total_size_concat (pw_buffers pw)) in *.
  pose proof (unsent_cons _ _ _ Epw) as Hun. cbn [length] in Hfuel.
  destruct (zlen (concat (pw_buffers pw)) =? 0) eqn:E0; bool_hyps.
  { apply zlen_0_nil in E0.
    specialize (IH (set_pending_writes pws st) Hw0 ltac:(cbn [pending_writes_ set_pending_writes remote_window_size_]; lia)).
    destruct (do_write_loop _ _ _) as [st' acts]. destruct IH as [IH Hdone]. split; [|done].
    eapply write_post_cons; [exact IH|done|done|by rewrite Epw|exact (eq_sym (Z.sub_0_r _))|].
    intros _. rewrite Hun, E0. done. }
  destruct sess; cbn [negb].
  2: { specialize (IH (set_pending_writes pws st) Hw0 ltac:(cbn; lia)).
    destruct (do_write_loop _ _ _) as [st' acts]. destruct IH as [IH Hdone]. split; [|done].
    eapply write_post_cons; [exact IH|done|done|by rewrite Epw|exact (eq_sym (Z.sub_0_r _))|done]. }
  set (total := zlen (concat (pw_buffers pw))) in *.
  set (n := Z.min (Z.min total (remote_window_size_ st)) MAX_MESSAGE_SIZE).
  pose proof (zlen_nonneg (concat (pw_buffers pw))).
  destruct (to_send_facts (pw_buffers pw) (remote_window_size_ st) (id_ st)) as (Hn & Hwr & Hsl & Hln & Hsd); [lia..|].
  fold total n in Hn, Hwr, Hsl, Hln, Hsd.
  rewrite Hwr. destruct (n <? total) eqn:Epart; bool_hyps.
  - match goal with |- context [do_write_loop fuel true ?s] => specialize (IH s) end.
    cbn [pending_writes_ set_pending_writes remote_window_size_ set_remote_window length] in IH.
    destruct (ceil_frames_step (remote_window_size_ st) n) as [? ?]; [lia..|unfold n in *; lia|].
    specialize (IH ltac:(lia) ltac:(lia)).
    destruct (do_write_loop _ _ _) as [st' acts]. destruct IH as [IH Hdone]. split; [|done].
    eapply write_post_cons; [exact IH|cbn; rewrite Hsl; split; [congruence|lia]|done|by rewrite Epw
      |rewrite Hsd; cbn; lia|].
    intros _. rewrite Hsd. unfold unsent at 1. cbn [pending_writes_ set_pending_writes map concat pw_buffers].
    rewrite skip_buffers_concat by lia. rewrite Hun, app_assoc, ztake_drop. done.
  - match goal with |- context [do_write_loop fuel true ?s] => specialize (IH s) end.
    cbn [pending_writes_ set_pending_writes remote_window_size_ set_remote_window length] in IH.
    assert (0 <= ceil_frames (remote_window_size_ st - n) <= ceil_frames (remote_window_size_ st))
      by (unfold ceil_frames, MAX_MESSAGE_SIZE in *; Z.div_mod_to_equations; lia).
    specialize (IH ltac:(lia) ltac:(lia)).
    destruct (do_write_loop _ _ _) as [st' acts]. destruct IH as [IH Hdone]. split; [|done].
    eapply write_post_cons; [exact IH|cbn; rewrite Hsl; split; [congruence|lia]|done|by rewrite Epw
      |rewrite Hsd; cbn; lia|].
    intros _. rewrite Hsd, Hun, ztake_ge by (fold total; lia). done.
Qed.

Lemma do_write_spec sess st :
  0 <= remote_window_size_ st ->
  let '(st', acts) := do_write sess st in
  write_post sess st st' acts /\ (pending_writes_ st' = [] \/ remote_window_size_ st' <= 0).
Proof.
  intros Hw. apply do_write_loop_spec; [done|]. unfold do_write_fuel, ceil_frames, MAX_MESSAGE_SIZE.
  Z.div_mod_to_equations. lia.
Qed.

Lemma do_read_spec sess st :
  queue_ok st -> reads_sized (pending_reads_ st) ->
  exists st' acts, do_read_from_buffer sess st = Some (st', acts) /\
                   read_post sess (pending_reads_ st) st st' acts.
Proof.
  intros Hok Hsz. unfold do_read_from_buffer.
  destruct (read_loop_spec sess _ st Hok Hsz) as (st' & acts & -> & Hok' & Hsf & Hw & Hs & Hsd & Hst & Hc).
  destruct (check_cleanup_quiet sess st') as (H1 & H2 & H3 & H4).
  eexists _, _. split; [done|]. split_and!; try done.
  - by rewrite read_posts_app, H1, app_nil_r.
  - by rewrite sent_data_app, H2, app_nil_r.
  - by rewrite settled_app, H3, app_nil_r.
  - unfold credit_ok in *. rewrite granted_app, H4, delivered_app.
    unfold delivered at 2 4. rewrite H1, app_nil_r, Z.add_0_r. done.
Qed.

(** ** Histories of a stream *)
Inductive event : Type :=
| ev_read (all : bool) (size : Z) (h : nat)
| ev_write (buffers : list (list byte)) (h : nat)
| ev_data (data : list byte)
| ev_window (delta : Z)
| ev_remote_close
| ev_close
| ev_send_failed (ec : error_code).

Definition step_event (sess : bool) (ev : event) (st : MuxStream)
  : option (MuxStream * list action) :=
  match ev with
  | ev_read true size h => async_read sess size h st
  | ev_read false size h => async_read_some sess size h st
  | ev_write bufs h => Some (async_write_bufs sess bufs h st)
  | ev_data d => handle_data sess d st
  | ev_window delta => Some (handle_window_update sess delta st)
  | ev_remote_close => handle_close sess st
  | ev_close => Some (close sess st)
  | ev_send_failed ec => Some (on_send_done on_partial ec st)
  end.

Fixpoint run (sess : bool) (evs : list event) (st : MuxStream)
  : option (MuxStream * list action) :=
  match evs with
  | [] => Some (st, [])
  | ev :: evs' =>
    '(st1, a1) ← step_event sess ev st;
    '(st2, a2) ← run sess evs' st1;
    mret (st2, a1 ++ a2)
  end.

(** Uses the program makes of a stream: buffers have a size, the session hands
    over non-empty bodies of frames, and nobody reads a stream it has closed. *)
Fixpoint well_used (closed : bool) (evs : list event) : bool :=
  match evs with
  | [] => true
  | ev_read _ size _ :: evs' => (0 <=? size) && negb closed && well_used closed evs'
  | ev_data d :: evs' => (0 <? zlen d) && well_used closed evs'
  | ev_window delta :: evs' => (0 <=? delta) && well_used closed evs'
  | ev_close :: evs' => well_used true evs'
  | _ :: evs' => well_used closed evs'
  end.

Fixpoint received (evs : list event) : list byte :=
  match evs with
  | [] => []
  | ev_data d :: evs' => d ++ received evs'
  | _ :: evs' => received evs'
  end.

(** The read and write handlers the caller has handed over. *)
Definition issued (evs : list event) : list nat :=
  omap (fun ev => match ev with ev_read _ _ h | ev_write _ h => Some h | _ => None end) evs.

(** ** Specification of the reading side: a queue of bytes *)
Record reader : Type := {
  rd_bytes : list byte; rd_reads : list PendingRead; rd_remote_closed : bool; rd_closed : bool }.
Definition new_reader : reader :=
  {| rd_bytes := []; rd_reads := []; rd_remote_closed := false; rd_closed := false |}.

Definition rd_serve (r : reader) : reader * list (nat * error_code * list byte) :=
  let '(out, rest, bytes) := serve (rd_remote_closed r) (rd_reads r) (rd_bytes r) in
  ({| rd_bytes := bytes; rd_reads := rest; rd_remote_closed := rd_remote_closed r;
      rd_closed := rd_closed r |}, out).

Definition rd_step (ev : event) (r : reader) : reader * list (nat * error_code * list byte) :=
  match ev with
  | ev_read all size h =>
    if kMuxStreamMaxPendingReads <=? zlen (rd_reads r) then (r, [(h, ec_no_buffer_space, [])])
    else rd_serve {| rd_bytes := rd_bytes r;
                     rd_reads := rd_reads r ++
                       [{| pr_size := size; pr_handler := h; pr_read_all := all |}];
                     rd_remote_closed := rd_remote_closed r; rd_closed := rd_closed r |}
  | ev_data d =>
    rd_serve {| rd_bytes := if rd_closed r then [] else rd_bytes r ++ d;
                rd_reads := rd_reads r;
                rd_remote_closed := rd_remote_closed r; rd_closed := rd_closed r |}
  | ev_remote_close =>
    rd_serve {| rd_bytes := rd_bytes r; rd_reads := rd_reads r;
                rd_remote_closed := true; rd_closed := rd_closed r |}
  | ev_close =>
    ({| rd_bytes := []; rd_reads := []; rd_remote_closed := rd_remote_closed r;
        rd_closed := true |},
     map (fun pr => (pr_handler pr, ec_operation_aborted, [])) (rd_reads r))
  | _ => (r, [])
  end.

Fixpoint rd_run (evs : list event) (r : reader) : reader * list (nat * error_code * list byte) :=
  match evs with
  | [] => (r, [])
  | ev :: evs' =>
    let '(r1, o1) := rd_step ev r in let '(r2, o2) := rd_run evs' r1 in (r2, o1 ++ o2)
  end.

(** The abstraction of a stream. *)
Definition reader_of (st : MuxStream) : reader := {|
  rd_bytes := if local_closed_ st then [] else unread st;
  rd_reads := pending_reads_ st; rd_remote_closed := remote_closed_ st;
  rd_closed := local_closed_ st |}.

(** ** The invariant of a stream *)
Record stream_inv (budget : Z) (st : MuxStream) : Prop := {
  si_queue : local_closed_ st = false ->
    Forall (fun b => b <> []) (read_queue_ st) /\
    match read_queue_ st with
    | [] => read_queue_offset_ st = 0
    | b :: _ => 0 <= read_queue_offset_ st < zlen b
    end;
  si_size : zlen (concat (read_queue_ st)) + budget < 2 ^ 64;
  si_closed : local_closed_ st = true -> pending_reads_ st = [];
  si_sized : reads_sized (pending_reads_ st);
  si_reads : zlen (pending_reads_ st) <= kMuxStreamMaxPendingReads;
  si_writes : zlen (pending_writes_ st) <= kMuxStreamMaxPendingWrites;
  si_window : 0 <= remote_window_size_ st <= MAX_MESSAGE_SIZE
}.

(** What one event establishes: the invariant, the specified reads, and that
    each handler is finished or still pending. *)
Definition finished (acts : list action) : list nat :=
  map (fun p => p.1.1) (read_posts acts) ++ settled acts.
Definition waiting (st : MuxStream) : list nat :=
  map pr_handler (pending_reads_ st) ++ map pw_handler (pending_writes_ st).

Definition event_post (budget : Z) (ev : event) (st st' : MuxStream) (acts : list action) : Prop :=
  stream_inv budget st' /\
  rd_step ev (reader_of st) = (reader_of st', read_posts acts) /\
  finished acts ++ waiting st' ≡ₚ issued [ev] ++ waiting st.

Lemma serve_rest closed prs bytes out rest bs :
  serve closed prs bytes = (out, rest, bs) ->
  map (fun p => p.1.1) out ++ map pr_handler rest = map pr_handler prs /\ rest `suffix_of` prs.
Proof.
  revert bytes out rest bs. induction prs as [|pr prs IH]; intros bytes out rest bs H.
  { by injection H as <- <- <-. }
  cbn [serve] in H. destruct bytes as [|b bytes].
  - destruct closed; [|by injection H as <- <- <-].
    destruct (serve true prs []) as [[out1 rest1] bs1] eqn:E. injection H as <- <- <-.
    apply IH in E as [E1 E2]. cbn [map app fst]. rewrite E1. split; [done|by apply suffix_cons_r].
  - destruct (pr_read_all pr && _ && _); [by injection H as <- <- <-|].
    destruct (serve closed prs _) as [[out1 rest1] bs1] eqn:E. injection H as <- <- <-.
    apply IH in E as [E1 E2]. cbn [map app fst]. rewrite E1. split; [done|by apply suffix_cons_r].
Qed.

Lemma suffix_zlen {A} (l k : list A) : l `suffix_of` k -> zlen l <= zlen k.
Proof. intros [m ->]. rewrite zlen_app. pose proof (zlen_nonneg m). lia. Qed.

Lemma suffix_concat (q q' : list (list byte)) :
  q' `suffix_of` q -> zlen (concat q') <= zlen (concat q).
Proof. intros [m ->]. rewrite concat_app, zlen_app. pose proof (zlen_nonneg (concat m)). lia. Qed.

Lemma do_read_idle sess st :
  pending_reads_ st = [] ->
  do_read_from_buffer sess st = Some (set_pending_reads [] st, check_cleanup sess st).
Proof. intros H. unfold do_read_from_buffer. by rewrite H. Qed.

Lemma do_read_inv budget sess st :
  0 <= budget -> stream_inv budget st ->
  exists st' acts, do_read_from_buffer sess st = Some (st', acts) /\ stream_inv budget st' /\
    rd_serve (reader_of st) = (reader_of st', read_posts acts) /\
    finished acts ++ waiting st' ≡ₚ waiting st.
Proof.
  intros Hb [Hq Hs Hc Hz Hr Hw Hwin]. unfold rd_serve, reader_of, finished, waiting.
  cbn [rd_reads rd_bytes rd_remote_closed rd_closed]. destruct (local_closed_ st) eqn:Elc.
  - specialize (Hc eq_refl). rewrite do_read_idle, Hc by done. eexists _, _. split; [done|].
    destruct (check_cleanup_quiet sess st) as (-> & _ & -> & _).
    split; [|cbn; by rewrite Elc].
    split; cbn; rewrite ?Elc; try done. by constructor.
  - destruct (Hq eq_refl) as [Hq1 Hq2].
    assert (Hok : queue_ok st) by (split_and!; [done|done|lia]).
    destruct (do_read_spec sess st Hok Hz) as (st' & acts & E & Hok' & Hsf & Hsw & Hsv & _ & Hst & _).
    destruct Hsw as (Hid & _ & Hrw & Hpw & Hlc & Hrc).
    exists st', acts. split; [done|]. rewrite <- Hsv, Hst, Hpw, Hlc, Hrc, Elc.
    symmetry in Hsv. apply serve_rest in Hsv as [Hh Hsuf]. split; [|split; [done|]].
    + apply suffix_concat in Hsf. destruct Hok' as (H1 & H2 & H3).
      split; rewrite ?Hlc, ?Hpw, ?Hrw, ?Elc; try done; [lia| |].
      * destruct Hsuf as [k Hk]. unfold reads_sized in *. rewrite Hk in Hz.
        by apply Forall_app in Hz as [_ Hz].
      * apply suffix_zlen in Hsuf. lia.
    + by rewrite app_nil_r, app_assoc, Hh.
Qed.

Lemma do_write_inv budget sess st st' acts :
  stream_inv budget st -> do_write sess st = (st', acts) ->
  stream_inv budget st' /\ reader_of st' = reader_of st /\ read_posts acts = [] /\
  finished acts ++ waiting st' ≡ₚ waiting st.
Proof.
  intros [Hq Hs Hc Hz Hr Hw Hwin] E. pose proof (do_write_spec sess st ltac:(lia)) as Hspec.
  rewrite E in Hspec. destruct Hspec as [(Hsr & Hset & _ & Hrp & _ & Hw' & Hw0 & _) _].
  destruct Hsr as (Hid & Hlw & Hcs & Hrq & Hro & Hpr & Hlc & Hrc).
  assert (Hlen : zlen (pending_writes_ st') <= zlen (pending_writes_ st)).
  { apply (f_equal length) in Hset. rewrite length_app, !length_map in Hset. unfold zlen. lia. }
  pose proof (zlen_nonneg (sent_data acts)). split; [|split; [|split; [done|]]].
  - split; rewrite ?Hrq, ?Hro, ?Hpr, ?Hlc; try done; lia.
  - unfold reader_of, unread. by rewrite Hrq, Hro, Hpr, Hlc, Hrc.
  - unfold finished, waiting. rewrite Hrp, Hpr. cbn [map app].
    rewrite Permutation_app_swap_app, Hset. done.
Qed.

Lemma read_posts_reads {A} (f : A -> nat) (l : list A) ec :
  read_posts (map (fun x => post_read (f x) ec []) l) = map (fun x => (f x, ec, [])) l.
Proof. induction l as [|x l IH]; [done|]. cbn [map]. by rewrite <- IH. Qed.
Lemma read_posts_writes {A} (f : A -> nat) (l : list A) ec :
  read_posts (map (fun x => post_write (f x) ec 0) l) = [].
Proof. by induction l. Qed.
Lemma settled_reads {A} (f : A -> nat) (l : list A) ec :
  settled (map (fun x => post_read (f x) ec []) l) = [].
Proof. by induction l. Qed.
Lemma settled_writes {A} (f : A -> nat) (l : list A) ec :
  settled (map (fun x => post_write (f x) ec 0) l) = map f l.
Proof. induction l as [|x l IH]; [done|]. cbn [map]. by rewrite <- IH. Qed.
#[export] Hint Rewrite @read_posts_reads @read_posts_writes @settled_reads @settled_writes
  read_posts_app settled_app : mux.

Definition next_budget (budget : Z) (ev : event) : Z :=
  match ev with ev_data d => budget - zlen d | _ => budget end.
Definition next_closed (closed : bool) (ev : event) : bool :=
  match ev with ev_close => true | _ => closed end.

(** Opening a reading event: the state just before the loop runs. *)
Lemma event_reading budget sess ev st st1 :
  0 <= budget -> stream_inv budget st1 -> step_event sess ev st = do_read_from_buffer sess st1 ->
  rd_step ev (reader_of st) = rd_serve (reader_of st1) ->
  waiting st1 ≡ₚ issued [ev] ++ waiting st ->
  exists st' acts, step_event sess ev st = Some (st', acts) /\ event_post budget ev st st' acts.
Proof.
  intros Hb Hinv Hstep Hrd Hwait. rewrite Hstep.
  destruct (do_read_inv budget sess st1 Hb Hinv) as (st' & acts & -> & Hi & Hs & Hp).
  eexists _, _. split; [done|]. unfold event_post. rewrite Hrd, Hp. done.
Qed.

Lemma push_read_inv budget pr st :
  stream_inv budget st -> local_closed_ st = false -> 0 <= pr_size pr ->
  zlen (pending_reads_ st) < kMuxStreamMaxPendingReads ->
  stream_inv budget (set_pending_reads (pending_reads_ st ++ [pr]) st).
Proof.
  intros [Hq Hs Hc Hz Hr Hw Hwin] Hlc Hsz Hlt.
  split; cbn [read_queue_ read_queue_offset_ local_closed_ pending_reads_ pending_writes_
    remote_window_size_ set_pending_reads]; try done.
  - intros. congruence.
  - apply Forall_app. split; [done|]. by repeat constructor.
  - zsize.
Qed.

Lemma read_event_step budget sess all size h st :
  0 <= budget -> stream_inv budget st -> local_closed_ st = false -> 0 <= size ->
  exists st' acts, step_event sess (ev_read all size h) st = Some (st', acts) /\
    event_post budget (ev_read all size h) st st' acts.
Proof.
  intros Hb Hinv Hlc Hsz.
  destruct (kMuxStreamMaxPendingReads <=? zlen (pending_reads_ st)) eqn:Efull.
  - exists st, [post_read h ec_no_buffer_space []].
    split; [destruct all; cbn; unfold async_read, async_read_some; by rewrite Efull|].
    unfold event_post, reader_of. cbn [rd_step rd_reads]. by rewrite Efull.
  - set (pr := {| pr_size := size; pr_handler := h; pr_read_all := all |}).
    apply event_reading with (st1 := set_pending_reads (pending_reads_ st ++ [pr]) st); try done.
    + apply push_read_inv; [done..|]. bool_hyps. done.
    + destruct all; cbn; unfold async_read, async_read_some; by rewrite Efull.
    + unfold reader_of. cbn [rd_step rd_reads]. rewrite Efull. cbn. by rewrite Hlc.
    + unfold waiting. cbn. rewrite map_app, <- app_assoc. cbn.
      by rewrite Permutation_middle.
Qed.

Lemma data_event_step budget sess d st :
  0 <= budget -> stream_inv (budget + zlen d) st -> 0 < zlen d ->
  exists st' acts, step_event sess (ev_data d) st = Some (st', acts) /\
    event_post budget (ev_data d) st st' acts.
Proof.
  intros Hb Hinv Hd.
  apply event_reading with
    (st1 := set_read_queue (read_queue_ st ++ [d]) (read_queue_offset_ st) st); try done.
  - destruct Hinv as [Hq Hs Hc Hz Hr Hw Hwin].
    split; cbn [read_queue_ read_queue_offset_ local_closed_ pending_reads_ pending_writes_
      remote_window_size_ set_read_queue]; try done.
    + intros Hlc. destruct (Hq Hlc) as [H1 H2]. split.
      * apply Forall_app. split; [done|]. constructor; [|done]. by intros ->.
      * destruct (read_queue_ st); [rewrite H2; cbn; lia|done].
    + rewrite concat_app. cbn. rewrite app_nil_r. zsize.
  - unfold reader_of, rd_step. cbn. unfold unread. cbn. destruct (local_closed_ st) eqn:Elc; [done|].
    do 2 f_equal. rewrite concat_app. cbn. rewrite app_nil_r, zdrop_app_le; [done|].
    destruct Hinv as [Hq _ _ _ _ _ _]. destruct (Hq Elc) as [_ H2].
    destruct (read_queue_ st); [rewrite H2; done|]. cbn. zsize.
Qed.

Lemma writing_event budget sess ev st st1 :
  stream_inv budget st1 -> step_event sess ev st = Some (do_write sess st1) ->
  rd_step ev (reader_of st) = (reader_of st, []) -> reader_of st1 = reader_of st ->
  waiting st1 ≡ₚ issued [ev] ++ waiting st ->
  exists st' acts, step_event sess ev st = Some (st', acts) /\ event_post budget ev st st' acts.
Proof.
  intros Hinv Hstep Hrd Hro Hwait. rewrite Hstep. destruct (do_write sess st1) as [st' acts] eqn:E.
  eapply do_write_inv in E as (Hi & Hr & Hp & Hperm); [|done].
  eexists _, _. split; [done|]. unfold event_post. rewrite Hrd, Hp, Hr, Hro, Hperm. done.
Qed.

Lemma local_close_step budget sess st :
  stream_inv budget st ->
  exists st' acts, step_event sess ev_close st = Some (st', acts) /\
    rd_step ev_close (reader_of st) = (reader_of st', read_posts acts) /\
    stream_inv budget st' /\ finished acts ++ waiting st' ≡ₚ waiting st.
Proof.
  intros [Hq Hs Hc Hz Hr Hw Hwin]. cbn [step_event]. unfold close.
  destruct (local_closed_ st) eqn:Elc.
  - exists st, []. split; [done|]. unfold reader_of. rewrite Elc, Hc by done.
    split; [done|]. split; [|done]. split; rewrite ?Elc; auto.
  - set (st' := set_closed _ _ _). eexists st', _. split; [done|].
    pose proof (zlen_nonneg (concat (read_queue_ st))).
    destruct (check_cleanup_quiet sess st') as (Hc1 & _ & Hc2 & _).
    assert (Hfin : read_posts (if sess then [send_frame (mk_header Data FIN (id_ st) 0) [] on_none]
      else []) = [] /\ settled (if sess then [send_frame (mk_header Data FIN (id_ st) 0) [] on_none]
      else []) = []) by (destruct sess; done).
    destruct Hfin as [Hf1 Hf2].
    split; [|split].
    + autorewrite with mux. rewrite Hf1, Hc1, !app_nil_r. done.
    + unfold st'. split; cbn; try done; [rewrite zlen_nil; lia|by constructor].
    + unfold finished, waiting. autorewrite with mux. rewrite Hf1, Hf2, Hc1, Hc2. cbn.
      by rewrite !app_nil_r, map_map.
Qed.

Lemma send_failed_step budget sess ec st :
  stream_inv budget st ->
  exists st' acts, step_event sess (ev_send_failed ec) st = Some (st', acts) /\
    event_post budget (ev_send_failed ec) st st' acts.
Proof.
  intros Hinv. cbn [step_event on_send_done]. destruct (decide (ec = ec_ok)).
  - by exists st, [].
  - eexists _, _. split; [done|]. destruct Hinv as [Hq Hs Hc Hz Hr Hw Hwin].
    unfold event_post, finished, waiting. autorewrite with mux. split; [by split|]. split; [done|].
    cbn. by rewrite app_nil_r, Permutation_app_comm.
Qed.

(** One event from a state that satisfies the invariant. *)
Lemma event_step sess ev evs st :
  stream_inv (zlen (received (ev :: evs))) st ->
  well_used (local_closed_ st) (ev :: evs) = true ->
  exists st' acts, step_event sess ev st = Some (st', acts) /\
    event_post (zlen (received evs)) ev st st' acts /\
    local_closed_ st' = next_closed (local_closed_ st) ev /\
    well_used (local_closed_ st') evs = true.
Proof.
  intros Hinv Hwu.
  assert (Hb : 0 <= zlen (received evs)) by apply zlen_nonneg.
  assert (Hpost : exists st' acts, step_event sess ev st = Some (st', acts) /\
    event_post (zlen (received evs)) ev st st' acts).
  { destruct ev as [all size h|bufs h|d|delta| | |ec]; cbn [received well_used] in *; bool_hyps.
    - by apply read_event_step.
    - destruct (kMuxStreamMaxPendingWrites <=? zlen (pending_writes_ st)) eqn:Efull.
      + exists st, [post_write h ec_no_buffer_space 0].
        split; [cbn; unfold async_write_bufs; by rewrite Efull|]. done.
      + eapply writing_event; [|cbn; unfold async_write_bufs; rewrite Efull; reflexivity|done|done|].
        * destruct Hinv. bool_hyps. split; try done. cbn. zsize.
        * unfold waiting. cbn. rewrite map_app. cbn.
          by rewrite app_assoc, <- Permutation_cons_append.
    - apply data_event_step; [done| |done]. rewrite zlen_app, Z.add_comm in Hinv. done.
    - eapply writing_event; [|reflexivity|done..]. destruct Hinv.
      split; try done. cbn. unfold MAX_MESSAGE_SIZE in *. lia.
    - cbn [step_event].
      assert (Hinv' : stream_inv (zlen (received evs)) (set_closed (local_closed_ st) true st))
        by (destruct Hinv; by split).
      destruct (do_read_inv _ sess _ Hb Hinv') as (st' & acts & E & Hi & Hs & Hp).
      unfold handle_close. rewrite E. eexists _, _. split; [done|].
      destruct (check_cleanup_quiet sess st') as (H1 & _ & H3 & _).
      unfold event_post, finished in *. autorewrite with mux. rewrite H1, H3, !app_nil_r.
      split; [done|]. split; [|done]. rewrite <- Hs. done.
    - destruct (local_close_step _ sess st Hinv) as (st' & acts & E & Hr & Hi & Hp).
      exists st', acts. done.
    - by apply send_failed_step. }
  destruct Hpost as (st' & acts & E & Hpost). exists st', acts. split; [done|]. split; [done|].
  assert (Hlc : local_closed_ st' = next_closed (local_closed_ st) ev).
  { destruct Hpost as (_ & Hr & _). apply (f_equal (rd_closed ∘ fst)) in Hr. cbn in Hr.
    rewrite <- Hr. destruct ev; cbn; unfold rd_serve; repeat case_match; done. }
  split; [done|]. rewrite Hlc. destruct ev; cbn in *; bool_hyps; done.
Qed.

Lemma finished_app xs ys : finished (xs ++ ys) ≡ₚ finished xs ++ finished ys.
Proof.
  unfold finished. autorewrite with mux. rewrite map_app, <- !app_assoc.
  f_equiv. by rewrite Permutation_app_swap_app.
Qed.

Lemma perm_chain {A} (f1 f2 w2 i1 i2 w1 w : list A) :
  f1 ++ w1 ≡ₚ i1 ++ w -> f2 ++ w2 ≡ₚ i2 ++ w1 -> (f1 ++ f2) ++ w2 ≡ₚ (i1 ++ i2) ++ w.
Proof.
  intros H1 H2. rewrite <- !app_assoc, H2, Permutation_app_swap_app, H1.
  by rewrite Permutation_app_swap_app.
Qed.

Lemma run_spec sess evs st :
  stream_inv (zlen (received evs)) st -> well_used (local_closed_ st) evs = true ->
  exists st' acts, run sess evs st = Some (st', acts) /\ stream_inv 0 st' /\
    rd_run evs (reader_of st) = (reader_of st', read_posts acts) /\
    finished acts ++ waiting st' ≡ₚ issued evs ++ waiting st.
Proof.
  revert st. induction evs as [|ev evs IH]; intros st Hinv Hwu; [by exists st, []|].
  destruct (event_step sess ev evs st Hinv Hwu) as (st1 & a1 & E1 & (Hi & Hr & Hp) & _ & Hwu1).
  destruct (IH st1 Hi Hwu1) as (st2 & a2 & E2 & Hi2 & Hr2 & Hp2).
  exists st2, (a1 ++ a2). cbn [run rd_run]. rewrite E1. cbn [mbind option_bind]. rewrite E2, Hr, Hr2.
  split; [done|]. split; [done|]. rewrite read_posts_app. split; [done|].
  change (issued (ev :: evs)) with (issued ([ev] ++ evs)). unfold issued in *.
  rewrite omap_app, finished_app. by apply perm_chain with (waiting st1).
Qed.

Lemma new_stream_inv id budget :
  0 <= budget < 2 ^ 64 -> stream_inv budget (new_mux_stream id).
Proof.
  intros Hb. split; cbn [read_queue_ read_queue_offset_ pending_reads_ pending_writes_
    remote_window_size_ new_mux_stream concat]; try done; [rewrite zlen_nil; lia|by constructor].
Qed.

(** Bytes delivered to the reads, for histories without a local close. *)
Definition bytes_out (posts : list (nat * error_code * list byte)) : list byte :=
  concat (map (fun '(_, _, d) => d) posts).

Lemma serve_bytes closed prs bytes out rest bs :
  serve closed prs bytes = (out, rest, bs) -> bytes_out out ++ bs = bytes.
Proof.
  revert bytes out rest bs. induction prs as [|pr prs IH]; intros bytes out rest bs H.
  { by injection H as <- <- <-. }
  cbn [serve] in H. destruct bytes as [|b bytes].
  - destruct closed; [|by injection H as <- <- <-].
    destruct (serve true prs []) as [[out1 rest1] bs1] eqn:E. injection H as <- <- <-.
    by apply IH in E.
  - destruct (pr_read_all pr && _ && _); [by injection H as <- <- <-|].
    destruct (serve closed prs _) as [[out1 rest1] bs1] eqn:E. injection H as <- <- <-.
    apply IH in E. unfold bytes_out in *. cbn [map concat].
    by rewrite <- app_assoc, E, ztake_drop.
Qed.

Lemma rd_run_bytes evs r :
  Forall (fun ev => ev <> ev_close) evs -> rd_closed r = false ->
  bytes_out (rd_run evs r).2 ++ rd_bytes (rd_run evs r).1 = rd_bytes r ++ received evs.
Proof.
  revert r. induction evs as [|ev evs IH]; intros r Hnc Hc; [by rewrite app_nil_r|].
  apply Forall_cons in Hnc as [Hev Hnc]. cbn [rd_run].
  assert (Hstep : rd_closed (rd_step ev r).1 = false /\
    bytes_out (rd_step ev r).2 ++ rd_bytes (rd_step ev r).1 = rd_bytes r ++ received [ev]).
  { assert (Hs : forall r', rd_closed (rd_serve r').1 = rd_closed r' /\
      bytes_out (rd_serve r').2 ++ rd_bytes (rd_serve r').1 = rd_bytes r').
    { intros r'. unfold rd_serve. destruct (serve _ _ _) as [[out rest] bs] eqn:E.
      split; [done|]. by apply serve_bytes in E. }
    destruct ev; cbn [rd_step received]; rewrite ?app_nil_r; try done.
    - case_match; [done|]. destruct (Hs {| rd_bytes := rd_bytes r; rd_reads := rd_reads r ++
        [{| pr_size := size; pr_handler := h; pr_read_all := all |}];
        rd_remote_closed := rd_remote_closed r; rd_closed := rd_closed r |}) as [H1 H2].
      by rewrite H1, H2.
    - rewrite Hc. by match goal with |- context [rd_serve ?r'] => destruct (Hs r') as [-> ->] end.
    - by match goal with |- context [rd_serve ?r'] => destruct (Hs r') as [-> ->] end. }
  destruct (rd_step ev r) as [r1 o1]. destruct Hstep as [Hc1 Hb1]. specialize (IH r1 Hnc Hc1).
  destruct (rd_run evs r1) as [r2 o2]. cbn [fst snd] in *. unfold bytes_out in *.
  rewrite map_app, concat_app, <- app_assoc, IH, app_assoc, Hb1.
  rewrite <- app_assoc. f_equal. destruct ev; cbn; by rewrite ?app_nil_r.
Qed.

(** ** Properties *)

(** C2 A stream refines a queue of bytes.  Whatever the order of reads, writes,
    arriving frames, window updates, failed sends, remote and local close, as
    long as no read is issued after a local close, no operation copies outside
    a received block, and the reads complete exactly as the abstract byte queue
    [rd_run] says: in order, with the bytes, the errors and the sizes it gives. *)
Theorem mux_stream_refines_byte_queue (sess : bool) (id : Z) (evs : list event)
    (Hused : well_used false evs = true) (Hsize : zlen (received evs) < 2 ^ 64) :
  exists st acts, run sess evs (new_mux_stream id) = Some (st, acts) /\
    rd_run evs new_reader = (reader_of st, read_posts acts).
Proof.
  destruct (run_spec sess evs (new_mux_stream id)) as (st & acts & H1 & _ & H2 & _); eauto.
  apply new_stream_inv. split; [apply zlen_nonneg|done].
Qed.

(** On a stream nobody closed locally, the bytes the reads received, followed by
    the bytes still queued, are exactly the bodies of the data frames in their order
    of arrival: nothing is lost, duplicated or reordered. *)
Theorem mux_stream_delivers_in_order (sess : bool) (id : Z) (evs : list event)
    (Hused : well_used false evs = true) (Hopen : Forall (fun ev => ev <> ev_close) evs)
    (Hsize : zlen (received evs) < 2 ^ 64) :
  exists st acts, run sess evs (new_mux_stream id) = Some (st, acts) /\
    delivered acts ++ unread st = received evs.
Proof.
  destruct (run_spec sess evs (new_mux_stream id)) as (st & acts & H1 & _ & H2 & _);
    [apply new_stream_inv; split; [apply zlen_nonneg|done]|done|].
  exists st, acts. split; [done|].
  pose proof (rd_run_bytes evs new_reader Hopen eq_refl) as Hb.
  change (reader_of (new_mux_stream id)) with new_reader in H2. rewrite H2 in Hb. cbn in Hb.
  destruct (local_closed_ st) eqn:Elc; [|exact Hb].
  exfalso. clear Hb Hused Hsize H1. 
  assert (Hcl : rd_closed (rd_run evs new_reader).1 = rd_closed new_reader).
  { generalize new_reader. clear H2. induction evs as [|ev evs IH]; intros r; [done|].
    apply Forall_cons in Hopen as [Hev Hopen]. cbn [rd_run].
    destruct (rd_step ev r) as [r1 o1] eqn:E1. specialize (IH Hopen r1).
    destruct (rd_run evs r1) as [r2 o2]. cbn [fst] in *. rewrite IH.
    apply (f_equal (rd_closed ∘ fst)) in E1. cbn in E1. rewrite <- E1.
    destruct ev; cbn; unfold rd_serve; repeat case_match; done. }
  rewrite H2 in Hcl. cbn in Hcl. congruence.
Qed.

(** Every handler given to [async_read], [async_read_some] or [async_write] is
    accounted for exactly once: it was posted (with data, an error or a size), or it
    travels with the last frame of its write, or its operation is still pending. *)
Theorem mux_stream_handlers_once (sess : bool) (id : Z) (evs : list event)
    (Hused : well_used false evs = true) (Hsize : zlen (received evs) < 2 ^ 64) :
  exists st acts, run sess evs (new_mux_stream id) = Some (st, acts) /\
    finished acts ++ waiting st ≡ₚ issued evs /\
    zlen (pending_reads_ st) <= kMuxStreamMaxPendingReads /\
    zlen (pending_writes_ st) <= kMuxStreamMaxPendingWrites /\
    remote_window_size_ st <= MAX_MESSAGE_SIZE.
Proof.
  destruct (run_spec sess evs (new_mux_stream id)) as (st & acts & H1 & Hinv & _ & H2);
    [apply new_stream_inv; split; [apply zlen_nonneg|done]|done|].
  exists st, acts. destruct Hinv. rewrite app_nil_r in H2. split_and!; try done. lia.
Qed.

(** [do_write] on a live session: every frame it sends is a Data frame of this
    stream of 1 to [MAX_MESSAGE_SIZE] bytes whose length field is its body's size; the
    bodies in order are a prefix of the queued bytes and the rest stays queued; the send
    window decreases by exactly the bytes sent and never goes below zero; and the loop
    ends with no write left or with the window used up. *)
Theorem mux_do_write_fragments (st : MuxStream) (Hw : 0 <= remote_window_size_ st) :
  let '(st', acts) := do_write true st in
  Forall (frame_ok (id_ st)) acts /\
  sent_data acts ++ unsent st' = unsent st /\
  remote_window_size_ st' = remote_window_size_ st - zlen (sent_data acts) /\
  0 <= remote_window_size_ st' /\
  (pending_writes_ st' = [] \/ remote_window_size_ st' = 0) /\
  settled acts ++ map pw_handler (pending_writes_ st') = map pw_handler (pending_writes_ st).
Proof.
  pose proof (do_write_spec true st Hw) as H. destruct (do_write true st) as [st' acts].
  destruct H as [(_ & Hs & Hf & _ & _ & Hwin & Hw0 & Hu) Hend].
  split_and!; auto. destruct Hend; [by left|right; lia].
Qed.

(** Concrete runs used below. *)
Definition demo_bytes (n : nat) : list byte := repeat Byte.x61 n.
Definition demo_history : list event :=
  [ev_read false 4 1; ev_data (demo_bytes 10); ev_read true 8 2; ev_write [demo_bytes 3; demo_bytes 2] 3;
   ev_data (demo_bytes 1); ev_data (demo_bytes 9); ev_window 5; ev_remote_close; ev_read true 20 4].

Lemma mux_stream_refines_byte_queue_witness :
  well_used false (demo_history ++ [ev_close]) = true /\
  exists st acts, run true (demo_history ++ [ev_close]) (new_mux_stream 1) = Some (st, acts) /\
    rd_run (demo_history ++ [ev_close]) new_reader = (reader_of st, read_posts acts).
Proof.
  split; [reflexivity|]. apply (mux_stream_refines_byte_queue true 1); vm_compute; reflexivity.
Defined.

Lemma mux_stream_delivers_in_order_witness :
  exists st acts, run true demo_history (new_mux_stream 1) = Some (st, acts) /\
    delivered acts ++ unread st = received demo_history.
Proof.
  apply (mux_stream_delivers_in_order true 1); [reflexivity|by repeat constructor|reflexivity].
Defined.

Lemma mux_stream_handlers_once_witness :
  exists st acts, run false demo_history (new_mux_stream 7) = Some (st, acts) /\
    finished acts ++ waiting st ≡ₚ issued demo_history /\
    zlen (pending_reads_ st) <= kMuxStreamMaxPendingReads /\
    zlen (pending_writes_ st) <= kMuxStreamMaxPendingWrites /\
    remote_window_size_ st <= MAX_MESSAGE_SIZE.
Proof. apply (mux_stream_handlers_once false 7); reflexivity. Defined.

Definition demo_writer : MuxStream :=
  set_remote_window 6 (set_pending_writes
    [{| pw_buffers := [demo_bytes 3; demo_bytes 2]; pw_handler := 1 |};
     {| pw_buffers := [demo_bytes 4]; pw_handler := 2 |}] (new_mux_stream 3)).

Lemma mux_do_write_fragments_witness :
  let '(st', acts) := do_write true demo_writer in
  Forall (frame_ok (id_ demo_writer)) acts /\
  sent_data acts ++ unsent st' = unsent demo_writer /\
  remote_window_size_ st' = remote_window_size_ demo_writer - zlen (sent_data acts) /\
  0 <= remote_window_size_ st' /\
  (pending_writes_ st' = [] \/ remote_window_size_ st' = 0) /\
  settled acts ++ map pw_handler (pending_writes_ st') =
    map pw_handler (pending_writes_ demo_writer).
Proof. apply (mux_do_write_fragments demo_writer). vm_compute. discriminate. Defined.

(** A stream closed in the middle of a block keeps the block's offset although the
    queue is emptied: data that arrives afterwards, followed by a read, makes
    [do_read_from_buffer] copy outside the new block. *)
Theorem mux_read_after_close_out_of_bounds :
  run true [ev_data (demo_bytes 10); ev_read false 8 1; ev_close; ev_data (demo_bytes 4);
            ev_read false 4 2] (new_mux_stream 1) = None /\
  (exists st acts, run true [ev_data (demo_bytes 10); ev_read false 8 1; ev_close]
     (new_mux_stream 1) = Some (st, acts) /\
     read_queue_ st = [] /\ read_queue_offset_ st = 8).
Proof. split; [reflexivity|]. by eexists _, _. Qed.

(** [async_read], which asks for all of its buffer, completes with success and fewer
    bytes when the peer has closed: a caller that ignores the count takes a truncated
    message for a whole one. *)
Theorem mux_read_all_short_at_eof (sess : bool) (id : Z) :
  option_map (fun r => read_posts r.2)
    (run sess [ev_data (demo_bytes 4); ev_remote_close; ev_read true 256 9] (new_mux_stream id)) =
  Some [(9%nat, ec_ok, demo_bytes 4)].
Proof. destruct sess; reflexivity. Qed.
