(* ===== verification/MuxSession.v ===== *)
(** * The multiplexing session (src/common/mux.cpp: Session)

    The session's state and its operations as they run on the session's strand.
    Stream objects are identified by numbers; what the session asks of them, of
    the underlying stream and of its timer is the list of actions an operation
    returns, in order.  The underlying [AsyncStream] completes an [async_read]
    with the bytes it was asked for or with an error. *)
From Stdlib Require Import ZArith Lia Strings.Byte.
From stdpp Require Import base tactics list gmap.
From S2P Require Import Prelude Protocol MuxFrame MuxStream.
Local Open Scope Z_scope.

(** ** State *)
(** A queued frame: the bytes of the gathered write and the handler to call
    when it is done: the stream that waits and the way it completes. *)
Record QueuedFrame : Type := {
  qf_header : list byte; qf_bodies : list (list byte); qf_handler : option (nat * completion) }.
Definition write_buffers (f : QueuedFrame) : list byte := qf_header f ++ concat (qf_bodies f).

Record Session : Type := {
  is_server_ : bool;
  stopped_ : bool;
  next_stream_id_ : Z;
  on_new_stream_ : bool;               (* whether the callback is set *)
  streams_ : gmap Z nat;
  write_queue_ : list QueuedFrame;
  is_writing_ : bool;
  last_read_time_ : Z;                 (* seconds *)
  next_object : nat                    (* identity of the next MuxStream *)
}.

Inductive session_action : Type :=
| call_new_stream (id : Z) (obj : nat)
| to_stream (obj : nat) (ev : event)
| call_handler (obj : nat) (c : completion) (ec : error_code)
| write_underlying (bytes : list byte)
| read_header
| read_body (h : Header)
| close_underlying
| cancel_timer
| arm_timer (seconds : Z).

Definition new_session (is_server : bool) (now : Z) : Session := {|
  is_server_ := is_server; stopped_ := false; next_stream_id_ := if is_server then 2 else 1;
  on_new_stream_ := false; streams_ := ∅; write_queue_ := []; is_writing_ := false;
  last_read_time_ := now; next_object := 0 |}.

(** Field updates. *)
Definition set_streams (m : gmap Z nat) (s : Session) : Session := {|
  is_server_ := is_server_ s; stopped_ := stopped_ s; next_stream_id_ := next_stream_id_ s;
  on_new_stream_ := on_new_stream_ s; streams_ := m; write_queue_ := write_queue_ s;
  is_writing_ := is_writing_ s; last_read_time_ := last_read_time_ s;
  next_object := next_object s |}.
Definition set_writes (q : list QueuedFrame) (w : bool) (s : Session) : Session := {|
  is_server_ := is_server_ s; stopped_ := stopped_ s; next_stream_id_ := next_stream_id_ s;
  on_new_stream_ := on_new_stream_ s; streams_ := streams_ s; write_queue_ := q;
  is_writing_ := w; last_read_time_ := last_read_time_ s; next_object := next_object s |}.
Definition set_callback (b : bool) (s : Session) : Session := {|
  is_server_ := is_server_ s; stopped_ := stopped_ s; next_stream_id_ := next_stream_id_ s;
  on_new_stream_ := b; streams_ := streams_ s; write_queue_ := write_queue_ s;
  is_writing_ := is_writing_ s; last_read_time_ := last_read_time_ s;
  next_object := next_object s |}.
Definition set_read_time (t : Z) (s : Session) : Session := {|
  is_server_ := is_server_ s; stopped_ := stopped_ s; next_stream_id_ := next_stream_id_ s;
  on_new_stream_ := on_new_stream_ s; streams_ := streams_ s; write_queue_ := write_queue_ s;
  is_writing_ := is_writing_ s; last_read_time_ := t; next_object := next_object s |}.
(** A new stream object, stored under [id]. *)
Definition make_stream (id next : Z) (s : Session) : Session * nat := ({|
  is_server_ := is_server_ s; stopped_ := stopped_ s; next_stream_id_ := next;
  on_new_stream_ := on_new_stream_ s; streams_ := <[id := next_object s]> (streams_ s);
  write_queue_ := write_queue_ s; is_writing_ := is_writing_ s;
  last_read_time_ := last_read_time_ s; next_object := S (next_object s) |}, next_object s).

(** ** Writing frames *)
Definition do_write (s : Session) : Session * list session_action :=
  match write_queue_ s with
  | [] => (set_writes [] false s, [])
  | pw :: _ => (s, [write_underlying (write_buffers pw)])
  end.

Definition async_send_frame (h : Header) (bodies : list (list byte))
    (handler : option (nat * completion)) (s : Session) : Session * list session_action :=
  let pw := {| qf_header := encode h;
               qf_bodies := filter (fun b => 0 < zlen b) bodies; qf_handler := handler |} in
  let s1 := set_writes (write_queue_ s ++ [pw]) (is_writing_ s) s in
  if is_writing_ s then (s1, [])
  else do_write (set_writes (write_queue_ s1) true s1).

(** ** Stopping *)
Definition stop (s : Session) : Session * list session_action :=
  if stopped_ s then (s, []) else
  ({| is_server_ := is_server_ s; stopped_ := true; next_stream_id_ := next_stream_id_ s;
      on_new_stream_ := false; streams_ := ∅; write_queue_ := write_queue_ s;
      is_writing_ := is_writing_ s; last_read_time_ := last_read_time_ s;
      next_object := next_object s |},
   cancel_timer :: close_underlying ::
   map (fun '(_, obj) => to_stream obj ev_remote_close) (map_to_list (streams_ s))).

(** The completion of the underlying write of the front frame [pw]. *)
Definition on_write_done (pw : QueuedFrame) (ec : error_code) (s : Session)
  : Session * list session_action :=
  let s1 := set_writes (tail (write_queue_ s)) (is_writing_ s) s in
  let calls := match qf_handler pw with
               | Some (obj, c) => [call_handler obj c ec] | None => [] end in
  let '(s2, acts) := if decide (ec = ec_ok) then do_write s1 else stop s1 in
  (s2, calls ++ acts).

(** ** Streams *)
Definition open_stream (s : Session) : Session * nat * list session_action :=
  let id := next_stream_id_ s in
  let '(s1, obj) := make_stream id (wrap 32 (next_stream_id_ s + 2)) s in
  let '(s2, acts) := async_send_frame (mk_header Data SYN id 0) [] None s1 in
  (s2, obj, acts).

Definition remove_stream (stream_id : Z) (s : Session) : Session :=
  set_streams (delete stream_id (streams_ s)) s.

(** ** Received frames *)
Definition handle_frame (h : Header) (body : list byte) (length : Z) (s : Session)
  : Session * list session_action :=
  if type h =? frame_type_code Data then
    let '(s1, stream, acts1) :=
      match streams_ s !! stream_id h with
      | Some obj => (s, Some obj, [])
      | None =>
        if has_flag (flags h) SYN then
          let '(s1, obj) := make_stream (stream_id h) (next_stream_id_ s) s in
          let call := if on_new_stream_ s then [call_new_stream (stream_id h) obj] else [] in
          let '(s2, acts) := async_send_frame (mk_header Data ACK (stream_id h) 0) [] None s1 in
          (s2, Some obj, call ++ acts)
        else (s, None, [])
      end in
    let acts2 := match stream with
                 | Some obj =>
                   (if 0 <? length then [to_stream obj (ev_data body)] else []) ++
                   (if has_flag (flags h) FIN then [to_stream obj ev_remote_close] else [])
                 | None => [] end in
    (s1, acts1 ++ acts2)
  else if type h =? frame_type_code WindowUpdate then
    (s, match streams_ s !! stream_id h with
        | Some obj => [to_stream obj (ev_window (length_ h))] | None => [] end)
  else if type h =? frame_type_code Ping then
    if has_flag (flags h) SYN then async_send_frame (mk_header Ping ACK 0 0) [] None s
    else (s, [])
  else if type h =? frame_type_code GoAway then stop s
  else stop s.

(** The completion of the read of a header. *)
Definition on_header_read (ec : error_code) (header_buf : list byte) (now : Z) (s : Session)
  : Session * list session_action :=
  if stopped_ s then (s, []) else
  if decide (ec = ec_ok) then
    let s1 := set_read_time now s in
    let header := decode header_buf in
    if (type header =? frame_type_code Data) && (0 <? length_ header) then
      if MAX_MESSAGE_SIZE <? length_ header then stop s1
      else (s1, [read_body header])
    else
      let '(s2, acts) := handle_frame header [] 0 s1 in
      (s2, acts ++ [read_header])
  else stop s.

(** The completion of the read of a body. *)
Definition on_body_read (h : Header) (ec : error_code) (body : list byte) (now : Z) (s : Session)
  : Session * list session_action :=
  if stopped_ s then (s, []) else
  if decide (ec = ec_ok) then
    let '(s2, acts) := handle_frame h body (length_ h) (set_read_time now s) in
    (s2, acts ++ [read_header])
  else stop s.

(** ** Heartbeat *)
Definition start (s : Session) : Session * list session_action :=
  (set_callback true s, [read_header; arm_timer 30]).

Definition on_heartbeat (ec : error_code) (now : Z) (s : Session)
  : Session * list session_action :=
  if decide (ec = ec_ok) then
    if 120 <? now - last_read_time_ s then stop s
    else
      let '(s1, acts) := async_send_frame (mk_header Ping SYN 0 0) [] None s in
      (s1, acts ++ [arm_timer 30])
  else (s, []).

(** ** The receive loop over a byte stream *)
(** The read an operation leaves outstanding: a header, a body, or none. *)
Definition next_read (acts : list session_action) : option (option Header) :=
  match last acts with
  | Some read_header => Some None
  | Some (read_body h) => Some (Some h)
  | _ => None
  end.

(** Completes the outstanding read [expect] from [bytes] as long as enough of
    them are there; [fuel] bounds the number of reads. *)
Fixpoint receive (fuel : nat) (now : Z) (expect : option (option Header)) (bytes : list byte)
    (s : Session) : Session * list session_action * option (option Header) * list byte :=
  match fuel, expect with
  | S fuel', Some None =>
    if zlen bytes <? header_size then (s, [], expect, bytes) else
    let '(s1, a1) := on_header_read ec_ok (ztake header_size bytes) now s in
    let '(s2, a2, e, rest) := receive fuel' now (next_read a1) (zdrop header_size bytes) s1 in
    (s2, a1 ++ a2, e, rest)
  | S fuel', Some (Some h) =>
    if zlen bytes <? length_ h then (s, [], expect, bytes) else
    let '(s1, a1) := on_body_read h ec_ok (ztake (length_ h) bytes) now s in
    let '(s2, a2, e, rest) := receive fuel' now (next_read a1) (zdrop (length_ h) bytes) s1 in
    (s2, a1 ++ a2, e, rest)
  | _, _ => (s, [], expect, bytes)
  end.

(** ** Specification of the wire: a sequence of frames *)
Definition wire_frame : Type := Header * list byte.
Definition frame_bytes (f : wire_frame) : list byte := encode f.1 ++ f.2.

(** Frames the session of the peer produces: a Data frame's length field is the
    size of its body, at most [MAX_MESSAGE_SIZE]; other frames have no body. *)
Definition frame_valid (f : wire_frame) : Prop :=
  header_wf f.1 /\
  (type f.1 = frame_type_code Data /\ length_ f.1 = zlen f.2 /\ zlen f.2 <= MAX_MESSAGE_SIZE \/
   (type f.1 = frame_type_code WindowUpdate \/ type f.1 = frame_type_code Ping) /\ f.2 = []).

(** Handling frames one after another. *)
Fixpoint handle_frames (now : Z) (fs : list wire_frame) (s : Session)
  : Session * list session_action :=
  match fs with
  | [] => (s, [])
  | (h, body) :: fs' =>
    let '(s1, a1) := handle_frame h body (zlen body) (set_read_time now s) in
    let '(s2, a2) := handle_frames now fs' s1 in (s2, a1 ++ a2)
  end.

(** The effects of actions other than asking for more bytes. *)
Definition is_read (a : session_action) : bool :=
  match a with read_header | read_body _ => true | _ => false end.
Definition effects (acts : list session_action) : list session_action :=
  filter (fun a => is_read a = false) acts.

(** ** Sending, with the underlying stream's completions *)
Inductive send_op : Type :=
| op_send (h : Header) (bodies : list (list byte)) (handler : option (nat * completion))
| op_done (ec : error_code).

Definition wrote (acts : list session_action) : list (list byte) :=
  omap (fun a => match a with write_underlying b => Some b | _ => None end) acts.
Definition called (acts : list session_action) : list (nat * completion * error_code) :=
  omap (fun a => match a with call_handler o c ec => Some (o, c, ec) | _ => None end) acts.

(** [out] is the frame whose underlying write is outstanding. *)
Definition send_step (op : send_op) (st : Session * option QueuedFrame)
  : option (Session * option QueuedFrame * list session_action) :=
  let '(s, out) := st in
  match op with
  | op_send h bodies handler =>
    let '(s1, acts) := async_send_frame h bodies handler s in
    Some (s1, (match wrote acts with [] => out | _ => head (write_queue_ s1) end), acts)
  | op_done ec =>
    match out with
    | None => None
    | Some pw =>
      let '(s1, acts) := on_write_done pw ec s in
      Some (s1, (match wrote acts with [] => None | _ => head (write_queue_ s1) end), acts)
    end
  end.

Fixpoint send_run (ops : list send_op) (st : Session * option QueuedFrame)
  : option (Session * option QueuedFrame * list session_action) :=
  match ops with
  | [] => Some (st, [])
  | op :: ops' =>
    '(st1, a1) ← send_step op st;
    '(st2, a2) ← send_run ops' st1;
    mret (st2, a1 ++ a2)
  end.

Definition sent_frames (ops : list send_op) : list (list byte) :=
  omap (fun op => match op with
                  | op_send h bodies _ => Some (encode h ++ concat bodies) | _ => None end) ops.
(** The frames of the sends. *)
Definition frames_sent (ops : list send_op) : list wire_frame :=
  omap (fun op => match op with op_send h bodies _ => Some (h, concat bodies) | _ => None end) ops.
Lemma sent_frames_bytes ops : sent_frames ops = map frame_bytes (frames_sent ops).
Proof.
  unfold sent_frames, frames_sent. induction ops as [|[h bodies c|ec] ops IH]; [done| |done].
  exact (f_equal (cons _) IH).
Qed.
Definition sent_handlers (ops : list send_op) : list (nat * completion) :=
  omap (fun op => match op with op_send _ _ c => c | _ => None end) ops.
Definition all_done_ok (ops : list send_op) : Prop :=
  Forall (fun op => match op with op_done ec => ec = ec_ok | _ => True end) ops.

(** ** Histories of a session *)
Inductive session_op : Type :=
| op_open
| op_remove (id : Z)
| op_frame (h : Header) (bodies : list (list byte)) (handler : option (nat * completion))
| op_header (ec : error_code) (buf : list byte) (now : Z)
| op_body (h : Header) (ec : error_code) (body : list byte) (now : Z)
| op_write_done (pw : QueuedFrame) (ec : error_code)
| op_heartbeat (ec : error_code) (now : Z)
| op_stop.

Definition session_step (op : session_op) (s : Session) : Session * list session_action :=
  match op with
  | op_open => let '(s1, _, acts) := open_stream s in (s1, acts)
  | op_remove id => (remove_stream id s, [])
  | op_frame h bodies handler => async_send_frame h bodies handler s
  | op_header ec buf now => on_header_read ec buf now s
  | op_body h ec body now => on_body_read h ec body now s
  | op_write_done pw ec => on_write_done pw ec s
  | op_heartbeat ec now => on_heartbeat ec now s
  | op_stop => stop s
  end.

Fixpoint session_run (ops : list session_op) (s : Session) : Session * list session_action :=
  match ops with
  | [] => (s, [])
  | op :: ops' =>
    let '(s1, a1) := session_step op s in
    let '(s2, a2) := session_run ops' s1 in (s2, a1 ++ a2)
  end.

(** ** Lemmas: the receive loop *)
Lemma handle_frame_no_reads h body len s :
  effects (handle_frame h body len s).2 = (handle_frame h body len s).2.
Proof.
  assert (Hsend : forall h b c s0, Forall (fun a => is_read a = false) (async_send_frame h b c s0).2).
  { intros. unfold async_send_frame, do_write. cbn [write_queue_ set_writes].
    repeat case_match; repeat constructor. }
  assert (Hstop : forall s0, Forall (fun a => is_read a = false) (stop s0).2).
  { intros. unfold stop. case_match; [constructor|]. cbn. repeat constructor.
    apply Forall_map, Forall_forall. intros [? ?] _. done. }
  unfold effects. assert (H : Forall (fun a => is_read a = false) (handle_frame h body len s).2).
  { unfold handle_frame. case_match; [|repeat case_match; auto; repeat constructor].
    destruct (streams_ s !! stream_id h); [|destruct (has_flag (flags h) SYN)].
    - cbn. repeat case_match; repeat constructor.
    - destruct (make_stream _ _ _) as [s1 obj]. specialize (Hsend (mk_header Data ACK (stream_id h) 0) [] None s1).
      destruct (async_send_frame _ _ _ s1) as [s2 acts]. cbn in *.
      repeat apply Forall_app_2; auto; repeat case_match; repeat constructor.
    - cbn. constructor. }
  induction H as [|a l Ha Hl IH]; [done|]. rewrite filter_cons. rewrite decide_True by done. by f_equal.
Qed.

Lemma effects_app xs ys : effects (xs ++ ys) = effects xs ++ effects ys.
Proof. apply filter_app. Qed.

Lemma async_send_frame_keeps h b c s :
  let s1 := (async_send_frame h b c s).1 in
  stopped_ s1 = stopped_ s /\ next_stream_id_ s1 = next_stream_id_ s /\
  streams_ s1 = streams_ s /\ is_server_ s1 = is_server_ s /\ next_object s1 = next_object s /\
  on_new_stream_ s1 = on_new_stream_ s.
Proof.
  unfold async_send_frame, do_write. cbn [write_queue_ set_writes].
  destruct (is_writing_ s); [done|]. by destruct (write_queue_ s).
Qed.

Lemma handle_frame_running f s :
  frame_valid f -> stopped_ (handle_frame f.1 f.2 (zlen f.2) s).1 = stopped_ s.
Proof.
  intros [_ Hf]. unfold handle_frame.
  destruct Hf as [(-> & _)|[[->| ->] _]]; [| |].
  - change (frame_type_code Data =? frame_type_code Data) with true. cbn iota.
    destruct (streams_ s !! stream_id f.1); [done|]. destruct (has_flag (flags f.1) SYN); [|done].
    destruct (make_stream _ _ _) as [s1 obj] eqn:E.
    pose proof (async_send_frame_keeps (mk_header Data ACK (stream_id f.1) 0) [] None s1) as H.
    destruct (async_send_frame _ _ _ s1) as [s2 acts]. cbn in *. destruct H as [-> _].
    by injection E as <- <-.
  - done.
  - cbn.
    destruct (has_flag (flags f.1) SYN); [|done].
    by pose proof (async_send_frame_keeps (mk_header Ping ACK 0 0) [] None s) as [-> _].
Qed.

Lemma next_read_snoc acts a :
  next_read (acts ++ [a]) =
    match a with read_header => Some None | read_body h => Some (Some h) | _ => None end.
Proof. unfold next_read. by rewrite last_snoc. Qed.

Lemma set_read_time_twice now s : set_read_time now (set_read_time now s) = set_read_time now s.
Proof. done. Qed.

(** One frame at the head of the bytes is received in at most two reads. *)
Lemma receive_frame now f s rest fuel :
  frame_valid f -> stopped_ s = false ->
  exists fuel' acts, (fuel <= fuel')%nat /\ (fuel' <= S fuel)%nat /\
    effects acts = (handle_frame f.1 f.2 (zlen f.2) (set_read_time now s)).2 /\
    receive (S (S fuel)) now (Some None) (frame_bytes f ++ rest) s =
      (let '(s2, a2, e, r) := receive fuel' now (Some None) rest
         (handle_frame f.1 f.2 (zlen f.2) (set_read_time now s)).1 in (s2, acts ++ a2, e, r)).
Proof.
  intros Hf Hs. destruct f as [h body]. unfold frame_bytes. cbn [fst snd] in *.
  destruct (Hf) as [Hwf Hcase]. cbn [fst snd] in *.
  assert (Henc : zlen (encode h) = 12) by done.
  pose proof (handle_frame_no_reads h body (zlen body) (set_read_time now s)) as Heff.
  remember (S fuel) as fuel1 eqn:Ef1. cbn [receive].
  replace (zlen ((encode h ++ body) ++ rest) <? header_size) with false
    by (symmetry; apply Z.ltb_ge; unfold header_size; rewrite !zlen_app, Henc;
        pose proof (zlen_nonneg body); pose proof (zlen_nonneg rest); lia).
  rewrite <- app_assoc, (ztake_app_exact header_size (encode h)), (zdrop_app_exact header_size (encode h)) by done.
  unfold on_header_read. rewrite Hs, decide_True by done.
  rewrite header_decode_encode by done.
  destruct ((type h =? frame_type_code Data) && (0 <? length_ h)) eqn:Edata.
  - bool_hyps. destruct Hcase as [(_ & Hlen & Hmax)|[[Ht|Ht] _]];
      [|rewrite Ht in *; done..].
    replace (MAX_MESSAGE_SIZE <? length_ h) with false by (symmetry; apply Z.ltb_ge; lia).
    change (next_read [read_body h]) with (Some (Some h)). subst fuel1. cbn [receive].
    replace (zlen (body ++ rest) <? length_ h) with false
      by (symmetry; apply Z.ltb_ge; rewrite zlen_app; pose proof (zlen_nonneg rest); lia).
    rewrite (ztake_app_exact _ body), (zdrop_app_exact _ body) by done.
    unfold on_body_read. cbn [stopped_ set_read_time]. rewrite Hs, decide_True by done.
    rewrite set_read_time_twice, Hlen.
    destruct (handle_frame h body (zlen body) _) as [s1 a1]. cbn [fst snd] in *.
    exists fuel, (read_body h :: a1 ++ [read_header]). split; [lia|]. split; [lia|]. split.
    + change (effects (a1 ++ [read_header]) = a1). rewrite effects_app, Heff. apply app_nil_r.
    + rewrite next_read_snoc. destruct (receive fuel now _ rest s1) as [[[s2 a2] e] r]. done.
  - assert (Hbody : body = []).
    { destruct Hcase as [(Ht & Hlen & _)|[_ Hb]]; [|done]. apply zlen_0_nil.
      pose proof (zlen_nonneg body). rewrite Ht in Edata. cbn in Edata. bool_hyps. lia. }
    subst body. cbn [app]. change (zlen []) with 0 in *.
    destruct (handle_frame h [] 0 _) as [s1 a1]. cbn [fst snd] in *.
    exists (S fuel), (a1 ++ [read_header]). split; [lia|]. split; [lia|]. subst fuel1. split.
    + rewrite effects_app, Heff. apply app_nil_r.
    + rewrite next_read_snoc. cbn [app]. destruct (receive (S fuel) now _ rest s1) as [[[s2 a2] e] r]. done.
Qed.

Lemma receive_frames now fs s fuel :
  Forall frame_valid fs -> stopped_ s = false -> (2 * length fs <= fuel)%nat ->
  exists acts, receive fuel now (Some None) (concat (map frame_bytes fs)) s =
    ((handle_frames now fs s).1, acts, Some None, []) /\
    effects acts = (handle_frames now fs s).2.
Proof.
  revert s fuel. induction fs as [|f fs IH]; intros s fuel Hfs Hs Hfuel.
  - exists []. split; [|done]. destruct fuel; done.
  - apply Forall_cons in Hfs as [Hf Hfs]. cbn [length] in Hfuel.
    destruct fuel as [|[|fuel]]; [lia..|].
    destruct (receive_frame now f s (concat (map frame_bytes fs)) fuel Hf Hs)
      as (fuel' & acts & Hge & _ & Heff & Hrec).
    destruct (IH (handle_frame f.1 f.2 (zlen f.2) (set_read_time now s)).1 fuel')
      as (acts' & Hrec' & Heff'); [done|by rewrite handle_frame_running|lia|].
    exists (acts ++ acts'). cbn [map concat]. rewrite Hrec, Hrec', effects_app, Heff, Heff'.
    destruct f as [h body]. cbn [handle_frames fst snd].
    destruct (handle_frame h body _ _) as [s1 a1]. cbn [fst snd].
    by destruct (handle_frames now fs s1).
Qed.

(** ** Lemmas: sending *)
Definition send_inv (st : Session * option QueuedFrame) : Prop :=
  match st.2 with
  | None => write_queue_ st.1 = [] /\ is_writing_ st.1 = false
  | Some pw => (exists q, write_queue_ st.1 = pw :: q) /\ is_writing_ st.1 = true
  end.
Definition unwritten (s : Session) : list (list byte) := map write_buffers (tail (write_queue_ s)).
Definition queued_handlers (s : Session) : list (nat * completion) :=
  omap qf_handler (write_queue_ s).

Lemma wrote_app xs ys : wrote (xs ++ ys) = wrote xs ++ wrote ys.
Proof. apply omap_app. Qed.
Lemma called_app xs ys : called (xs ++ ys) = called xs ++ called ys.
Proof. apply omap_app. Qed.

Lemma filter_nonempty_concat (bodies : list (list byte)) :
  concat (filter (fun b => 0 < zlen b) bodies) = concat bodies.
Proof.
  induction bodies as [|b bodies IH]; [done|]. rewrite filter_cons. case_decide as H; cbn.
  - by rewrite IH.
  - pose proof (zlen_nonneg b). rewrite (zlen_0_nil b) by lia. done.
Qed.

Definition with_ok (c : nat * completion) : nat * completion * error_code := (c, ec_ok).

Lemma send_step_ok op st st' acts :
  send_inv st -> (match op with op_done ec => ec = ec_ok | _ => True end) ->
  send_step op st = Some (st', acts) ->
  send_inv st' /\ wrote acts ++ unwritten st'.1 = unwritten st.1 ++ sent_frames [op] /\
  called acts ++ map with_ok (queued_handlers st'.1) =
    map with_ok (queued_handlers st.1 ++ sent_handlers [op]).
Proof.
  destruct st as [s out]. unfold send_inv, unwritten, queued_handlers. cbn [fst snd].
  intros Hinv Hop Hstep. destruct op as [h bodies c|ec]; cbn [send_step] in Hstep.
  - assert (Hsent : sent_frames [op_send h bodies c] = [encode h ++ concat bodies]) by done.
    assert (Hh : sent_handlers [op_send h bodies c] = omap qf_handler
      [{| qf_header := encode h; qf_bodies := filter (fun b => 0 < zlen b) bodies; qf_handler := c |}])
      by (by destruct c).
    unfold async_send_frame in Hstep. destruct out as [pw|].
    + destruct Hinv as [[q Hq] Hw]. rewrite Hw in Hstep. cbn in Hstep. injection Hstep as <- <-.
      cbn [fst snd write_queue_ set_writes is_writing_]. rewrite Hsent, Hh, Hq.
      split; [by eauto|]. cbn [app tail]. split.
      * rewrite map_app. cbn. unfold write_buffers at 2. cbn. by rewrite filter_nonempty_concat.
      * by rewrite <- omap_app.
    + destruct Hinv as [Hq Hw]. rewrite Hw in Hstep. rewrite Hq in *. cbn in Hstep.
      injection Hstep as <- <-. cbn [fst snd write_queue_ set_writes is_writing_].
      rewrite Hsent, Hh. split; [by eauto|]. split; [|done].
      cbn. unfold write_buffers. cbn. by rewrite filter_nonempty_concat.
  - subst ec. destruct out as [pw|]; [|done]. destruct Hinv as [[q Hq] Hw].
    unfold on_write_done, do_write in Hstep. rewrite decide_True, Hq in Hstep by done.
    cbn [tail write_queue_ set_writes] in Hstep.
    change (sent_frames [op_done ec_ok]) with (@nil (list byte)).
    change (sent_handlers [op_done ec_ok]) with (@nil (nat * completion)).
    rewrite Hq, !app_nil_r. destruct q as [|pw' q].
    + injection Hstep as <- <-. destruct (qf_handler pw) as [[o c]|] eqn:Eh;
        cbn; rewrite ?Eh; done.
    + assert (Hacts : st' = (set_writes (pw' :: q) (is_writing_ s) s, Some pw') /\
        acts = (match qf_handler pw with Some (obj, c) => [call_handler obj c ec_ok] | None => [] end)
               ++ [write_underlying (write_buffers pw')]).
      { destruct (qf_handler pw) as [[o c]|]; cbn in Hstep; by injection Hstep as <- <-. }
      destruct Hacts as [-> ->]. cbn [fst snd write_queue_ set_writes is_writing_ tail].
      split; [by eauto|]. rewrite wrote_app, called_app.
      destruct (qf_handler pw) as [[o c]|] eqn:Eh; cbn; rewrite ?Eh; done.
Qed.

Lemma send_run_ok ops st st' acts :
  send_inv st -> all_done_ok ops -> send_run ops st = Some (st', acts) ->
  send_inv st' /\ wrote acts ++ unwritten st'.1 = unwritten st.1 ++ sent_frames ops /\
  called acts ++ map with_ok (queued_handlers st'.1) =
    map with_ok (queued_handlers st.1 ++ sent_handlers ops).
Proof.
  revert st acts. induction ops as [|op ops IH]; intros st acts Hinv Hok Hrun.
  - injection Hrun as <- <-. cbn. by rewrite !app_nil_r.
  - apply Forall_cons in Hok as [Hop Hok]. cbn [send_run] in Hrun.
    destruct (send_step op st) as [[st1 a1]|] eqn:E1; [|done]. cbn [mbind option_bind] in Hrun.
    destruct (send_run ops st1) as [[st2 a2]|] eqn:E2; [|done]. injection Hrun as <- <-.
    apply send_step_ok in E1 as (Hi1 & Hw1 & Hc1); [|done..].
    apply IH in E2 as (Hi2 & Hw2 & Hc2); [|done..]. split; [done|].
    change (op :: ops) with ([op] ++ ops). unfold sent_frames, sent_handlers in *.
    rewrite wrote_app, called_app, !omap_app. split.
    + by rewrite <- app_assoc, Hw2, !app_assoc, Hw1.
    + rewrite <- app_assoc, Hc2, map_app, app_assoc, Hc1. by rewrite <- map_app, <- app_assoc.
Qed.

(** After a failed write nothing more is written and no handler is called. *)
Lemma send_run_dead ops s st' acts :
  is_writing_ s = true -> send_run ops (s, None) = Some (st', acts) ->
  wrote acts = [] /\ called acts = [].
Proof.
  revert s acts. induction ops as [|op ops IH]; intros s acts Hw Hrun.
  - by injection Hrun as <- <-.
  - cbn [send_run] in Hrun. destruct op as [h b c|ec]; [|done]. cbn [send_step] in Hrun.
    unfold async_send_frame in Hrun. rewrite Hw in Hrun. cbn [mbind option_bind] in Hrun.
    change (wrote []) with (@nil (list byte)) in Hrun. cbn iota in Hrun.
    destruct (send_run ops _) as [[st2 a2]|] eqn:E2; [|done]. injection Hrun as <- <-.
    by apply IH in E2.
Qed.

Lemma stop_quiet s : wrote (stop s).2 = [] /\ called (stop s).2 = [].
Proof.
  unfold stop. destruct (stopped_ s); [done|]. cbn [snd].
  induction (map_to_list (streams_ s)) as [|[i o] l [IH1 IH2]]; [done|]. cbn in *. by split.
Qed.

(** ** Lemmas: stream identifiers *)
Definition own_parity (s : Session) : Z := if is_server_ s then 0 else 1.

(** [k] streams have been opened locally so far. *)
Record ids_inv (k : Z) (s : Session) : Prop := {
  ii_next : next_stream_id_ s = (if is_server_ s then 2 else 1) + 2 * k;
  ii_keys : forall id obj, streams_ s !! id = Some obj ->
    id mod 2 = own_parity s -> id < next_stream_id_ s;
  ii_objs : forall id obj, streams_ s !! id = Some obj -> (obj < next_object s)%nat;
  ii_inj : forall id1 id2 obj, streams_ s !! id1 = Some obj -> streams_ s !! id2 = Some obj ->
    id1 = id2
}.

(** Frames that open a stream carry an identifier of the peer's parity. *)
Definition syn_ok (server : bool) (op : session_op) : Prop :=
  let bad h := has_flag (flags h) SYN = true /\ stream_id h mod 2 = (if server then 0 else 1) in
  match op with
  | op_header _ buf _ => ~ bad (decode buf)
  | op_body h _ _ _ => ~ bad h
  | _ => True
  end.
Fixpoint opens (ops : list session_op) : Z :=
  match ops with
  | [] => 0
  | op_open :: ops' => 1 + opens ops'
  | _ :: ops' => opens ops'
  end.

(** [s'] has no stream [s] has not, and hands out the same identifiers. *)
Definition ids_same (s s' : Session) : Prop :=
  is_server_ s' = is_server_ s /\ next_stream_id_ s' = next_stream_id_ s /\
  (streams_ s' ⊆ streams_ s) /\ next_object s' = next_object s.

Lemma ids_same_trans s1 s2 s3 : ids_same s1 s2 -> ids_same s2 s3 -> ids_same s1 s3.
Proof.
  intros (Ha1 & Ha2 & Ha3 & Ha4) (Hb1 & Hb2 & Hb3 & Hb4). unfold ids_same.
  split_and!; try congruence. by etrans.
Qed.

Lemma ids_same_inv k s s' : ids_same s s' -> ids_inv k s -> ids_inv k s'.
Proof.
  intros (Hsv & Hn & Hsub & Ho) [H1 H2 H3 H4]. unfold own_parity in *.
  split; rewrite ?Hsv, ?Hn, ?Ho; try done.
  - unfold own_parity. rewrite Hsv. intros id obj Hl. eapply H2. by eapply lookup_weaken.
  - intros id obj Hl. eapply H3. by eapply lookup_weaken.
  - intros id1 id2 obj Hl1 Hl2. eapply H4; by eapply lookup_weaken.
Qed.

Lemma send_ids_same h b c s : ids_same s (async_send_frame h b c s).1.
Proof.
  unfold ids_same. pose proof (async_send_frame_keeps h b c s) as (_ & -> & -> & -> & -> & _).
  done.
Qed.

Lemma stop_ids_same s : ids_same s (stop s).1.
Proof.
  unfold stop, ids_same. destruct (stopped_ s); [done|]. cbn. split_and!; try done.
  apply map_empty_subseteq.
Qed.

Lemma make_stream_inv k id next s :
  ids_inv k s -> (id mod 2 = own_parity s -> id < next) ->
  (next = next_stream_id_ s /\ (id mod 2 = own_parity s -> False) \/
   next = next_stream_id_ s + 2) ->
  ids_inv (if next =? next_stream_id_ s then k else k + 1) (make_stream id next s).1.
Proof.
  intros [H1 H2 H3 H4] Hid Hnext. unfold make_stream. cbn [fst].
  split; cbn [next_stream_id_ is_server_ streams_ next_object].
  - destruct (Z.eqb_spec next (next_stream_id_ s)); lia.
  - intros i o Hl Hp. change (i mod 2 = own_parity s) in Hp.
    apply lookup_insert_Some in Hl as [[<- _]|[_ Hl]]; [auto|]. specialize (H2 _ _ Hl Hp). lia.
  - intros i o Hl. apply lookup_insert_Some in Hl as [[_ <-]|[_ Hl]]; [lia|].
    apply H3 in Hl. lia.
  - intros i1 i2 o Hl1 Hl2.
    apply lookup_insert_Some in Hl1 as [[<- Ho1]|[_ Hl1]];
    apply lookup_insert_Some in Hl2 as [[<- Ho2]|[_ Hl2]]; try done.
    + apply H3 in Hl2. lia.
    + apply H3 in Hl1. lia.
    + by eapply H4.
Qed.

Lemma handle_frame_ids k h body len s :
  ids_inv k s -> ~ (has_flag (flags h) SYN = true /\ stream_id h mod 2 = own_parity s) ->
  ids_inv k (handle_frame h body len s).1.
Proof.
  intros Hinv Hok. unfold handle_frame.
  destruct (type h =? frame_type_code Data).
  - destruct (streams_ s !! stream_id h); [done|]. destruct (has_flag (flags h) SYN); [|done].
    pose proof (make_stream_inv k (stream_id h) (next_stream_id_ s) s Hinv) as Hm.
    rewrite Z.eqb_refl in Hm. destruct (make_stream _ _ s) as [s1 obj].
    pose proof (send_ids_same (mk_header Data ACK (stream_id h) 0) [] None s1) as Hs.
    destruct (async_send_frame _ _ _ s1) as [s2 acts]. cbn [fst] in *.
    eapply ids_same_inv; [exact Hs|]. apply Hm; [tauto|left; tauto].
  - destruct (type h =? frame_type_code WindowUpdate); [done|].
    destruct (type h =? frame_type_code Ping).
    + destruct (has_flag (flags h) SYN); [|done]. eapply ids_same_inv; [apply send_ids_same|done].
    + destruct (type h =? frame_type_code GoAway); (eapply ids_same_inv; [apply stop_ids_same|done]).
Qed.

Lemma do_write_ids_same s : ids_same s (do_write s).1.
Proof. unfold do_write. by destruct (write_queue_ s). Qed.

Lemma handle_frame_server h body len s : is_server_ (handle_frame h body len s).1 = is_server_ s.
Proof.
  unfold handle_frame. destruct (type h =? frame_type_code Data).
  - destruct (streams_ s !! stream_id h); [done|]. destruct (has_flag (flags h) SYN); [|done].
    unfold make_stream.
    match goal with |- context [async_send_frame ?h ?b ?c ?s0] =>
      pose proof (send_ids_same h b c s0) as [Hk _]; destruct (async_send_frame h b c s0) end.
    done.
  - destruct (type h =? frame_type_code WindowUpdate); [done|].
    destruct (type h =? frame_type_code Ping).
    + destruct (has_flag (flags h) SYN); [|done]. apply send_ids_same.
    + destruct (type h =? frame_type_code GoAway); apply stop_ids_same.
Qed.

Lemma is_server_step op s : is_server_ (session_step op s).1 = is_server_ s.
Proof.
  destruct op; cbn [session_step]; try done.
  - unfold open_stream, make_stream.
    match goal with |- context [async_send_frame ?h ?b ?c ?s0] =>
      pose proof (async_send_frame_keeps h b c s0) as (_ & _ & _ & Hk & _);
      destruct (async_send_frame h b c s0) end. done.
  - apply (send_ids_same h bodies handler s).
  - unfold on_header_read. destruct (stopped_ s); [done|]. case_decide; [|exact (proj1 (stop_ids_same _))].
    case_match; [case_match; [exact (proj1 (stop_ids_same _))|done]|].
    pose proof (handle_frame_server (decode buf) [] 0 (set_read_time now s)) as Hh.
    destruct (handle_frame _ _ _ _). done.
  - unfold on_body_read. destruct (stopped_ s); [done|]. case_decide; [|exact (proj1 (stop_ids_same _))].
    pose proof (handle_frame_server h body (length_ h) (set_read_time now s)) as Hh.
    destruct (handle_frame _ _ _ _). done.
  - unfold on_write_done. set (s1 := set_writes _ _ s). case_decide.
    + destruct (do_write_ids_same s1) as [Hd _]. by destruct (do_write s1).
    + destruct (stop_ids_same s1) as [Hd _]. by destruct (stop s1).
  - unfold on_heartbeat. case_decide; [|done]. case_match; [exact (proj1 (stop_ids_same _))|].
    pose proof (send_ids_same (mk_header Ping SYN 0 0) [] None s) as [Hd _].
    by destruct (async_send_frame _ _ _ s).
  - exact (proj1 (stop_ids_same _)).
Qed.

(** One operation: the identifiers handed out, the map's keys, the objects. *)
Lemma open_stream_ids k s : ids_inv k s -> 0 <= k -> 2 * (k + 1) + 2 < 2 ^ 32 ->
  ids_inv (k + 1) (session_step op_open s).1.
Proof.
  intros Hinv Hk Hlim. cbn [session_step].
  unfold open_stream. pose proof (ii_next _ _ Hinv) as Hnext.
  assert (Hwr : wrap 32 (next_stream_id_ s + 2) = next_stream_id_ s + 2).
  { unfold wrap. apply Z.mod_small. destruct (is_server_ s); lia. }
  pose proof (make_stream_inv k (next_stream_id_ s) (next_stream_id_ s + 2) s Hinv) as Hm.
  rewrite Hwr. destruct (make_stream _ _ s) as [s1 obj].
  pose proof (send_ids_same (mk_header Data SYN (next_stream_id_ s) 0) [] None s1) as Hs.
  destruct (async_send_frame _ _ _ s1) as [s2 acts]. cbn [fst] in *.
  eapply ids_same_inv; [exact Hs|].
  destruct (Z.eqb_spec (next_stream_id_ s + 2) (next_stream_id_ s)); [lia|].
  apply Hm; [lia|by right].
Qed.
Lemma remove_stream_ids k id s : ids_inv k s -> ids_inv k (session_step (op_remove id) s).1.
Proof.
  intros Hinv. cbn [session_step].
  destruct Hinv as [H1 H2 H3 H4]. unfold remove_stream.
  split; cbn [next_stream_id_ is_server_ streams_ next_object set_streams fst]; try done.
  + intros i o Hl. apply lookup_delete_Some in Hl as [_ Hl]. by eapply H2.
  + intros i o Hl. apply lookup_delete_Some in Hl as [_ Hl]. by eapply H3.
  + intros i1 i2 o Hl1 Hl2. apply lookup_delete_Some in Hl1 as [_ Hl1].
    apply lookup_delete_Some in Hl2 as [_ Hl2]. by eapply H4.
Qed.
Lemma session_step_ids op k s :
  ids_inv k s -> syn_ok (is_server_ s) op -> 0 <= k -> 2 * (k + 1) + 2 < 2 ^ 32 ->
  ids_inv (k + opens [op]) (session_step op s).1.
Proof.
  intros Hinv Hok Hk Hlim. destruct op; cbn [opens session_step]; rewrite ?Z.add_0_r.
  - by apply open_stream_ids.
  - by apply remove_stream_ids.
  - eapply ids_same_inv; [apply send_ids_same|done].
  - unfold on_header_read. destruct (stopped_ s); [done|].
    case_decide; [|eapply ids_same_inv; [apply stop_ids_same|done]].
    assert (Hinv' : ids_inv k (set_read_time now s)) by (destruct Hinv; by split).
    case_match; [case_match; [eapply ids_same_inv; [apply stop_ids_same|done]|done]|].
    pose proof (handle_frame_ids k (decode buf) [] 0 (set_read_time now s) Hinv' Hok) as Hh.
    by destruct (handle_frame _ _ _ _).
  - unfold on_body_read. destruct (stopped_ s); [done|].
    case_decide; [|eapply ids_same_inv; [apply stop_ids_same|done]].
    assert (Hinv' : ids_inv k (set_read_time now s)) by (destruct Hinv; by split).
    pose proof (handle_frame_ids k h body (length_ h) (set_read_time now s) Hinv' Hok) as Hh.
    by destruct (handle_frame _ _ _ _).
  - unfold on_write_done.
    assert (Hinv' : ids_inv k (set_writes (tail (write_queue_ s)) (is_writing_ s) s))
      by (destruct Hinv; by split). revert Hinv'. set (s1 := set_writes _ _ s). intros Hinv'.
    case_decide.
    + pose proof (ids_same_inv _ _ _ (do_write_ids_same s1) Hinv'). by destruct (do_write s1).
    + pose proof (ids_same_inv _ _ _ (stop_ids_same s1) Hinv'). by destruct (stop s1).
  - unfold on_heartbeat. case_decide; [|done].
    case_match; [eapply ids_same_inv; [apply stop_ids_same|done]|].
    pose proof (ids_same_inv _ _ _ (send_ids_same (mk_header Ping SYN 0 0) [] None s) Hinv).
    by destruct (async_send_frame _ _ _ s).
  - eapply ids_same_inv; [apply stop_ids_same|done].
Qed.

Lemma opens_nonneg ops : 0 <= opens ops.
Proof. induction ops as [|[] ops IH]; cbn; lia. Qed.

Lemma session_run_ids ops k s :
  ids_inv k s -> Forall (syn_ok (is_server_ s)) ops -> 0 <= k -> 2 * (k + opens ops) + 4 < 2 ^ 32 ->
  ids_inv (k + opens ops) (session_run ops s).1 /\ is_server_ (session_run ops s).1 = is_server_ s.
Proof.
  revert k s. induction ops as [|op ops IH]; intros k s Hinv Hok Hk Hlim.
  { cbn. by rewrite Z.add_0_r. }
  apply Forall_cons in Hok as [Hop Hok]. cbn [session_run].
  assert (Hsplit : opens (op :: ops) = opens [op] + opens ops) by (destruct op; cbn; lia).
  pose proof (opens_nonneg ops). pose proof (opens_nonneg [op]).
  rewrite Hsplit in *.
  assert (Hstep : ids_inv (k + opens [op]) (session_step op s).1).
  { destruct (decide (2 * (k + 1) + 2 < 2 ^ 32)); [by apply session_step_ids|].
    apply session_step_ids; try done. lia. }
  pose proof (is_server_step op s) as Hsv.
  destruct (session_step op s) as [s1 a1]. cbn [fst] in *.
  destruct (IH (k + opens [op]) s1) as [IH1 IH2]; [done|by rewrite Hsv|lia|lia|].
  destruct (session_run ops s1) as [s2 a2]. cbn [fst] in *.
  rewrite Z.add_assoc, IH2. done.
Qed.

(** ** Lemmas: shutting down *)
Fixpoint closes (acts : list session_action) : Z :=
  match acts with
  | [] => 0
  | close_underlying :: acts' => 1 + closes acts'
  | _ :: acts' => closes acts'
  end.
(** A body the session asks to read has a size and fits [MAX_MESSAGE_SIZE]; a
    stream is announced only while the session runs. *)
Definition action_ok (running : bool) (a : session_action) : Prop :=
  match a with
  | read_body h => 0 < length_ h <= MAX_MESSAGE_SIZE
  | call_new_stream _ _ => running = true
  | _ => True
  end.
Definition step_ok (s s' : Session) (acts : list session_action) : Prop :=
  closes acts + Z.b2z (stopped_ s) = Z.b2z (stopped_ s') /\
  Forall (action_ok (negb (stopped_ s))) acts /\
  ((stopped_ s = true -> on_new_stream_ s = false) -> stopped_ s' = true -> on_new_stream_ s' = false).

Lemma step_ok_refl s : step_ok s s [].
Proof. unfold step_ok. split; [done|]. split; [constructor|]. auto. Qed.

Lemma closes_app xs ys : closes (xs ++ ys) = closes xs + closes ys.
Proof. induction xs as [|[] xs IH]; cbn; lia. Qed.

Lemma send_step_ok' h b c s :
  step_ok s (async_send_frame h b c s).1 (async_send_frame h b c s).2.
Proof.
  unfold step_ok. pose proof (async_send_frame_keeps h b c s) as (-> & _ & _ & _ & _ & ->).
  unfold async_send_frame, do_write. cbn [write_queue_ set_writes].
  split; [|split; [|done]]; repeat case_match; try done; repeat constructor.
Qed.

Lemma stop_step_ok s : step_ok s (stop s).1 (stop s).2.
Proof.
  unfold step_ok, stop. destruct (stopped_ s) eqn:E; cbn [fst snd]; [by rewrite E|]. cbn [fst snd stopped_].
  split; [|split; [|done]].
  - induction (map_to_list (streams_ s)) as [|[i o] l IH]; [done|]. exact IH.
  - repeat constructor. apply Forall_map, Forall_forall. by intros [? ?] _.
Qed.

Lemma step_ok_snoc s s' acts a :
  step_ok s s' acts -> action_ok (negb (stopped_ s)) a -> closes [a] = 0 -> step_ok s s' (acts ++ [a]).
Proof.
  intros (H1 & H2 & H3) Ha Hc. split; [|split; [|done]].
  - rewrite closes_app. lia.
  - apply Forall_app. split; [done|]. by constructor.
Qed.

Lemma handle_frame_step_ok h body len s :
  (stopped_ s = true -> on_new_stream_ s = false) ->
  step_ok s (handle_frame h body len s).1 (handle_frame h body len s).2.
Proof.
  intros Hcb. unfold handle_frame. destruct (type h =? frame_type_code Data).
  - assert (Hto : forall o, closes ((if 0 <? len then [to_stream o (ev_data body)] else []) ++
        (if has_flag (flags h) FIN then [to_stream o ev_remote_close] else [])) = 0 /\
      Forall (action_ok (negb (stopped_ s))) ((if 0 <? len then [to_stream o (ev_data body)] else []) ++
        (if has_flag (flags h) FIN then [to_stream o ev_remote_close] else []))).
    { intros o. repeat case_match; cbn; split; try done; repeat constructor. }
    destruct (streams_ s !! stream_id h) as [o|]; [|destruct (has_flag (flags h) SYN)].
    + destruct (Hto o) as [H1 H2]. unfold step_ok. cbn [fst snd app]. rewrite H1. done.
    + unfold make_stream.
      match goal with |- context [async_send_frame ?h ?b ?c ?s0] =>
        pose proof (send_step_ok' h b c s0) as (Hs1 & Hs2 & Hs3);
        destruct (async_send_frame h b c s0) as [s2 acts] end.
      cbn [fst snd stopped_ on_new_stream_] in *. destruct (Hto (next_object s)) as [H1 H2].
      split; [|split; [|done]].
      * rewrite (closes_app (_ ++ acts)), H1, closes_app. destruct (on_new_stream_ s); cbn [closes]; lia.
      * apply Forall_app_2; [|exact H2]. apply Forall_app_2; [|done]. destruct (on_new_stream_ s) eqn:Ecb; [|done].
        constructor; [|done]. cbn. destruct (stopped_ s); [by specialize (Hcb eq_refl)|done].
    + done.
  - destruct (type h =? frame_type_code WindowUpdate).
    { unfold step_ok. cbn. destruct (streams_ s !! _); repeat split; try done; repeat constructor. }
    destruct (type h =? frame_type_code Ping).
    + destruct (has_flag (flags h) SYN); [apply send_step_ok'|done].
    + destruct (type h =? frame_type_code GoAway); apply stop_step_ok.
Qed.

Lemma session_step_ok op s :
  (stopped_ s = true -> on_new_stream_ s = false) ->
  step_ok s (session_step op s).1 (session_step op s).2.
Proof.
  intros Hcb. destruct op; cbn [session_step].
  - unfold open_stream, make_stream.
    match goal with |- context [async_send_frame ?h ?b ?c ?s0] =>
      pose proof (send_step_ok' h b c s0) as Hs;
      destruct (async_send_frame h b c s0) as [s2 acts] end. exact Hs.
  - done.
  - apply send_step_ok'.
  - unfold on_header_read. destruct (stopped_ s) eqn:Est; [apply step_ok_refl|].
    case_decide; [|apply stop_step_ok].
    case_match eqn:Edata; [case_match; [apply (stop_step_ok (set_read_time now s))|]|].
    + unfold step_ok. cbn. rewrite Est. split; [done|]. bool_hyps.
      split; [|done]. apply Forall_singleton. by split.
    + pose proof (handle_frame_step_ok (decode buf) [] 0 (set_read_time now s)) as Hh.
      destruct (handle_frame _ _ _ _). apply step_ok_snoc; [|done..]. apply Hh. cbn. congruence.
  - unfold on_body_read. destruct (stopped_ s) eqn:Est; [apply step_ok_refl|].
    case_decide; [|apply stop_step_ok].
    pose proof (handle_frame_step_ok h body (length_ h) (set_read_time now s)) as Hh.
    destruct (handle_frame _ _ _ _). apply step_ok_snoc; [|done..]. apply Hh. cbn. congruence.
  - unfold on_write_done. set (s1 := set_writes _ _ s).
    assert (Hcalls : forall s' acts, step_ok s1 s' acts ->
      step_ok s s' ((match qf_handler pw with Some (obj, c) => [call_handler obj c ec] | None => [] end)
                    ++ acts)).
    { intros s' acts (H1 & H2 & H3). destruct (qf_handler pw) as [[o c]|]; [|done].
      split; [done|]. split; [|done]. by constructor. }
    case_decide.
    + assert (Hd : step_ok s1 (do_write s1).1 (do_write s1).2).
      { unfold do_write. destruct (write_queue_ s1); [done|].
        split; [done|]. split; [|done]. by repeat constructor. }
      destruct (do_write s1). by apply Hcalls.
    + pose proof (stop_step_ok s1) as Hd. destruct (stop s1). by apply Hcalls.
  - unfold on_heartbeat. case_decide; [|done]. case_match; [apply stop_step_ok|].
    pose proof (send_step_ok' (mk_header Ping SYN 0 0) [] None s) as Hs.
    destruct (async_send_frame _ _ _ s). by apply step_ok_snoc.
  - apply stop_step_ok.
Qed.

Lemma session_run_ok ops s :
  (stopped_ s = true -> on_new_stream_ s = false) ->
  closes (session_run ops s).2 + Z.b2z (stopped_ s) = Z.b2z (stopped_ (session_run ops s).1) /\
  Forall (action_ok true) (session_run ops s).2 /\
  (stopped_ s = true -> Forall (action_ok false) (session_run ops s).2).
Proof.
  assert (Hweak : forall b acts, Forall (action_ok b) acts -> Forall (action_ok true) acts).
  { intros b acts Hb. eapply Forall_impl; [exact Hb|]. by intros []. }
  revert s. induction ops as [|op ops IH]; intros s Hcb; [done|]. cbn [session_run].
  pose proof (session_step_ok op s Hcb) as (H1 & H2 & H3).
  destruct (session_step op s) as [s1 a1]. cbn [fst snd] in *.
  specialize (H3 Hcb). destruct (IH s1 H3) as (I1 & I2 & I3).
  destruct (session_run ops s1) as [s2 a2]. cbn [fst snd] in *.
  rewrite closes_app. split; [lia|]. split.
  - apply Forall_app. split; [by eapply Hweak|done].
  - intros Hst. rewrite Hst in *. apply Forall_app. split; [done|]. apply I3.
    assert (0 <= closes a1) by (clear; induction a1 as [|[] a1 IH]; cbn; lia).
    cbn in H1. destruct (stopped_ s1); [done|]. cbn in H1. lia.
Qed.

(** ** Properties *)

(** Frames survive the wire.  The receive loop, fed the concatenation of any
    sequence of valid frames, asks for headers and bodies of the right sizes, consumes
    every byte, and has exactly the effects of handling the frames one by one in order;
    two reads per frame are enough. *)
Theorem session_receives_frames (now : Z) (fs : list wire_frame) (s : Session)
    (Hfs : Forall frame_valid fs) (Hrun : stopped_ s = false) :
  exists acts, receive (2 * length fs) now (Some None) (concat (map frame_bytes fs)) s =
    ((handle_frames now fs s).1, acts, Some None, []) /\
    effects acts = (handle_frames now fs s).2.
Proof. by apply receive_frames. Qed.

(** Frames leave in the order they were sent.  From a fresh session, whatever the
    interleaving of [async_send_frame] with completions of the underlying write, the bytes
    written so far followed by the frames still queued are the encoded frames in send
    order; at most one write is outstanding; and the handlers are called once each, in
    that order, with success. *)
Theorem session_writes_fifo (server : bool) (now : Z) (ops : list send_op)
    (st : Session * option QueuedFrame) (acts : list session_action)
    (Hok : all_done_ok ops) (Hrun : send_run ops (new_session server now, None) = Some (st, acts)) :
  wrote acts ++ unwritten st.1 = sent_frames ops /\
  called acts ++ map with_ok (queued_handlers st.1) = map with_ok (sent_handlers ops) /\
  (st.2 = None -> concat (wrote acts) = concat (sent_frames ops) /\
                  called acts = map with_ok (sent_handlers ops)).
Proof.
  apply send_run_ok in Hrun as (Hinv & Hw & Hc); [|done..].
  split; [done|]. split; [done|]. intros Hnone. unfold send_inv in Hinv. rewrite Hnone in Hinv.
  destruct Hinv as [Hq _]. unfold unwritten, queued_handlers in *. rewrite Hq in *.
  rewrite app_nil_r in Hw, Hc. by rewrite Hw, Hc.
Qed.

(** C14 Two sessions joined by a byte stream are a queue of frames.  Whatever the
    interleaving of sends with the completions of the sender's writes, the bytes
    that have reached the stream are, for the receiver's loop, exactly the first
    of the frames sent, handled in order and nothing else; the frames not yet
    handled are those still queued at the sender, which are all of them once no
    write is outstanding. *)
Theorem session_frames_cross (server : bool) (now later : Z) (ops : list send_op)
    (st : Session * option QueuedFrame) (acts : list session_action) (peer : Session)
    (Hok : all_done_ok ops) (Hvalid : Forall frame_valid (frames_sent ops)) (Hpeer : stopped_ peer = false)
    (Hrun : send_run ops (new_session server now, None) = Some (st, acts)) :
  exists handled queued racts,
    frames_sent ops = handled ++ queued /\ map frame_bytes queued = unwritten st.1 /\
    receive (2 * length handled) later (Some None) (concat (wrote acts)) peer =
      ((handle_frames later handled peer).1, racts, Some None, []) /\
    effects racts = (handle_frames later handled peer).2 /\
    (st.2 = None -> handled = frames_sent ops).
Proof.
  apply send_run_ok in Hrun as (Hinv & Hw & _); [|done..]. cbn [fst] in Hw.
  change (unwritten (new_session server now)) with (@nil (list byte)) in Hw.
  rewrite app_nil_l, sent_frames_bytes in Hw. symmetry in Hw.
  apply fmap_app_inv in Hw as (handled & queued & Hhandled & Hqueued & Hsplit).
  change (frame_bytes <$> ?l) with (map frame_bytes l) in *.
  exists handled, queued. rewrite Hsplit in Hvalid. apply Forall_app in Hvalid as [Hv _].
  destruct (receive_frames later handled peer (2 * length handled)) as (racts & Hr & He); try done.
  exists racts. rewrite Hhandled. do 4 (split; [done|]). intros Hnone. unfold send_inv in Hinv. rewrite Hnone in Hinv.
  destruct Hinv as [Hq _]. unfold unwritten in Hqueued. rewrite Hq in Hqueued. symmetry in Hqueued.
  apply map_eq_nil in Hqueued as ->. by rewrite app_nil_r in Hsplit.
Qed.

(** A failed write loses the handlers of the frames queued behind it: the failing
    frame's handler is called with the error, but the session then stops writing for good,
    and no handler of a frame already queued or sent later is ever called. *)
Theorem session_write_error_drops_handlers (s : Session) (pw : QueuedFrame) (ec : error_code)
    (ops : list send_op) (st : Session * option QueuedFrame) (acts : list session_action)
    (Hinv : send_inv (s, Some pw)) (Hec : ec <> ec_ok)
    (Hrun : send_run (op_done ec :: ops) (s, Some pw) = Some (st, acts)) :
  wrote acts = [] /\
  called acts = match qf_handler pw with Some (obj, c) => [(obj, c, ec)] | None => [] end.
Proof.
  cbn [send_run send_step] in Hrun. unfold on_write_done in Hrun.
  rewrite decide_False in Hrun by done. set (s1 := set_writes _ _ s) in Hrun.
  destruct (stop_quiet s1) as [Hw1 Hc1].
  assert (Hwr : is_writing_ (stop s1).1 = true)
    by (unfold stop; destruct Hinv as [_ Hw]; destruct (stopped_ s1); exact Hw).
  destruct (stop s1) as [s2 a2]. cbn [fst snd] in *.
  set (calls := match qf_handler pw with Some (obj, c) => [call_handler obj c ec] | None => [] end) in *.
  assert (Hcalls : wrote calls = [] /\ called calls =
    match qf_handler pw with Some (obj, c) => [(obj, c, ec)] | None => [] end)
    by (unfold calls; destruct (qf_handler pw) as [[? ?]|]; done).
  destruct Hcalls as [Hw0 Hc0]. cbn [mbind option_bind] in Hrun.
  rewrite wrote_app, Hw0, Hw1 in Hrun. cbn [app] in Hrun.
  destruct (send_run ops (s2, None)) as [[st2 a3]|] eqn:E; [|done]. injection Hrun as <- <-.
  apply send_run_dead in E as [Hw2 Hc2]; [|done].
  by rewrite !wrote_app, !called_app, Hw0, Hw1, Hw2, Hc0, Hc1, Hc2, !app_nil_r.
Qed.

(** Stream identifiers never collide.  In any history in which the peer opens streams
    only with identifiers of its own parity and fewer than 2^31 - 3 streams are opened
    locally, the next [open_stream] uses the identifier after the ones it used before (all
    of this side's parity), which no live stream has, and distinct identifiers always
    denote distinct stream objects. *)
Theorem session_open_stream_fresh (server : bool) (now : Z) (ops : list session_op)
    (Hpeer : Forall (syn_ok server) ops) (Hlim : 2 * opens ops + 4 < 2 ^ 32) :
  let s := (session_run ops (new_session server now)).1 in
  next_stream_id_ s = (if server then 2 else 1) + 2 * opens ops /\
  streams_ s !! next_stream_id_ s = None /\
  (forall id1 id2 obj, streams_ s !! id1 = Some obj -> streams_ s !! id2 = Some obj -> id1 = id2).
Proof.
  intros s.
  assert (Hnew : ids_inv 0 (new_session server now)) by (split; [destruct server; done|done..]).
  destruct (session_run_ids ops 0 (new_session server now) Hnew) as [[H1 H2 H3 H4] Hsv];
    [done|lia|lia|]. fold s in H1, H2, H3, H4, Hsv. cbn in Hsv. rewrite Hsv in H1.
  split; [done|]. split; [|done]. apply eq_None_not_Some. intros [obj Hobj].
  specialize (H2 _ _ Hobj). unfold own_parity in H2. rewrite Hsv, H1 in H2.
  assert (Hpar : ((if server then 2 else 1) + 2 * (0 + opens ops)) mod 2 = if server then 0 else 1).
  { rewrite Z.mul_comm, Z.mod_add by lia. by destruct server. }
  specialize (H2 Hpar). lia.
Qed.

(** Shutting down.  In any history the underlying stream is closed exactly once if the
    session stopped and never otherwise, no body larger than [MAX_MESSAGE_SIZE] (and no
    empty one) is ever asked for, and once the session has stopped no stream is announced
    to the application. *)
Theorem session_shutdown (server : bool) (now : Z) (ops ops' : list session_op) :
  let s := (session_run ops (new_session server now)).1 in
  closes (session_run ops (new_session server now)).2 = Z.b2z (stopped_ s) /\
  Forall (action_ok true) (session_run ops (start (new_session server now)).1).2 /\
  Forall (action_ok (negb (stopped_ s))) (session_run ops' s).2.
Proof.
  intros s. assert (Hcb : forall ops0 s0, (stopped_ s0 = true -> on_new_stream_ s0 = false) ->
    (stopped_ (session_run ops0 s0).1 = true -> on_new_stream_ (session_run ops0 s0).1 = false)).
  { induction ops0 as [|op ops0 IH]; intros s0 H0; [done|]. cbn [session_run].
    pose proof (session_step_ok op s0 H0) as (_ & _ & H3).
    destruct (session_step op s0) as [s1 a1]. specialize (IH s1 (H3 H0)).
    by destruct (session_run ops0 s1). }
  destruct (session_run_ok ops (new_session server now)) as (H1 & H2 & _); [done|].
  destruct (session_run_ok ops (start (new_session server now)).1) as (_ & H2' & _); [done|].
  destruct (session_run_ok ops' s) as (_ & H4 & H5); [by apply Hcb|].
  split; [cbn in H1; unfold s; lia|]. split; [done|]. destruct (stopped_ s); cbn; auto.
Qed.

(** ** Concrete instances *)
Definition demo_frames : list wire_frame :=
  [(mk_header Data SYN 2 0, []); (mk_header Data 0 2 3, demo_bytes 3);
   (mk_header WindowUpdate 0 2 40000, []); (mk_header Ping SYN 0 0, [])].

Lemma session_receives_frames_witness :
  exists acts, receive (2 * length demo_frames) 5 (Some None) (concat (map frame_bytes demo_frames))
      (new_session false 0) =
    ((handle_frames 5 demo_frames (new_session false 0)).1, acts, Some None, []) /\
    effects acts = (handle_frames 5 demo_frames (new_session false 0)).2.
Proof.
  apply (session_receives_frames 5 demo_frames); [|reflexivity].
  repeat constructor; try (apply mk_header_wf; vm_compute; intuition discriminate);
    vm_compute; intuition discriminate.
Defined.

Definition demo_sends : list send_op :=
  [op_send (mk_header Data SYN 1 0) [] None;
   op_send (mk_header Data 0 1 5) [demo_bytes 2; []; demo_bytes 3] (Some (0%nat, on_full 4 5));
   op_done ec_ok; op_send (mk_header Ping SYN 0 0) [] None; op_done ec_ok].

Lemma demo_sends_valid : Forall frame_valid (frames_sent demo_sends).
Proof.
  repeat constructor; try (apply mk_header_wf; vm_compute; intuition discriminate);
    vm_compute; intuition discriminate.
Qed.
Definition demo_sent : Session * option QueuedFrame * list session_action :=
  default (new_session false 0, None, []) (send_run demo_sends (new_session false 0, None)).
Lemma session_frames_cross_witness : exists handled queued racts,
    frames_sent demo_sends = handled ++ queued /\ map frame_bytes queued = unwritten demo_sent.1.1 /\
    receive (2 * length handled) 9 (Some None) (concat (wrote demo_sent.2)) (new_session true 3) =
      ((handle_frames 9 handled (new_session true 3)).1, racts, Some None, []) /\
    effects racts = (handle_frames 9 handled (new_session true 3)).2 /\
    (demo_sent.1.2 = None -> handled = frames_sent demo_sends).
Proof.
  assert (Hok : all_done_ok demo_sends) by (by repeat constructor).
  assert (Hrun : send_run demo_sends (new_session false 0, None) = Some (demo_sent.1, demo_sent.2)) by reflexivity.
  exact (session_frames_cross false 0 9 demo_sends demo_sent.1 demo_sent.2 (new_session true 3) Hok demo_sends_valid
    eq_refl Hrun).
Defined.

Lemma session_writes_fifo_witness :
  exists st acts, send_run demo_sends (new_session false 0, None) = Some (st, acts) /\
  wrote acts ++ unwritten st.1 = sent_frames demo_sends /\
  called acts ++ map with_ok (queued_handlers st.1) = map with_ok (sent_handlers demo_sends) /\
  (st.2 = None -> concat (wrote acts) = concat (sent_frames demo_sends) /\
                  called acts = map with_ok (sent_handlers demo_sends)).
Proof.
  eexists _, _. split; [reflexivity|].
  apply (session_writes_fifo false 0 demo_sends); [by repeat constructor|reflexivity].
Defined.

Definition demo_front : QueuedFrame :=
  {| qf_header := encode (mk_header Data 0 1 2); qf_bodies := [demo_bytes 2];
     qf_handler := Some (0%nat, on_full 1 2) |}.
Definition demo_busy : Session :=
  set_writes [demo_front; {| qf_header := encode (mk_header Data 0 1 1);
    qf_bodies := [demo_bytes 1]; qf_handler := Some (0%nat, on_full 2 1) |}] true (new_session false 0).

Lemma session_write_error_drops_handlers_witness :
  exists st acts, send_run [op_done ec_connection_reset] (demo_busy, Some demo_front) = Some (st, acts) /\
  queued_handlers st.1 = [(0%nat, on_full 2 1)] /\
  wrote acts = [] /\ called acts = [(0%nat, on_full 1 2, ec_connection_reset)].
Proof.
  eexists _, _. split; [reflexivity|]. split; [reflexivity|].
  apply (session_write_error_drops_handlers demo_busy demo_front ec_connection_reset []
    ((stop (set_writes (tail (write_queue_ demo_busy)) true demo_busy)).1, None) _);
    [split; [by eexists|done]|done|reflexivity].
Defined.

Definition demo_ops : list session_op :=
  [op_open; op_header ec_ok (encode (mk_header Data SYN 2 0)) 1; op_open; op_remove 1].

Lemma session_open_stream_fresh_witness :
  let s := (session_run demo_ops (new_session false 0)).1 in
  next_stream_id_ s = 5 /\ streams_ s !! next_stream_id_ s = None /\
  (forall id1 id2 obj, streams_ s !! id1 = Some obj -> streams_ s !! id2 = Some obj -> id1 = id2).
Proof.
  apply (session_open_stream_fresh false 0 demo_ops); [|vm_compute; reflexivity].
  repeat constructor; vm_compute; intuition discriminate.
Defined.
