(* ===== verification/MuxFlow.v ===== *)
(** * Two ends of a multiplexed stream (src/common/mux.cpp)

    The two [MuxStream] objects of one stream and the frames in flight between
    them, each direction a FIFO as [session_frames_cross] of MuxSession.v shows
    it to be.  Applications read and write at both ends in any order; frames
    are handed over as [Session::handle_frame] does for a stream it knows. *)
From Stdlib Require Import ZArith Lia Strings.Byte.
From stdpp Require Import base tactics list gmap.
From S2P Require Import Prelude Protocol MuxFrame MuxStream MuxSession.
Local Open Scope Z_scope.

(** What [handle_frame] asks of a known stream. *)
Definition frame_events (f : wire_frame) : list event :=
  if is_data f.1 then
    (if 0 <? zlen f.2 then [ev_data f.2] else []) ++
    (if has_flag (flags f.1) FIN then [ev_remote_close] else [])
  else if is_update f.1 then [ev_window (length_ f.1)]
  else [].

Lemma handle_frame_known s obj f :
  streams_ s !! stream_id f.1 = Some obj -> is_data f.1 || is_update f.1 = true ->
  handle_frame f.1 f.2 (zlen f.2) s = (s, map (to_stream obj) (frame_events f)).
Proof.
  intros Hs Hk. unfold handle_frame, frame_events, is_data, is_update in *.
  destruct (type f.1 =? frame_type_code Data).
  - rewrite Hs. cbn [app]. by repeat case_match.
  - cbn [orb] in Hk. rewrite Hk, Hs. done.
Qed.

(** ** The system *)
(** [true] and [false] name the ends; [wire e] holds the frames end [e] has
    sent and the other end has not received.  [gave e] and [got e] record the
    bytes accepted by writes and delivered to reads at [e]. *)
Record link : Type := {
  endpoint : bool -> MuxStream;
  wire : bool -> list wire_frame;
  gave : bool -> list byte;
  got : bool -> list byte
}.

Definition upd {A} (x : bool) (v : A) (f : bool -> A) : bool -> A :=
  fun y => if Bool.eqb x y then v else f y.

Definition emitted (acts : list action) : list wire_frame :=
  omap (fun a => match a with send_frame h b _ => Some (h, concat b) | _ => None end) acts.

Definition accepted (ev : event) (st : MuxStream) : list byte :=
  match ev with
  | ev_write bufs _ =>
    if kMuxStreamMaxPendingWrites <=? zlen (pending_writes_ st) then [] else concat bufs
  | _ => []
  end.

(** An event at end [x] with its outcome. *)
Definition after (x : bool) (ev : event) (st' : MuxStream) (acts : list action) (l : link) : link := {|
  endpoint := upd x st' (endpoint l);
  wire := upd x (wire l x ++ emitted acts) (wire l);
  gave := upd x (gave l x ++ accepted ev (endpoint l x)) (gave l);
  got := upd x (got l x ++ delivered acts) (got l) |}.

Definition take_frame (x : bool) (rest : list wire_frame) (l : link) : link := {|
  endpoint := endpoint l; wire := upd x rest (wire l); gave := gave l; got := got l |}.

Definition app_event (ev : event) : Prop :=
  match ev with ev_read _ size _ => 0 <= size | ev_write _ _ => True | _ => False end.

Inductive link_step : link -> link -> Prop :=
| step_app x ev st' acts l :
    app_event ev -> step_event true ev (endpoint l x) = Some (st', acts) ->
    link_step l (after x ev st' acts l)
| step_deliver x f rest ev st' acts l :
    wire l (negb x) = f :: rest -> frame_events f = [ev] ->
    step_event true ev (endpoint l x) = Some (st', acts) ->
    link_step l (after x ev st' acts (take_frame (negb x) rest l)).

Definition new_link (id : Z) : link := {|
  endpoint := fun _ => new_mux_stream id; wire := fun _ => []; gave := fun _ => [];
  got := fun _ => [] |}.

(** ** Quantities *)
Definition wire_data (fs : list wire_frame) : list byte :=
  concat (map (fun f => if is_data f.1 then f.2 else []) fs).
Fixpoint wire_credit (fs : list wire_frame) : Z :=
  match fs with
  | [] => 0
  | f :: fs' => (if is_update f.1 then length_ f.1 else 0) + wire_credit fs'
  end.
Definition window : Z := 128 * 1024.

Definition frame_form (f : wire_frame) : Prop :=
  (exists id, f.1 = mk_header Data 0 id (zlen f.2) /\ 0 < zlen f.2 <= MAX_MESSAGE_SIZE) \/
  (exists id n, f = (mk_header WindowUpdate 0 id n, []) /\ 0 <= n).

(** The direction from [w] (writing) to [r] (reading): frames [fwd] travel from
    [w] to [r], frames [bwd] back. *)
Record direction_inv (w r : MuxStream) (fwd bwd : list wire_frame) (given taken : list byte) : Prop := {
  di_open : local_closed_ r = false /\ remote_closed_ r = false;
  di_queue : queue_ok r;
  di_blocks : Forall (fun b => zlen b <= MAX_MESSAGE_SIZE) (read_queue_ r);
  di_reads : reads_sized (pending_reads_ r);
  di_consumed : 0 <= consumed_since_last_update_ r < 32 * 1024;
  di_window : 0 <= remote_window_size_ w;
  di_credit : 0 <= wire_credit bwd;
  di_conserve : remote_window_size_ w + zlen (wire_data fwd) + zlen (unread r) +
                consumed_since_last_update_ r + wire_credit bwd = window;
  di_bytes : given = taken ++ unread r ++ wire_data fwd ++ unsent w;
  di_progress : pending_writes_ w = [] \/ remote_window_size_ w = 0;
  di_stalled : serve false (pending_reads_ r) (unread r) = ([], pending_reads_ r, unread r)
}.

Definition link_inv (l : link) : Prop :=
  (forall x, Forall frame_form (wire l x)) /\
  (forall x, direction_inv (endpoint l x) (endpoint l (negb x)) (wire l x) (wire l (negb x))
               (gave l x) (got l (negb x))).

(** ** Lemmas *)
Lemma wire_data_app xs ys : wire_data (xs ++ ys) = wire_data xs ++ wire_data ys.
Proof. unfold wire_data. by rewrite map_app, concat_app. Qed.
Lemma wire_credit_app xs ys : wire_credit (xs ++ ys) = wire_credit xs + wire_credit ys.
Proof. induction xs as [|f xs IH]; cbn; lia. Qed.

Lemma emitted_data acts : wire_data (emitted acts) = sent_data acts.
Proof.
  unfold wire_data, sent_data, emitted. induction acts as [|a acts IH]; [done|].
  destruct a; cbn in *; by rewrite ?IH.
Qed.
Lemma emitted_credit acts : wire_credit (emitted acts) = granted acts.
Proof. unfold emitted. induction acts as [|[] acts IH]; cbn in *; lia. Qed.

Lemma frame_form_credit fs : Forall frame_form fs -> 0 <= wire_credit fs.
Proof.
  induction 1 as [|f fs Hf _ IH]; cbn; [lia|].
  destruct Hf as [(id & -> & _)|(id & n & -> & Hn)]; [cbn; lia|].
  change (is_update _) with true. cbn. lia.
Qed.

(** Reading emits only window updates. *)
Definition update_only (a : action) : Prop :=
  match a with
  | send_frame h b _ => (exists id n, h = mk_header WindowUpdate 0 id n /\ 0 <= n) /\ b = []
  | _ => True
  end.

Lemma account_consumed_updates sess n st : Forall update_only (account_consumed sess n st).2.
Proof.
  unfold account_consumed. case_match; [|constructor]. apply Forall_singleton. cbn.
  split; [|done]. eexists _, _. split; [reflexivity|]. unfold wrap. apply Z.mod_pos_bound. lia.
Qed.

Lemma read_loop_updates sess prs st st' acts :
  read_loop sess prs st = Some (st', acts) -> Forall update_only acts.
Proof.
  revert st st' acts. induction prs as [|pr prs IH]; intros st st' acts H; cbn [read_loop] in H.
  { injection H as <- <-. constructor. }
  destruct (read_queue_ st) as [|b q].
  - destruct (remote_closed_ st); [|injection H as <- <-; constructor].
    destruct (read_loop sess prs st) as [[st1 a1]|] eqn:E; [|done]. injection H as <- <-.
    constructor; [done|]. by eapply IH.
  - case_match; [injection H as <- <-; constructor|].
    destruct (copy_blocks _ _ _ _) as [[[q' off'] data]|]; [|done]. cbn [mbind option_bind] in H.
    pose proof (account_consumed_updates sess (zlen data) (set_read_queue q' off' st)) as Hu.
    destruct (account_consumed _ _ _) as [st1 upd0].
    destruct (read_loop sess prs st1) as [[st2 a2]|] eqn:E; [|done]. injection H as <- <-.
    constructor; [done|]. apply Forall_app. split; [done|]. by eapply IH.
Qed.

Lemma update_only_forms acts : Forall update_only acts -> Forall frame_form (emitted acts).
Proof.
  unfold emitted. induction 1 as [|a acts Ha _ IH]; [constructor|].
  destruct a; cbn in *; try done. constructor; [|done].
  destruct Ha as [(id & n & -> & Hn) ->]. right. by exists id, n.
Qed.

Lemma frame_ok_forms id acts : Forall (frame_ok id) acts -> Forall frame_form (emitted acts).
Proof.
  unfold emitted. induction 1 as [|a acts Ha _ IH]; [constructor|].
  destruct a; cbn in *; try done. constructor; [|done].
  destruct Ha as [-> Hl]. left. by exists id.
Qed.

Lemma serve_stalled prs bytes out rest bs :
  serve false prs bytes = (out, rest, bs) -> serve false rest bs = ([], rest, bs).
Proof.
  revert bytes out rest bs. induction prs as [|pr prs IH]; intros bytes out rest bs H.
  { by injection H as <- <- <-. }
  pose proof H as H0. cbn [serve] in H. destruct bytes as [|b bytes].
  - by injection H as <- <- <-.
  - destruct (pr_read_all pr && _ && _) eqn:Ec.
    + injection H as <- <- <-. apply serve_wait. right. done.
    + destruct (serve false prs _) as [[out1 rest1] bs1] eqn:E. injection H as <- <- <-.
      by eapply IH.
Qed.

Lemma suffix_forall {A} (P : A -> Prop) (l k : list A) : l `suffix_of` k -> Forall P k -> Forall P l.
Proof. intros [m ->] H. by apply Forall_app in H as [_ H]. Qed.

(** One run of the reading loop at [r] after its state became [r1]. *)
Lemma reading_direction w r1 r' fwd bwd given taken acts :
  local_closed_ r1 = false -> remote_closed_ r1 = false -> queue_ok r1 ->
  Forall (fun b => zlen b <= MAX_MESSAGE_SIZE) (read_queue_ r1) -> reads_sized (pending_reads_ r1) ->
  0 <= consumed_since_last_update_ r1 < 32 * 1024 -> 0 <= remote_window_size_ w ->
  0 <= wire_credit bwd ->
  remote_window_size_ w + zlen (wire_data fwd) + zlen (unread r1) +
    consumed_since_last_update_ r1 + wire_credit bwd = window ->
  given = taken ++ unread r1 ++ wire_data fwd ++ unsent w ->
  pending_writes_ w = [] \/ remote_window_size_ w = 0 ->
  do_read_from_buffer true r1 = Some (r', acts) ->
  direction_inv w r' fwd (bwd ++ emitted acts) given (taken ++ delivered acts) /\
  same_writer r1 r' /\ sent_data acts = [].
Proof.
  intros Hlc Hrc Hok Hblk Hsz Hcons Hwin Hcr Hsum Hbytes Hprog E.
  destruct (do_read_spec true r1 Hok Hsz) as (st' & acts' & E' & Hok' & Hsf & Hsw & Hsv & Hsd & _ & Hc).
  rewrite E in E'. injection E' as <- <-. rewrite Hrc in Hsv.
  pose proof Hsv as Hbs. symmetry in Hbs. pose proof (serve_stalled _ _ _ _ _ Hbs) as Hst.
  pose proof (serve_rest _ _ _ _ _ _ Hbs) as [_ Hrest]. apply serve_bytes in Hbs.
  change (bytes_out (read_posts acts)) with (delivered acts) in Hbs.
  assert (Hl : zlen (delivered acts) + zlen (unread r') = zlen (unread r1)) by (rewrite <- Hbs; zsize).
  pose proof (zlen_nonneg (delivered acts)). pose proof (zlen_nonneg (unread r')).
  pose proof (zlen_nonneg (wire_data fwd)).
  assert (Hwd : window = 131072) by done. destruct Hc as (Hc1 & Hc2 & Hc3 & Hc4); [lia|lia|].
  split; [|by split]. destruct Hsw as (_ & _ & _ & _ & Hlc' & Hrc').
  split; rewrite ?wire_credit_app, ?emitted_credit; try done; try lia.
  - by rewrite Hlc', Hrc'.
  - by eapply suffix_forall.
  - by eapply suffix_forall.
  - rewrite Hbytes, <- Hbs. by rewrite <- !app_assoc.
Qed.

(** Writing at [w], once its state became [w1]. *)
Lemma writing_direction w1 w' r fwd bwd given taken acts :
  (local_closed_ r = false /\ remote_closed_ r = false) -> queue_ok r ->
  Forall (fun b => zlen b <= MAX_MESSAGE_SIZE) (read_queue_ r) -> reads_sized (pending_reads_ r) ->
  0 <= consumed_since_last_update_ r < 32 * 1024 -> 0 <= remote_window_size_ w1 ->
  0 <= wire_credit bwd ->
  remote_window_size_ w1 + zlen (wire_data fwd) + zlen (unread r) +
    consumed_since_last_update_ r + wire_credit bwd = window ->
  given = taken ++ unread r ++ wire_data fwd ++ unsent w1 ->
  serve false (pending_reads_ r) (unread r) = ([], pending_reads_ r, unread r) ->
  MuxStream.do_write true w1 = (w', acts) ->
  direction_inv w' r (fwd ++ emitted acts) bwd given taken /\
  same_reader w1 w' /\ Forall (frame_ok (id_ w1)) acts /\ read_posts acts = [] /\ granted acts = 0.
Proof.
  intros Hop Hok Hblk Hsz Hcons Hwin Hcr Hsum Hbytes Hst E.
  pose proof (do_write_spec true w1 Hwin) as Hspec. rewrite E in Hspec.
  destruct Hspec as [(Hsr & _ & Hf & Hrp & Hg & Hw' & Hw0 & Hu) Hend]. specialize (Hu eq_refl).
  split; [|done].
  split; rewrite ?wire_data_app, ?emitted_data; try done.
  - rewrite zlen_app. lia.
  - rewrite Hbytes, <- Hu. by rewrite <- !app_assoc.
  - destruct Hend; [by left|right; lia].
Qed.

(** The other direction only sees its state change by [same_writer] or
    [same_reader] and its frames by what does not concern it. *)
Lemma direction_writer_swap w w' r fwd fwd' bwd given taken :
  same_writer w w' -> wire_data fwd' = wire_data fwd ->
  direction_inv w r fwd bwd given taken -> direction_inv w' r fwd' bwd given taken.
Proof.
  intros (_ & _ & Hrw & Hpw & _ & _) Hf [H1 H2 H3 H4 H5 H6 H7 H8 H9 H10 H11].
  split; rewrite ?Hrw, ?Hf, ?Hpw; try done. unfold unsent. by rewrite Hpw.
Qed.

Lemma direction_reader_swap w r r' fwd bwd bwd' given taken :
  same_reader r r' -> wire_credit bwd' = wire_credit bwd ->
  direction_inv w r fwd bwd given taken -> direction_inv w r' fwd bwd' given taken.
Proof.
  intros (_ & _ & Hcs & Hrq & Hro & Hpr & Hlc & Hrc) Hf [H1 H2 H3 H4 H5 H6 H7 H8 H9 H10 H11].
  assert (Hu : unread r' = unread r) by (unfold unread; by rewrite Hrq, Hro).
  split; rewrite ?Hcs, ?Hf, ?Hpr, ?Hlc, ?Hrc, ?Hu, ?Hrq; try done.
  unfold queue_ok. by rewrite Hrq, Hro.
Qed.

Lemma upd_same {A} x (v : A) f : upd x v f x = v.
Proof. unfold upd. by rewrite Bool.eqb_reflx. Qed.
Lemma upd_other {A} x y (v : A) f : y = negb x -> upd x v f y = f y.
Proof. intros ->. unfold upd. by destruct x. Qed.

(** Directions are indexed by their writing end: the one [x] writes on, and the
    one it reads on. *)
Lemma link_inv_split x l :
  (Forall frame_form (wire l x) /\ Forall frame_form (wire l (negb x))) ->
  direction_inv (endpoint l x) (endpoint l (negb x)) (wire l x) (wire l (negb x))
    (gave l x) (got l (negb x)) ->
  direction_inv (endpoint l (negb x)) (endpoint l x) (wire l (negb x)) (wire l x)
    (gave l (negb x)) (got l x) ->
  link_inv l.
Proof.
  intros [Hf1 Hf2] H1 H2. split; intros y; destruct (Bool.bool_dec y x) as [->|Hne].
  - done.
  - replace y with (negb x) by (destruct x, y; done). done.
  - done.
  - replace y with (negb x) by (destruct x, y; done). by rewrite negb_involutive.
Qed.

(** A reading event at [x]: [mid] is the state just before the loop. *)
Lemma link_reading x ev mid st' acts l l0 :
  link_inv l -> (forall b, accepted ev b = []) ->
  same_writer (endpoint l x) mid ->
  queue_ok mid -> Forall (fun b => zlen b <= MAX_MESSAGE_SIZE) (read_queue_ mid) ->
  reads_sized (pending_reads_ mid) ->
  consumed_since_last_update_ mid = consumed_since_last_update_ (endpoint l x) ->
  unread mid ++ wire_data (wire l0 (negb x)) = unread (endpoint l x) ++ wire_data (wire l (negb x)) ->
  endpoint l0 = endpoint l -> gave l0 = gave l -> got l0 = got l -> wire l0 x = wire l x ->
  Forall frame_form (wire l0 (negb x)) -> wire_credit (wire l0 (negb x)) = wire_credit (wire l (negb x)) ->
  do_read_from_buffer true mid = Some (st', acts) -> 
  link_inv (after x ev st' acts l0).
Proof.
  intros [Hforms Hdir] Hacc Hsw Hok Hblk Hsz Hcs Hun He Hg Hgo Hwx Hf0 Hcr E.
  pose proof (Hdir x) as Hd1. pose proof (Hdir (negb x)) as Hd2. rewrite negb_involutive in Hd2.
  destruct Hsw as (Hid & Hlw & Hrw & Hpw & Hlc & Hrc).
  assert (Hlen : zlen (unread mid) + zlen (wire_data (wire l0 (negb x))) =
    zlen (unread (endpoint l x)) + zlen (wire_data (wire l (negb x))))
    by (rewrite <- !zlen_app; by rewrite Hun).
  destruct Hd2 as [[Ho1 Ho2] _ _ _ Hc Hwin2 Hcr2 Hsum Hby Hprog _].
  destruct (reading_direction (endpoint l (negb x)) mid st' (wire l0 (negb x)) (wire l x)
    (gave l (negb x)) (got l x) acts) as (Hnew & Hsw' & Hsd); rewrite ?Hcs, ?Hlc, ?Hrc; try done.
  - lia.
  - rewrite Hby. by rewrite !(app_assoc (unread _)), Hun.
  - apply link_inv_split with x; unfold after; cbn [endpoint wire gave got];
      rewrite ?He, ?Hg, ?Hgo, ?Hwx, ?upd_same, ?upd_other, ?Hacc, ?app_nil_r by done.
    + split; [|done]. apply Forall_app. split; [done|]. apply update_only_forms.
      unfold do_read_from_buffer in E.
      destruct (read_loop true (pending_reads_ mid) mid) as [[s1 a1]|] eqn:E1; [|done].
      injection E as <- <-. apply read_loop_updates in E1. apply Forall_app. split; [done|].
      unfold check_cleanup. case_match; by repeat constructor.
    + eapply direction_writer_swap with (endpoint l x) (wire l x); [| |].
      * eapply same_writer_trans; [|done]. done.
      * by rewrite wire_data_app, emitted_data, Hsd, app_nil_r.
      * destruct Hd1. split; rewrite ?Hcr; done.
    + done.
Qed.

(** A writing event at [x]: [mid] is the state just before the loop. *)
Lemma link_writing x ev mid st' acts l l0 :
  link_inv l -> same_reader (endpoint l x) mid -> 0 <= remote_window_size_ mid ->
  remote_window_size_ mid + wire_credit (wire l0 (negb x)) =
    remote_window_size_ (endpoint l x) + wire_credit (wire l (negb x)) ->
  unsent mid = unsent (endpoint l x) ++ accepted ev (endpoint l x) ->
  endpoint l0 = endpoint l -> gave l0 = gave l -> got l0 = got l -> wire l0 x = wire l x ->
  Forall frame_form (wire l0 (negb x)) -> wire_data (wire l0 (negb x)) = wire_data (wire l (negb x)) ->
  MuxStream.do_write true mid = (st', acts) ->
  link_inv (after x ev st' acts l0).
Proof.
  intros [Hforms Hdir] Hsr Hw0 Hwin Hun He Hg Hgo Hwx Hf0 Hda E.
  pose proof (Hdir x) as Hd1. pose proof (Hdir (negb x)) as Hd2. rewrite negb_involutive in Hd2.
  destruct Hd1 as [Hopen Hq Hbl Hsz Hc _ _ Hsum Hby _ Hst].
  destruct (writing_direction mid st' (endpoint l (negb x)) (wire l x) (wire l0 (negb x))
    (gave l x ++ accepted ev (endpoint l x)) (got l (negb x)) acts)
    as (Hnew & Hsr' & Hf & Hrp & Hgr); try done.
  - by apply frame_form_credit.
  - lia.
  - rewrite Hby, Hun. by rewrite <- !app_assoc.
  - assert (Hdel : delivered acts = []) by (unfold delivered; by rewrite Hrp).
    apply link_inv_split with x; unfold after; cbn [endpoint wire gave got];
      rewrite ?He, ?Hg, ?Hgo, ?Hwx, ?upd_same, ?upd_other, ?Hdel, ?app_nil_r by done.
    + split; [|done]. apply Forall_app. split; [done|]. by eapply frame_ok_forms.
    + done.
    + eapply direction_reader_swap with (endpoint l x) (wire l x).
      * by eapply same_reader_trans.
      * rewrite wire_credit_app, emitted_credit. lia.
      * destruct Hd2. split; rewrite ?Hda; done.
Qed.

Lemma same_writer_refl_push x l pr :
  same_writer (endpoint l x) (set_pending_reads (pending_reads_ (endpoint l x) ++ [pr]) (endpoint l x)).
Proof. done. Qed.

(** An event that only posts a refusal leaves everything as it was. *)
Lemma link_refused x ev acts l :
  link_inv l -> accepted ev (endpoint l x) = [] -> emitted acts = [] -> delivered acts = [] ->
  link_inv (after x ev (endpoint l x) acts l).
Proof.
  intros [Hf Hd] Ha He Hdl. pose proof (Hd (negb x)) as Hd2. rewrite negb_involutive in Hd2.
  apply link_inv_split with x; unfold after; cbn [endpoint wire gave got];
    rewrite ?He, ?Ha, ?Hdl, ?upd_same, ?upd_other, ?app_nil_r by done; auto.
Qed.

Lemma app_event_inv x ev st' acts l :
  link_inv l -> app_event ev -> step_event true ev (endpoint l x) = Some (st', acts) ->
  link_inv (after x ev st' acts l).
Proof.
  intros Hinv Hev E. destruct (Hinv) as [Hforms Hdir].
  pose proof (Hdir (negb x)) as Hd2. rewrite negb_involutive in Hd2.
  destruct Hd2 as [_ Hq Hb Hsz _ _ _ _ _ _ _].
  destruct ev as [all size h|bufs h|d|delta| | |ec]; try done.
  - destruct (kMuxStreamMaxPendingReads <=? zlen (pending_reads_ (endpoint l x))) eqn:Efull.
    + assert (Heq : endpoint l x = st' /\ [post_read h ec_no_buffer_space []] = acts)
        by (destruct all; cbn in E; unfold async_read, async_read_some in E; rewrite Efull in E;
            by injection E as <- <-).
      destruct Heq as [<- <-]. by apply link_refused.
    + eapply link_reading with (l := l) (mid := set_pending_reads (pending_reads_ (endpoint l x) ++
        [{| pr_size := size; pr_handler := h; pr_read_all := all |}]) (endpoint l x)); try done.
      * apply Forall_app. split; [done|]. by apply Forall_singleton.
      * destruct all; cbn in E; unfold async_read, async_read_some in E; by rewrite Efull in E.
  - cbn in E. unfold async_write_bufs in E.
    destruct (kMuxStreamMaxPendingWrites <=? zlen (pending_writes_ (endpoint l x))) eqn:Efull.
    + injection E as <- <-. apply link_refused; try done. cbn. by rewrite Efull.
    + injection E as E. eapply link_writing with (l := l); [done| | | | |done..|exact E]; try done.
      * by destruct (Hdir x).
      * unfold unsent. cbn. rewrite Efull, map_app, concat_app. cbn. by rewrite app_nil_r.
Qed.

Lemma wire_split x l f rest :
  link_inv l -> wire l (negb x) = f :: rest ->
  frame_form f /\ Forall frame_form rest /\
  wire_data (wire l (negb x)) = wire_data [f] ++ wire_data rest /\
  wire_credit (wire l (negb x)) = wire_credit [f] + wire_credit rest.
Proof.
  intros [Hf _] E. specialize (Hf (negb x)). rewrite E in *. apply Forall_cons in Hf as [H1 H2].
  split; [done|]. split; [done|]. change (f :: rest) with ([f] ++ rest).
  by rewrite wire_data_app, wire_credit_app.
Qed.

Lemma queue_push_ok st d :
  queue_ok st -> Forall (fun b => zlen b <= MAX_MESSAGE_SIZE) (read_queue_ st) ->
  0 < zlen d -> zlen (unread st) + zlen d <= window ->
  queue_ok (set_read_queue (read_queue_ st ++ [d]) (read_queue_offset_ st) st) /\
  unread (set_read_queue (read_queue_ st ++ [d]) (read_queue_offset_ st) st) = unread st ++ d.
Proof.
  intros (Hq1 & Hq2 & Hq3) Hb Hd Hsum.
  assert (Hoff : 0 <= read_queue_offset_ st <= zlen (concat (read_queue_ st)))
    by (apply blocks_ok_nonneg; done).
  assert (Hc : concat (read_queue_ st ++ [d]) = concat (read_queue_ st) ++ d)
    by (rewrite concat_app; cbn; by rewrite app_nil_r).
  split.
  - split; [|split]; cbn [read_queue_ read_queue_offset_ set_read_queue].
    + apply Forall_app. split; [done|]. apply Forall_singleton. by intros ->.
    + destruct (read_queue_ st); cbn; [rewrite Hq2; lia|done].
    + rewrite Hc, zlen_app. unfold unread in Hsum. rewrite zlen_zdrop in Hsum by lia.
      unfold window, MAX_MESSAGE_SIZE in *. destruct (read_queue_ st) as [|b q]; [cbn in *; lia|].
      apply Forall_cons in Hb as [Hb _]. lia.
  - unfold unread. cbn [read_queue_ read_queue_offset_ set_read_queue].
    rewrite Hc, zdrop_app_le by lia. done.
Qed.

Lemma deliver_event_inv x f rest ev st' acts l :
  link_inv l -> wire l (negb x) = f :: rest -> frame_events f = [ev] ->
  step_event true ev (endpoint l x) = Some (st', acts) ->
  link_inv (after x ev st' acts (take_frame (negb x) rest l)).
Proof.
  intros Hinv Ewire Eev E. destruct (wire_split _ _ _ _ Hinv Ewire) as (Hf & Hrest & Hdata & Hcred).
  destruct (Hinv) as [Hforms Hdir].
  pose proof (Hdir x) as Hd1. pose proof (Hdir (negb x)) as Hd2. rewrite negb_involutive in Hd2.
  assert (Hwx : wire (take_frame (negb x) rest l) x = wire l x)
    by (cbn; apply upd_other; by rewrite negb_involutive).
  assert (Hwn : wire (take_frame (negb x) rest l) (negb x) = rest) by apply upd_same.
  destruct Hf as [(id & Hh & Hl)|(id & n & -> & Hn)].
  - unfold frame_events in Eev. rewrite Hh in Eev. cbn in Eev.
    replace (0 <? zlen f.2) with true in Eev by (symmetry; apply Z.ltb_lt; lia).
    injection Eev as <-. assert (Hwd : wire_data [f] = f.2).
    { unfold wire_data. cbn. rewrite Hh. cbn. apply app_nil_r. }
    destruct Hd2 as [[Hlc Hrc] Hq Hb Hsz Hc Hw Hcr Hsum _ _ _].
    rewrite Hdata, Hwd, zlen_app in Hsum. pose proof (zlen_nonneg (wire_data rest)).
    destruct (queue_push_ok (endpoint l x) f.2) as [Hok Hun]; [done|done|lia|lia|].
    eapply link_reading with (l := l) (mid := set_read_queue (read_queue_ (endpoint l x) ++ [f.2])
      (read_queue_offset_ (endpoint l x)) (endpoint l x)); rewrite ?Hwx, ?Hwn; try done.
    + apply Forall_app. split; [done|]. apply Forall_singleton. lia.
    + rewrite Hun, Hdata, Hwd. by rewrite app_assoc.
    + rewrite Hcred. cbn. rewrite Hh. cbn. lia.
  - injection Eev as <-. cbn [step_event fst length_ mk_header] in E. injection E as E.
    unfold handle_window_update in E. change (wire_credit [_]) with (n + 0) in Hcred.
    change (wire_data [_]) with (@nil byte) in Hdata. cbn [app] in Hdata.
    destruct Hd1 as [_ _ _ _ Hc Hw _ Hsum _ _ _].
    pose proof (zlen_nonneg (wire_data (wire l x))). pose proof (zlen_nonneg (unread (endpoint l (negb x)))).
    pose proof (frame_form_credit _ Hrest).
    assert (Hcap : Z.min (remote_window_size_ (endpoint l x) + n) MAX_MESSAGE_SIZE =
      remote_window_size_ (endpoint l x) + n) by (unfold window, MAX_MESSAGE_SIZE in *; lia).
    rewrite Hcap in E.
    eapply link_writing with (l := l); rewrite ?Hwx, ?Hwn; [done| | | | |done..|exact E];
      cbn [remote_window_size_ set_remote_window]; try done; try lia.
    cbn. by rewrite app_nil_r.
Qed.

Lemma link_step_inv l l' : link_inv l -> link_step l l' -> link_inv l'.
Proof.
  intros Hinv H. destruct H as [x ev st' acts l0 Hev E|x f rest ev st' acts l0 Hw Hf E].
  - by apply app_event_inv.
  - by eapply deliver_event_inv.
Qed.

Lemma new_link_inv id : link_inv (new_link id).
Proof.
  split; intros x; [constructor|]. split; cbn; try done; try lia; constructor; done.
Qed.

Lemma reachable_inv id l : star link_step (new_link id) l -> link_inv l.
Proof. apply star_invariant; [apply link_step_inv|apply new_link_inv]. Qed.

(** A pending [async_read] larger than the window stays at the head. *)
Lemma read_loop_stuck pr prs mid st' acts :
  queue_ok mid -> remote_closed_ mid = false -> pr_read_all pr = true ->
  zlen (unread mid) < pr_size pr ->
  read_loop true (pr :: prs) mid = Some (st', acts) -> pending_reads_ st' = pr :: prs.
Proof.
  intros Hok Hrc Hall Hsz E. cbn [read_loop] in E. pose proof (available_unread mid Hok) as Hav.
  destruct (read_queue_ mid) as [|b q].
  - rewrite Hrc in E. by injection E as <- <-.
  - rewrite Hav, Hall, Hrc in E. replace (zlen (unread mid) <? pr_size pr) with true in E
      by (symmetry; by apply Z.ltb_lt). by injection E as <- <-.
Qed.

Lemma do_read_stuck pr prs mid st' acts :
  pending_reads_ mid = pr :: prs ->
  queue_ok mid -> remote_closed_ mid = false -> pr_read_all pr = true ->
  zlen (unread mid) < pr_size pr ->
  do_read_from_buffer true mid = Some (st', acts) -> pending_reads_ st' = pr :: prs.
Proof.
  intros Hp Hok Hrc Hall Hsz E. unfold do_read_from_buffer in E. rewrite Hp in E.
  destruct (read_loop true (pr :: prs) mid) as [[s1 a1]|] eqn:E1; [|done].
  injection E as <- <-. by eapply read_loop_stuck.
Qed.

Lemma do_write_reads st st' acts :
  0 <= remote_window_size_ st -> MuxStream.do_write true st = (st', acts) ->
  pending_reads_ st' = pending_reads_ st.
Proof.
  intros Hw E. pose proof (do_write_spec true st Hw) as H. rewrite E in H.
  destruct H as [((_ & _ & _ & _ & _ & Hp & _) & _) _]. done.
Qed.

Definition stuck_head (pr : PendingRead) (st : MuxStream) : Prop :=
  exists prs, pending_reads_ st = pr :: prs.

Lemma app_event_stuck x ev st' acts l pr :
  link_inv l -> app_event ev -> step_event true ev (endpoint l x) = Some (st', acts) ->
  pr_read_all pr = true -> window < pr_size pr -> stuck_head pr (endpoint l x) -> stuck_head pr st'.
Proof.
  intros [_ Hdir] Hev E Hall Hsz [prs Hp].
  pose proof (Hdir x) as Hd1. pose proof (Hdir (negb x)) as Hd2. rewrite negb_involutive in Hd2.
  destruct Hd2 as [[_ Hrc] Hq _ _ Hc Hw2 Hcr Hsum _ _ _]. destruct Hd1 as [_ _ _ _ _ Hw _ _ _ _ _].
  pose proof (zlen_nonneg (wire_data (wire l (negb x)))).
  assert (Hun : zlen (unread (endpoint l x)) < pr_size pr) by lia.
  destruct ev as [all size h|bufs h|d|delta| | |ec]; try done.
  - destruct (kMuxStreamMaxPendingReads <=? zlen (pending_reads_ (endpoint l x))) eqn:Efull.
    + assert (Heq : endpoint l x = st')
        by (destruct all; cbn in E; unfold async_read, async_read_some in E; rewrite Efull in E;
            by injection E).
      subst st'. by exists prs.
    + set (nr := {| pr_size := size; pr_handler := h; pr_read_all := all |}).
      exists (prs ++ [nr]).
      eapply (do_read_stuck pr (prs ++ [nr]) (set_pending_reads (pending_reads_ (endpoint l x) ++ [nr])
        (endpoint l x))); try done; [cbn; by rewrite Hp|].
      destruct all; cbn in E; unfold async_read, async_read_some in E; by rewrite Efull in E.
  - cbn in E. unfold async_write_bufs in E. exists prs.
    case_match; [by injection E as <- <-|]. injection E as E.
    apply do_write_reads in E; [|done]. by rewrite E.
Qed.

Lemma deliver_stuck x f rest ev st' acts l pr :
  link_inv l -> wire l (negb x) = f :: rest -> frame_events f = [ev] ->
  step_event true ev (endpoint l x) = Some (st', acts) ->
  pr_read_all pr = true -> window < pr_size pr -> stuck_head pr (endpoint l x) -> stuck_head pr st'.
Proof.
  intros Hinv Ewire Eev E Hall Hsz [prs Hp].
  pose proof (deliver_event_inv x f rest ev st' acts l Hinv Ewire Eev E) as Hafter.
  destruct (wire_split _ _ _ _ Hinv Ewire) as (Hf & Hrest & Hdata & _).
  destruct Hinv as [_ Hdir].
  pose proof (Hdir x) as Hd1. pose proof (Hdir (negb x)) as Hd2. rewrite negb_involutive in Hd2.
  destruct Hd2 as [[_ Hrc] Hq Hb _ Hc Hw2 Hcr Hsum _ _ Hst]. destruct Hd1 as [_ _ _ _ _ Hw _ _ _ _ _].
  exists prs. destruct Hf as [(id & Hh & Hl)|(id & n & -> & Hn)].
  - unfold frame_events in Eev. rewrite Hh in Eev. cbn in Eev.
    replace (0 <? zlen f.2) with true in Eev by (symmetry; apply Z.ltb_lt; lia).
    injection Eev as <-. assert (Hwd : wire_data [f] = f.2).
    { unfold wire_data. cbn. rewrite Hh. cbn. apply app_nil_r. }
    rewrite Hdata, Hwd, zlen_app in Hsum. pose proof (zlen_nonneg (wire_data rest)).
    cbn [step_event] in E. unfold handle_data in E.
    pose proof (queue_push_ok (endpoint l x) f.2 Hq Hb ltac:(lia) ltac:(lia)) as [Hok Hun].
    eapply do_read_stuck; [| | | | |exact E]; try done. rewrite Hun, zlen_app. lia.
  - injection Eev as <-. cbn [step_event fst length_ mk_header] in E. injection E as E.
    unfold handle_window_update in E. apply do_write_reads in E; [by rewrite E|].
    cbn. unfold MAX_MESSAGE_SIZE. lia.
Qed.

(** ** Executing a schedule *)
Inductive choice : Type := c_app (x : bool) (ev : event) | c_deliver (x : bool).

Definition app_event_b (ev : event) : bool :=
  match ev with ev_read _ size _ => 0 <=? size | ev_write _ _ => true | _ => false end.

Definition link_exec (c : choice) (l : link) : option link :=
  match c with
  | c_app x ev =>
    if app_event_b ev then
      '(st', acts) ← step_event true ev (endpoint l x); mret (after x ev st' acts l)
    else None
  | c_deliver x =>
    match wire l (negb x) with
    | [] => None
    | f :: rest =>
      match frame_events f with
      | [ev] => '(st', acts) ← step_event true ev (endpoint l x);
                mret (after x ev st' acts (take_frame (negb x) rest l))
      | _ => None
      end
    end
  end.

Fixpoint link_run (cs : list choice) (l : link) : option link :=
  match cs with [] => Some l | c :: cs' => l1 ← link_exec c l; link_run cs' l1 end.

Lemma link_exec_step c l l' : link_exec c l = Some l' -> link_step l l'.
Proof.
  destruct c as [x ev|x]; cbn [link_exec]; intros H.
  - destruct (app_event_b ev) eqn:Eev; [|done].
    destruct (step_event true ev (endpoint l x)) as [[st' acts]|] eqn:E; [|done]. injection H as <-.
    apply step_app; [|done]. destruct ev; cbn in *; bool_hyps; done.
  - destruct (wire l (negb x)) as [|f rest] eqn:Ew; [done|].
    destruct (frame_events f) as [|ev [|]] eqn:Ef; try done.
    destruct (step_event true ev (endpoint l x)) as [[st' acts]|] eqn:E; [|done]. injection H as <-.
    by eapply step_deliver.
Qed.

Lemma link_run_star cs l l' : link_run cs l = Some l' -> star link_step l l'.
Proof.
  revert l. induction cs as [|c cs IH]; intros l H; [injection H as <-; apply star_refl|].
  cbn [link_run] in H. destruct (link_exec c l) as [l1|] eqn:E; [|done]. cbn in H.
  apply star_trans with l1; [by eapply star_one, link_exec_step|by apply IH].
Qed.

Definition link_runs (cs : list choice) (l : link) : bool :=
  match link_run cs l with Some _ => true | None => false end.
Lemma link_runs_star cs l : link_runs cs l = true -> star link_step l (default l (link_run cs l)).
Proof.
  unfold link_runs. intros H. destruct (link_run cs l) eqn:E; [|done]. by eapply link_run_star.
Qed.

(** ** Properties *)




(** Credit is only granted for consumed bytes, so an [async_read] that asks for more than
    the 128 KiB window never completes while the stream is open: whatever happens at both
    ends, it stays the first pending read. *)
Theorem flow_large_read_all_never_completes (id : Z) (l l' : link) (x : bool) (pr : PendingRead)
    (Hreach : star link_step (new_link id) l)
    (Hpending : stuck_head pr (endpoint l x)) (Hall : pr_read_all pr = true)
    (Hlarge : window < pr_size pr) (Hrun : star link_step l l') :
  stuck_head pr (endpoint l' x).
Proof.
  apply reachable_inv in Hreach. assert (Hboth : link_inv l' /\ stuck_head pr (endpoint l' x)); [|tauto].
  eapply (star_invariant link_step (fun l => link_inv l /\ stuck_head pr (endpoint l x))); [|by split|exact Hrun].
  clear l l' Hreach Hpending Hrun. intros l l' [Hinv Hst] Hstep. split; [by eapply link_step_inv|].
  destruct Hstep as [y ev st' acts l Hev E|y f rest ev st' acts l Ew Ef E]; cbn [endpoint after].
  - destruct (Bool.bool_dec x y) as [->|Hne]; [rewrite upd_same; by eapply app_event_stuck|].
    rewrite upd_other; [done|]. by destruct x, y.
  - destruct (Bool.bool_dec x y) as [->|Hne]; [rewrite upd_same; by eapply deliver_stuck|].
    rewrite upd_other; [done|]. by destruct x, y.
Qed.

(** ** Concrete schedules *)
Definition demo_schedule : list choice :=
  [c_app true (ev_write [demo_bytes 5; demo_bytes 7] 1); c_app false (ev_read false 8 2);
   c_deliver false; c_app false (ev_write [demo_bytes 3] 3); c_app true (ev_read true 2 4); c_deliver true].
Definition demo_link : link := default (new_link 1) (link_run demo_schedule (new_link 1)).

Lemma demo_link_reachable : star link_step (new_link 1) demo_link.
Proof. apply (link_runs_star demo_schedule). reflexivity. Qed.



(** A writer that used up its window against a reader that asks for too much. *)
Definition big_bytes : list byte := repeat Byte.x62 (Z.to_nat (window + 1)).
Definition stalled_schedule : list choice :=
  [c_app false (ev_read true (window + 1) 7); c_app true (ev_write [big_bytes] 1); c_deliver false].
Definition stalled_link : link := default (new_link 1) (link_run stalled_schedule (new_link 1)).

Lemma stalled_link_reachable : star link_step (new_link 1) stalled_link.
Proof. apply (link_runs_star stalled_schedule). vm_compute. reflexivity. Qed.


Definition later_link : link :=
  default stalled_link (link_run [c_app true (ev_write [demo_bytes 4] 2); c_app false (ev_read false 9 8)]
                         stalled_link).
Lemma later_link_reachable : star link_step stalled_link later_link.
Proof. apply link_runs_star. vm_compute. reflexivity. Qed.

Lemma flow_large_read_all_never_completes_witness :
  stuck_head {| pr_size := window + 1; pr_handler := 7; pr_read_all := true |}
    (endpoint later_link false).
Proof.
  apply (flow_large_read_all_never_completes 1 stalled_link later_link false _ stalled_link_reachable);
    [|reflexivity|reflexivity|exact later_link_reachable].
  exists []. vm_compute. reflexivity.
Defined.
