(* ===== verification/StreamEnd.v ===== *)
(** * The end of one stream (mux.cpp)

    When the session forgets a stream ([check_cleanup]), told from the events
    the stream has handled. *)
From Stdlib Require Import ZArith Lia Strings.Byte.
From stdpp Require Import base tactics list.
From S2P Require Import Prelude Protocol Zstd MuxFrame MuxStream MuxSession MuxFlow.
Local Open Scope Z_scope.

Definition gives_back (acts : list action) : bool :=
  existsb (fun a => match a with MuxStream.remove_stream _ => true | _ => false end) acts.
(** Data that arrives when this end has closed. *)
Fixpoint late_data (closed : bool) (evs : list event) : bool :=
  match evs with
  | [] => false
  | ev_data _ :: evs' => closed || late_data closed evs'
  | ev_close :: evs' => late_data true evs'
  | _ :: evs' => late_data closed evs'
  end.
(** The FIN is the peer's last frame of the stream. *)
Fixpoint fin_last (finished : bool) (evs : list event) : bool :=
  match evs with
  | [] => true
  | ev_data _ :: evs' => negb finished && fin_last finished evs'
  | ev_remote_close :: evs' => fin_last true evs'
  | _ :: evs' => fin_last finished evs'
  end.
Definition closes_here (evs : list event) : bool := existsb (fun ev => match ev with ev_close => true | _ => false end) evs.
Definition peer_closes (evs : list event) : bool := existsb (fun ev => match ev with ev_remote_close => true | _ => false end) evs.
Definition has_unread (st : MuxStream) : bool := match read_queue_ st with [] => false | _ => true end.

Lemma gives_back_app xs ys : gives_back (xs ++ ys) = gives_back xs || gives_back ys.
Proof. apply existsb_app. Qed.
Lemma gives_back_map {A} (f : A -> action) (l : list A) : (forall x, gives_back [f x] = false) -> gives_back (map f l) = false.
Proof. intros Hf. induction l as [|x l IH]; [done|]. cbn [map]. change (f x :: map f l) with ([f x] ++ map f l). by rewrite gives_back_app, Hf. Qed.
Lemma cleanup_gives st : gives_back (check_cleanup true st) = local_closed_ st && remote_closed_ st && negb (has_unread st).
Proof. unfold check_cleanup, has_unread. destruct (local_closed_ st), (remote_closed_ st); cbn; try done. by destruct (read_queue_ st). Qed.
Lemma read_loop_gives prs st st' acts : read_loop true prs st = Some (st', acts) -> gives_back acts = false /\
  local_closed_ st' = local_closed_ st /\ remote_closed_ st' = remote_closed_ st.
Proof.
  revert st st' acts. induction prs as [|pr prs IH]; intros st st' acts; cbn [read_loop]; [by intros [= <- <-]|].
  destruct (read_queue_ st) as [|b q] eqn:Eq.
  - destruct (remote_closed_ st) eqn:Er; [|by intros [= <- <-]].
    destruct (read_loop true prs st) as [[st1 a1]|] eqn:E; [|done]. intros [= <- <-]. rewrite <- Er. by apply IH in E.
  - destruct (pr_read_all pr && _ && _); [by intros [= <- <-]|].
    destruct (copy_blocks _ _ _ _) as [[[q' off'] data]|]; [|done]. cbn [mbind option_bind].
    unfold account_consumed. destruct (_ && _); (destruct (read_loop true prs _) as [[st2 a2]|] eqn:E; [|done]);
      intros [= <- <-]; by apply IH in E.
Qed.
Lemma do_write_loop_gives fuel st : gives_back (do_write_loop fuel true st).2 = false.
Proof.
  revert st. induction fuel as [|fuel IH]; intros st; [done|]. cbn [do_write_loop negb].
  destruct (pending_writes_ st) as [|pw pws]; [done|]. destruct (_ <=? 0); [done|].
  destruct (_ =? 0); [specialize (IH (set_pending_writes pws st)); by destruct (do_write_loop _ _ _)|].
  destruct (_ <? _); match goal with |- context [do_write_loop fuel true ?s] => specialize (IH s); by destruct (do_write_loop fuel true s) end.
Qed.
Lemma do_write_gives st : gives_back (MuxStream.do_write true st).2 = false /\
  local_closed_ (MuxStream.do_write true st).1 = local_closed_ st /\ remote_closed_ (MuxStream.do_write true st).1 = remote_closed_ st /\
  read_queue_ (MuxStream.do_write true st).1 = read_queue_ st /\ pending_reads_ (MuxStream.do_write true st).1 = pending_reads_ st.
Proof.
  split; [apply do_write_loop_gives|]. unfold MuxStream.do_write. generalize (do_write_fuel st). intros fuel. revert st.
  induction fuel as [|fuel IH]; intros st; [done|]. cbn [do_write_loop negb].
  destruct (pending_writes_ st) as [|pw pws]; [done|]. destruct (_ <=? 0); [done|].
  destruct (_ =? 0); [|destruct (_ <? _)];
    match goal with |- context [do_write_loop fuel true ?s] => specialize (IH s); by destruct (do_write_loop fuel true s) end.
Qed.

(** The session can forget the stream. *)
Definition over (st : MuxStream) : bool := local_closed_ st && remote_closed_ st && negb (has_unread st).
Definition quiet_reader (st : MuxStream) : Prop := local_closed_ st = true -> pending_reads_ st = [].
Lemma do_read_gives st st' acts : do_read_from_buffer true st = Some (st', acts) ->
  gives_back acts = over st' /\ local_closed_ st' = local_closed_ st /\ remote_closed_ st' = remote_closed_ st.
Proof.
  unfold do_read_from_buffer. destruct (read_loop _ _ st) as [[st1 a1]|] eqn:E; [|done]. intros [= <- <-].
  apply read_loop_gives in E as (E1 & E2 & E3). by rewrite gives_back_app, cleanup_gives, E1.
Qed.
Definition is_close (ev : event) : bool := match ev with ev_close => true | _ => false end.
Definition is_fin (ev : event) : bool := match ev with ev_remote_close => true | _ => false end.
Definition is_body (ev : event) : bool := match ev with ev_data _ => true | _ => false end.
Record gives_post (ev : event) (st st' : MuxStream) (acts : list action) : Prop := {
  gp_local : local_closed_ st' = local_closed_ st || is_close ev;
  gp_remote : remote_closed_ st' = remote_closed_ st || is_fin ev;
  gp_unread : local_closed_ st = true -> has_unread st' = has_unread st || is_body ev;
  gp_close : local_closed_ st = false -> local_closed_ st' = true -> has_unread st' = false;
  gp_gives : over st = false -> gives_back acts = over st';
  gp_quiet : quiet_reader st'
}.
Lemma gives_idle ev st acts : is_close ev = false -> is_fin ev = false -> is_body ev = false -> quiet_reader st ->
  gives_back acts = false -> gives_post ev st st acts.
Proof. intros H1 H2 H3 Hq Ha. split; rewrite ?H1, ?H2, ?H3, ?orb_false_r; [done..|congruence|congruence|done]. Qed.
Lemma gives_write ev st st1 : is_close ev = false -> is_fin ev = false -> is_body ev = false -> quiet_reader st ->
  local_closed_ st1 = local_closed_ st -> remote_closed_ st1 = remote_closed_ st -> read_queue_ st1 = read_queue_ st ->
  pending_reads_ st1 = pending_reads_ st -> gives_post ev st (MuxStream.do_write true st1).1 (MuxStream.do_write true st1).2.
Proof.
  intros H1 H2 H3 Hq E1 E2 E3 E4. destruct (do_write_gives st1) as (G1 & G2 & G3 & G4 & G5).
  split; rewrite ?G2, ?G3, ?E1, ?E2, ?H1, ?H2, ?H3, ?orb_false_r; try done.
  - intros _. unfold has_unread. by rewrite G4, E3.
  - congruence.
  - intros Ho. rewrite G1. unfold over, has_unread in *. by rewrite G2, G3, G4, E1, E2, E3, Ho.
  - unfold quiet_reader. by rewrite G2, G5, E1, E4.
Qed.
(** Reading: the state is open, or only the queue or the peer's side has changed. *)
Lemma gives_read ev st st1 st' acts : do_read_from_buffer true st1 = Some (st', acts) -> is_close ev = false ->
  local_closed_ st1 = local_closed_ st -> remote_closed_ st1 = remote_closed_ st || is_fin ev ->
  (local_closed_ st = true -> pending_reads_ st1 = [] /\ has_unread st1 = has_unread st || is_body ev) ->
  gives_post ev st st' acts.
Proof.
  intros E Hc E1 E2 E3. destruct (do_read_gives _ _ _ E) as (G1 & G2 & G3).
  assert (Hid : local_closed_ st = true -> st' = set_pending_reads [] st1).
  { intros Hl. destruct (E3 Hl) as [Hp _]. rewrite do_read_idle in E by done. by injection E as <- _. }
  split; rewrite ?G2, ?G3, ?E1, ?E2, ?Hc, ?orb_false_r; try done.
  - intros Hl. rewrite (Hid Hl). destruct (E3 Hl) as [_ <-]. done.
  - congruence.
  - unfold quiet_reader. rewrite G2, E1. intros Hl. by rewrite (Hid Hl).
Qed.
Lemma gives_step ev st st' acts : step_event true ev st = Some (st', acts) -> quiet_reader st ->
  well_used (local_closed_ st) [ev] = true -> gives_post ev st st' acts.
Proof.
  intros E Hq Hu. destruct ev as [all size h|bufs h|d|delta| | |ec]; cbn [step_event well_used] in *; bool_hyps.
  - assert (Hr : forall acts', acts' = [post_read h ec_no_buffer_space []] -> Some (st, acts') = Some (st', acts) ->
      gives_post (MuxStream.ev_read all size h) st st' acts) by (intros acts' -> [= <- <-]; by apply gives_idle).
    unfold async_read, async_read_some in E.
    destruct all; (destruct (_ <=? _); [by eapply Hr|]); (eapply gives_read; [exact E|done..|by rewrite orb_false_r|]);
      intros Hl; by rewrite Hl in *.
  - unfold async_write_bufs in E. destruct (_ <=? _); [injection E as <- <-; by apply gives_idle|].
    injection E as E. rewrite (surjective_pairing (MuxStream.do_write _ _)) in E. injection E as <- <-. by apply gives_write.
  - eapply gives_read; [exact E|done..|by rewrite orb_false_r|]. intros Hl. split; [by apply Hq|].
    unfold has_unread. cbn. rewrite orb_true_r. by destruct (read_queue_ st).
  - unfold handle_window_update in E. injection E as E. rewrite (surjective_pairing (MuxStream.do_write _ _)) in E.
    injection E as <- <-. by apply gives_write.
  - unfold handle_close in E. destruct (do_read_from_buffer true _) as [[st1 a1]|] eqn:Er; [|done]. injection E as <- <-.
    assert (G : gives_post ev_remote_close st st1 a1).
    { eapply gives_read; [exact Er|done..|by rewrite orb_true_r|]. intros Hl. split; [by apply Hq|]. by rewrite orb_false_r. }
    destruct G as [G1 G2 G3 G4 G5 G6]. split; try done. intros Ho. rewrite gives_back_app, (G5 Ho), cleanup_gives. apply orb_diag.
  - unfold MuxStream.close in E. destruct (local_closed_ st) eqn:El.
    + injection E as <- <-. split; rewrite ?El, ?orb_false_r; try done.
    + injection E as <- <-. set (st1 := set_closed _ _ _). set (fin := [send_frame (mk_header Data FIN (id_ st) 0) [] on_none]).
      assert (Hg : gives_back (fin ++ map (fun pr => post_read (pr_handler pr) ec_operation_aborted []) (pending_reads_ st) ++
        map (fun pw => post_write (pw_handler pw) ec_operation_aborted 0) (pending_writes_ st) ++ check_cleanup true st1) = over st1)
        by (rewrite !gives_back_app, !gives_back_map by done; apply cleanup_gives).
      split; try done; cbn [st1 set_closed local_closed_ remote_closed_ is_close is_fin is_body]; rewrite ?El, ?orb_false_r, ?orb_true_r; try done.
  - unfold on_send_done in E. destruct (decide _).
    + injection E as <- <-. by apply gives_idle.
    + injection E as <- <-. split; cbn; rewrite ?orb_false_r; try done; [congruence|].
      intros Ho. rewrite gives_back_map by done. unfold over, has_unread in *. cbn. by rewrite Ho.
Qed.
Lemma fin_last_done evs : fin_last true evs = true -> late_data true evs = false /\ late_data false evs = false.
Proof. induction evs as [|[] evs IH]; cbn; try done; intros Hf; by destruct (IH Hf). Qed.
Lemma late_start closed ev evs : late_data closed (ev :: evs) = (closed && is_body ev) || late_data (closed || is_close ev) evs.
Proof. destruct ev, closed; cbn; try done. Qed.
Lemma fin_start fin ev evs : fin_last fin (ev :: evs) = true -> fin_last (fin || is_fin ev) evs = true /\ fin && is_body ev = false.
Proof. destruct ev, fin; cbn; intros H; bool_hyps; done. Qed.
Lemma used_start closed ev evs : well_used closed (ev :: evs) = true ->
  well_used closed [ev] = true /\ well_used (closed || is_close ev) evs = true.
Proof.
  destruct ev as [all size h|bufs h|d|delta| | |ec], closed; cbn; try done;
    match goal with |- context [?a && _] => destruct a end; done.
Qed.
Lemma gives_run evs st st' acts : run true evs st = Some (st', acts) -> quiet_reader st ->
  well_used (local_closed_ st) evs = true -> fin_last (remote_closed_ st) evs = true -> over st = false ->
  gives_back acts = (local_closed_ st || closes_here evs) && (remote_closed_ st || peer_closes evs) &&
    negb (local_closed_ st && has_unread st) && negb (late_data (local_closed_ st) evs).
Proof.
  revert st acts. induction evs as [|ev evs IH]; intros st acts; cbn [run].
  { intros [= <- <-] _ _ _ Ho. unfold over in Ho. cbn. rewrite !orb_false_r.
    by destruct (local_closed_ st), (remote_closed_ st), (has_unread st). }
  destruct (step_event true ev st) as [[st1 a1]|] eqn:E1; [|done]. cbn [mbind option_bind].
  destruct (run true evs st1) as [[st2 a2]|] eqn:E2; [|done]. intros [= <- <-] Hq [Hu1 Hu]%used_start [Hf Hb]%fin_start Ho.
  destruct (gives_step _ _ _ _ E1 Hq Hu1) as [G1 G2 G3 G4 G5 G6]. rewrite <- G1 in Hu. rewrite <- G2 in Hf.
  specialize (G5 Ho). rewrite gives_back_app, G5, late_start, <- G1. change (closes_here (ev :: evs)) with (is_close ev || closes_here evs).
  change (peer_closes (ev :: evs)) with (is_fin ev || peer_closes evs). rewrite !orb_assoc, <- G1, <- G2.
  assert (Hnow : local_closed_ st && has_unread st || local_closed_ st && is_body ev = local_closed_ st1 && has_unread st1).
  { destruct (local_closed_ st) eqn:El; cbn [andb orb] in *.
    - rewrite G1, G3 by done. done.
    - destruct (local_closed_ st1) eqn:El1; [|done]. by rewrite G4. }
  destruct (over st1) eqn:Eo; cbn [orb].
  - unfold over in Eo. apply andb_true_iff in Eo as [Eo Eu]. apply andb_true_iff in Eo as [El Er]. apply negb_true_iff in Eu.
    rewrite El, Eu in Hnow. apply orb_false_iff in Hnow as [H1 H2]. rewrite Er in Hf.
    destruct (fin_last_done evs Hf) as [Hl _]. by rewrite El, Er, H1, H2, Hl.
  - rewrite (IH _ _ E2 G6 Hu Hf Eo), <- Hnow. rewrite !negb_orb, !andb_assoc.
    by rewrite <- !andb_assoc.
Qed.

(** C13 A stream is given back to its session exactly when both ends have closed it and no data has
    arrived after this end closed.  Data that crosses the FIN is put in the queue of a stream nobody
    reads any more, and the stream, its queue and its place in the table stay until the session ends. *)
Theorem stream_given_back (id : Z) (evs : list event) (st : MuxStream) (acts : list action)
    (Hrun : run true evs (new_mux_stream id) = Some (st, acts))
    (Hused : well_used false evs = true) (Hfin : fin_last false evs = true) :
  gives_back acts = closes_here evs && peer_closes evs && negb (late_data false evs).
Proof. rewrite (gives_run _ _ _ _ Hrun) by done. cbn. by rewrite andb_true_r. Qed.

Definition crossing : list event := [MuxStream.ev_read false 8 0; ev_data [x61]; ev_close; ev_data [x62]; ev_remote_close].
Definition in_turn : list event := [MuxStream.ev_read false 8 0; ev_data [x61]; ev_close; ev_remote_close].
Lemma stream_given_back_witness : exists st1 acts1 st2 acts2,
  run true in_turn (new_mux_stream 3) = Some (st1, acts1) /\ gives_back acts1 = true /\
  run true crossing (new_mux_stream 3) = Some (st2, acts2) /\ gives_back acts2 = false.
Proof.
  eexists _, _, _, _. split; [vm_compute; reflexivity|].
  split; [exact (stream_given_back 3 in_turn _ _ ltac:(vm_compute; reflexivity) eq_refl eq_refl)|].
  split; [vm_compute; reflexivity|exact (stream_given_back 3 crossing _ _ ltac:(vm_compute; reflexivity) eq_refl eq_refl)].
Defined.
