(* ===== verification/QuicStream.v ===== *)
(** * A QUIC stream (src/common/quic_ngtcp2.cpp: QuicStream)

    The reading side of a [QuicStream]: the blocks received, the reads that
    wait for them, and [do_read].  The stream's own writes go straight to the
    session (QuicSession.v).  [sess] tells whether [session_.lock()] gives the
    session and [conn] whether the session has an ngtcp2 connection; handlers
    are numbered and pending reads are those of MuxStream.v.  The reads are
    specified by the byte queue [serve] that also specifies [MuxStream]. *)
From Stdlib Require Import ZArith Lia Strings.Byte String.
From stdpp Require Import base tactics list.
From S2P Require Import Prelude Protocol MuxFrame MuxStream.
Local Open Scope Z_scope.

Record QuicStream : Type := {
  quic_queue_ : list (list byte);
  quic_queue_offset_ : Z;
  quic_reads_ : list PendingRead;
  closed_ : bool
}.
Definition new_quic_stream : QuicStream :=
  {| quic_queue_ := []; quic_queue_offset_ := 0; quic_reads_ := []; closed_ := false |}.

Inductive quic_action : Type :=
| quic_post (handler : nat) (ec : error_code) (data : list byte)
| extend_max_stream_offset (n : Z)
| shutdown_stream.                     (* [session->close_stream] *)

Definition with_queue (q : list (list byte)) (off : Z) (st : QuicStream) : QuicStream :=
  {| quic_queue_ := q; quic_queue_offset_ := off; quic_reads_ := quic_reads_ st; closed_ := closed_ st |}.
Definition with_reads (prs : list PendingRead) (st : QuicStream) : QuicStream :=
  {| quic_queue_ := quic_queue_ st; quic_queue_offset_ := quic_queue_offset_ st; quic_reads_ := prs;
     closed_ := closed_ st |}.
Definition with_closed (st : QuicStream) : QuicStream :=
  {| quic_queue_ := quic_queue_ st; quic_queue_offset_ := quic_queue_offset_ st; quic_reads_ := quic_reads_ st;
     closed_ := true |}.

(** ** Reading *)
(** The inner loop of [do_read]; [None] if [memcpy] would leave a block. *)
Fixpoint copy_loop (q : list (list byte)) (off buffer_remaining : Z) (copied : list byte)
  : option (list (list byte) * Z * list byte) :=
  match q with
  | [] => Some ([], off, copied)
  | block :: q' =>
    if 0 <? buffer_remaining then
      let block_available := size_sub (zlen block) off in
      let to_copy := Z.min buffer_remaining block_available in
      if zlen block <? off + to_copy then None else
      let copied := copied ++ ztake to_copy (zdrop off block) in
      if off + to_copy =? zlen block then copy_loop q' 0 (buffer_remaining - to_copy) copied
      else Some (q, off + to_copy, copied)
    else Some (q, off, copied)
  end.

(** The outer loop of [do_read] over the pending reads. *)
Fixpoint do_read_loop (conn : bool) (prs : list PendingRead) (st : QuicStream)
  : option (QuicStream * list quic_action) :=
  match prs with
  | [] => Some (with_reads [] st, [])
  | pr :: prs' =>
    match quic_queue_ st with
    | [] =>
      if closed_ st then
        '(st', acts) ← do_read_loop conn prs' st;
        mret (st', quic_post (pr_handler pr) ec_eof [] :: acts)
      else Some (with_reads prs st, [])
    | q =>
      let available := size_sub (total_size q) (quic_queue_offset_ st) in
      if pr_read_all pr && (available <? pr_size pr) && negb (closed_ st)
      then Some (with_reads prs st, [])
      else
        '(q', off', data) ← copy_loop q (quic_queue_offset_ st) (pr_size pr) [];
        '(st', acts) ← do_read_loop conn prs' (with_queue q' off' st);
        mret (st', quic_post (pr_handler pr) ec_ok data ::
                   (if conn && (0 <? zlen data) then [extend_max_stream_offset (zlen data)] else []) ++ acts)
    end
  end.
Definition do_read (sess conn : bool) (st : QuicStream) : option (QuicStream * list quic_action) :=
  if sess then do_read_loop conn (quic_reads_ st) st else Some (st, []).

Definition push_read (sess conn : bool) (all : bool) (size : Z) (handler : nat) (st : QuicStream)
  : option (QuicStream * list quic_action) :=
  if sess then
    do_read sess conn (with_reads (quic_reads_ st ++
      [{| pr_size := size; pr_handler := handler; pr_read_all := all |}]) st)
  else Some (st, [quic_post handler ec_connection_reset []]).
Definition async_read_some (sess conn : bool) := push_read sess conn false.
Definition async_read (sess conn : bool) := push_read sess conn true.

(** ** Arrivals and closing *)
Definition handle_data (sess conn : bool) (data : list byte) (st : QuicStream) :=
  do_read sess conn (with_queue (quic_queue_ st ++ [data]) (quic_queue_offset_ st) st).
Definition handle_close (sess conn : bool) (st : QuicStream) := do_read sess conn (with_closed st).
(** [close] leaves the pending reads to the session's notification. *)
Definition close (sess : bool) (st : QuicStream) : QuicStream * list quic_action :=
  if negb sess then (st, []) else
  if closed_ st then (st, []) else (with_closed st, [shutdown_stream]).
(** The destructor. *)
Definition destroy (st : QuicStream) : list quic_action :=
  map (fun pr => quic_post (pr_handler pr) ec_operation_aborted []) (quic_reads_ st).

(** ** Histories of a stream whose session is alive *)
Inductive quic_event : Type :=
| quic_read (all : bool) (size : Z) (handler : nat)
| quic_data (data : list byte)
| quic_remote_close
| quic_local_close.
Definition quic_step (ev : quic_event) (st : QuicStream) : option (QuicStream * list quic_action) :=
  match ev with
  | quic_read true size h => async_read true true size h st
  | quic_read false size h => async_read_some true true size h st
  | quic_data d => handle_data true true d st
  | quic_remote_close => handle_close true true st
  | quic_local_close => Some (close true st)
  end.
Fixpoint quic_run (evs : list quic_event) (st : QuicStream) : option (QuicStream * list quic_action) :=
  match evs with
  | [] => Some (st, [])
  | ev :: evs' =>
    '(st1, a1) ← quic_step ev st; '(st2, a2) ← quic_run evs' st1; mret (st2, a1 ++ a2)
  end.

Definition quic_posts (acts : list quic_action) : list (nat * error_code * list byte) :=
  omap (fun a => match a with quic_post h ec d => Some (h, ec, d) | _ => None end) acts.
Fixpoint extended (acts : list quic_action) : Z :=
  match acts with
  | [] => 0
  | extend_max_stream_offset n :: acts' => n + extended acts'
  | _ :: acts' => extended acts'
  end.
(** Frames with data, buffers with a size. *)
Definition quic_used (ev : quic_event) : Prop :=
  match ev with quic_read _ size _ => 0 <= size | quic_data d => d <> [] | _ => True end.
Definition quic_received (evs : list quic_event) : list byte :=
  concat (map (fun ev => match ev with quic_data d => d | _ => [] end) evs).

(** ** Specification: the byte queue; a local close serves nothing itself. *)
Record quic_reader : Type := { qr_bytes : list byte; qr_reads : list PendingRead; qr_closed : bool }.
Definition new_quic_reader : quic_reader := {| qr_bytes := []; qr_reads := []; qr_closed := false |}.
Definition qr_serve (r : quic_reader) : quic_reader * list (nat * error_code * list byte) :=
  let '(out, rest, bytes) := serve (qr_closed r) (qr_reads r) (qr_bytes r) in
  ({| qr_bytes := bytes; qr_reads := rest; qr_closed := qr_closed r |}, out).
Definition qr_step (ev : quic_event) (r : quic_reader) : quic_reader * list (nat * error_code * list byte) :=
  match ev with
  | quic_read all size h =>
    qr_serve {| qr_bytes := qr_bytes r; qr_closed := qr_closed r;
                qr_reads := qr_reads r ++ [{| pr_size := size; pr_handler := h; pr_read_all := all |}] |}
  | quic_data d => qr_serve {| qr_bytes := qr_bytes r ++ d; qr_reads := qr_reads r; qr_closed := qr_closed r |}
  | quic_remote_close => qr_serve {| qr_bytes := qr_bytes r; qr_reads := qr_reads r; qr_closed := true |}
  | quic_local_close => ({| qr_bytes := qr_bytes r; qr_reads := qr_reads r; qr_closed := true |}, [])
  end.
Fixpoint qr_run (evs : list quic_event) (r : quic_reader) : quic_reader * list (nat * error_code * list byte) :=
  match evs with
  | [] => (r, [])
  | ev :: evs' => let '(r1, o1) := qr_step ev r in let '(r2, o2) := qr_run evs' r1 in (r2, o1 ++ o2)
  end.

(** ** The invariant *)
Definition quic_unread (st : QuicStream) : list byte := zdrop (quic_queue_offset_ st) (concat (quic_queue_ st)).
Definition quic_reader_of (st : QuicStream) : quic_reader :=
  {| qr_bytes := quic_unread st; qr_reads := quic_reads_ st; qr_closed := closed_ st |}.
(** [budget] bytes may still arrive. *)
Record quic_inv (budget : Z) (st : QuicStream) : Prop := {
  qi_blocks : blocks_ok (quic_queue_ st) (quic_queue_offset_ st);
  qi_size : zlen (concat (quic_queue_ st)) + budget < 2 ^ 64;
  qi_reads : reads_sized (quic_reads_ st)
}.

Lemma copy_loop_blocks q off remaining copied : copy_loop q off remaining copied = copy_blocks q off remaining copied.
Proof.
  revert off remaining copied. induction q as [|b q IH]; intros off rem copied; [done|].
  cbn [copy_loop copy_blocks]. rewrite Z.leb_antisym.
  destruct (0 <? rem); [|done]. cbn [negb]. by rewrite !IH.
Qed.
Lemma quic_posts_app xs ys : quic_posts (xs ++ ys) = quic_posts xs ++ quic_posts ys.
Proof. apply omap_app. Qed.
Lemma extended_app xs ys : extended (xs ++ ys) = extended xs + extended ys.
Proof. induction xs as [|[] xs IH]; cbn [app extended]; lia. Qed.

(** The loop serves the byte queue and grants what it delivered. *)
Lemma do_read_loop_spec prs st : blocks_ok (quic_queue_ st) (quic_queue_offset_ st) -> reads_sized prs ->
  exists st' acts, do_read_loop true prs st = Some (st', acts) /\
    blocks_ok (quic_queue_ st') (quic_queue_offset_ st') /\ quic_queue_ st' `suffix_of` quic_queue_ st /\
    closed_ st' = closed_ st /\
    (quic_posts acts, quic_reads_ st', quic_unread st') = serve (closed_ st) prs (quic_unread st) /\
    extended acts = zlen (bytes_out (quic_posts acts)).
Proof.
  revert st. induction prs as [|pr prs IH]; intros st Hok Hsz.
  { eexists _, _. split; [done|]. cbn. by split_and!. }
  apply Forall_cons in Hsz as [Hpr Hsz]. cbn [do_read_loop].
  pose proof (blocks_ok_nonneg _ _ Hok) as Hoff.
  destruct (quic_queue_ st) as [|b q] eqn:Eq.
  - assert (Hu : quic_unread st = []) by (unfold quic_unread; rewrite Eq; apply drop_nil).
    rewrite Hu. cbn [serve]. destruct (closed_ st) eqn:Ec.
    + destruct (IH st) as (st' & acts & -> & H1 & H2 & H3 & H4 & H5); [by rewrite Eq|done|].
      eexists _, _. split; [done|]. rewrite Eq in H2. rewrite Hu, Ec in H4. rewrite <- H4.
      split_and!; try done; congruence.
    + eexists _, _. split; [done|]. cbn. rewrite Eq. split_and!; try done.
      change (quic_unread (with_reads _ st)) with (quic_unread st). by rewrite Hu.
  - assert (Hav : size_sub (total_size (b :: q)) (quic_queue_offset_ st) = zlen (quic_unread st)).
    { unfold quic_unread. rewrite Eq, zlen_zdrop, total_size_concat by lia. destruct Hok as (_ & _ & Hlt).
      rewrite size_sub_small; lia. }
    assert (Hu : quic_unread st <> []).
    { intros H. apply (f_equal zlen) in H. unfold quic_unread in H. rewrite Eq, zlen_zdrop in H by lia.
      destruct Hok as (_ & Hlt & _). cbn [concat] in H. zsize. }
    rewrite Hav. destruct (pr_read_all pr && _ && _) eqn:Ecase.
    + eexists _, _. split; [done|]. rewrite serve_wait by (by right). cbn. rewrite Eq. by split_and!.
    + rewrite copy_loop_blocks.
      destruct (copy_blocks_spec (b :: q) (quic_queue_offset_ st) (pr_size pr) []) as (q' & off' & -> & H1 & H2 & H3);
        [done|done|]. cbn [mbind option_bind app].
      destruct (IH (with_queue q' off' st)) as (st' & acts & -> & J1 & J2 & J3 & J4 & J5); [done|done|].
      cbn [mbind option_bind mret option_ret]. eexists _, _. split; [done|].
      rewrite <- Eq in *. fold (quic_unread st) in *. cbn [with_queue closed_ quic_queue_] in *.
      split; [done|]. split; [by etrans|]. split; [done|]. rewrite serve_ready by done.
      unfold quic_unread in J4 at 2. cbn [with_queue quic_queue_ quic_queue_offset_] in J4. rewrite H3 in J4.
      rewrite <- J4. set (data := ztake _ _). cbn [quic_posts omap list_omap extended].
      change (omap _ (_ ++ acts)) with (quic_posts ((if 0 <? zlen data
        then [extend_max_stream_offset (zlen data)] else []) ++ acts)).
      cbn [andb]. rewrite quic_posts_app, extended_app, J5. unfold bytes_out.
      assert (quic_posts (if 0 <? zlen data then [extend_max_stream_offset (zlen data)] else []) = []) as ->
        by (by destruct (0 <? zlen data)).
      split; [done|]. cbn [app map concat]. rewrite zlen_app.
      pose proof (zlen_nonneg data). destruct (0 <? zlen data) eqn:Ed; bool_hyps; cbn [extended]; lia.
Qed.
Lemma do_read_quic budget st : 0 <= budget -> quic_inv budget st -> exists st' acts,
  do_read true true st = Some (st', acts) /\ quic_inv budget st' /\
  qr_serve (quic_reader_of st) = (quic_reader_of st', quic_posts acts) /\
  extended acts = zlen (bytes_out (quic_posts acts)).
Proof.
  intros Hb [H1 H2 H3]. unfold do_read.
  destruct (do_read_loop_spec (quic_reads_ st) st H1 H3) as (st' & acts & -> & J1 & J2 & J3 & J4 & J5).
  exists st', acts. split; [done|]. unfold qr_serve, quic_reader_of. cbn [qr_closed qr_reads qr_bytes].
  rewrite <- J4, J3. split; [|done]. symmetry in J4. apply serve_rest in J4 as [_ [k Hk]].
  split; [done| |].
  - apply suffix_concat in J2. lia.
  - unfold reads_sized in *. rewrite Hk in H3. by apply Forall_app in H3 as [_ H3].
Qed.

Definition quic_post_event (budget : Z) (ev : quic_event) (st : QuicStream) : Prop := exists st' acts,
  quic_step ev st = Some (st', acts) /\ quic_inv budget st' /\
  qr_step ev (quic_reader_of st) = (quic_reader_of st', quic_posts acts) /\
  extended acts = zlen (bytes_out (quic_posts acts)).

(** An event that ends in [do_read]. *)
Lemma quic_serving budget ev st st1 : 0 <= budget -> quic_inv budget st1 ->
  quic_step ev st = do_read true true st1 -> qr_step ev (quic_reader_of st) = qr_serve (quic_reader_of st1) ->
  quic_post_event budget ev st.
Proof.
  intros Hb Hinv Hs Hr. destruct (do_read_quic budget st1 Hb Hinv) as (st' & acts & E & H1 & H2 & H3).
  exists st', acts. by rewrite Hs, Hr, E, H2.
Qed.
Lemma quic_event_step evs ev st : quic_inv (zlen (quic_received (ev :: evs))) st -> quic_used ev ->
  quic_post_event (zlen (quic_received evs)) ev st.
Proof.
  intros Hinv Hu. assert (Hb : 0 <= zlen (quic_received evs)) by apply zlen_nonneg.
  destruct Hinv as [H1 H2 H3]. unfold quic_received in H2. cbn [map concat] in H2.
  fold (quic_received evs) in H2. rewrite zlen_app in H2.
  destruct ev as [all size h|d| |]; cbn [quic_used] in Hu.
  - set (pr := {| pr_size := size; pr_handler := h; pr_read_all := all |}).
    apply quic_serving with (st1 := with_reads (quic_reads_ st ++ [pr]) st); [done| |by destruct all|done].
    split; [done|done|]. apply Forall_app. split; [done|]. by repeat constructor.
  - apply quic_serving with (st1 := with_queue (quic_queue_ st ++ [d]) (quic_queue_offset_ st) st); try done.
    + split; [| |done]; cbn [with_queue quic_queue_ quic_queue_offset_].
      * destruct H1 as (B1 & B2 & B3). split; [|split].
        -- apply Forall_app. split; [done|]. by repeat constructor.
        -- destruct (quic_queue_ st); [|done]. rewrite B2. cbn. destruct d; [done|]. zsize.
        -- rewrite concat_app. cbn. rewrite app_nil_r. zsize.
      * rewrite concat_app. cbn. rewrite app_nil_r. zsize.
    + unfold quic_reader_of, qr_step, quic_unread. cbn. do 2 f_equal.
      rewrite concat_app. cbn. rewrite app_nil_r, zdrop_app_le; [done|].
      pose proof (blocks_ok_nonneg _ _ H1). lia.
  - apply quic_serving with (st1 := with_closed st); [done|by split|done|done].
  - exists (with_closed st), (if closed_ st then [] else [shutdown_stream]).
    cbn. unfold close. cbn. destruct (closed_ st) eqn:Ec; [|by split_and!].
    destruct st as [q o r []]; [|done]. by split_and!.
Qed.

Lemma quic_run_spec evs st : quic_inv (zlen (quic_received evs)) st -> Forall quic_used evs ->
  exists st' acts, quic_run evs st = Some (st', acts) /\
    qr_run evs (quic_reader_of st) = (quic_reader_of st', quic_posts acts) /\
    extended acts = zlen (bytes_out (quic_posts acts)).
Proof.
  revert st. induction evs as [|ev evs IH]; intros st Hinv Hu; [by exists st, []|].
  apply Forall_cons in Hu as [Hev Hu].
  destruct (quic_event_step evs ev st Hinv Hev) as (st1 & a1 & E1 & Hi & Hr & Hx).
  destruct (IH st1 Hi Hu) as (st2 & a2 & E2 & Hr2 & Hx2).
  exists st2, (a1 ++ a2). cbn [quic_run qr_run]. rewrite E1. cbn [mbind option_bind].
  rewrite E2, Hr, Hr2, quic_posts_app, extended_app. split; [done|]. split; [done|].
  rewrite Hx, Hx2. unfold bytes_out. by rewrite map_app, concat_app, zlen_app.
Qed.
Lemma new_quic_inv budget : 0 <= budget < 2 ^ 64 -> quic_inv budget new_quic_stream.
Proof. intros Hb. split; cbn; [|rewrite zlen_nil; lia|by constructor]. split_and!; [by constructor|done|done]. Qed.

(** A QUIC stream refines the byte queue too: for every history of reads,
    arriving data, remote and local closes, no copy leaves a block, the reads
    complete exactly as the queue [qr_run] says, and the stream credit granted
    to the peer is the number of bytes handed to the reads. *)
Theorem quic_stream_refines_byte_queue (evs : list quic_event)
    (Hused : Forall quic_used evs) (Hsize : zlen (quic_received evs) < 2 ^ 64) :
  exists st acts, quic_run evs new_quic_stream = Some (st, acts) /\
    qr_run evs new_quic_reader = (quic_reader_of st, quic_posts acts) /\
    extended acts = zlen (bytes_out (quic_posts acts)).
Proof. apply (quic_run_spec evs new_quic_stream); [|done]. apply new_quic_inv. split; [apply zlen_nonneg|done]. Qed.

(** ** The two streams behave alike *)
(** The same history for a [MuxStream]. *)
Definition mux_event (ev : quic_event) : event :=
  match ev with
  | quic_read all size h => ev_read all size h
  | quic_data d => ev_data d
  | quic_remote_close => ev_remote_close
  | quic_local_close => ev_close
  end.
Fixpoint reads_issued (evs : list quic_event) : Z :=
  match evs with
  | [] => 0
  | quic_read _ _ _ :: evs' => 1 + reads_issued evs'
  | _ :: evs' => reads_issued evs'
  end.
Lemma reads_issued_nonneg evs : 0 <= reads_issued evs.
Proof. induction evs as [|[] evs IH]; cbn [reads_issued]; lia. Qed.

Lemma serve_fewer closed prs bytes : zlen (serve closed prs bytes).1.2 <= zlen prs.
Proof.
  destruct (serve closed prs bytes) as [[out rest] bs] eqn:E. apply serve_rest in E as [_ Hs].
  by apply suffix_zlen.
Qed.
(** Step for step, as long as the mux stream's limit on reads is not met. *)
Lemma readers_agree evs (r : reader) (q : quic_reader) :
  rd_bytes r = qr_bytes q -> rd_reads r = qr_reads q -> rd_remote_closed r = qr_closed q -> rd_closed r = false ->
  zlen (qr_reads q) + reads_issued evs <= kMuxStreamMaxPendingReads ->
  Forall (fun ev => ev <> quic_local_close) evs ->
  (rd_run (map mux_event evs) r).2 = (qr_run evs q).2.
Proof.
  revert r q. induction evs as [|ev evs IH]; intros [rb rr rc rl] [qb qr qc] H1 H2 H3 H4 Hn Hl; [done|].
  cbn in H1, H2, H3, H4. subst rb rr rc rl. apply Forall_cons in Hl as [Hev Hl].
  pose proof (reads_issued_nonneg evs) as Hpos.
  cbn [map rd_run qr_run].
  assert (Hstep : forall prs bytes closed, zlen prs + reads_issued evs <= kMuxStreamMaxPendingReads ->
    (let '(r1, o1) := rd_serve {| rd_bytes := bytes; rd_reads := prs; rd_remote_closed := closed; rd_closed := false |} in
     let '(r2, o2) := rd_run (map mux_event evs) r1 in (r2, o1 ++ o2)).2 =
    (let '(q1, o1) := qr_serve {| qr_bytes := bytes; qr_reads := prs; qr_closed := closed |} in
     let '(q2, o2) := qr_run evs q1 in (q2, o1 ++ o2)).2).
  { intros prs bytes closed Hle. unfold rd_serve, qr_serve. cbn.
    pose proof (serve_fewer closed prs bytes) as Hf.
    destruct (serve closed prs bytes) as [[out rest] bs]. cbn in Hf.
    specialize (IH {| rd_bytes := bs; rd_reads := rest; rd_remote_closed := closed; rd_closed := false |}
      {| qr_bytes := bs; qr_reads := rest; qr_closed := closed |} eq_refl eq_refl eq_refl eq_refl
      ltac:(cbn; lia) Hl).
    destruct (rd_run _ _) as [r2 o2], (qr_run evs _) as [q2 o3]. cbn in *. by rewrite IH. }
  destruct ev as [all size h|d| |]; cbn [mux_event rd_step qr_step rd_reads rd_bytes rd_remote_closed rd_closed
    qr_bytes qr_reads qr_closed]; [| | |done].
  - cbn [reads_issued qr_reads] in Hn.
    replace (kMuxStreamMaxPendingReads <=? zlen qr) with false by (symmetry; apply Z.leb_gt; lia).
    apply Hstep. zsize.
  - by apply Hstep.
  - by apply Hstep.
Qed.


(** A frame that carries only the end of the stream completes a waiting
    [async_read] with success and no byte: [recv_stream_data] first queues its
    empty data as a block, and once the stream is closed a non-empty queue, even
    of no bytes, is handed to the read instead of [eof]. *)
Lemma quic_bare_fin_completes_read size h : 0 < size ->
  exists st, quic_run [quic_read true size h; quic_data []; quic_remote_close] new_quic_stream =
    Some (st, [quic_post h ec_ok []]).
Proof.
  intros Hs. destruct size as [|p|p]; [lia| |lia]. vm_compute. by eexists.
Qed.

(** ** Instances *)
Definition demo_quic_events : list quic_event :=
  [quic_read true 5 1; quic_data (bytes_of "abc"); quic_read false 4 2; quic_data (bytes_of "defg");
   quic_read true 100 3; quic_data (bytes_of "h"); quic_remote_close; quic_read true 1 4].
Lemma demo_quic_used : Forall quic_used demo_quic_events /\ Forall (fun ev => ev <> quic_local_close) demo_quic_events.
Proof. split; repeat constructor; cbn; done || lia. Qed.

Lemma quic_stream_refines_byte_queue_witness :
  exists st acts, quic_run demo_quic_events new_quic_stream = Some (st, acts) /\
    qr_run demo_quic_events new_quic_reader = (quic_reader_of st, quic_posts acts) /\
    extended acts = zlen (bytes_out (quic_posts acts)).
Proof. apply quic_stream_refines_byte_queue; [apply demo_quic_used|vm_compute; reflexivity]. Defined.
