(* ===== verification/QuicSession.v ===== *)
(** * A QUIC session (src/common/quic_ngtcp2.cpp: QuicSession)

    The session's own state - its streams, its queue of writes, its timer - and
    its operations as they run on the strand under [ngtcp2_mutex_].  What
    ngtcp2 and the socket answer is an argument, [ng_env]: the packets
    [ngtcp2_conn_write_pkt] produces, what each [ngtcp2_conn_writev_stream]
    takes of the bytes it is offered, the next expiry, and whether the
    connection is closing.  Stream objects are numbered; what the session asks
    of them is an action.  [is_writing_] guards against a re-entry that nothing
    in the loop of [do_write] can cause and is left out. *)
From Stdlib Require Import ZArith Lia Strings.Byte.
From stdpp Require Import base tactics list gmap.
From S2P Require Import Prelude Protocol MuxFrame MuxStream QuicStream.
Local Open Scope Z_scope.

(** ** The environment of one handler *)
Record write_result : Type := {
  wr_res : Z;              (* the size of the packet, or an error *)
  wr_consumed : Z;         (* [consumed_datalen] *)
  wr_ec : error_code       (* of sending the packet *)
}.
Inductive expiry : Type := exp_passed | exp_later | exp_never.
Record ng_env : Type := {
  ng_packet : nat -> Z * error_code;                    (* the i-th [write_pkt] and its send *)
  ng_writev : nat -> Z -> list byte -> write_result;    (* the i-th [writev_stream] *)
  ng_expiry : expiry;
  ng_closing : bool                                     (* closing or draining period *)
}.

(** ** State *)
Record QuicWrite : Type := {
  qw_stream : Z; qw_bodies : list (list byte); qw_consumed : Z; qw_handler : nat }.
(** What the armed [timer_] will run. *)
Inductive timer_use : Type := expiry_timer | retry_timer.
Record QuicSession : Type := {
  conn_ : bool;
  closed_notified_ : bool;
  quic_streams_ : gmap Z nat;
  next_quic_object : nat;
  quic_write_queue_ : list QuicWrite;
  timer_ : option timer_use
}.
Inductive session_act : Type :=
| send_packet (n : Z)
| stream_bytes (id : Z) (bytes : list byte)              (* taken over by ngtcp2 *)
| write_done (handler : nat) (ec : error_code) (n : Z)
| send_connection_close
| notify_closed                                          (* [on_closed_cb_] posted *)
| notify_connected
| notify_stream (id : Z) (obj : nat)                     (* [on_new_stream_cb_] posted *)
| tell_stream (obj : nat) (ev : quic_event)
| ng_shutdown_stream (id : Z).

Definition new_quic_session : QuicSession := {|
  conn_ := false; closed_notified_ := false; quic_streams_ := ∅; next_quic_object := 0;
  quic_write_queue_ := []; timer_ := None |}.
Definition set_quic_streams (m : gmap Z nat) (next : nat) (s : QuicSession) : QuicSession := {|
  conn_ := conn_ s; closed_notified_ := closed_notified_ s; quic_streams_ := m; next_quic_object := next;
  quic_write_queue_ := quic_write_queue_ s; timer_ := timer_ s |}.
Definition set_quic_writes (q : list QuicWrite) (s : QuicSession) : QuicSession := {|
  conn_ := conn_ s; closed_notified_ := closed_notified_ s; quic_streams_ := quic_streams_ s;
  next_quic_object := next_quic_object s; quic_write_queue_ := q; timer_ := timer_ s |}.
Definition set_timer (t : option timer_use) (s : QuicSession) : QuicSession := {|
  conn_ := conn_ s; closed_notified_ := closed_notified_ s; quic_streams_ := quic_streams_ s;
  next_quic_object := next_quic_object s; quic_write_queue_ := quic_write_queue_ s; timer_ := t |}.

(** [!conn_ || closed_notified_] *)
Definition dead (s : QuicSession) : bool := negb (conn_ s) || closed_notified_ s.

(** [init]: [ok] tells whether ngtcp2 made the connection; [schedule_timer] is posted. *)
Definition init (ok : bool) (s : QuicSession) : QuicSession := {|
  conn_ := ok; closed_notified_ := closed_notified_ s; quic_streams_ := quic_streams_ s;
  next_quic_object := next_quic_object s; quic_write_queue_ := quic_write_queue_ s; timer_ := timer_ s |}.

Definition schedule_timer (e : expiry) (s : QuicSession) : QuicSession :=
  if dead s then s else
  match e with exp_never => s | _ => set_timer (Some expiry_timer) s end.

(** ** Closing *)
(** What [close_session] and [check_closed] share: every stream is told, the
    callback posted. *)
Definition notify_all (s : QuicSession) : QuicSession * list session_act :=
  ({| conn_ := conn_ s; closed_notified_ := true; quic_streams_ := ∅; next_quic_object := next_quic_object s;
      quic_write_queue_ := quic_write_queue_ s; timer_ := timer_ s |},
   map (fun p => tell_stream p.2 quic_remote_close) (map_to_list (quic_streams_ s)) ++ [notify_closed]).
(** [sent]: ngtcp2 produced a CONNECTION_CLOSE packet. *)
Definition close_session (send_close sent : bool) (s : QuicSession) : QuicSession * list session_act :=
  if dead s then (s, []) else
  let '(s1, a) := notify_all s in
  (set_timer None s1, (if send_close && sent then [send_connection_close] else []) ++ a).
Definition check_closed (closing : bool) (s : QuicSession) : QuicSession * list session_act :=
  if dead s then (s, []) else if closing then notify_all s else (s, []).

(** ** Writing *)
(** The [ngtcp2_vec]s: the bodies after the first [skip] bytes. *)
Fixpoint ng_vec (skip : Z) (bodies : list (list byte)) : list (list byte) :=
  match bodies with
  | [] => []
  | b :: bs => if zlen b <=? skip then ng_vec (skip - zlen b) bs else zdrop skip b :: ng_vec 0 bs
  end.
Definition max_packets : nat := 16.

(** The loop of [do_write]: the queue left, the actions, whether a send failed
    for good, the number of packets sent. *)
Fixpoint do_write_loop (fuel : nat) (writev : nat -> Z -> list byte -> write_result) (packets_sent : nat)
    (q : list QuicWrite) : list QuicWrite * list session_act * bool * nat :=
  match fuel, q with
  | O, _ | _, [] => (q, [], false, packets_sent)
  | S fuel', pw :: q' =>
    if (max_packets <=? packets_sent)%nat then (q, [], false, packets_sent) else
    let v := ng_vec (qw_consumed pw) (qw_bodies pw) in
    if bool_decide (v = []) && negb (bool_decide (qw_bodies pw = [])) then do_write_loop fuel' writev packets_sent q'
    else
    let r := writev packets_sent (qw_stream pw) (concat v) in
    if 0 <? wr_res r then
      let sent := S packets_sent in
      let a := [stream_bytes (qw_stream pw) (ztake (wr_consumed r) (concat v)); send_packet (wr_res r)] in
      match wr_ec r with
      | ec_ok =>
        if 0 <? wr_consumed r then
          let consumed := qw_consumed pw + wr_consumed r in
          let total_orig := total_size (qw_bodies pw) in
          if total_orig <=? consumed then
            let '(q1, a1, f, n) := do_write_loop fuel' writev sent q' in
            (q1, a ++ write_done (qw_handler pw) ec_ok total_orig :: a1, f, n)
          else
            let pw' := {| qw_stream := qw_stream pw; qw_bodies := qw_bodies pw; qw_consumed := consumed;
                          qw_handler := qw_handler pw |} in
            let '(q1, a1, f, n) := do_write_loop fuel' writev sent (pw' :: q') in (q1, a ++ a1, f, n)
        else (q, a, false, sent)
      | ec_would_block | ec_try_again | ec_operation_aborted => (q, a, false, sent)
      | _ => (q, a, true, sent)
      end
    else (q, [], false, packets_sent)
  end.
Definition do_write_fuel (q : list QuicWrite) : nat := (S max_packets + length q)%nat.
Definition do_write (e : ng_env) (s : QuicSession) : QuicSession * list session_act :=
  if dead s then (s, []) else
  let q := quic_write_queue_ s in
  let '(q1, a1, failed, n) := do_write_loop (do_write_fuel q) (ng_writev e) 0 q in
  let s1 := set_quic_writes q1 s in
  let '(s2, a2) := if failed : bool then close_session true true s1 else (s1, []) in
  let s3 := if negb (bool_decide (q1 = [])) && (max_packets <=? n)%nat then set_timer (Some retry_timer) s2 else s2 in
  (s3, a1 ++ a2).

(** The loop of [send_packets] over [write_pkt], at most 32 packets. *)
Fixpoint packet_loop (n : nat) (packet : nat -> Z * error_code) (i : nat) : list session_act * bool :=
  match n with
  | O => ([], false)
  | S n' =>
    let '(res, ec) := packet i in
    if res <=? 0 then ([], false) else
    match ec with
    | ec_ok => let '(a, f) := packet_loop n' packet (S i) in (send_packet res :: a, f)
    | ec_would_block | ec_try_again | ec_operation_aborted => ([send_packet res], false)
    | _ => ([send_packet res], true)
    end
  end.
Definition send_packets (e : ng_env) (s : QuicSession) : QuicSession * list session_act :=
  if dead s then (s, []) else
  let '(a1, failed) := packet_loop 32 (ng_packet e) 0 in
  let '(s2, a2) := if failed : bool then close_session true true s else (s, []) in
  let '(s3, a3) := do_write e s2 in
  let '(s4, a4) := check_closed (ng_closing e) (schedule_timer (ng_expiry e) s3) in
  (s4, a1 ++ a2 ++ a3 ++ a4).

Definition kQuicSessionMaxPendingWrites : Z := 1024.
Definition write_stream (e : ng_env) (id : Z) (buffers : list (list byte)) (handler : nat) (s : QuicSession)
  : QuicSession * list session_act :=
  if dead s then (s, [write_done handler ec_connection_reset 0]) else
  if kQuicSessionMaxPendingWrites <=? zlen (quic_write_queue_ s)
  then (s, [write_done handler ec_no_buffer_space 0])
  else do_write e (set_quic_writes (quic_write_queue_ s ++
         [{| qw_stream := id; qw_bodies := buffers; qw_consumed := 0; qw_handler := handler |}]) s).
(** The overload for one buffer; an empty one has no body at all. *)
Definition write_stream_data (e : ng_env) (id : Z) (data : list byte) (handler : nat) (s : QuicSession) :=
  write_stream e id (if 0 <? zlen data then [data] else []) handler s.

(** ** Streams *)
(** [id] is what [ngtcp2_conn_open_bidi_stream] gives. *)
Definition open_stream (id : option Z) (s : QuicSession) : QuicSession * option nat :=
  if dead s then (s, None) else
  match id with
  | None => (s, None)
  | Some i => (set_quic_streams (<[i := next_quic_object s]> (quic_streams_ s)) (S (next_quic_object s)) s,
               Some (next_quic_object s))
  end.
Definition close_stream (e : ng_env) (id : Z) (s : QuicSession) : QuicSession * list session_act :=
  if dead s then (s, []) else
  let '(s1, a) := send_packets e s in (s1, ng_shutdown_stream id :: a).

Definition on_stream_data (id : Z) (data : list byte) (s : QuicSession) : QuicSession * list session_act :=
  match quic_streams_ s !! id with
  | Some obj => (s, [tell_stream obj (quic_data data)])
  | None =>
    let obj := next_quic_object s in
    (set_quic_streams (<[id := obj]> (quic_streams_ s)) (S obj) s,
     [notify_stream id obj; tell_stream obj (quic_data data)])
  end.
Definition on_stream_close (id : Z) (s : QuicSession) : QuicSession * list session_act :=
  match quic_streams_ s !! id with
  | Some obj => (set_quic_streams (delete id (quic_streams_ s)) (next_quic_object s) s,
                 [tell_stream obj quic_remote_close])
  | None => (s, [])
  end.

(** ** Packets and timers *)
(** What ngtcp2 calls back while it reads a packet. *)
Inductive ng_callback : Type :=
| cb_stream_data (id : Z) (data : list byte) (fin : bool)
| cb_stream_close (id : Z)
| cb_handshake_completed.
Definition run_callback (cb : ng_callback) (s : QuicSession) : QuicSession * list session_act :=
  match cb with
  | cb_stream_data id data fin =>
    let '(s1, a1) := on_stream_data id data s in
    let '(s2, a2) := if fin : bool then on_stream_close id s1 else (s1, []) in (s2, a1 ++ a2)
  | cb_stream_close id => on_stream_close id s
  | cb_handshake_completed => (s, [notify_connected])
  end.
Fixpoint run_callbacks (cbs : list ng_callback) (s : QuicSession) : QuicSession * list session_act :=
  match cbs with
  | [] => (s, [])
  | cb :: cbs' => let '(s1, a1) := run_callback cb s in let '(s2, a2) := run_callbacks cbs' s1 in (s2, a1 ++ a2)
  end.
(** The result of [ngtcp2_conn_read_pkt]. *)
Inductive read_result : Type := read_ok | read_drop | read_failed.
Definition handle_packet (e : ng_env) (cbs : list ng_callback) (res : read_result) (s : QuicSession)
  : QuicSession * list session_act :=
  if dead s then (s, []) else
  let '(s1, a1) := run_callbacks cbs s in
  match res with
  | read_drop => let '(s2, a2) := close_session false true s1 in (s2, a1 ++ a2)
  | read_failed => let '(s2, a2) := close_session true true s1 in (s2, a1 ++ a2)
  | read_ok =>
    let '(s2, a2) := send_packets e s1 in
    let '(s3, a3) := check_closed (ng_closing e) s2 in (s3, a1 ++ a2 ++ a3)
  end.
(** The armed timer fires; [expired] is the sign of [ngtcp2_conn_handle_expiry]. *)
Definition on_timer (e : ng_env) (expired : bool) (s : QuicSession) : QuicSession * list session_act :=
  match timer_ s with
  | None => (s, [])
  | Some use =>
    let s1 := set_timer None s in
    if dead s1 then (s1, []) else
    match use with
    | expiry_timer => if expired then close_session false true s1 else send_packets e s1
    | retry_timer => do_write e s1
    end
  end.
(** The destructor tells the streams that are left. *)
Definition destroy_session (s : QuicSession) : list session_act :=
  map (fun p => tell_stream p.2 quic_remote_close) (map_to_list (quic_streams_ s)).

(** ** Histories *)
Inductive quic_op : Type :=
| q_init (ok : bool) (e : expiry)
| q_packet (e : ng_env) (cbs : list ng_callback) (res : read_result)
| q_send (e : ng_env)
| q_open (id : option Z)
| q_close_stream (e : ng_env) (id : Z)
| q_write (e : ng_env) (id : Z) (buffers : list (list byte)) (handler : nat)
| q_timer (e : ng_env) (expired : bool)
| q_close (send_close : bool).
Definition quic_session_step (op : quic_op) (s : QuicSession) : QuicSession * list session_act :=
  match op with
  | q_init ok e => (schedule_timer e (init ok s), [])
  | q_packet e cbs res => handle_packet e cbs res s
  | q_send e => send_packets e s
  | q_open id => ((open_stream id s).1, [])
  | q_close_stream e id => close_stream e id s
  | q_write e id bufs h => write_stream e id bufs h s
  | q_timer e expired => on_timer e expired s
  | q_close send => close_session send true s
  end.
Fixpoint quic_session_run (ops : list quic_op) (s : QuicSession) : QuicSession * list session_act :=
  match ops with
  | [] => (s, [])
  | op :: ops' =>
    let '(s1, a1) := quic_session_step op s in let '(s2, a2) := quic_session_run ops' s1 in (s2, a1 ++ a2)
  end.


(** ** Observations *)
Definition taken (id : Z) (acts : list session_act) : list byte :=
  concat (map (fun a => match a with stream_bytes i bs => if i =? id then bs else [] | _ => [] end) acts).
Definition completed (acts : list session_act) : list nat :=
  omap (fun a => match a with write_done h ec_ok _ => Some h | _ => None end) acts.
Definition told (acts : list session_act) : list nat :=
  omap (fun a => match a with tell_stream o quic_remote_close => Some o | _ => None end) acts.
Definition closes (acts : list session_act) : nat :=
  length (List.filter (fun a => match a with notify_closed => true | _ => false end) acts).
Definition objects (s : QuicSession) : list nat := map snd (map_to_list (quic_streams_ s)).

(** The writes the session took into its queue: stream, bytes, handler. *)
Definition admits (op : quic_op) (s : QuicSession) : list (Z * list byte * nat) :=
  match op with
  | q_write _ id bufs h =>
    if dead s || (kQuicSessionMaxPendingWrites <=? zlen (quic_write_queue_ s)) then [] else [(id, concat bufs, h)]
  | _ => []
  end.
Fixpoint admitted (ops : list quic_op) (s : QuicSession) : list (Z * list byte * nat) :=
  match ops with
  | [] => []
  | op :: ops' => admits op s ++ admitted ops' (quic_session_step op s).1
  end.
Definition bytes_for (id : Z) (ws : list (Z * list byte * nat)) : list byte :=
  concat (map (fun w => if w.1.1 =? id then w.1.2 else []) ws).
(** What ngtcp2 has still to be given. *)
Definition waiting (id : Z) (q : list QuicWrite) : list byte :=
  concat (map (fun w => if qw_stream w =? id then zdrop (qw_consumed w) (concat (qw_bodies w)) else []) q).

(** ngtcp2 takes no more than it is offered; a socket send succeeds or fails
    for good. *)
Definition transient (ec : error_code) : bool :=
  match ec with ec_would_block | ec_try_again | ec_operation_aborted => true | _ => false end.
Definition smooth (e : ng_env) : Prop := forall i id d,
  wr_consumed (ng_writev e i id d) <= zlen d /\ transient (wr_ec (ng_writev e i id d)) = false.
Definition op_env (op : quic_op) : option ng_env :=
  match op with
  | q_packet e _ _ | q_send e | q_close_stream e _ | q_write e _ _ _ | q_timer e _ => Some e
  | q_init _ _ | q_open _ | q_close _ => None
  end.
(** Smooth environments, and writes with something to write. *)
Definition op_smooth (op : quic_op) : Prop :=
  (forall e, op_env op = Some e -> smooth e) /\
  match op with q_write _ _ bufs _ => concat bufs <> [] | _ => True end.

(** ** Lemmas on the observations *)
Lemma taken_app id xs ys : taken id (xs ++ ys) = taken id xs ++ taken id ys.
Proof. unfold taken. by rewrite map_app, concat_app. Qed.
Lemma completed_app xs ys : completed (xs ++ ys) = completed xs ++ completed ys.
Proof. apply omap_app. Qed.
Lemma told_app xs ys : told (xs ++ ys) = told xs ++ told ys.
Proof. apply omap_app. Qed.
Lemma quic_closes_app xs ys : closes (xs ++ ys) = (closes xs + closes ys)%nat.
Proof. unfold closes. by rewrite List.filter_app, length_app. Qed.
Lemma ng_vec_skip n bufs : ng_vec n bufs = skip_buffers n bufs.
Proof. revert n. induction bufs as [|b bs IH]; intros n; [done|]. cbn. by rewrite !IH. Qed.

(** ** The write queue *)
Definition write_ok (w : QuicWrite) : Prop :=
  0 <= qw_consumed w /\ qw_consumed w < zlen (concat (qw_bodies w)).

(** What a stretch of the loop leaves: handlers and bytes in order, [fail] a
    send that failed for good. *)
Record loop_post (q q1 : list QuicWrite) (a : list session_act) (fail : bool) : Prop := {
  lp_ok : Forall write_ok q1;
  lp_done : completed a ++ map qw_handler q1 = map qw_handler q;
  lp_prefix id : taken id a `prefix_of` waiting id q;
  lp_taken id : fail = false -> taken id a ++ waiting id q1 = waiting id q;
  lp_quiet : told a = [] /\ closes a = O
}.
Lemma loop_post_nothing q : Forall write_ok q -> loop_post q q [] false.
Proof. intros H. split; try done. intros id. apply prefix_nil. Qed.

Lemma vec_nonempty w : write_ok w ->
  concat (ng_vec (qw_consumed w) (qw_bodies w)) = zdrop (qw_consumed w) (concat (qw_bodies w)) /\
  bool_decide (ng_vec (qw_consumed w) (qw_bodies w) = []) && negb (bool_decide (qw_bodies w = [])) = false.
Proof.
  intros [H1 H2]. assert (E : concat (ng_vec (qw_consumed w) (qw_bodies w)) = zdrop (qw_consumed w) (concat (qw_bodies w)))
    by (rewrite ng_vec_skip; by apply skip_buffers_concat).
  split; [done|]. destruct (bool_decide_reflect (ng_vec (qw_consumed w) (qw_bodies w) = [])) as [E0|]; [|done].
  rewrite E0 in E. apply (f_equal zlen) in E. rewrite zlen_zdrop in E by done. cbn in E. zsize.
Qed.

(** One packet: [n] bytes of the first write are taken. *)
Lemma taken_one id w q n d : d = zdrop (qw_consumed w) (concat (qw_bodies w)) -> forall p,
  taken id [stream_bytes (qw_stream w) (ztake n d); send_packet p] ++
  (if qw_stream w =? id then zdrop n d else []) ++ waiting id q = waiting id (w :: q).
Proof.
  intros -> p. unfold taken, waiting. cbn [map concat app]. destruct (qw_stream w =? id); [|done].
  rewrite app_nil_r, app_assoc. by rewrite ztake_drop.
Qed.
Lemma quic_write_loop_spec fuel writev n q :
  (forall i id d, wr_consumed (writev i id d) <= zlen d /\ transient (wr_ec (writev i id d)) = false) ->
  Forall write_ok q ->
  let '(q1, a, fail, _) := do_write_loop fuel writev n q in loop_post q q1 a fail.
Proof.
  intros Hs. revert n q. induction fuel as [|fuel IH]; intros n q Hq; [by apply loop_post_nothing|].
  destruct q as [|w q]; [by apply loop_post_nothing|]. cbn [do_write_loop].
  destruct (max_packets <=? n)%nat; [by apply loop_post_nothing|].
  apply Forall_cons in Hq as [Hw Hq]. destruct (vec_nonempty w Hw) as [Hv ->].
  destruct (Hs n (qw_stream w) (concat (ng_vec (qw_consumed w) (qw_bodies w)))) as [Hc Ht].
  set (r := writev n (qw_stream w) _) in *. rewrite Hv in *. set (d := zdrop (qw_consumed w) _) in *.
  assert (Hd : zlen d = zlen (concat (qw_bodies w)) - qw_consumed w).
  { destruct Hw. unfold d. rewrite zlen_zdrop by done. lia. }
  destruct (0 <? wr_res r); [|by apply loop_post_nothing; constructor].
  assert (Hfail : loop_post (w :: q) (w :: q)
    [stream_bytes (qw_stream w) (ztake (wr_consumed r) d); send_packet (wr_res r)] true).
  { split; [by constructor|done| |done|done]. intros id. rewrite <- (taken_one id w q (wr_consumed r) d eq_refl (wr_res r)).
    by apply prefix_app_r. }
  destruct (wr_ec r); try done. destruct (0 <? wr_consumed r) eqn:E0; bool_hyps.
  2: { assert (E : ztake (wr_consumed r) d = []) by (unfold ztake; by rewrite Z2Nat.nonpos).
       rewrite E. destruct Hfail as [H1 H2 _ _ H4]. split; [done|done| | |done].
       - intros id. unfold taken. cbn. destruct (_ =? _); apply prefix_nil.
       - intros id _. unfold taken. cbn. by destruct (_ =? _). }
  rewrite total_size_concat. destruct (_ <=? _) eqn:E1; bool_hyps.
  - specialize (IH (S n) q Hq). destruct (do_write_loop _ _ _ q) as [[[q1 a1] f] m].
    destruct IH as [J1 J2 J3 J4 [J5 J6]].
    assert (Hz : zdrop (wr_consumed r) d = []) by (apply zdrop_ge; lia).
    assert (Hone : forall id, taken id [stream_bytes (qw_stream w) (ztake (wr_consumed r) d); send_packet (wr_res r)]
      ++ waiting id q = waiting id (w :: q)).
    { intros id. rewrite <- (taken_one id w q (wr_consumed r) d eq_refl (wr_res r)), Hz. by destruct (_ =? _). }
    split; [done| | | |done].
    + cbn. by f_equal.
    + intros id. rewrite <- Hone, taken_app. apply prefix_app. apply J3.
    + intros id Hf. rewrite <- Hone, taken_app, <- app_assoc. f_equal. by apply J4.
  - set (w' := {| qw_stream := _ |}). assert (Hw' : write_ok w').
    { destruct Hw. split; cbn [w' qw_consumed qw_bodies]; lia. }
    specialize (IH (S n) (w' :: q)). destruct (do_write_loop _ _ _ (w' :: q)) as [[[q1 a1] f] m].
    destruct IH as [J1 J2 J3 J4 [J5 J6]]; [by constructor|].
    assert (Hone : forall id, taken id [stream_bytes (qw_stream w) (ztake (wr_consumed r) d); send_packet (wr_res r)]
      ++ waiting id (w' :: q) = waiting id (w :: q)).
    { intros id. rewrite <- (taken_one id w q (wr_consumed r) d eq_refl (wr_res r)). f_equal. unfold waiting. cbn.
      destruct Hw. unfold d. rewrite zdrop_zdrop by lia. done. }
    split; [done|done| | |done].
    + intros id. rewrite <- Hone, taken_app. apply prefix_app. apply J3.
    + intros id Hf. rewrite <- Hone, taken_app, <- app_assoc. f_equal. by apply J4.
Qed.

(** The fuel of [do_write] is enough: the loop stops at an empty queue, after
    16 packets or by a [break], never for lack of fuel. *)
Lemma do_write_fuel_enough extra writev q :
  do_write_loop (do_write_fuel q + extra) writev 0 q = do_write_loop (do_write_fuel q) writev 0 q.
Proof.
  assert (H : forall fuel n q0, (max_packets - n + length q0 <= fuel)%nat ->
    do_write_loop (fuel + extra) writev n q0 = do_write_loop fuel writev n q0).
  { induction fuel as [|fuel IH]; intros n q0 Hf.
    - destruct q0; [by destruct extra|]. cbn [length] in Hf. unfold max_packets in Hf. lia.
    - destruct q0 as [|w q0]; [done|]. cbn [do_write_loop Nat.add length] in *.
      destruct (max_packets <=? n)%nat eqn:En; [done|]. apply Nat.leb_gt in En.
      destruct (_ && _); [by apply IH; lia|]. destruct (0 <? _); [|done].
      destruct (wr_ec _); try done. destruct (0 <? _); [|done].
      destruct (_ <=? _); rewrite IH; try done; cbn [length]; lia. }
  apply H. unfold do_write_fuel, max_packets. lia.
Qed.

(** ** The life of the session and of its streams *)
(** From [s] to [s'] doing [acts]: the closing is notified when it happens;
    every stream object made or held is told of its end or still in the table. *)
Record life_post (s s' : QuicSession) (acts : list session_act) : Prop := {
  li_closes : (closes acts + Nat.b2n (closed_notified_ s) = Nat.b2n (closed_notified_ s'))%nat;
  li_empty : (closed_notified_ s = true -> quic_streams_ s = ∅) -> closed_notified_ s' = true -> quic_streams_ s' = ∅;
  li_objects : exists k, next_quic_object s' = (next_quic_object s + k)%nat /\
    told acts ++ objects s' ≡ₚ objects s ++ seq (next_quic_object s) k
}.
Lemma life_same s s' acts : closed_notified_ s' = closed_notified_ s -> quic_streams_ s' = quic_streams_ s ->
  next_quic_object s' = next_quic_object s -> told acts = [] -> closes acts = O -> life_post s s' acts.
Proof.
  intros H1 H2 H3 H4 H5. split; rewrite ?H1, ?H2, ?H5; [done|tauto|]. exists O.
  rewrite H3, H4. cbn. unfold objects. rewrite H2, app_nil_r. split; [lia|done].
Qed.
Lemma life_trans s s1 s2 a b : life_post s s1 a -> life_post s1 s2 b -> life_post s s2 (a ++ b).
Proof.
  intros [A1 A2 (k & A3 & A4)] [B1 B2 (j & B3 & B4)]. split.
  - rewrite quic_closes_app. lia.
  - tauto.
  - exists (k + j)%nat. split; [lia|]. rewrite told_app, <- app_assoc, B4, seq_app, A3, !app_assoc. by rewrite A4.
Qed.
Lemma told_all (ms : list (Z * nat)) : told (map (fun p => tell_stream p.2 quic_remote_close) ms) = map snd ms.
Proof. induction ms as [|m ms IH]; [done|]. unfold told in *. cbn [map omap list_omap]. by rewrite IH. Qed.
Lemma closes_all (ms : list (Z * nat)) : closes (map (fun p => tell_stream p.2 quic_remote_close) ms) = O.
Proof. by induction ms. Qed.
Lemma life_notify_all s : dead s = false -> life_post s (notify_all s).1 (notify_all s).2.
Proof.
  unfold dead. intros [_ Hc]%orb_false_iff. split; cbn [notify_all fst snd closed_notified_ quic_streams_ next_quic_object].
  - by rewrite quic_closes_app, closes_all, Hc.
  - done.
  - exists O. split; [lia|]. rewrite told_app, told_all. unfold objects at 1. cbn [quic_streams_].
    by rewrite map_to_list_empty, !app_nil_r.
Qed.
Lemma life_close send sent s : life_post s (close_session send sent s).1 (close_session send sent s).2.
Proof.
  unfold close_session. destruct (dead s) eqn:Ed; [by apply life_same|].
  pose proof (life_notify_all s Ed) as [H1 H2 H3]. destruct (notify_all s) as [s1 a]. cbn [fst snd] in *.
  destruct (send && sent); by split.
Qed.
Lemma life_check_closed closing s : life_post s (check_closed closing s).1 (check_closed closing s).2.
Proof.
  unfold check_closed. destruct (dead s) eqn:Ed; [by apply life_same|].
  destruct closing; [by apply life_notify_all|by apply life_same].
Qed.
Lemma life_schedule e s : life_post s (schedule_timer e s) [].
Proof. unfold schedule_timer. destruct (dead s); [by apply life_same|]. by destruct e; apply life_same. Qed.
(** Running [life_post] through a [let '(s, a) := ...]. *)
Ltac life_step L :=
  match type of L with life_post _ (?f).1 _ => destruct f as [??]; cbn [fst snd] in L end.

Lemma do_write_loop_quiet fuel writev n q :
  let '(_, a, _, _) := do_write_loop fuel writev n q in told a = [] /\ closes a = O.
Proof.
  revert n q. induction fuel as [|fuel IH]; intros n q; [done|]. destruct q as [|w q]; [done|]. cbn [do_write_loop].
  destruct (max_packets <=? n)%nat; [done|]. destruct (_ && _); [apply IH|]. destruct (0 <? _); [|done].
  destruct (wr_ec _); try done. destruct (0 <? _); [|done]. set (n' := S n). destruct (_ <=? _).
  - specialize (IH n' q). by destruct (do_write_loop _ _ _ _) as [[[q1 a1] f] m].
  - match goal with |- context [do_write_loop fuel writev n' ?q2] => specialize (IH n' q2) end.
    by destruct (do_write_loop _ _ _ _) as [[[q1 a1] f] m].
Qed.
Lemma life_do_write e s : life_post s (do_write e s).1 (do_write e s).2.
Proof.
  unfold do_write. destruct (dead s); [by apply life_same|].
  pose proof (do_write_loop_quiet (do_write_fuel (quic_write_queue_ s)) (ng_writev e) 0 (quic_write_queue_ s)) as Hq.
  destruct (do_write_loop _ _ _ _) as [[[q1 a1] f] n]. destruct Hq as [Hq1 Hq2].
  assert (L1 : life_post s (set_quic_writes q1 s) a1) by (by apply life_same).
  assert (L2 : forall s2 b, life_post s s2 b ->
    life_post s (if negb (bool_decide (q1 = [])) && (max_packets <=? n)%nat then set_timer (Some retry_timer) s2 else s2) b).
  { intros s2 b [A1 A2 A3]. destruct (_ && _); by split. }
  destruct f; cbn [fst snd].
  - pose proof (life_close true true (set_quic_writes q1 s)) as L. life_step L. apply L2. by eapply life_trans.
  - apply L2. by rewrite app_nil_r.
Qed.
Lemma packet_loop_quiet n packet i : told (packet_loop n packet i).1 = [] /\ closes (packet_loop n packet i).1 = O /\
  completed (packet_loop n packet i).1 = [] /\ forall id, taken id (packet_loop n packet i).1 = [].
Proof.
  revert i. induction n as [|n IH]; intros i; [done|]. cbn [packet_loop]. destruct (packet i) as [res ec].
  destruct (res <=? 0); [done|]. destruct ec; try done. specialize (IH (S i)).
  by destruct (packet_loop n packet (S i)) as [a f].
Qed.
Lemma life_send_packets e s : life_post s (send_packets e s).1 (send_packets e s).2.
Proof.
  unfold send_packets. destruct (dead s); [by apply life_same|].
  pose proof (packet_loop_quiet 32 (ng_packet e) 0) as (Hq1 & Hq2 & _). destruct (packet_loop _ _ _) as [a1 f].
  cbn [fst] in *. assert (L0 : life_post s s a1) by (by apply life_same).
  set (c := if f : bool then close_session true true s else (s, [])).
  assert (L1 : life_post s c.1 c.2) by (unfold c; destruct f; [apply life_close|by apply life_same]).
  destruct c as [s2 a2]. cbn [fst snd] in L1. pose proof (life_do_write e s2) as L2. life_step L2.
  pose proof (life_schedule (ng_expiry e) q) as L3.
  pose proof (life_check_closed (ng_closing e) (schedule_timer (ng_expiry e) q)) as L4. life_step L4.
  cbn [fst snd]. eapply life_trans; [done|]. eapply life_trans; [done|]. eapply life_trans; [done|].
  exact (life_trans _ _ _ [] _ L3 L4).
Qed.
Lemma life_write_stream e id bufs h s : life_post s (write_stream e id bufs h s).1 (write_stream e id bufs h s).2.
Proof.
  unfold write_stream. destruct (dead s); [by apply life_same|]. destruct (_ <=? _); [by apply life_same|].
  set (s1 := set_quic_writes _ s). destruct (life_do_write e s1) as [H1 H2 H3]. by split.
Qed.
(** A new object under an identifier that is free. *)
Lemma life_new_object id s a : quic_streams_ s !! id = None -> told a = [] -> closes a = O ->
  closed_notified_ s = false ->
  life_post s (set_quic_streams (<[id := next_quic_object s]> (quic_streams_ s)) (S (next_quic_object s)) s) a.
Proof.
  intros Hf Ht Hc Hn. split; cbn [set_quic_streams closed_notified_ quic_streams_ next_quic_object].
  - by rewrite Hc, Hn.
  - congruence.
  - exists 1%nat. split; [lia|]. rewrite Ht. unfold objects. cbn [set_quic_streams quic_streams_ app seq].
    rewrite (map_to_list_insert _ _ _ Hf). cbn [map snd]. apply Permutation_cons_append.
Qed.
Lemma life_open_stream id s : (forall i, id = Some i -> quic_streams_ s !! i = None) ->
  life_post s (open_stream id s).1 [].
Proof.
  intros Hf. unfold open_stream. destruct (dead s) eqn:Ed; [by apply life_same|]. destruct id as [i|]; [|by apply life_same].
  apply orb_false_iff in Ed as [_ Ed]. by apply life_new_object; [apply Hf| | |].
Qed.
Lemma life_on_stream_data id d s : closed_notified_ s = false ->
  life_post s (on_stream_data id d s).1 (on_stream_data id d s).2.
Proof.
  intros Hn. unfold on_stream_data. destruct (quic_streams_ s !! id) eqn:E; [by apply life_same|].
  by apply life_new_object.
Qed.
Lemma life_on_stream_close id s : closed_notified_ s = false ->
  life_post s (on_stream_close id s).1 (on_stream_close id s).2.
Proof.
  intros Hn. unfold on_stream_close. destruct (quic_streams_ s !! id) as [o|] eqn:E; [|by apply life_same].
  split; cbn [fst snd set_quic_streams closed_notified_ quic_streams_ next_quic_object]; [done|congruence|].
  exists O. split; [lia|]. rewrite app_nil_r. unfold objects. cbn [set_quic_streams quic_streams_].
  by rewrite <- (map_to_list_delete _ _ _ E).
Qed.
Lemma on_stream_close_alive id s : closed_notified_ (on_stream_close id s).1 = closed_notified_ s.
Proof. unfold on_stream_close. by destruct (_ !! _). Qed.
Lemma on_stream_data_alive id d s : closed_notified_ (on_stream_data id d s).1 = closed_notified_ s.
Proof. unfold on_stream_data. by destruct (_ !! _). Qed.
Lemma life_callbacks cbs s : closed_notified_ s = false ->
  life_post s (run_callbacks cbs s).1 (run_callbacks cbs s).2 /\ closed_notified_ (run_callbacks cbs s).1 = false.
Proof.
  revert s. induction cbs as [|cb cbs IH]; intros s Hn; [by split; [apply life_same|]|]. cbn [run_callbacks].
  assert (L : life_post s (run_callback cb s).1 (run_callback cb s).2 /\ closed_notified_ (run_callback cb s).1 = false).
  { destruct cb as [id d fin|id|]; cbn [run_callback].
    - pose proof (life_on_stream_data id d s Hn) as L1. pose proof (on_stream_data_alive id d s) as A1.
      destruct (on_stream_data id d s) as [s1 a1]. cbn [fst snd] in *. rewrite Hn in A1.
      destruct fin; [|cbn; by rewrite app_nil_r].
      pose proof (life_on_stream_close id s1 A1) as L2. pose proof (on_stream_close_alive id s1) as A2.
      destruct (on_stream_close id s1) as [s2 a2]. cbn [fst snd] in *. split; [by eapply life_trans|congruence].
    - rewrite on_stream_close_alive. split; [by apply life_on_stream_close|done].
    - split; [by apply life_same|done]. }
  destruct (run_callback cb s) as [s1 a1]. cbn [fst snd] in L. destruct L as [L1 A1]. specialize (IH s1 A1).
  destruct (run_callbacks cbs s1) as [s2 a2]. cbn [fst snd] in *. destruct IH as [L2 A2].
  split; [by eapply life_trans|done].
Qed.
Lemma life_handle_packet e cbs res s : life_post s (handle_packet e cbs res s).1 (handle_packet e cbs res s).2.
Proof.
  unfold handle_packet. destruct (dead s) eqn:Ed; [by apply life_same|]. apply orb_false_iff in Ed as [_ Ed].
  destruct (life_callbacks cbs s Ed) as [L1 _]. destruct (run_callbacks cbs s) as [s1 a1]. cbn [fst snd] in L1.
  destruct res.
  - pose proof (life_send_packets e s1) as L2. life_step L2.
    pose proof (life_check_closed (ng_closing e) q) as L3. life_step L3. do 2 (eapply life_trans; [done|]). done.
  - pose proof (life_close false true s1) as L2. life_step L2. by eapply life_trans.
  - pose proof (life_close true true s1) as L2. life_step L2. by eapply life_trans.
Qed.
Lemma life_on_timer e expired s : life_post s (on_timer e expired s).1 (on_timer e expired s).2.
Proof.
  unfold on_timer. destruct (timer_ s) as [u|]; [|by apply life_same].
  assert (H : forall s1 a, life_post (set_timer None s) s1 a -> life_post s s1 a) by (intros s1 a [H1 H2 H3]; by split).
  apply H. destruct (dead _); [by apply life_same|]. destruct u; [destruct expired|].
  - apply life_close.
  - apply life_send_packets.
  - apply life_do_write.
Qed.

(** ngtcp2 opens a stream under an identifier that is not in use. *)
Definition op_fresh (op : quic_op) (s : QuicSession) : Prop :=
  match op with q_open (Some i) => quic_streams_ s !! i = None | _ => True end.
Fixpoint opens_fresh (ops : list quic_op) (s : QuicSession) : Prop :=
  match ops with [] => True | op :: ops' => op_fresh op s /\ opens_fresh ops' (quic_session_step op s).1 end.
Lemma life_quic_step op s : op_fresh op s ->
  life_post s (quic_session_step op s).1 (quic_session_step op s).2.
Proof.
  intros Hf. destruct op; cbn [quic_session_step fst snd].
  - eapply (life_trans s _ _ [] []); [|apply life_schedule]. by apply life_same.
  - apply life_handle_packet.
  - apply life_send_packets.
  - apply life_open_stream. intros i ->. done.
  - unfold close_stream. destruct (dead s); [by apply life_same|]. pose proof (life_send_packets e s) as L. life_step L.
    exact (life_trans _ _ _ [ng_shutdown_stream id] _ (life_same s s [ng_shutdown_stream id] eq_refl eq_refl eq_refl eq_refl eq_refl) L).
  - apply life_write_stream.
  - apply life_on_timer.
  - apply life_close.
Qed.
Lemma life_quic_run ops s : opens_fresh ops s -> life_post s (quic_session_run ops s).1 (quic_session_run ops s).2.
Proof.
  revert s. induction ops as [|op ops IH]; intros s; [by intros; apply life_same|]. cbn [opens_fresh quic_session_run].
  intros [H1 H2]. pose proof (life_quic_step op s H1) as L1. specialize (IH _ H2).
  destruct (quic_session_step op s) as [s1 a1]. cbn [fst snd] in *. destruct (quic_session_run ops s1) as [s2 a2].
  by eapply life_trans.
Qed.

(** ** Writes reach ngtcp2 in order *)
(** From [s] to [s'] doing [a], with the writes [new] taken into the queue. *)
Record write_post (new : list (Z * list byte * nat)) (s s' : QuicSession) (a : list session_act) : Prop := {
  wp_ok : Forall write_ok (quic_write_queue_ s');
  wp_done : completed a ++ map qw_handler (quic_write_queue_ s') = map qw_handler (quic_write_queue_ s) ++ map snd new;
  wp_taken id : exists rest, taken id a ++ rest = waiting id (quic_write_queue_ s) ++ bytes_for id new /\
    (closed_notified_ s' = false -> rest = waiting id (quic_write_queue_ s'));
  wp_closed : closed_notified_ s = true -> closed_notified_ s' = true /\ forall id, taken id a = [];
  wp_bound : zlen (quic_write_queue_ s) <= kQuicSessionMaxPendingWrites ->
    zlen (quic_write_queue_ s') <= kQuicSessionMaxPendingWrites
}.
Lemma write_idle s s' a : Forall write_ok (quic_write_queue_ s) -> quic_write_queue_ s' = quic_write_queue_ s ->
  (closed_notified_ s = true -> closed_notified_ s' = true) -> completed a = [] -> (forall id, taken id a = []) ->
  write_post [] s s' a.
Proof.
  intros Hok Hq Hc Ha Ht. split; rewrite ?Hq, ?Ha; try done; [by rewrite app_nil_r| |auto].
  intros id. eexists. rewrite Ht. split; [done|]. intros _. apply app_nil_r.
Qed.
Lemma bytes_for_app id xs ys : bytes_for id (xs ++ ys) = bytes_for id xs ++ bytes_for id ys.
Proof. unfold bytes_for. by rewrite map_app, concat_app. Qed.
Lemma write_trans n1 n2 s s1 s2 a b : write_post n1 s s1 a -> write_post n2 s1 s2 b ->
  write_post (n1 ++ n2) s s2 (a ++ b).
Proof.
  intros [A1 A2 A3 A4 A5] [B1 B2 B3 B4 B5]. split; [done| | |intros Hc|auto].
  - by rewrite completed_app, <- app_assoc, B2, app_assoc, A2, map_app, app_assoc.
  - intros id. destruct (A3 id) as (r1 & E1 & F1), (B3 id) as (r2 & E2 & F2). rewrite bytes_for_app, taken_app.
    destruct (closed_notified_ s1) eqn:Ec.
    + destruct (B4 eq_refl) as [Hc Ht]. exists (r1 ++ bytes_for id n2). rewrite Ht, Hc, app_nil_r. split; [|done].
      by rewrite !app_assoc, E1.
    + exists r2. split; [|done]. rewrite <- app_assoc, E2, <- F1, !app_assoc, E1 by done. done.
  - destruct (A4 Hc) as [H1 H2]. destruct (B4 H1) as [H3 H4]. split; [done|]. intros id. by rewrite taken_app, H2, H4.
Qed.
Lemma taken_all id (ms : list (Z * nat)) : taken id (map (fun p => tell_stream p.2 quic_remote_close) ms) = [].
Proof. by induction ms. Qed.
Lemma completed_all (ms : list (Z * nat)) : completed (map (fun p => tell_stream p.2 quic_remote_close) ms) = [].
Proof. by induction ms. Qed.

Lemma notify_all_quiet s : completed (notify_all s).2 = [] /\ forall id, taken id (notify_all s).2 = [].
Proof.
  cbn [notify_all snd]. rewrite completed_app, completed_all. split; [done|]. intros id. by rewrite taken_app, taken_all.
Qed.
Lemma close_session_quiet send sent s :
  completed (close_session send sent s).2 = [] /\ forall id, taken id (close_session send sent s).2 = [].
Proof.
  unfold close_session. destruct (dead s); [done|]. pose proof (notify_all_quiet s) as [H1 H2].
  destruct (notify_all s) as [s1 a]. cbn [snd] in *. by destruct (send && sent).
Qed.

Section Writes.
Context (s0 : QuicSession) (Hok : Forall write_ok (quic_write_queue_ s0)).

Lemma write_close_session send sent : write_post [] s0 (close_session send sent s0).1 (close_session send sent s0).2.
Proof.
  destruct (close_session_quiet send sent s0) as [H1 H2]. apply write_idle; try done;
    unfold close_session; destruct (dead s0); done.
Qed.
Lemma write_check_closed closing : write_post [] s0 (check_closed closing s0).1 (check_closed closing s0).2.
Proof.
  unfold check_closed. destruct (dead s0); [by apply write_idle|]. destruct closing; [|by apply write_idle].
  destruct (notify_all_quiet s0). by apply write_idle.
Qed.
Lemma write_schedule e : write_post [] s0 (schedule_timer e s0) [].
Proof. unfold schedule_timer. destruct (dead s0); [by apply write_idle|]. by destruct e; apply write_idle. Qed.
End Writes.

(** The loop of [do_write] on the session's queue. *)
Lemma do_write_post e s0 : smooth e -> Forall write_ok (quic_write_queue_ s0) ->
  write_post [] s0 (do_write e s0).1 (do_write e s0).2.
Proof.
  intros Hs Hok. unfold do_write. destruct (dead s0) eqn:Ed; [by apply write_idle|].
  apply orb_false_iff in Ed as [Ec Ed].
  pose proof (quic_write_loop_spec (do_write_fuel (quic_write_queue_ s0)) (ng_writev e) 0 _ Hs Hok) as L.
  destruct (do_write_loop _ _ _ _) as [[[q1 a1] f] n]. destruct L as [L1 L2 L3 L4 _].
  assert (Hlen : zlen q1 <= zlen (quic_write_queue_ s0)).
  { unfold zlen. rewrite <- (length_map qw_handler), <- (length_map qw_handler (quic_write_queue_ s0)), <- L2, length_app. lia. }
  assert (W1 : forall s1, quic_write_queue_ s1 = q1 -> (f = true -> closed_notified_ s1 = true) -> forall a2,
    completed a2 = [] -> (forall id, taken id a2 = []) -> write_post [] s0 s1 (a1 ++ a2)).
  { intros s1 Hq Hf a2 H1 H2. split; rewrite ?Hq; [done| | |congruence|lia].
    - by rewrite completed_app, H1, !app_nil_r.
    - intros id. rewrite taken_app, H2, !app_nil_r. destruct (L3 id) as [r Hr]. exists r. split; [done|]. intros Hc.
      specialize (L4 id). destruct f; [by rewrite Hf in Hc|]. rewrite Hr in L4. symmetry.
      apply (app_inv_head (taken id a1)). by apply L4. }
  destruct f.
  - destruct (close_session_quiet true true (set_quic_writes q1 s0)) as [C1 C2].
    assert (Hq : quic_write_queue_ (close_session true true (set_quic_writes q1 s0)).1 = q1 /\
      closed_notified_ (close_session true true (set_quic_writes q1 s0)).1 = true)
      by (unfold close_session, dead; cbn; by rewrite Ec, Ed).
    destruct (close_session _ _ _) as [s2 a2]. cbn [fst snd] in *. destruct Hq as [Hq1 Hq2].
    apply W1; [by case_goal|intros; by case_goal|done|done].
  - apply (W1 _) with (a2 := []); [by case_goal|done..].
Qed.
(** Chaining [write_post]s whose first part admits nothing. *)
Lemma write_trans_nil n s s1 s2 a b : write_post [] s s1 a -> write_post n s1 s2 b -> write_post n s s2 (a ++ b).
Proof. apply (write_trans []). Qed.
Ltac write_step L :=
  match type of L with write_post _ _ (?f).1 _ => destruct f as [??]; cbn [fst snd] in L end.

Section Operations.
Context (e : ng_env) (He : smooth e).

Lemma write_send_packets s : Forall write_ok (quic_write_queue_ s) ->
  write_post [] s (send_packets e s).1 (send_packets e s).2.
Proof.
  intros Hok. unfold send_packets. destruct (dead s); [by apply write_idle|].
  pose proof (packet_loop_quiet 32 (ng_packet e) 0) as (_ & _ & Hq1 & Hq2).
  destruct (packet_loop _ _ _) as [a1 f]. cbn [fst] in *.
  assert (L0 : write_post [] s s a1) by (by apply write_idle).
  set (c := if f : bool then close_session true true s else (s, [])).
  assert (L1 : write_post [] s c.1 c.2) by (unfold c; destruct f; [by apply write_close_session|by apply write_idle]).
  destruct c as [s2 a2]. cbn [fst snd] in L1. pose proof (do_write_post e s2 He (wp_ok _ _ _ _ L1)) as L2. write_step L2.
  pose proof (write_schedule q (wp_ok _ _ _ _ L2) (ng_expiry e)) as L3.
  pose proof (write_check_closed _ (wp_ok _ _ _ _ L3) (ng_closing e)) as L4. write_step L4. cbn [fst snd].
  do 3 (eapply write_trans_nil; [done|]). exact (write_trans_nil _ _ _ _ [] _ L3 L4).
Qed.
Lemma write_stream_post id bufs h s : Forall write_ok (quic_write_queue_ s) -> concat bufs <> [] ->
  write_post (admits (q_write e id bufs h) s) s (write_stream e id bufs h s).1 (write_stream e id bufs h s).2.
Proof.
  intros Hok Hb. unfold write_stream, admits. destruct (dead s) eqn:Ed; [by apply write_idle|].
  destruct (_ <=? _) eqn:El; [by apply write_idle|]. cbn [orb]. bool_hyps.
  set (w := {| qw_stream := id |}). set (s1 := set_quic_writes _ s).
  rewrite <- (app_nil_r [_]), <- (app_nil_l (do_write e s1).2). apply write_trans with s1.
  - split; cbn [s1 set_quic_writes quic_write_queue_ closed_notified_].
    + apply Forall_app. split; [done|]. constructor; [|done]. split; cbn; [done|]. destruct (concat bufs); [done|]. zsize.
    + by rewrite map_app.
    + intros i. eexists. split; [done|]. intros _. unfold waiting, bytes_for. by rewrite map_app, concat_app.
    + done.
    + intros _. rewrite zlen_app. change (zlen [w]) with 1. lia.
  - apply do_write_post; [done|]. apply Forall_app. split; [done|]. constructor; [|done].
    split; cbn; [done|]. destruct (concat bufs); [done|]. zsize.
Qed.
Lemma callbacks_same cbs s : quic_write_queue_ (run_callbacks cbs s).1 = quic_write_queue_ s /\
  closed_notified_ (run_callbacks cbs s).1 = closed_notified_ s /\
  completed (run_callbacks cbs s).2 = [] /\ forall id, taken id (run_callbacks cbs s).2 = [].
Proof.
  revert s. induction cbs as [|cb cbs IH]; intros s; [done|]. cbn [run_callbacks].
  assert (H : quic_write_queue_ (run_callback cb s).1 = quic_write_queue_ s /\
    closed_notified_ (run_callback cb s).1 = closed_notified_ s /\
    completed (run_callback cb s).2 = [] /\ forall id, taken id (run_callback cb s).2 = []).
  { destruct cb as [id d fin|id|]; cbn [run_callback]; unfold on_stream_data, on_stream_close; [|by case_goal|done].
    destruct (quic_streams_ s !! id) eqn:E; destruct fin; cbn; rewrite ?E, ?lookup_insert_eq; done. }
  destruct (run_callback cb s) as [s1 a1]. cbn [fst snd] in H. destruct H as (H1 & H2 & H3 & H4).
  specialize (IH s1). destruct (run_callbacks cbs s1) as [s2 a2]. cbn [fst snd] in *. destruct IH as (J1 & J2 & J3 & J4).
  rewrite completed_app, H3, J3. do 2 (split; [congruence|]). split; [done|]. intros id. by rewrite taken_app, H4, J4.
Qed.
Lemma handle_packet_post cbs res s : Forall write_ok (quic_write_queue_ s) ->
  write_post [] s (handle_packet e cbs res s).1 (handle_packet e cbs res s).2.
Proof.
  intros Hok. unfold handle_packet. destruct (dead s); [by apply write_idle|].
  destruct (callbacks_same cbs s) as (C1 & C2 & C3 & C4). destruct (run_callbacks cbs s) as [s1 a1]. cbn [fst snd] in *.
  assert (L1 : write_post [] s s1 a1) by (apply write_idle; by rewrite ?C2).
  pose proof (wp_ok _ _ _ _ L1) as Hok1. destruct res.
  - pose proof (write_send_packets s1 Hok1) as L2. write_step L2.
    pose proof (write_check_closed q (wp_ok _ _ _ _ L2) (ng_closing e)) as L3. write_step L3.
    do 2 (eapply write_trans_nil; [done|]). done.
  - pose proof (write_close_session s1 Hok1 false true) as L2. write_step L2. by eapply write_trans_nil.
  - pose proof (write_close_session s1 Hok1 true true) as L2. write_step L2. by eapply write_trans_nil.
Qed.
Lemma on_timer_post expired s : Forall write_ok (quic_write_queue_ s) ->
  write_post [] s (on_timer e expired s).1 (on_timer e expired s).2.
Proof.
  intros Hok. unfold on_timer. destruct (timer_ s) as [u|]; [|by apply write_idle].
  assert (H : forall s1 a, write_post [] (set_timer None s) s1 a -> write_post [] s s1 a)
    by (intros s1 a [H1 H2 H3 H4 H5]; by split).
  apply H. destruct (dead _); [by apply write_idle|]. destruct u; [destruct expired|].
  - by apply write_close_session.
  - by apply write_send_packets.
  - by apply do_write_post.
Qed.
End Operations.

Lemma quic_step_writes op s : op_smooth op -> Forall write_ok (quic_write_queue_ s) ->
  write_post (admits op s) s (quic_session_step op s).1 (quic_session_step op s).2.
Proof.
  intros [He Hop] Hok. destruct op; cbn [quic_session_step fst snd op_env] in *; try (specialize (He _ eq_refl)).
  - apply (write_trans_nil _ s (init ok s) _ [] []); [by apply write_idle|]. by apply write_schedule.
  - by apply handle_packet_post.
  - by apply write_send_packets.
  - unfold open_stream. destruct (dead s); [by apply write_idle|]. by destruct id; apply write_idle.
  - unfold close_stream. destruct (dead s); [by apply write_idle|].
    pose proof (write_send_packets e He s Hok) as L. write_step L.
    apply (write_trans_nil _ s s _ [ng_shutdown_stream id] l); [by apply write_idle|done].
  - by apply write_stream_post.
  - by apply on_timer_post.
  - by apply write_close_session.
Qed.
Lemma quic_run_writes ops s : Forall op_smooth ops -> Forall write_ok (quic_write_queue_ s) ->
  write_post (admitted ops s) s (quic_session_run ops s).1 (quic_session_run ops s).2.
Proof.
  revert s. induction ops as [|op ops IH]; intros s H Hok; [by apply write_idle|].
  apply Forall_cons in H as [H1 H2]. cbn [quic_session_run admitted]. pose proof (quic_step_writes op s H1 Hok) as L1.
  specialize (IH (quic_session_step op s).1 H2 (wp_ok _ _ _ _ L1)).
  destruct (quic_session_step op s) as [s1 a1]. cbn [fst snd] in *. destruct (quic_session_run ops s1) as [s2 a2].
  by eapply write_trans.
Qed.


Definition is_refusal (a : session_act) : Prop := exists h, a = write_done h ec_connection_reset 0.
Lemma closed_refuses ops s : closed_notified_ s = true ->
  closed_notified_ (quic_session_run ops s).1 = true /\ Forall is_refusal (quic_session_run ops s).2.
Proof.
  revert s. induction ops as [|op ops IH]; intros s Hc; [by split|]. cbn [quic_session_run].
  assert (H : closed_notified_ (quic_session_step op s).1 = true /\ Forall is_refusal (quic_session_step op s).2).
  { assert (Hd : dead s = true) by (unfold dead; rewrite Hc; apply orb_true_r).
    destruct op; cbn [quic_session_step]; unfold handle_packet, send_packets, open_stream, close_stream, write_stream,
      on_timer, close_session; rewrite ?Hd; try done.
    - split; [|done]. unfold schedule_timer, dead. cbn. rewrite Hc. by rewrite orb_true_r.
    - split; [done|]. constructor; [by eexists|done].
    - destruct (timer_ s); [|done]. unfold dead in *. cbn. by rewrite Hd. }
  destruct (quic_session_step op s) as [s1 a1]. cbn [fst snd] in H. destruct H as [H1 H2]. specialize (IH s1 H1).
  destruct (quic_session_run ops s1) as [s2 a2]. cbn [fst snd] in *. destruct IH. split; [done|]. by apply Forall_app.
Qed.

(** A QUIC session is closed once and takes its streams with it: in every
    history in which ngtcp2 opens streams under free identifiers, the closing
    callback is posted exactly when the session has been closed and never
    twice; every stream object ever made is either still in the table or was
    told of its end, exactly once, and a closed session has none left; and a
    closed session sends nothing and changes nothing: it only refuses writes. *)
Theorem quic_session_closes_once ops : opens_fresh ops new_quic_session ->
  let '(s, acts) := quic_session_run ops new_quic_session in
  closes acts = Nat.b2n (closed_notified_ s) /\
  told acts ++ objects s ≡ₚ seq 0 (next_quic_object s) /\ NoDup (told acts ++ objects s) /\
  (closed_notified_ s = true -> objects s = [] /\
     forall ops', Forall is_refusal (quic_session_run ops' s).2).
Proof.
  intros H. pose proof (life_quic_run ops new_quic_session H) as [L1 L2 (k & L3 & L4)].
  destruct (quic_session_run ops new_quic_session) as [s acts]. cbn [fst snd] in *.
  change (objects new_quic_session ++ seq 0 k) with (seq 0 k) in L4.
  cbn [new_quic_session closed_notified_ next_quic_object Nat.b2n Nat.add] in L1, L3. subst k.
  split_and!; [lia|done| |].
  - rewrite L4. apply NoDup_seq.
  - intros Hc. split; [|intros ops'; by apply closed_refuses]. unfold objects. by rewrite L2.
Qed.

(** ** What the code does outside those histories *)
(** The first round of the loop. *)
Ltac first_round w q :=
  change (do_write_fuel (w :: q)) with (S (max_packets + length (w :: q)));
  generalize (max_packets + length (w :: q))%nat; intros fuel; cbn [do_write_loop];
  change (max_packets <=? 0)%nat with false; cbv iota.
(** A datagram the socket would not take is dropped, and the bytes in it, which
    ngtcp2 has taken, are offered to it again: the peer receives them twice. *)
Lemma quic_would_block_offers_again e w q s : dead s = false -> quic_write_queue_ s = w :: q -> write_ok w ->
  let d := zdrop (qw_consumed w) (concat (qw_bodies w)) in
  0 < wr_res (ng_writev e 0 (qw_stream w) d) -> wr_ec (ng_writev e 0 (qw_stream w) d) = ec_would_block ->
  quic_write_queue_ (do_write e s).1 = w :: q /\
  taken (qw_stream w) (do_write e s).2 = ztake (wr_consumed (ng_writev e 0 (qw_stream w) d)) d.
Proof.
  intros Hd Hq Hw d Hr He. destruct (vec_nonempty w Hw) as [Hv Hb]. unfold do_write. rewrite Hd, Hq.
  first_round w q. rewrite Hb, Hv. fold d. apply Z.ltb_lt in Hr. rewrite Hr, He. cbn. unfold taken. cbn.
  by rewrite Z.eqb_refl, !app_nil_r.
Qed.
Lemma close_session_queue send sent s : quic_write_queue_ (close_session send sent s).1 = quic_write_queue_ s.
Proof. unfold close_session. by destruct (dead s). Qed.
(** A write of no bytes never completes and nothing behind it is written. *)
Lemma quic_empty_write_blocks e w q s : dead s = false -> quic_write_queue_ s = w :: q -> qw_bodies w = [] -> smooth e ->
  quic_write_queue_ (do_write e s).1 = w :: q /\ completed (do_write e s).2 = [].
Proof.
  intros Hd Hq Hw He. unfold do_write. rewrite Hd, Hq.
  first_round w q. rewrite Hw, andb_negb_r. cbn [ng_vec concat].
  destruct (He 0%nat (qw_stream w) []) as [H1 H2]. set (r := ng_writev e 0 _ _) in *.
  destruct (0 <? wr_res r); [|done].
  assert (E : (0 <? wr_consumed r) = false) by (apply Z.ltb_ge; exact H1). rewrite E.
  pose proof (close_session_queue true true (set_quic_writes (w :: q) s)) as Hk.
  pose proof (close_session_quiet true true (set_quic_writes (w :: q) s)) as [Hc _].
  destruct (wr_ec r); cbv iota; try destruct (close_session _ _ _) as [s2 a2]; change (max_packets <=? 1)%nat with false;
    rewrite andb_false_r; cbn [fst snd] in *; by rewrite ?completed_app, ?Hc.
Qed.
(** The retry timer takes the place of the expiry timer: when the retry drains
    the queue, no timer is armed. *)
Definition big_env : ng_env := {|
  ng_packet := fun _ => (0, ec_ok);
  ng_writev := fun _ _ d => {| wr_res := 1; wr_consumed := Z.min 1 (zlen d); wr_ec := ec_ok |};
  ng_expiry := exp_later; ng_closing := false |}.
Definition retry_ops : list quic_op :=
  [q_init true exp_later; q_open (Some 0); q_write big_env 0 [repeat x61 20] 7; q_timer big_env false].
Lemma quic_retry_loses_expiry :
  let s := (quic_session_run retry_ops new_quic_session).1 in
  quic_write_queue_ s = [] /\ timer_ s = None /\ dead s = false.
Proof. vm_compute. by split_and!. Qed.

(** ** Witnesses *)
Lemma big_env_smooth : smooth big_env.
Proof. intros i id d. cbn. split; [lia|done]. Qed.
Definition sample_quic_ops : list quic_op :=
  [q_init true exp_later; q_open (Some 4); q_write big_env 4 [[x61]; [x62; x63]] 1;
   q_packet big_env [cb_stream_data 1 [x64] false; cb_stream_close 4] read_ok;
   q_write big_env 1 [[x65]] 2; q_close true; q_write big_env 1 [[x66]] 3].
Lemma sample_quic_smooth : Forall op_smooth sample_quic_ops.
Proof.
  unfold sample_quic_ops. rewrite !Forall_cons, Forall_nil.
  split_and!; try done; (split; [|done]); intros e He; cbn in He; try discriminate; injection He as <-; apply big_env_smooth.
Qed.
Lemma sample_quic_fresh : opens_fresh sample_quic_ops new_quic_session.
Proof. vm_compute. by split_and!. Qed.
Lemma quic_session_closes_once_witness :
  let '(s, acts) := quic_session_run sample_quic_ops new_quic_session in
  closes acts = Nat.b2n (closed_notified_ s) /\
  told acts ++ objects s ≡ₚ seq 0 (next_quic_object s) /\ NoDup (told acts ++ objects s) /\
  (closed_notified_ s = true -> objects s = [] /\
     forall ops', Forall is_refusal (quic_session_run ops' s).2).
Proof. exact (quic_session_closes_once sample_quic_ops sample_quic_fresh). Defined.
