(* ===== verification/QuicEndpoint.v ===== *)
(** * A QUIC endpoint (src/common/quic_ngtcp2.cpp: QuicSession and its QuicStream objects)

    QuicSession.v says what the session asks of the stream objects, QuicStream.v
    what one object does.  Here they are together: the session tells the objects
    of its table of data and of the end, as it does, within the handler; the
    objects, which refer to the session weakly, are read, written and closed by
    the bridges that hold them. *)
From Stdlib Require Import ZArith Lia Strings.Byte.
From stdpp Require Import base tactics list gmap.
From S2P Require Import Prelude Protocol MuxFrame MuxStream QuicStream QuicSession.
Local Open Scope Z_scope.

(** ** State *)
Record QuicEnd : Type := {
  qe_session : QuicSession;
  qe_streams : gmap nat (Z * QuicStream);   (* the objects, with their [stream_id_] *)
  qe_alive : bool                           (* [session_.lock()] finds the session *)
}.
(** A session that [init] has given a connection. *)
Definition new_quic_end : QuicEnd := {| qe_session := init true new_quic_session; qe_streams := ∅; qe_alive := true |}.

Inductive qe_out : Type :=
| out_act (a : session_act)
| out_stream (o : nat) (ev : quic_event) (acts : list quic_action)   (* object [o] has handled [ev] *)
| out_gone (handler : nat).                                            (* answered with connection_reset *)

(** ** What the session tells its streams *)
(** [handle_data] and [handle_close]. *)
Definition told_step (sess conn : bool) (ev : quic_event) (st : QuicStream) : option (QuicStream * list quic_action) :=
  match ev with quic_data d => handle_data sess conn d st | _ => handle_close sess conn st end.
Fixpoint qe_tell (sess conn : bool) (acts : list session_act) (m : gmap nat (Z * QuicStream))
  : option (gmap nat (Z * QuicStream) * list qe_out) :=
  match acts with
  | [] => Some (m, [])
  | tell_stream o ev :: acts' =>
    '(id, st) ← m !! o;
    '(st', a) ← told_step sess conn ev st;
    '(m', out) ← qe_tell sess conn acts' (<[o := (id, st')]> m);
    mret (m', out_stream o ev a :: out)
  | a :: acts' =>
    '(m', out) ← qe_tell sess conn acts' (match a with notify_stream id o => <[o := (id, new_quic_stream)]> m | _ => m end);
    mret (m', out_act a :: out)
  end.
(** The session has taken a step. *)
Definition qe_moved (r : QuicSession * list session_act) (e : QuicEnd) : option (QuicEnd * list qe_out) :=
  '(m, out) ← qe_tell (qe_alive e) (conn_ (qe_session e)) r.2 (qe_streams e);
  mret ({| qe_session := r.1; qe_streams := m; qe_alive := qe_alive e |}, out).
Definition with_stream (o : nat) (id : Z) (st : QuicStream) (e : QuicEnd) : QuicEnd := {|
  qe_session := qe_session e; qe_streams := <[o := (id, st)]> (qe_streams e); qe_alive := qe_alive e |}.

(** ** Operations *)
(** [QuicSession::open_stream]. *)
Definition qe_open (id : option Z) (e : QuicEnd) : QuicEnd :=
  match open_stream id (qe_session e), id with
  | (s', Some o), Some i => {| qe_session := s'; qe_streams := <[o := (i, new_quic_stream)]> (qe_streams e); qe_alive := qe_alive e |}
  | _, _ => e
  end.
(** [QuicStream::async_read] and [async_read_some]. *)
Definition stream_read (o : nat) (all : bool) (size : Z) (handler : nat) (e : QuicEnd) : option (QuicEnd * list qe_out) :=
  match qe_streams e !! o with
  | None => Some (e, [])
  | Some (id, st) =>
    if qe_alive e then
      '(st', a) ← (if all then async_read true (conn_ (qe_session e)) size handler st
                   else async_read_some true (conn_ (qe_session e)) size handler st);
      mret (with_stream o id st' e, [out_stream o (quic_read all size handler) a])
    else Some (e, [out_gone handler])
  end.
(** [QuicStream::async_write] of one buffer, and of several. *)
Definition stream_write (env : ng_env) (o : nat) (data : list byte) (handler : nat) (e : QuicEnd) : option (QuicEnd * list qe_out) :=
  match qe_streams e !! o with
  | None => Some (e, [])
  | Some (id, _) => if qe_alive e then qe_moved (write_stream_data env id data handler (qe_session e)) e else Some (e, [out_gone handler])
  end.
Definition stream_write_all (env : ng_env) (o : nat) (buffers : list (list byte)) (handler : nat) (e : QuicEnd) : option (QuicEnd * list qe_out) :=
  match qe_streams e !! o with
  | None => Some (e, [])
  | Some (id, _) => if qe_alive e then qe_moved (write_stream env id buffers handler (qe_session e)) e else Some (e, [out_gone handler])
  end.
(** [QuicStream::close]. *)
Definition stream_close (env : ng_env) (o : nat) (e : QuicEnd) : option (QuicEnd * list qe_out) :=
  match qe_streams e !! o with
  | None => Some (e, [])
  | Some (id, st) =>
    if qe_alive e then
      let '(st', a) := QuicStream.close true st in
      let e1 := with_stream o id st' e in
      '(e2, out) ← (if bool_decide (a = []) then Some (e1, []) else qe_moved (close_stream env id (qe_session e1)) e1);
      mret (e2, out_stream o quic_local_close a :: out)
    else Some (e, [])
  end.
(** The last reference to the session goes: [~QuicSession] calls [handle_close]
    on the streams left, which no longer find their session. *)
Definition drop_session (e : QuicEnd) : option (QuicEnd * list qe_out) :=
  if qe_alive e then
    '(m, out) ← qe_tell false (conn_ (qe_session e)) (destroy_session (qe_session e)) (qe_streams e);
    mret ({| qe_session := qe_session e; qe_streams := m; qe_alive := false |}, [])
  else Some (e, []).

Inductive qe_op : Type :=
| qe_packet (env : ng_env) (cbs : list ng_callback) (res : read_result)
| qe_send (env : ng_env)
| qe_timer (env : ng_env) (expired : bool)
| qe_close_session (send_close : bool)
| qe_open_stream (id : option Z)
| qe_read (o : nat) (all : bool) (size : Z) (handler : nat)
| qe_write (env : ng_env) (o : nat) (data : list byte) (handler : nat)
| qe_write_all (env : ng_env) (o : nat) (buffers : list (list byte)) (handler : nat)
| qe_close (env : ng_env) (o : nat)
| qe_release.
(** The operations of a session that is gone do not happen; [None]: a copy
    would leave its block, or the session names an object that is not there. *)
Definition qe_step (op : qe_op) (e : QuicEnd) : option (QuicEnd * list qe_out) :=
  let on_session r := if qe_alive e then qe_moved r e else Some (e, []) in
  let s := qe_session e in
  match op with
  | qe_packet env cbs res => on_session (handle_packet env cbs res s)
  | qe_send env => on_session (send_packets env s)
  | qe_timer env expired => on_session (on_timer env expired s)
  | qe_close_session send => on_session (close_session send true s)
  | qe_open_stream id => Some (if qe_alive e then qe_open id e else e, [])
  | qe_read o all size h => stream_read o all size h e
  | qe_write env o data h => stream_write env o data h e
  | qe_write_all env o bufs h => stream_write_all env o bufs h e
  | qe_close env o => stream_close env o e
  | qe_release => drop_session e
  end.
Fixpoint qe_run (ops : list qe_op) (e : QuicEnd) : option (QuicEnd * list qe_out) :=
  match ops with
  | [] => Some (e, [])
  | op :: ops' => '(e1, o1) ← qe_step op e; '(e2, o2) ← qe_run ops' e1; mret (e2, o1 ++ o2)
  end.

(** ** Observations *)
(** What object [o] has handled, and what its reads were given. *)
Definition heard (o : nat) (out : list qe_out) : list quic_event :=
  omap (fun x => match x with out_stream p ev _ => if decide (p = o) then Some ev else None | _ => None end) out.
Definition stream_acts (o : nat) (out : list qe_out) : list quic_action :=
  concat (map (fun x => match x with out_stream p _ a => if decide (p = o) then a else [] | _ => [] end) out).
Definition results (o : nat) (out : list qe_out) := quic_posts (stream_acts o out).
Definition asked_of (evs : list quic_event) : list nat :=
  omap (fun ev => match ev with quic_read _ _ h => Some h | _ => None end) evs.
(** The data ngtcp2 brings in. *)
Definition callback_data (cbs : list ng_callback) : list byte :=
  concat (map (fun cb => match cb with cb_stream_data _ d _ => d | _ => [] end) cbs).
Definition brought (ops : list qe_op) : list byte :=
  concat (map (fun op => match op with qe_packet _ cbs _ => callback_data cbs | _ => [] end) ops).
(** Frames with data, buffers with a size. *)
Definition qe_used (op : qe_op) : Prop :=
  match op with
  | qe_packet _ cbs _ => Forall (fun cb => match cb with cb_stream_data _ d _ => d <> [] | _ => True end) cbs
  | qe_read _ _ size _ => 0 <= size
  | _ => True
  end.
(** ngtcp2 opens streams under identifiers the session does not have. *)
Fixpoint qe_fresh (ops : list qe_op) (e : QuicEnd) : Prop :=
  match ops with
  | [] => True
  | op :: ops' =>
    match op with qe_open_stream (Some i) => quic_streams_ (qe_session e) !! i = None | _ => True end /\
    match qe_step op e with Some (e', _) => qe_fresh ops' e' | None => True end
  end.

(** ** What a step of the session tells *)
(** The objects that have not been told of their end, and the next number. *)
Fixpoint live_after (acts : list session_act) (l : gset nat * nat) : option (gset nat * nat) :=
  match acts with
  | [] => Some l
  | notify_stream _ o :: acts' => if decide (o = l.2) then live_after acts' ({[o]} ∪ l.1, S o) else None
  | tell_stream o (quic_data _) :: acts' => if decide (o ∈ l.1) then live_after acts' l else None
  | tell_stream o quic_remote_close :: acts' => if decide (o ∈ l.1) then live_after acts' (l.1 ∖ {[o]}, l.2) else None
  | tell_stream _ _ :: _ => None
  | _ :: acts' => live_after acts' l
  end.
Definition told_data (acts : list session_act) : list (list byte) :=
  omap (fun a => match a with tell_stream _ (quic_data d) => Some d | _ => None end) acts.
Definition live (s : QuicSession) : gset nat * nat := (list_to_set (objects s), next_quic_object s).
Definition table_ok (s : QuicSession) : Prop := NoDup (objects s) /\ Forall (fun o => o < next_quic_object s)%nat (objects s).
Record table_post (ds : list (list byte)) (s s' : QuicSession) (a : list session_act) : Prop := {
  tp_live : table_ok s -> live_after a (live s) = Some (live s') /\ table_ok s';
  tp_conn : conn_ s' = conn_ s;
  tp_data : told_data a = ds
}.
Lemma live_after_app xs ys l : live_after (xs ++ ys) l = (l' ← live_after xs l; live_after ys l').
Proof.
  revert l. induction xs as [|x xs IH]; intros l; [done|]. cbn [app live_after].
  destruct x; try apply IH; [destruct (decide _); [apply IH|done]|]. destruct ev; try done; (destruct (decide _); [apply IH|done]).
Qed.
Lemma told_data_app xs ys : told_data (xs ++ ys) = told_data xs ++ told_data ys.
Proof. apply omap_app. Qed.
Lemma tp_trans ds1 ds2 s s1 s2 a b : table_post ds1 s s1 a -> table_post ds2 s1 s2 b -> table_post (ds1 ++ ds2) s s2 (a ++ b).
Proof.
  intros [A1 A2 A3] [B1 B2 B3]. split; [|congruence|by rewrite told_data_app, A3, B3].
  intros Hok. destruct (A1 Hok) as [E1 H1]. destruct (B1 H1) as [E2 H2]. by rewrite live_after_app, E1.
Qed.
Lemma tp_then s s1 s2 a b : table_post [] s s1 a -> table_post [] s1 s2 b -> table_post [] s s2 (a ++ b).
Proof. exact (tp_trans [] [] s s1 s2 a b). Qed.
(** Actions that are no stream's business. *)
Definition no_stream (a : session_act) : Prop := match a with tell_stream _ _ | notify_stream _ _ => False | _ => True end.
Lemma quiet_live acts l : Forall no_stream acts -> live_after acts l = Some l /\ told_data acts = [].
Proof. induction 1 as [|a acts Ha _ IH]; [done|]. by destruct a. Qed.
Lemma tp_quiet s s' a : Forall no_stream a -> quic_streams_ s' = quic_streams_ s -> next_quic_object s' = next_quic_object s ->
  conn_ s' = conn_ s -> table_post [] s s' a.
Proof.
  intros Ha H1 H2 H3. destruct (quiet_live a (live s) Ha) as [E1 E2]. split; [|done..].
  unfold live, table_ok, objects in *. by rewrite E1, H1, H2.
Qed.
Lemma live_all (ms : list (Z * nat)) n : NoDup ms.*2 ->
  live_after (map (fun p => tell_stream p.2 quic_remote_close) ms ++ [notify_closed]) (list_to_set ms.*2, n) = Some (∅, n) /\
  told_data (map (fun p => tell_stream p.2 quic_remote_close) ms ++ [notify_closed]) = [].
Proof.
  induction ms as [|[id o] ms IH]; intros Hd; [done|]. cbn [fmap list_fmap] in *. apply NoDup_cons in Hd as [Hn Hd].
  cbn [map app live_after fst snd]. rewrite decide_True by (cbn; set_solver).
  assert (E : (list_to_set (o :: ms.*2) : gset nat) ∖ {[o]} = list_to_set ms.*2).
  { cbn. assert (o ∉ (list_to_set ms.*2 : gset nat)) by (by rewrite elem_of_list_to_set). set_solver. }
  cbn [fst snd] in E. rewrite E. by apply IH.
Qed.
Lemma tp_notify_all s : table_post [] s (notify_all s).1 (notify_all s).2.
Proof.
  split; [|done|].
  - intros [Hd _]. unfold notify_all, live, table_ok, objects in *. cbn [fst snd quic_streams_ next_quic_object].
    rewrite map_to_list_empty. split; [by apply (live_all (map_to_list (quic_streams_ s)))|split; constructor].
  - cbn. unfold told_data. rewrite omap_app. induction (map_to_list (quic_streams_ s)); done.
Qed.
Lemma tp_close send sent s : table_post [] s (close_session send sent s).1 (close_session send sent s).2.
Proof.
  unfold close_session. destruct (dead s); [by apply tp_quiet|]. pose proof (tp_notify_all s) as P.
  destruct (notify_all s) as [s1 a]. cbn [fst snd] in *.
  assert (P' : table_post [] s (set_timer None s1) a) by (destruct P; by split).
  destruct (send && sent); [|done]. apply (tp_then _ s _ [send_connection_close]); [|done]. apply tp_quiet; try done. by repeat constructor.
Qed.
Lemma tp_check_closed closing s : table_post [] s (check_closed closing s).1 (check_closed closing s).2.
Proof. unfold check_closed. destruct (dead s); [by apply tp_quiet|]. destruct closing; [apply tp_notify_all|by apply tp_quiet]. Qed.
Lemma tp_schedule e s : table_post [] s (schedule_timer e s) [].
Proof. unfold schedule_timer. destruct (dead s); [by apply tp_quiet|]. by destruct e; apply tp_quiet. Qed.
Lemma do_write_loop_no_stream fuel writev n q : Forall no_stream (do_write_loop fuel writev n q).1.1.2.
Proof.
  revert n q. induction fuel as [|fuel IH]; intros n q; [by constructor|]. destruct q as [|w q]; [by constructor|]. cbn [do_write_loop].
  destruct (max_packets <=? n)%nat; [by constructor|]. destruct (_ && _); [apply IH|]. destruct (0 <? _); [|by constructor].
  destruct (wr_ec _); try (by repeat constructor). destruct (0 <? _); [|by repeat constructor]. set (n' := S n). destruct (_ <=? _).
  - specialize (IH n' q). destruct (do_write_loop _ _ _ _) as [[[q1 a1] f] m]. by repeat constructor.
  - match goal with |- context [do_write_loop fuel writev n' ?q2] => specialize (IH n' q2) end.
    destruct (do_write_loop _ _ _ _) as [[[q1 a1] f] m]. by repeat constructor.
Qed.
Lemma packet_loop_no_stream n packet i : Forall no_stream (packet_loop n packet i).1.
Proof.
  revert i. induction n as [|n IH]; intros i; [by constructor|]. cbn [packet_loop]. destruct (packet i) as [res ec].
  destruct (res <=? 0); [by constructor|]. destruct ec; try (by repeat constructor). specialize (IH (S i)).
  destruct (packet_loop n packet (S i)) as [a f]. by constructor.
Qed.
Lemma tp_do_write e s : table_post [] s (do_write e s).1 (do_write e s).2.
Proof.
  unfold do_write. destruct (dead s); [by apply tp_quiet|].
  pose proof (do_write_loop_no_stream (do_write_fuel (quic_write_queue_ s)) (ng_writev e) 0 (quic_write_queue_ s)) as Hq.
  destruct (do_write_loop _ _ _ _) as [[[q1 a1] f] n]. cbn [fst snd] in Hq.
  assert (L1 : table_post [] s (set_quic_writes q1 s) a1) by (by apply tp_quiet).
  assert (L2 : forall s2 b, table_post [] s s2 b ->
    table_post [] s (if negb (bool_decide (q1 = [])) && (max_packets <=? n)%nat then set_timer (Some retry_timer) s2 else s2) b).
  { intros s2 b [A1 A2 A3]. destruct (_ && _); by split. }
  destruct f.
  - pose proof (tp_close true true (set_quic_writes q1 s)) as L. destruct (close_session _ _ _) as [s2 a2]. cbn [fst snd] in *.
    apply L2. by eapply tp_then.
  - cbn [fst snd]. apply L2. by rewrite app_nil_r.
Qed.
Ltac tp_step L := match type of L with table_post _ _ (?f).1 _ => destruct f as [??]; cbn [fst snd] in L end.
Lemma tp_send_packets e s : table_post [] s (send_packets e s).1 (send_packets e s).2.
Proof.
  unfold send_packets. destruct (dead s); [by apply tp_quiet|].
  pose proof (packet_loop_no_stream 32 (ng_packet e) 0) as Hq. destruct (packet_loop _ _ _) as [a1 f]. cbn [fst] in Hq.
  assert (L0 : table_post [] s s a1) by (by apply tp_quiet).
  assert (L1 : table_post [] s (if f then close_session true true s else (s, [])).1 (if f then close_session true true s else (s, [])).2)
    by (destruct f; [apply tp_close|by apply tp_quiet]).
  destruct (if f then close_session true true s else (s, [])) as [s2 a2]. cbn [fst snd] in L1.
  pose proof (tp_do_write e s2) as L2. tp_step L2.
  pose proof (tp_schedule (ng_expiry e) q) as L3. pose proof (tp_check_closed (ng_closing e) (schedule_timer (ng_expiry e) q)) as L4.
  tp_step L4. cbn [fst snd]. eapply tp_then; [done|]. eapply tp_then; [done|]. eapply tp_then; [done|].
  exact (tp_then _ _ _ [] _ L3 L4).
Qed.
Lemma tp_write_stream e id bufs h s : table_post [] s (write_stream e id bufs h s).1 (write_stream e id bufs h s).2.
Proof.
  unfold write_stream. destruct (dead s); [apply tp_quiet; [by repeat constructor|done..]|].
  destruct (_ <=? _); [apply tp_quiet; [by repeat constructor|done..]|].
  set (s1 := set_quic_writes _ s). destruct (tp_do_write e s1) as [H1 H2 H3]. by split.
Qed.
Lemma tp_close_stream e id s : table_post [] s (close_stream e id s).1 (close_stream e id s).2.
Proof.
  unfold close_stream. destruct (dead s); [by apply tp_quiet|]. pose proof (tp_send_packets e s) as L. tp_step L. cbn [fst snd].
  apply (tp_then s s q [ng_shutdown_stream id]); [|done]. apply tp_quiet; [by repeat constructor|done..].
Qed.
Lemma tp_on_timer e expired s : table_post [] s (on_timer e expired s).1 (on_timer e expired s).2.
Proof.
  unfold on_timer. destruct (timer_ s) as [use|]; [|by apply tp_quiet]. set (s1 := set_timer None s).
  assert (L : forall r, table_post [] s1 r.1 r.2 -> table_post [] s r.1 r.2) by (intros r [A1 A2 A3]; by split).
  destruct (dead s1); [by apply tp_quiet|]. destruct use; [destruct expired|]; apply L;
    [apply tp_close|apply tp_send_packets|apply tp_do_write].
Qed.

(** What ngtcp2 calls back. *)
Lemma objects_insert s id : quic_streams_ s !! id = None ->
  objects (set_quic_streams (<[id := next_quic_object s]> (quic_streams_ s)) (S (next_quic_object s)) s) ≡ₚ next_quic_object s :: objects s.
Proof. intros Hf. unfold objects. cbn [quic_streams_ set_quic_streams]. by rewrite (map_to_list_insert _ _ _ Hf). Qed.
Lemma table_insert s id : table_ok s -> quic_streams_ s !! id = None ->
  let s' := set_quic_streams (<[id := next_quic_object s]> (quic_streams_ s)) (S (next_quic_object s)) s in
  live s' = ({[next_quic_object s]} ∪ (live s).1, S (next_quic_object s)) /\ table_ok s'.
Proof.
  intros [Hd Hn] Hf s'. pose proof (objects_insert s id Hf) as P. fold s' in P. split.
  - unfold live. f_equal. apply leibniz_equiv. cbn [fst]. rewrite P. done.
  - split; rewrite P.
    + apply NoDup_cons. split; [|done]. intros Hin. rewrite Forall_forall in Hn. apply Hn in Hin. lia.
    + constructor; [cbn; lia|]. eapply Forall_impl; [exact Hn|]. cbn. lia.
Qed.
Lemma tp_stream_data id data s : table_post [data] s (on_stream_data id data s).1 (on_stream_data id data s).2.
Proof.
  unfold on_stream_data. destruct (quic_streams_ s !! id) as [o|] eqn:E; cbn [fst snd].
  - split; [|done..]. intros Hok. split; [|done]. cbn [live_after]. rewrite decide_True; [done|].
    cbn [live fst]. rewrite elem_of_list_to_set. unfold objects. apply list_elem_of_fmap. exists (id, o). split; [done|]. by apply elem_of_map_to_list.
  - split; [|done..]. intros Hok. destruct (table_insert s id Hok E) as [H1 H2]. split; [|done].
    cbn [live_after live snd]. rewrite decide_True by done. cbn [fst]. rewrite decide_True by set_solver. by rewrite H1.
Qed.
Lemma tp_stream_close id s : table_post [] s (on_stream_close id s).1 (on_stream_close id s).2.
Proof.
  unfold on_stream_close. destruct (quic_streams_ s !! id) as [o|] eqn:E; [|by apply tp_quiet].
  split; [|done..]. intros [Hd Hn]. cbn [fst snd].
  assert (P : objects s ≡ₚ o :: objects (set_quic_streams (delete id (quic_streams_ s)) (next_quic_object s) s)).
  { unfold objects. cbn [quic_streams_ set_quic_streams]. by rewrite <- (map_to_list_delete _ _ _ E). }
  set (s' := set_quic_streams _ _ s) in *. rewrite P in Hd, Hn. apply NoDup_cons in Hd as [Hi Hd]. apply Forall_cons in Hn as [_ Hn].
  split; [|by split]. cbn [live_after live fst snd]. rewrite decide_True by (rewrite P; set_solver).
  unfold live. do 2 f_equal. apply leibniz_equiv. rewrite P. cbn [list_to_set]. assert (o ∉ (list_to_set (objects s') : gset nat)) by (by rewrite elem_of_list_to_set).
  set_solver.
Qed.
Definition frames (cbs : list ng_callback) : list (list byte) :=
  omap (fun cb => match cb with cb_stream_data _ d _ => Some d | _ => None end) cbs.
Lemma tp_callback cb s : table_post (frames [cb]) s (run_callback cb s).1 (run_callback cb s).2.
Proof.
  destruct cb as [id d fin|id|]; cbn [run_callback].
  - pose proof (tp_stream_data id d s) as L1. tp_step L1.
    destruct fin; [|by rewrite app_nil_r; cbn [fst snd]].
    pose proof (tp_stream_close id q) as L2. tp_step L2. cbn [fst snd]. exact (tp_trans [d] [] _ _ _ _ _ L1 L2).
  - apply tp_stream_close.
  - apply tp_quiet; [by repeat constructor|done..].
Qed.
Lemma tp_callbacks cbs s : table_post (frames cbs) s (run_callbacks cbs s).1 (run_callbacks cbs s).2.
Proof.
  revert s. induction cbs as [|cb cbs IH]; intros s; [by apply tp_quiet|]. cbn [run_callbacks].
  pose proof (tp_callback cb s) as L1. tp_step L1. specialize (IH q). tp_step IH. cbn [fst snd].
  change (frames (cb :: cbs)) with (frames ([cb] ++ cbs)). unfold frames. rewrite omap_app. by eapply tp_trans.
Qed.
Lemma tp_handle_packet e cbs res s : exists ds, table_post ds s (handle_packet e cbs res s).1 (handle_packet e cbs res s).2 /\
  ds = (if dead s then [] else frames cbs).
Proof.
  eexists. split; [|reflexivity]. unfold handle_packet. destruct (dead s); [by apply tp_quiet|].
  pose proof (tp_callbacks cbs s) as L1. tp_step L1. rewrite <- (app_nil_r (frames cbs)). destruct res.
  - pose proof (tp_send_packets e q) as L2. tp_step L2. pose proof (tp_check_closed (ng_closing e) q0) as L3. tp_step L3.
    cbn [fst snd]. eapply tp_trans; [exact L1|]. by eapply tp_then.
  - pose proof (tp_close false true q) as L2. tp_step L2. by eapply tp_trans.
  - pose proof (tp_close true true q) as L2. tp_step L2. by eapply tp_trans.
Qed.

(** ** Objects and their histories *)
(** The handlers asked are those answered and those waiting. *)
Lemma qr_serve_handlers r : let '(r', out) := qr_serve r in
  map (fun p => p.1.1) out ++ map pr_handler (qr_reads r') = map pr_handler (qr_reads r) /\ qr_closed r' = qr_closed r /\
  (qr_closed r = true -> qr_reads r' = []).
Proof.
  unfold qr_serve. destruct (serve (qr_closed r) (qr_reads r) (qr_bytes r)) as [[out rest] bs] eqn:E.
  pose proof (serve_rest _ _ _ _ _ _ E) as [H _]. cbn. split; [done|]. split; [done|]. intros Hc. rewrite Hc in E.
  clear -E. revert out rest bs E. generalize (qr_bytes r). induction (qr_reads r) as [|pr prs IH]; intros bytes out rest bs E;
    [by injection E as <- <- <-|]. cbn [serve] in E. destruct bytes as [|b bytes].
  - destruct (serve true prs []) as [[o1 r1] b1] eqn:E1. injection E as <- <- <-. by apply (IH [] o1 r1 b1).
  - rewrite andb_false_r in E. destruct (serve true prs _) as [[o1 r1] b1] eqn:E1. injection E as <- <- <-. by eapply IH.
Qed.
Lemma qr_step_handlers ev r : let '(r', out) := qr_step ev r in
  map (fun p => p.1.1) out ++ map pr_handler (qr_reads r') = map pr_handler (qr_reads r) ++ asked_of [ev] /\
  (qr_closed r = true \/ ev = quic_remote_close -> (ev = quic_local_close -> qr_reads r = []) -> qr_closed r' = true /\ qr_reads r' = []).
Proof.
  assert (H : forall r0, (qr_closed r = true \/ ev = quic_remote_close -> qr_closed r0 = true) ->
    map pr_handler (qr_reads r0) = map pr_handler (qr_reads r) ++ asked_of [ev] -> let '(r', out) := qr_serve r0 in
    map (fun p => p.1.1) out ++ map pr_handler (qr_reads r') = map pr_handler (qr_reads r) ++ asked_of [ev] /\
    (qr_closed r = true \/ ev = quic_remote_close -> (ev = quic_local_close -> qr_reads r = []) -> qr_closed r' = true /\ qr_reads r' = [])).
  { intros r0 H0 E. pose proof (qr_serve_handlers r0) as S. destruct (qr_serve r0) as [r' out]. destruct S as (S1 & S2 & S3).
    split; [congruence|]. intros Hc _. apply H0 in Hc. split; [congruence|by apply S3]. }
  destruct ev as [all size h|d| |]; cbn [qr_step].
  - apply H; cbn; [by intros [?|?]|]. by rewrite map_app.
  - apply H; cbn; [by intros [?|?]|]. by rewrite app_nil_r.
  - apply H; cbn; [done|]. by rewrite app_nil_r.
  - cbn. rewrite app_nil_r. split; [done|]. intros _ Hn. split; [done|by apply Hn].
Qed.
Lemma qr_run_app xs ys r : qr_run (xs ++ ys) r = (let '(r1, o1) := qr_run xs r in let '(r2, o2) := qr_run ys r1 in (r2, o1 ++ o2)).
Proof.
  revert r. induction xs as [|x xs IH]; intros r; cbn [app qr_run]; [by destruct (qr_run ys r)|].
  destruct (qr_step x r) as [r1 o1]. rewrite IH. destruct (qr_run xs r1) as [r2 o2]. destruct (qr_run ys r2) as [r3 o3].
  by rewrite app_assoc.
Qed.
Lemma qr_run_handlers evs r : let '(r', out) := qr_run evs r in
  map (fun p => p.1.1) out ++ map pr_handler (qr_reads r') = map pr_handler (qr_reads r) ++ asked_of evs.
Proof.
  revert r. induction evs as [|ev evs IH]; intros r; cbn [qr_run]; [by rewrite app_nil_r|].
  pose proof (qr_step_handlers ev r) as S. destruct (qr_step ev r) as [r1 o1]. destruct S as [S _]. specialize (IH r1).
  destruct (qr_run evs r1) as [r2 o2]. rewrite map_app, <- app_assoc, IH, app_assoc, S, <- app_assoc. f_equal.
  change (ev :: evs) with ([ev] ++ evs). unfold asked_of. by rewrite omap_app.
Qed.

Lemma heard_app o xs ys : heard o (xs ++ ys) = heard o xs ++ heard o ys.
Proof. apply omap_app. Qed.
Lemma results_app o xs ys : results o (xs ++ ys) = results o xs ++ results o ys.
Proof. unfold results, stream_acts. by rewrite map_app, concat_app, quic_posts_app. Qed.
(** What object [o] was given is what the byte queue gives for what it heard. *)
Definition as_queue (o : nat) (st : QuicStream) (out : list qe_out) : Prop :=
  qr_run (heard o out) new_quic_reader = (quic_reader_of st, results o out).
Definition object_ok (rest : list byte) (l : gset nat) (o : nat) (st : QuicStream) (out : list qe_out) : Prop :=
  quic_inv (zlen rest) st /\ as_queue o st out /\ (o ∈ l \/ closed_ st = true /\ quic_reads_ st = []).
(** [rest] may still arrive; the objects of [l] have not been told of their
    end, the others have closed and have no read waiting. *)
Definition objects_ok (rest : list byte) (l : gset nat * nat) (m : gmap nat (Z * QuicStream)) (out : list qe_out) : Prop :=
  forall o, match m !! o with
  | Some (_, st) => object_ok rest l.1 o st out /\ (o < l.2)%nat
  | None => (o ∉ l.1) /\ heard o out = [] /\ results o out = []
  end.
Lemma quic_inv_less n n' st : n' <= n -> quic_inv n st -> quic_inv n' st.
Proof. intros H [H1 H2 H3]. split; [done|lia|done]. Qed.
Lemma objects_less rest rest' l m out : zlen rest' <= zlen rest -> objects_ok rest l m out -> objects_ok rest' l m out.
Proof.
  intros H Ho o. specialize (Ho o). destruct (m !! o) as [[id st]|]; [|done]. destruct Ho as [(H1 & H2 & H3) H4].
  split; [|done]. split; [by eapply quic_inv_less|done].
Qed.
(** Actions of the session alone. *)
Lemma objects_act rest l m out a : objects_ok rest l m out -> objects_ok rest l m (out ++ [out_act a]).
Proof.
  intros Ho o. specialize (Ho o). unfold object_ok, as_queue in *. rewrite heard_app, results_app. cbn. by rewrite !app_nil_r.
Qed.
Lemma heard_event o p ev a : heard p [out_stream o ev a] = if decide (o = p) then [ev] else [].
Proof. cbn. by destruct (decide (o = p)). Qed.
Lemma results_event o p ev a : results p [out_stream o ev a] = if decide (o = p) then quic_posts a else [].
Proof. unfold results, stream_acts. cbn. rewrite app_nil_r. by destruct (decide (o = p)). Qed.
Definition event_data (ev : quic_event) : list byte := match ev with quic_data d => d | _ => [] end.
(** The objects not told of their end once [ev] is handled. *)
Definition left_live (ev : quic_event) (o : nat) (l : gset nat * nat) : gset nat * nat :=
  match ev with quic_remote_close => (l.1 ∖ {[o]}, l.2) | _ => l end.
Lemma event_ok rest l m out o id st ev : objects_ok (event_data ev ++ rest) l m out -> m !! o = Some (id, st) -> quic_used ev ->
  exists st' a, quic_step ev st = Some (st', a) /\
    objects_ok rest (left_live ev o l) (<[o := (id, st')]> m) (out ++ [out_stream o ev a]).
Proof.
  intros Ho Em Hu. pose proof (Ho o) as H. rewrite Em in H. destruct H as [(Hi & Hq & Hc) Hn].
  destruct (quic_event_step [quic_data rest] ev st) as (st' & a & E & Hi' & Hr & _); [|done|].
  { replace (quic_received [ev; quic_data rest]) with (event_data ev ++ rest); [done|]. unfold quic_received. cbn. rewrite app_nil_r. done. }
  replace (quic_received [quic_data rest]) with rest in Hi' by (unfold quic_received; cbn; by rewrite app_nil_r).
  exists st', a. split; [done|].
  assert (Hl : zlen rest <= zlen (event_data ev ++ rest)) by (rewrite zlen_app; pose proof (zlen_nonneg (event_data ev)); lia).
  pose proof (objects_less _ _ _ _ _ Hl Ho) as Ho'.
  intros p. unfold object_ok, as_queue. rewrite heard_app, results_app, heard_event, results_event.
  destruct (decide (o = p)) as [<-|Hne].
  - rewrite lookup_insert_eq. split; [|by destruct ev]. split; [done|]. split.
    + rewrite qr_run_app. unfold as_queue in Hq. rewrite Hq. cbn [qr_run]. rewrite Hr. by rewrite app_nil_r.
    + pose proof (qr_step_handlers ev (quic_reader_of st)) as S. rewrite Hr in S. destruct S as [_ S]. cbn [qr_closed qr_reads quic_reader_of] in S.
      destruct Hc as [Hin|[C1 C2]].
      * destruct ev; try (by left). right. apply S; [by right|done].
      * right. apply S; [by left|done].
  - rewrite lookup_insert_ne by done. specialize (Ho' p). destruct (m !! p) as [[id' st1]|].
    + rewrite !app_nil_r. destruct Ho' as [(H1 & H2 & H3) H4]. split; [|by destruct ev]. split; [done|]. split; [done|].
      destruct H3 as [H3|]; [left; destruct ev; cbn; set_solver|by right].
    + rewrite !app_nil_r. destruct Ho' as [H1 H2]. split; [|done]. destruct ev; cbn; set_solver.
Qed.
(** A new object. *)
Lemma new_object_ok rest l m out id : zlen rest < 2 ^ 64 -> objects_ok rest l m out ->
  objects_ok rest ({[l.2]} ∪ l.1, S l.2) (<[l.2 := (id, new_quic_stream)]> m) out.
Proof.
  intros Hz Ho p. destruct (decide (l.2 = p)) as [<-|Hne].
  - rewrite lookup_insert_eq. specialize (Ho l.2). destruct (m !! l.2) as [[id' st]|]; [lia|]. destruct Ho as (_ & H1 & H2).
    split; [|cbn; lia]. split; [apply new_quic_inv; pose proof (zlen_nonneg rest); lia|]. split; [|left; cbn; set_solver].
    unfold as_queue. by rewrite H1, H2.
  - rewrite lookup_insert_ne by done. specialize (Ho p). destruct (m !! p) as [[id' st]|]; cbn [fst snd].
    + destruct Ho as [(H1 & H2 & H3) H4]. split; [|lia]. split; [done|]. split; [done|]. destruct H3; [left; set_solver|by right].
    + destruct Ho as [H1 H2]. split; [set_solver|done].
Qed.
Lemma tell_ok rest acts l l' m out : live_after acts l = Some l' -> Forall (fun d => d <> []) (told_data acts) ->
  zlen (concat (told_data acts) ++ rest) < 2 ^ 64 -> objects_ok (concat (told_data acts) ++ rest) l m out ->
  exists m' outs, qe_tell true true acts m = Some (m', outs) /\ objects_ok rest l' m' (out ++ outs).
Proof.
  revert l m out. induction acts as [|a acts IH]; intros l m out El Hd Hz Ho.
  { injection El as <-. exists m, []. by rewrite app_nil_r. }
  assert (Hact : forall l1 m1, live_after acts l1 = Some l' -> told_data (a :: acts) = told_data acts -> objects_ok (concat (told_data acts) ++ rest) l1 m1 out ->
    exists m' outs, ('(m', out) ← qe_tell true true acts m1; mret (m', out_act a :: out)) = Some (m', outs) /\ objects_ok rest l' m' (out ++ outs)).
  { intros l1 m1 E1 E2 Ho1. rewrite E2 in Hd, Hz. destruct (IH l1 m1 (out ++ [out_act a]) E1 Hd Hz (objects_act _ _ _ _ _ Ho1)) as (m' & outs & -> & H).
    eexists _, _. split; [done|]. by rewrite <- app_assoc in H. }
  assert (Htell : forall o ev l1, (ev = quic_remote_close \/ exists d, ev = quic_data d) -> a = tell_stream o ev -> o ∈ l.1 ->
    concat (told_data (a :: acts)) = event_data ev ++ concat (told_data acts) -> Forall (fun d => d <> []) (told_data acts) -> quic_used ev ->
    l1 = left_live ev o l -> live_after acts l1 = Some l' ->
    exists m' outs, qe_tell true true (a :: acts) m = Some (m', outs) /\ objects_ok rest l' m' (out ++ outs)).
  { intros o ev l1 Hev -> Hin Ed Hd' Hu -> E1. rewrite Ed, <- app_assoc in Ho. pose proof (Ho o) as Hm.
    destruct (m !! o) as [[id st]|] eqn:Em; [|by destruct Hm].
    destruct (event_ok _ l m out o id st ev Ho Em Hu) as (st' & b & Es & Ho').
    assert (Hz' : zlen (concat (told_data acts) ++ rest) < 2 ^ 64).
    { rewrite Ed, <- app_assoc, zlen_app in Hz. pose proof (zlen_nonneg (event_data ev)). lia. }
    destruct (IH _ _ _ E1 Hd' Hz' Ho') as (m' & outs & E & H).
    exists m', (out_stream o ev b :: outs). split; [|by rewrite <- app_assoc in H]. cbn [qe_tell]. rewrite Em. cbn [mbind option_bind].
    replace (told_step true true ev st) with (quic_step ev st) by (by destruct Hev as [->|[d ->]]).
    rewrite Es. cbn [mbind option_bind]. by rewrite E. }
  destruct a; cbn [live_after] in El; try (by apply (Hact l m)).
  - destruct (decide (obj = l.2)) as [->|]; [|done].
    apply (Hact _ (<[l.2 := (id, new_quic_stream)]> m) El eq_refl). by apply new_object_ok.
  - destruct ev as [|d| |]; try done; destruct (decide (obj ∈ l.1)) as [Hin|]; try done.
    + cbn in Hd. apply Forall_cons in Hd as [Hd1 Hd2]. apply (Htell obj (quic_data d) l); try done. right. by exists d.
    + apply (Htell obj quic_remote_close (l.1 ∖ {[obj]}, l.2)); try done. by left.
Qed.

(** ** The endpoint *)
Record qe_ok (rest : list byte) (e : QuicEnd) (out : list qe_out) : Prop := {
  qk_conn : conn_ (qe_session e) = true;
  qk_table : table_ok (qe_session e);
  qk_closed : closed_notified_ (qe_session e) = true -> quic_streams_ (qe_session e) = ∅;
  qk_objects : objects_ok rest (live (qe_session e)) (qe_streams e) out
}.
(** A step of the session, with what it tells the streams. *)
Lemma moved_ok rest ds s' acts e out : qe_ok (concat ds ++ rest) e out -> qe_alive e = true -> table_post ds (qe_session e) s' acts ->
  life_post (qe_session e) s' acts -> Forall (fun d => d <> []) ds -> zlen (concat ds ++ rest) < 2 ^ 64 ->
  exists e' outs, qe_moved (s', acts) e = Some (e', outs) /\ qe_ok rest e' (out ++ outs) /\ qe_alive e' = true.
Proof.
  intros [K1 K2 K3 K4] Ha [T1 T2 T3] L Hd Hz. destruct (T1 K2) as [E Hok]. subst ds.
  destruct (tell_ok rest acts _ _ _ out E Hd Hz K4) as (m & outs & Em & Ho). unfold qe_moved. cbn [fst snd]. rewrite Ha, K1, Em.
  eexists _, _. split; [done|]. split; [|done]. split; cbn [qe_session qe_streams]; [congruence|done| |done].
  intros Hc. by apply (li_empty _ _ _ L).
Qed.
Lemma qe_less rest rest' e out : zlen rest' <= zlen rest -> qe_ok rest e out -> qe_ok rest' e out.
Proof. intros H [K1 K2 K3 K4]. split; try done. by eapply objects_less. Qed.
Definition op_data (op : qe_op) : list byte := match op with qe_packet _ cbs _ => callback_data cbs | _ => [] end.
Lemma frames_data cbs : concat (frames cbs) = callback_data cbs.
Proof. unfold frames, callback_data. induction cbs as [|[] cbs IH]; cbn; [done|by f_equal|done|done]. Qed.
Lemma frames_used cbs : Forall (fun cb => match cb with cb_stream_data _ d _ => d <> [] | _ => True end) cbs ->
  Forall (fun d => d <> []) (frames cbs).
Proof. unfold frames. induction 1 as [|[id d fin|id|] cbs Hcb _ IH]; [by constructor|by constructor|done|done]. Qed.
Definition stays (rest : list byte) (out : list qe_out) (r : option (QuicEnd * list qe_out)) : Prop :=
  exists e' outs, r = Some (e', outs) /\ qe_ok rest e' (out ++ outs) /\ qe_alive e' = true.
Lemma stays_same rest e out : qe_ok rest e out -> qe_alive e = true -> stays rest out (Some (e, [])).
Proof. intros K Ha. exists e, []. by rewrite app_nil_r. Qed.
Lemma silent_ok rest s' acts e out : qe_ok rest e out -> qe_alive e = true -> table_post [] (qe_session e) s' acts ->
  life_post (qe_session e) s' acts -> zlen rest < 2 ^ 64 -> stays rest out (qe_moved (s', acts) e).
Proof. intros K Ha T L Hz. by apply (moved_ok rest [] s' acts e out). Qed.
Lemma packet_stays rest env cbs res e out : qe_ok (callback_data cbs ++ rest) e out -> qe_alive e = true ->
  Forall (fun cb => match cb with cb_stream_data _ d _ => d <> [] | _ => True end) cbs -> zlen (callback_data cbs ++ rest) < 2 ^ 64 ->
  stays rest out (qe_moved (handle_packet env cbs res (qe_session e)) e).
Proof.
  intros K Ha Hu Hz. destruct (tp_handle_packet env cbs res (qe_session e)) as (ds & T & Hds).
  pose proof (life_handle_packet env cbs res (qe_session e)) as L.
  destruct (handle_packet env cbs res (qe_session e)) as [s' acts]. cbn [fst snd] in *. rewrite zlen_app in Hz.
  pose proof (zlen_nonneg (callback_data cbs)). destruct (dead (qe_session e)); subst ds.
  - apply silent_ok; try done; [|lia]. eapply qe_less; [|exact K]. rewrite zlen_app. lia.
  - rewrite <- frames_data in K, Hz. apply (moved_ok rest (frames cbs)); try done; [|rewrite zlen_app; lia].
    by apply frames_used.
Qed.
Lemma open_stays rest id e out : qe_ok rest e out -> qe_alive e = true -> zlen rest < 2 ^ 64 ->
  (forall i, id = Some i -> quic_streams_ (qe_session e) !! i = None) -> stays rest out (Some (qe_open id e, [])).
Proof.
  intros K Ha Hz Hf. unfold qe_open, open_stream. destruct (dead (qe_session e)) eqn:Ed; [by apply stays_same|].
  destruct id as [i|]; [|by apply stays_same]. eexists _, []. rewrite app_nil_r. split; [done|]. split; [|done].
  destruct K as [K1 K2 K3 K4]. destruct (table_insert (qe_session e) i K2 (Hf i eq_refl)) as [E Hok].
  apply orb_false_iff in Ed as [_ Ec]. split; cbn [qe_session qe_streams]; [done|done| |].
  - cbn. congruence.
  - rewrite E. by apply (new_object_ok rest (live (qe_session e))).
Qed.
Lemma event_stays rest e out o id st ev : qe_ok rest e out -> qe_streams e !! o = Some (id, st) -> quic_used ev ->
  event_data ev = [] -> ev <> quic_remote_close -> exists st' a, quic_step ev st = Some (st', a) /\
    qe_ok rest (with_stream o id st' e) (out ++ [out_stream o ev a]).
Proof.
  intros [K1 K2 K3 K4] Em Hu Hd Hr. destruct (event_ok rest (live (qe_session e)) (qe_streams e) out o id st ev) as (st' & a & E & H);
    [by rewrite Hd|done|done|]. exists st', a. split; [done|]. split; cbn [qe_session qe_streams with_stream]; try done.
  by destruct ev.
Qed.
Lemma read_stays rest o all size h e out : qe_ok rest e out -> qe_alive e = true -> 0 <= size ->
  stays rest out (stream_read o all size h e).
Proof.
  intros K Ha Hs. unfold stream_read. destruct (qe_streams e !! o) as [[id st]|] eqn:Em; [|by apply stays_same].
  rewrite Ha, (qk_conn _ _ _ K). destruct (event_stays rest e out o id st (quic_read all size h) K Em Hs eq_refl) as (st' & a & E & H); [done|].
  replace (if all then _ else _) with (quic_step (quic_read all size h) st) by (by destruct all). rewrite E. eexists _, _. split; [done|]. by split.
Qed.
Lemma write_stays rest env id bufs h e out : qe_ok rest e out -> qe_alive e = true -> zlen rest < 2 ^ 64 ->
  stays rest out (qe_moved (write_stream env id bufs h (qe_session e)) e).
Proof.
  intros K Ha Hz. pose proof (tp_write_stream env id bufs h (qe_session e)) as T. pose proof (life_write_stream env id bufs h (qe_session e)) as L.
  destruct (write_stream _ _ _ _ _) as [s' acts]. by apply silent_ok.
Qed.
Lemma close_stays rest env o e out : qe_ok rest e out -> qe_alive e = true -> zlen rest < 2 ^ 64 -> stays rest out (stream_close env o e).
Proof.
  intros K Ha Hz. unfold stream_close. destruct (qe_streams e !! o) as [[id st]|] eqn:Em; [|by apply stays_same]. rewrite Ha.
  destruct (event_stays rest e out o id st quic_local_close K Em I eq_refl) as (st' & a & E & H); [done|].
  cbn [quic_step] in E. destruct (QuicStream.close true st) as [st1 a1]. injection E as -> ->.
  assert (S : stays rest (out ++ [out_stream o quic_local_close a]) (if bool_decide (a = []) then Some (with_stream o id st' e, [])
    else qe_moved (close_stream env id (qe_session (with_stream o id st' e))) (with_stream o id st' e))).
  { destruct (bool_decide (a = [])); [by apply stays_same|].
    pose proof (tp_close_stream env id (qe_session e)) as T. pose proof (life_quic_step (q_close_stream env id) (qe_session e) I) as L.
    cbn [quic_session_step] in L. cbn [qe_session with_stream]. destruct (close_stream _ _ _) as [s' acts]. by apply silent_ok. }
  destruct S as (e2 & outs & -> & S1 & S2). eexists _, _. split; [done|]. by rewrite <- app_assoc in S1.
Qed.
Lemma step_stays op rest e out : qe_ok (op_data op ++ rest) e out -> qe_alive e = true -> op <> qe_release -> qe_used op ->
  zlen (op_data op ++ rest) < 2 ^ 64 ->
  match op with qe_open_stream (Some i) => quic_streams_ (qe_session e) !! i = None | _ => True end ->
  stays rest out (qe_step op e).
Proof.
  intros K Ha Hop Hu Hz Hf. destruct op as [env cbs res|env|env expired|send|id|o all size h|env o data h|env o bufs h|env o|];
    cbn [op_data app qe_used] in *; [| | | | | | | | |done]; cbn [qe_step]; rewrite ?Ha.
  - by apply packet_stays.
  - pose proof (tp_send_packets env (qe_session e)) as T. pose proof (life_send_packets env (qe_session e)) as L.
    destruct (send_packets _ _) as [s' acts]. by apply silent_ok.
  - pose proof (tp_on_timer env expired (qe_session e)) as T. pose proof (life_on_timer env expired (qe_session e)) as L.
    destruct (on_timer _ _ _) as [s' acts]. by apply silent_ok.
  - pose proof (tp_close send true (qe_session e)) as T. pose proof (life_close send true (qe_session e)) as L.
    destruct (close_session _ _ _) as [s' acts]. by apply silent_ok.
  - apply open_stays; try done. by intros i ->.
  - by apply read_stays.
  - unfold stream_write. destruct (qe_streams e !! o) as [[id st]|]; [|by apply stays_same]. rewrite Ha. by apply write_stays.
  - unfold stream_write_all. destruct (qe_streams e !! o) as [[id st]|]; [|by apply stays_same]. rewrite Ha. by apply write_stays.
  - by apply close_stays.
Qed.
(** Once the session is gone nothing is heard any more. *)
Lemma gone_step op e : qe_alive e = false -> exists e' outs, qe_step op e = Some (e', outs) /\ qe_alive e' = false /\
  forall o, heard o outs = [] /\ results o outs = [].
Proof.
  intros Ha. destruct op; cbn [qe_step]; unfold stream_read, stream_write, stream_write_all, stream_close, drop_session; rewrite ?Ha;
    try destruct (qe_streams e !! o) as [[id st]|]; by eexists _, _.
Qed.
Lemma tell_gone conn ms m : (forall p, p ∈ ms -> is_Some (m !! p.2)) ->
  exists m' outs, qe_tell false conn (map (fun p : Z * nat => tell_stream p.2 quic_remote_close) ms) m = Some (m', outs).
Proof.
  revert m. induction ms as [|p ms IH]; intros m Hm; [by eexists _, _|]. cbn [map qe_tell].
  destruct (Hm p) as [[id st] ->]; [by left|]. cbn [mbind option_bind told_step handle_close QuicStream.do_read].
  destruct (IH (<[p.2 := (id, with_closed st)]> m)) as (m' & outs & ->); [|by eexists _, _].
  intros q Hq. destruct (decide (p.2 = q.2)) as [->|Hne]; [rewrite lookup_insert_eq; by eexists|]. rewrite lookup_insert_ne by done. apply Hm. by right.
Qed.
Lemma release_gone rest e out : qe_ok rest e out -> qe_alive e = true -> exists e', drop_session e = Some (e', []) /\ qe_alive e' = false.
Proof.
  intros [_ _ _ Ho] Ha. unfold drop_session. rewrite Ha. unfold destroy_session.
  destruct (tell_gone (conn_ (qe_session e)) (map_to_list (quic_streams_ (qe_session e))) (qe_streams e)) as (m' & outs & ->);
    [|by eexists].
  intros p Hp. specialize (Ho p.2). destruct (qe_streams e !! p.2); [by eexists|]. destruct Ho as [[] _].
  cbn [live fst]. rewrite elem_of_list_to_set. unfold objects. apply list_elem_of_fmap. by exists p.
Qed.
Definition served (out : list qe_out) : Prop := forall o, results o out = (qr_run (heard o out) new_quic_reader).2.
Lemma ok_served rest e out : qe_ok rest e out -> served out.
Proof.
  intros [_ _ _ Ho] o. specialize (Ho o). destruct (qe_streams e !! o) as [[id st]|].
  - destruct Ho as [(_ & Hq & _) _]. unfold as_queue in Hq. by rewrite Hq.
  - destruct Ho as (_ & -> & ->). done.
Qed.
Lemma gone_run ops e out : qe_alive e = false -> served out -> exists e' outs, qe_run ops e = Some (e', outs) /\
  qe_alive e' = false /\ served (out ++ outs).
Proof.
  revert e out. induction ops as [|op ops IH]; intros e out Ha Hs; [exists e, []; by rewrite app_nil_r|]. cbn [qe_run].
  destruct (gone_step op e Ha) as (e1 & o1 & -> & Ha1 & H1). cbn [mbind option_bind].
  assert (Hs1 : served (out ++ o1)).
  { intros o. rewrite heard_app, results_app. destruct (H1 o) as [-> ->]. by rewrite !app_nil_r. }
  destruct (IH e1 _ Ha1 Hs1) as (e' & o2 & -> & Ha2 & H2). eexists _, _. split; [done|]. by rewrite <- app_assoc in H2.
Qed.
Lemma run_ok ops e out : qe_ok (brought ops) e out -> qe_alive e = true -> Forall qe_used ops -> qe_fresh ops e ->
  zlen (brought ops) < 2 ^ 64 -> exists e' outs, qe_run ops e = Some (e', outs) /\ served (out ++ outs) /\
    (qe_alive e' = true -> qe_ok [] e' (out ++ outs)).
Proof.
  revert e out. induction ops as [|op ops IH]; intros e out K Ha Hu Hf Hz.
  { exists e, []. rewrite app_nil_r. split; [done|]. split; [by eapply ok_served|done]. }
  apply Forall_cons in Hu as [Hu1 Hu]. cbn [qe_fresh] in Hf. destruct Hf as [Hf1 Hf]. cbn [qe_run].
  change (brought (op :: ops)) with (op_data op ++ brought ops) in *.
  assert (op = qe_release \/ op <> qe_release) as [->|Hop] by (destruct op; (by left) || by right).
  - destruct (release_gone _ e out K Ha) as (e1 & E & Ha1). cbn [qe_step]. rewrite E. cbn [mbind option_bind].
    destruct (gone_run ops e1 out Ha1) as (e' & o2 & -> & Ha2 & H2); [by eapply ok_served|].
    eexists _, _. split; [done|]. cbn [app]. split; [done|congruence].
  - destruct (step_stays op (brought ops) e out K Ha Hop Hu1 Hz Hf1) as (e1 & o1 & E & K1 & Ha1). rewrite E in *. cbn [mbind option_bind].
    destruct (IH e1 _ K1 Ha1 Hu Hf) as (e' & o2 & -> & H1 & H2).
    { rewrite zlen_app in Hz. pose proof (zlen_nonneg (op_data op)). lia. }
    eexists _, _. split; [done|]. rewrite <- app_assoc in H1, H2. by split.
Qed.

(** ** Properties *)


(** ** Witnesses, and what the destructor does not do *)
Definition demo_endpoint_ops : list qe_op :=
  [qe_open_stream (Some 0); qe_read 0 true 4 1; qe_write big_env 0 [x61; x62] 2;
   qe_packet big_env [cb_stream_data 0 [x63; x64; x65] false; cb_stream_data 1 [x66] false] read_ok;
   qe_read 1 false 9 3; qe_read 1 true 2 4; qe_packet big_env [cb_stream_data 0 [x67; x68] true] read_ok;
   qe_read 0 false 8 5; qe_close big_env 0; qe_close_session true; qe_read 1 false 1 6; qe_release; qe_read 1 false 1 7].
Definition demo_endpoint_out : list qe_out := default [] (snd <$> qe_run demo_endpoint_ops new_quic_end).
(** A session that is dropped without being closed leaves the reads waiting:
    [handle_close], called by the destructor, finds no session any more. *)
Lemma dropped_session_answers_no_read :
  exists e out, qe_run [qe_open_stream (Some 0); qe_read 0 true 4 1; qe_release] new_quic_end = Some (e, out) /\
    results 0 out = [] /\ (st ← snd <$> qe_streams e !! 0%nat; mret (map pr_handler (quic_reads_ st))) = Some [1%nat].
Proof. eexists _, _. split; [vm_compute; reflexivity|]. by split. Qed.
