(* ===== verification/RateLimiter.v ===== *)
(** * Token-bucket rate limiter (src/common/rate_limiter.h)

    The limiter counts tokens in [double]; its arithmetic is a parameter given
    by a class, with IEEE binary64 as the instance the program runs and exact
    rationals as the instance for the throughput bound.  [steady_clock::now()]
    is a sequence of readings in nanoseconds, one consumed per call. *)
From Stdlib Require Import ZArith Lia QArith Qround Lqa Floats.SpecFloat.
From stdpp Require Import base tactics list.
From S2P Require Import Prelude.
Local Open Scope Z_scope.

(** ** Token arithmetic *)
Class TokenArith (T : Type) : Type := {
  of_int : Z -> T;
  tadd : T -> T -> T;
  tsub : T -> T -> T;
  tmul : T -> T -> T;
  tdiv : T -> T -> T;
  tlt : T -> T -> bool;
  tle : T -> T -> bool;
  to_int : T -> option Z     (* truncation; None when out of range *)
}.

(** What the limiter needs of comparisons. *)
Class TokenLaws (T : Type) `{TokenArith T} : Prop := {
  tlt_irrefl : forall x, tlt x x = false;
  tlt_le_trans : forall x y z, tlt x y = true -> tle y z = true -> tlt x z = true
}.

(** IEEE 754 binary64, as [double]. *)
Definition prec64 : Z := 53.
Definition emax64 : Z := 1024.
Definition double_of_Z (z : Z) : spec_float :=
  match z with
  | 0 => S754_zero false
  | Zpos p => binary_normalize prec64 emax64 (Zpos p) 0 false
  | Zneg p => binary_normalize prec64 emax64 (Zneg p) 0 true
  end.
(** Conversion to [int64_t]. *)
Definition double_to_Z (x : spec_float) : option Z :=
  match x with
  | S754_zero _ => Some 0
  | S754_finite s m e =>
    let a := if 0 <=? e then Z.pos m * 2 ^ e else Z.pos m / 2 ^ (- e) in
    let v := if s then - a else a in
    if (- 2 ^ 63 <=? v) && (v <? 2 ^ 63) then Some v else None
  | _ => None
  end.

#[export] Instance double_arith : TokenArith spec_float := {|
  of_int := double_of_Z;
  tadd := SFadd prec64 emax64; tsub := SFsub prec64 emax64;
  tmul := SFmul prec64 emax64; tdiv := SFdiv prec64 emax64;
  tlt := SFltb; tle := SFleb; to_int := double_to_Z |}.

#[export] Instance exact_arith : TokenArith Q := {|
  of_int := inject_Z; tadd := Qplus; tsub := Qminus; tmul := Qmult; tdiv := Qdiv;
  tlt := fun x y => negb (Qle_bool y x); tle := Qle_bool;
  to_int := fun x => Some (Qnum x ÷ Z.pos (Qden x)) |}.

(** ** The limiter *)
Section Limiter.
Context {T : Type} `{TokenArith T}.
Variable clock : nat -> Z.

Record RateLimiter : Type := {
  bytes_per_sec_ : Z;
  tokens_ : T;
  last_update_ : Z;
  waiting_handlers_ : list (Z * nat);
  readings : nat                       (* clock readings so far *)
}.

(** A posted handler, with the bytes it asked for. *)
Inductive limiter_action : Type := post (bytes : Z) (h : nat) | arm (delay_us : option Z).

Definition new_limiter (rate : Z) : RateLimiter := {|
  bytes_per_sec_ := rate; tokens_ := of_int rate; last_update_ := clock 0;
  waiting_handlers_ := []; readings := 1 |}.

Definition set_tokens (t : T) (s : RateLimiter) : RateLimiter := {|
  bytes_per_sec_ := bytes_per_sec_ s; tokens_ := t; last_update_ := last_update_ s;
  waiting_handlers_ := waiting_handlers_ s; readings := readings s |}.
Definition set_waiting (w : list (Z * nat)) (s : RateLimiter) : RateLimiter := {|
  bytes_per_sec_ := bytes_per_sec_ s; tokens_ := tokens_ s; last_update_ := last_update_ s;
  waiting_handlers_ := w; readings := readings s |}.

Definition set_rate (rate : Z) (s : RateLimiter) : RateLimiter :=
  let r := of_int rate in
  {| bytes_per_sec_ := rate;
     tokens_ := if tlt r (tokens_ s) then r else tokens_ s;
     last_update_ := last_update_ s; waiting_handlers_ := waiting_handlers_ s;
     readings := readings s |}.

Definition update_tokens (s : RateLimiter) : RateLimiter :=
  let now := clock (readings s) in
  let elapsed := (now - last_update_ s) ÷ 1000 in
  let t := tadd (tokens_ s) (tdiv (tmul (of_int elapsed) (of_int (bytes_per_sec_ s)))
                                  (of_int 1000000)) in
  {| bytes_per_sec_ := bytes_per_sec_ s;
     tokens_ := if tlt (of_int (bytes_per_sec_ s)) t then of_int (bytes_per_sec_ s) else t;
     last_update_ := now; waiting_handlers_ := waiting_handlers_ s; readings := S (readings s) |}.

(** [schedule_timer]: grants from the front while the tokens last, then arms
    the timer for the first handler that has to wait. *)
Fixpoint schedule_timer_loop (w : list (Z * nat)) (s : RateLimiter)
  : RateLimiter * list limiter_action :=
  match w with
  | [] => (set_waiting [] s, [])
  | (bytes, h) :: w' =>
    let s1 := update_tokens s in
    if tle (of_int bytes) (tokens_ s1) then
      let '(s2, acts) := schedule_timer_loop w' (set_tokens (tsub (tokens_ s1) (of_int bytes)) s1) in
      (s2, post bytes h :: acts)
    else
      let needed := tsub (of_int bytes) (tokens_ s1) in
      let delay_us := to_int (tdiv (tmul needed (of_int 1000000)) (of_int (bytes_per_sec_ s1))) in
      (set_waiting w s1, [arm delay_us])
  end.
Definition schedule_timer (s : RateLimiter) : RateLimiter * list limiter_action :=
  schedule_timer_loop (waiting_handlers_ s) s.

Definition async_wait (bytes : Z) (h : nat) (s : RateLimiter) : RateLimiter * list limiter_action :=
  if bytes_per_sec_ s <=? 0 then (s, [post bytes h]) else
  let s1 := update_tokens s in
  if match waiting_handlers_ s1 with [] => true | _ => false end && tle (of_int bytes) (tokens_ s1)
  then (set_tokens (tsub (tokens_ s1) (of_int bytes)) s1, [post bytes h])
  else
    let s2 := set_waiting (waiting_handlers_ s1 ++ [(bytes, h)]) s1 in
    if zlen (waiting_handlers_ s2) =? 1 then schedule_timer s2 else (s2, []).

(** The timer's completion; an aborted wait does nothing. *)
Definition on_timer (ok : bool) (s : RateLimiter) : RateLimiter * list limiter_action :=
  if ok then schedule_timer s else (s, []).

Inductive limiter_event : Type := ev_wait (bytes : Z) (h : nat) | ev_timer (ok : bool) | ev_rate (rate : Z).
Definition limiter_step (ev : limiter_event) (s : RateLimiter) : RateLimiter * list limiter_action :=
  match ev with
  | ev_wait b h => async_wait b h s
  | ev_timer ok => on_timer ok s
  | ev_rate r => (set_rate r s, [])
  end.
Fixpoint limiter_run (evs : list limiter_event) (s : RateLimiter)
  : RateLimiter * list limiter_action :=
  match evs with
  | [] => (s, [])
  | ev :: evs' => let '(s1, a1) := limiter_step ev s in
                  let '(s2, a2) := limiter_run evs' s1 in (s2, a1 ++ a2)
  end.

(** ** Specification *)
Definition posted (acts : list limiter_action) : list (Z * nat) :=
  omap (fun a => match a with post b h => Some (b, h) | _ => None end) acts.
Definition requested (evs : list limiter_event) : list (Z * nat) :=
  omap (fun ev => match ev with ev_wait b h => Some (b, h) | _ => None end) evs.
Definition demand (l : list (Z * nat)) : Z := foldr (fun p n => p.1 + n) 0 l.
Definition rates_positive (evs : list limiter_event) : Prop :=
  Forall (fun ev => match ev with ev_rate r => 0 < r | _ => True end) evs.
Definition within_rate (s : RateLimiter) : Prop := tlt (of_int (bytes_per_sec_ s)) (tokens_ s) = false.

(** ** Lemmas *)
Lemma posted_app xs ys : posted (xs ++ ys) = posted xs ++ posted ys.
Proof. apply omap_app. Qed.

Lemma schedule_timer_loop_queue w s :
  let '(s', acts) := schedule_timer_loop w s in
  posted acts ++ waiting_handlers_ s' = w /\ bytes_per_sec_ s' = bytes_per_sec_ s.
Proof.
  revert s. induction w as [|[b h] w IH]; intros s; [done|]. cbn [schedule_timer_loop].
  destruct (tle _ _); [|done]. specialize (IH (set_tokens (tsub (tokens_ (update_tokens s)) (of_int b)) (update_tokens s))).
  destruct (schedule_timer_loop w _) as [s2 acts]. destruct IH as [IH1 IH2].
  split; [|done]. cbn. by f_equal.
Qed.

Lemma limiter_step_queue ev s :
  0 < bytes_per_sec_ s -> (match ev with ev_rate r => 0 < r | _ => True end) ->
  let '(s', acts) := limiter_step ev s in
  posted acts ++ waiting_handlers_ s' = waiting_handlers_ s ++ requested [ev] /\
  0 < bytes_per_sec_ s'.
Proof.
  intros Hr Hev. destruct ev as [b h|ok|r]; cbn [limiter_step].
  - unfold async_wait. replace (bytes_per_sec_ s <=? 0) with false by (symmetry; apply Z.leb_gt; lia).
    cbn [waiting_handlers_ update_tokens].
    destruct (match waiting_handlers_ s with [] => true | _ => false end && _) eqn:Enow.
    + destruct (waiting_handlers_ s) eqn:Ew; [|done]. cbn. by rewrite Ew.
    + cbn [waiting_handlers_ set_waiting]. destruct (_ =? 1).
      * unfold schedule_timer. pose proof (schedule_timer_loop_queue (waiting_handlers_ s ++ [(b, h)])
          (set_waiting (waiting_handlers_ s ++ [(b, h)]) (update_tokens s))) as Hq.
        cbn [waiting_handlers_ set_waiting].
        destruct (schedule_timer_loop _ _) as [s2 acts]. destruct Hq as [Hq1 Hq2].
        split; [exact Hq1|]. rewrite Hq2. exact Hr.
      * done.
  - unfold on_timer, schedule_timer. destruct ok; [|by rewrite app_nil_r].
    pose proof (schedule_timer_loop_queue (waiting_handlers_ s) s) as Hq.
    destruct (schedule_timer_loop _ _) as [s2 acts]. destruct Hq as [-> ->]. by rewrite app_nil_r.
  - cbn. by rewrite app_nil_r.
Qed.

Lemma limiter_run_queue evs s :
  0 < bytes_per_sec_ s -> rates_positive evs ->
  let '(s', acts) := limiter_run evs s in
  posted acts ++ waiting_handlers_ s' = waiting_handlers_ s ++ requested evs.
Proof.
  revert s. induction evs as [|ev evs IH]; intros s Hr Hev; [by rewrite app_nil_r|].
  apply Forall_cons in Hev as [Hev Hevs]. cbn [limiter_run].
  pose proof (limiter_step_queue ev s Hr Hev) as Hs. destruct (limiter_step ev s) as [s1 a1].
  destruct Hs as [Hs1 Hs2]. specialize (IH s1 Hs2 Hevs). destruct (limiter_run evs s1) as [s2 a2].
  change (ev :: evs) with ([ev] ++ evs). unfold requested in *.
  by rewrite posted_app, omap_app, <- app_assoc, IH, app_assoc, Hs1, app_assoc.
Qed.

Lemma demand_app xs ys : demand (xs ++ ys) = demand xs + demand ys.
Proof. unfold demand. induction xs as [|p xs IH]; cbn in *; lia. Qed.

(** Tokens never exceed the rate once updated. *)
Lemma update_within `{!TokenLaws T} s : within_rate (update_tokens s).
Proof.
  unfold within_rate, update_tokens. cbn [bytes_per_sec_ tokens_].
  match goal with |- context [if ?c then _ else _] => destruct c eqn:E end; [apply tlt_irrefl|done].
Qed.

Definition blocked (b : Z) (h : nat) (s : RateLimiter) : Prop :=
  exists w, waiting_handlers_ s = (b, h) :: w.
Definition no_rate_change (evs : list limiter_event) : Prop :=
  Forall (fun ev => match ev with ev_rate _ => False | _ => True end) evs.

Lemma schedule_timer_blocked `{!TokenLaws T} b h w s :
  tlt (of_int (bytes_per_sec_ s)) (of_int b) = true ->
  waiting_handlers_ s = (b, h) :: w ->
  let '(s', acts) := schedule_timer s in
  posted acts = [] /\ waiting_handlers_ s' = (b, h) :: w /\ bytes_per_sec_ s' = bytes_per_sec_ s.
Proof.
  intros Hb Hw. unfold schedule_timer. rewrite Hw. cbn [schedule_timer_loop].
  destruct (tle (of_int b) (tokens_ (update_tokens s))) eqn:E; [|done].
  pose proof (update_within s) as Hin. unfold within_rate in Hin. cbn [bytes_per_sec_ update_tokens] in Hin.
  pose proof (tlt_le_trans _ _ _ Hb E) as Hlt.
  change (tlt (of_int (bytes_per_sec_ s)) (tokens_ (update_tokens s)) = false) in Hin. congruence.
Qed.

Lemma limiter_run_blocked `{!TokenLaws T} evs b h w s :
  0 < bytes_per_sec_ s -> tlt (of_int (bytes_per_sec_ s)) (of_int b) = true ->
  waiting_handlers_ s = (b, h) :: w -> no_rate_change evs ->
  let '(s', acts) := limiter_run evs s in
  posted acts = [] /\ waiting_handlers_ s' = (b, h) :: w ++ requested evs.
Proof.
  intros Hr Hb. revert w s Hr Hb. induction evs as [|ev evs IH]; intros w s Hr Hb Hw Hev;
    [by rewrite app_nil_r|].
  apply Forall_cons in Hev as [Hev Hevs]. cbn [limiter_run].
  assert (Hstep : let '(s1, a1) := limiter_step ev s in posted a1 = [] /\
    bytes_per_sec_ s1 = bytes_per_sec_ s /\ waiting_handlers_ s1 = (b, h) :: w ++ requested [ev]).
  { destruct ev as [b' h'|[|]|r]; cbn [limiter_step]; try done.
    - unfold async_wait. replace (bytes_per_sec_ s <=? 0) with false by (symmetry; apply Z.leb_gt; lia).
      cbn [waiting_handlers_ update_tokens set_waiting]. rewrite Hw. cbn [andb].
      replace (zlen _ =? 1) with false; [by rewrite <- app_comm_cons|].
      symmetry. apply Z.eqb_neq. rewrite zlen_app, !zlen_cons, zlen_nil. pose proof (zlen_nonneg w). lia.
    - unfold on_timer. pose proof (schedule_timer_blocked b h w s Hb Hw) as Hs.
      destruct (schedule_timer s). cbn. rewrite app_nil_r. tauto.
    - cbn. by rewrite app_nil_r. }
  destruct (limiter_step ev s) as [s1 a1]. destruct Hstep as (Hp & Hr1 & Hw1).
  rewrite <- Hr1 in Hr, Hb. specialize (IH _ s1 Hr Hb Hw1 Hevs). destruct (limiter_run evs s1) as [s2 a2].
  destruct IH as [IH1 IH2]. rewrite posted_app, Hp, IH1, IH2. split; [done|].
  change (ev :: evs) with ([ev] ++ evs). unfold requested. by rewrite omap_app, app_assoc.
Qed.
End Limiter.
Arguments RateLimiter : clear implicits.

(** ** The comparison laws of the two instances *)
#[export] Instance double_laws : TokenLaws spec_float.
Proof.
  split.
  - intros x. cbn. unfold SFltb. destruct x as [s|[]| |[] m e]; cbn; try done;
      rewrite Z.compare_refl; fold (Pos.compare m m); by rewrite ?Pos.compare_refl.
  - intros x y z. cbn. unfold SFltb, SFleb.
    destruct x as [s1|s1| |s1 m1 e1], y as [s2|s2| |s2 m2 e2], z as [s3|s3| |s3 m3 e3];
      try destruct s1; try destruct s2; try destruct s3; cbn; try done;
      repeat match goal with |- context [Z.compare ?a ?b] => destruct (Z.compare_spec a b) end;
      try done; try lia;
      repeat match goal with |- context [Pos.compare_cont Eq ?a ?b] =>
        change (Pos.compare_cont Eq a b) with (Pos.compare a b);
        destruct (Pos.compare_spec a b) end; cbn; try done; try lia.
Qed.

#[export] Instance exact_laws : TokenLaws Q.
Proof.
  split.
  - intros x. cbn. apply negb_false_iff. apply Qle_bool_iff. lra.
  - intros x y z H1 H2. cbn in *. apply negb_true_iff in H1. apply negb_true_iff.
    apply Qle_bool_iff in H2. destruct (Qle_bool z x) eqn:E; [|done].
    apply Qle_bool_iff in E. assert (Qle_bool y x = true) by (apply Qle_bool_iff; lra). congruence.
Qed.

(** ** Throughput, in exact arithmetic *)
Section Throughput.
Variable clock : nat -> Z.
Hypothesis clock_monotone : forall i j, (i <= j)%nat -> clock i <= clock j.

(** Tokens accrued between two instants, in nanoseconds, at [rate]. *)
Definition accrued (rate t0 t1 : Z) : Q := (inject_Z (t1 - t0) * inject_Z rate / inject_Z 1000000000)%Q.

Record limiter_inv (rate : Z) (s : RateLimiter Q) : Prop := {
  li_rate : bytes_per_sec_ s = rate;
  li_pos : 0 < rate;
  li_tokens : (0 <= tokens_ s <= inject_Z rate)%Q;
  li_last : exists n, (n < readings s)%nat /\ last_update_ s = clock n;
  li_waiting : Forall (fun p => 0 <= p.1) (waiting_handlers_ s)
}.

(** What a step preserves and how much it may grant. *)
Definition spends (rate : Z) (s s' : RateLimiter Q) (acts : list limiter_action) : Prop :=
  limiter_inv rate s' /\ last_update_ s <= last_update_ s' /\
  (tokens_ s' + inject_Z (demand (posted acts)) <=
     tokens_ s + accrued rate (last_update_ s) (last_update_ s'))%Q.

Lemma inject_Z_nonneg z : 0 <= z -> (0 <= inject_Z z)%Q.
Proof. intros. change 0%Q with (inject_Z 0). by rewrite <- Zle_Qle. Qed.

Lemma accrued_add rate a b c : (accrued rate a b + accrued rate b c == accrued rate a c)%Q.
Proof.
  unfold accrued. replace (c - a) with ((b - a) + (c - b)) by lia. rewrite inject_Z_plus. field.
Qed.

Lemma accrued_self rate a : (accrued rate a a == 0)%Q.
Proof. unfold accrued. rewrite Z.sub_diag. field. Qed.

Lemma spends_trans rate s1 s2 s3 a1 a2 :
  spends rate s1 s2 a1 -> spends rate s2 s3 a2 -> spends rate s1 s3 (a1 ++ a2).
Proof.
  intros (H1 & L1 & S1) (H2 & L2 & S2). split; [done|]. split; [lia|].
  rewrite posted_app, demand_app, inject_Z_plus.
  pose proof (accrued_add rate (last_update_ s1) (last_update_ s2) (last_update_ s3)). lra.
Qed.

Lemma spends_same rate s s' acts :
  limiter_inv rate s' -> last_update_ s' = last_update_ s ->
  (tokens_ s' + inject_Z (demand (posted acts)) <= tokens_ s)%Q -> spends rate s s' acts.
Proof.
  intros H1 H2 H3. split; [done|]. split; [lia|]. rewrite H2.
  pose proof (accrued_self rate (last_update_ s)). lra.
Qed.

Lemma update_tokens_spends rate s : limiter_inv rate s -> spends rate s (update_tokens clock s) [].
Proof.
  intros [Hr Hp [Ht1 Ht2] (n & Hn & Hl) Hw].
  assert (Hnow : last_update_ s <= clock (readings s)) by (rewrite Hl; apply clock_monotone; lia).
  set (el := (clock (readings s) - last_update_ s) ÷ 1000).
  assert (Hel : 0 <= el /\ el * 1000 <= clock (readings s) - last_update_ s).
  { unfold el. rewrite Z.quot_div_nonneg by lia. split; [apply Z.div_pos; lia|].
    rewrite Z.mul_comm. apply Z.mul_div_le. lia. }
  set (t := (tokens_ s + inject_Z el * inject_Z rate / inject_Z 1000000)%Q).
  assert (Hrq : (0 < inject_Z rate)%Q) by (change 0%Q with (inject_Z 0); by rewrite <- Zlt_Qlt).
  assert (Hadd : (0 <= inject_Z el * inject_Z rate / inject_Z 1000000 <=
                  accrued rate (last_update_ s) (clock (readings s)))%Q).
  { pose proof (inject_Z_nonneg el ltac:(lia)) as Hel0.
    assert (Hel1 : (inject_Z el * inject_Z 1000 <= inject_Z (clock (readings s) - last_update_ s))%Q)
      by (rewrite <- inject_Z_mult; rewrite <- Zle_Qle; lia).
    unfold accrued. split.
    - apply Qle_shift_div_l; [done|]. rewrite Qmult_0_l. apply Qmult_le_0_compat; [done|lra].
    - apply Qle_shift_div_l; [done|].
      assert (Heq : (inject_Z el * inject_Z rate / inject_Z 1000000 * inject_Z 1000000000 ==
                     (inject_Z el * inject_Z 1000) * inject_Z rate)%Q)
        by (change (inject_Z 1000000000) with (inject_Z 1000000 * inject_Z 1000)%Q; field).
      rewrite Heq.
      apply Qmult_le_compat_r; [done|lra]. }
  assert (Htok : tokens_ (update_tokens clock s) = t \/
     (inject_Z rate < t)%Q /\ tokens_ (update_tokens clock s) = inject_Z rate).
  { unfold update_tokens. cbn [tokens_]. rewrite Hr. fold el.
    change (tadd _ _) with t. destruct (tlt (of_int rate) t) eqn:E; [right|by left].
    split; [|done]. cbn in E. apply negb_true_iff in E. apply Qnot_le_lt. intros Hle.
    apply Qle_bool_iff in Hle. congruence. }
  assert (Htok2 : (tokens_ (update_tokens clock s) <= inject_Z rate)%Q).
  { pose proof (update_within clock s) as Hwi. unfold within_rate in Hwi.
    change (negb (Qle_bool (tokens_ (update_tokens clock s)) (inject_Z (bytes_per_sec_ s))) = false) in Hwi.
    apply negb_false_iff in Hwi. apply Qle_bool_iff in Hwi. by rewrite Hr in Hwi. }
  split; [|split].
  - split; [done|done| |exists (readings s); split; [apply Nat.lt_succ_diag_r|reflexivity]|exact Hw].
    split; [|done]. destruct Htok as [->|[? ->]]; unfold t; lra.
  - done.
  - cbn [posted omap list_omap demand foldr last_update_ update_tokens].
    change (inject_Z 0) with 0%Q.
    assert (Ht : (tokens_ (update_tokens clock s) <= t)%Q) by (destruct Htok as [->|[? ->]]; lra).
    unfold t in Ht. lra.
Qed.

Lemma grant_spends rate b h s :
  limiter_inv rate s -> 0 <= b -> tle (of_int b) (tokens_ s) = true ->
  spends rate s (set_tokens (tsub (tokens_ s) (of_int b)) s) [post b h].
Proof.
  intros [Hr Hp [Ht1 Ht2] Hl Hw] Hb Hle. cbn in Hle. apply Qle_bool_iff in Hle.
  pose proof (inject_Z_nonneg b Hb). apply spends_same; [|done|].
  - split; try done. cbn. split; lra.
  - cbn. change (demand (posted [post b h])) with (b + 0). rewrite Z.add_0_r. lra.
Qed.

Lemma waiting_spends rate w s :
  limiter_inv rate s -> Forall (fun p => 0 <= p.1) w -> forall acts, posted acts = [] ->
  spends rate s (set_waiting w s) acts.
Proof.
  intros [Hr Hp Ht Hl Hw] Hw' acts Ha. apply spends_same; [by split|done|].
  rewrite Ha. change (inject_Z (demand [])) with 0%Q. cbn [tokens_ set_waiting]. lra.
Qed.

Lemma schedule_timer_loop_spends rate w s :
  limiter_inv rate s -> Forall (fun p => 0 <= p.1) w ->
  spends rate s (schedule_timer_loop clock w s).1 (schedule_timer_loop clock w s).2.
Proof.
  revert s. induction w as [|[b h] w IH]; intros s Hinv Hw; cbn [schedule_timer_loop].
  - by apply waiting_spends.
  - pose proof (update_tokens_spends rate s Hinv) as Hu. pose proof Hu as [Hinv1 _].
    pose proof Hw as Hw0. apply Forall_cons in Hw as [Hb Hw]. cbn in Hb.
    destruct (tle (of_int b) _) eqn:E.
    + pose proof (grant_spends rate b h _ Hinv1 Hb E) as Hg. pose proof Hg as [Hinv2 _].
      specialize (IH _ Hinv2 Hw). destruct (schedule_timer_loop clock w _) as [s2 acts].
      cbn [fst snd] in *.
      exact (spends_trans _ _ _ _ [] _ Hu (spends_trans _ _ _ _ [post b h] acts Hg IH)).
    + cbn [fst snd]. refine (spends_trans _ _ _ _ [] [arm _] Hu _). by apply waiting_spends.
Qed.

Lemma limiter_step_spends rate ev s :
  limiter_inv rate s ->
  (match ev with ev_rate _ => False | ev_wait b _ => 0 <= b | _ => True end) ->
  spends rate s (limiter_step clock ev s).1 (limiter_step clock ev s).2.
Proof.
  intros Hinv Hev. destruct ev as [b h|ok|r]; [| |done]; cbn [limiter_step].
  - unfold async_wait. pose proof (li_pos _ _ Hinv). rewrite (li_rate _ _ Hinv).
    replace (rate <=? 0) with false by (symmetry; apply Z.leb_gt; lia).
    pose proof (update_tokens_spends rate s Hinv) as Hu. pose proof Hu as [Hinv1 _].
    destruct (_ && tle (of_int b) _) eqn:E.
    + apply andb_true_iff in E as [_ E]. cbn [fst snd].
      exact (spends_trans _ _ _ _ [] [post b h] Hu (grant_spends rate b h _ Hinv1 Hev E)).
    + assert (Hw : Forall (fun p => 0 <= p.1) (waiting_handlers_ (update_tokens clock s) ++ [(b, h)]))
        by (apply Forall_app; split; [by destruct Hinv1|by apply Forall_singleton]).
      pose proof (waiting_spends rate _ _ Hinv1 Hw [] eq_refl) as Hs. pose proof Hs as [Hinv2 _].
      pose proof (spends_trans _ _ _ _ [] [] Hu Hs) as Hus.
      destruct (_ =? 1); [|exact Hus]. unfold schedule_timer.
      cbn [waiting_handlers_ set_waiting].
      exact (spends_trans _ _ _ _ [] _ Hus (schedule_timer_loop_spends rate _ _ Hinv2 Hw)).
  - unfold on_timer, schedule_timer. destruct ok.
    + apply schedule_timer_loop_spends; [done|by destruct Hinv].
    + apply spends_same; [done|done|]. cbn [fst snd]. change (inject_Z (demand (posted []))) with 0%Q. lra.
Qed.

Definition sized_requests (evs : list limiter_event) : Prop :=
  Forall (fun ev => match ev with ev_rate _ => False | ev_wait b _ => 0 <= b | _ => True end) evs.

Lemma limiter_run_spends rate evs s :
  limiter_inv rate s -> sized_requests evs ->
  spends rate s (limiter_run clock evs s).1 (limiter_run clock evs s).2.
Proof.
  revert s. induction evs as [|ev evs IH]; intros s Hinv Hev.
  { apply spends_same; [done|done|]. cbn [fst snd limiter_run]. change (inject_Z (demand (posted []))) with 0%Q. lra. }
  apply Forall_cons in Hev as [Hev Hevs]. cbn [limiter_run].
  pose proof (limiter_step_spends rate ev s Hinv Hev) as Hs. destruct (limiter_step clock ev s) as [s1 a1].
  cbn [fst snd] in Hs. pose proof Hs as [Hinv1 _]. specialize (IH s1 Hinv1 Hevs).
  destruct (limiter_run clock evs s1) as [s2 a2]. by eapply spends_trans.
Qed.

Lemma new_limiter_inv rate : 0 < rate -> limiter_inv rate (new_limiter clock rate).
Proof.
  intros Hr. split; cbn; try done; [|exists 0%nat; split; [lia|done]].
  pose proof (inject_Z_nonneg rate ltac:(lia)). split; lra.
Qed.
End Throughput.

Lemma trunc_lt (x : Q) : (x < inject_Z (Qnum x ÷ Z.pos (Qden x) + 1))%Q.
Proof.
  destruct x as [n q]. unfold Qlt. cbn [Qnum Qden inject_Z].
  pose proof (Z.quot_rem' n (Z.pos q)). pose proof (Z.rem_bound_abs n (Z.pos q) ltac:(lia)). lia.
Qed.

(** After the computed delay and one more microsecond there are tokens enough. *)
Lemma refill_enough clock (s : RateLimiter Q) (b d : Z) :
  0 < b <= bytes_per_sec_ s -> (0 <= tokens_ s < inject_Z b)%Q ->
  to_int ((inject_Z b - tokens_ s) * inject_Z 1000000 / inject_Z (bytes_per_sec_ s))%Q = Some d ->
  last_update_ s + (d + 1) * 1000 <= clock (readings s) ->
  (inject_Z b <= tokens_ (update_tokens clock s))%Q.
Proof.
  intros [Hb Hbr] [Ht0 Htb] Hd Htime.
  assert (Hr : 0 < bytes_per_sec_ s) by lia.
  assert (Hrq : (0 < inject_Z (bytes_per_sec_ s))%Q) by (change 0%Q with (inject_Z 0); by rewrite <- Zlt_Qlt).
  assert (Hbq : (inject_Z b <= inject_Z (bytes_per_sec_ s))%Q) by (by rewrite <- Zle_Qle).
  set (x := ((inject_Z b - tokens_ s) * inject_Z 1000000 / inject_Z (bytes_per_sec_ s))%Q) in *.
  assert (Hx : (x < inject_Z (d + 1))%Q).
  { change (Some (Qnum x ÷ Z.pos (Qden x)) = Some d) in Hd. injection Hd as <-. apply trunc_lt. }
  assert (Hxr : (x * inject_Z (bytes_per_sec_ s) == (inject_Z b - tokens_ s) * inject_Z 1000000)%Q)
    by (unfold x; field; lra).
  set (el := (clock (readings s) - last_update_ s) ÷ 1000).
  assert (Hd0 : 0 <= d + 1).
  { assert (0 <= x)%Q by (apply Qle_shift_div_l; [done|]; rewrite Qmult_0_l; apply Qmult_le_0_compat; [lra|done]).
    assert (Hlt : (inject_Z 0 < inject_Z (d + 1))%Q) by (change (inject_Z 0) with 0%Q; lra).
    rewrite <- Zlt_Qlt in Hlt. lia. }
  assert (Hel : d + 1 <= el).
  { unfold el. rewrite Z.quot_div_nonneg by lia. apply Z.div_le_lower_bound; lia. }
  assert (Helq : (x < inject_Z el)%Q) by (eapply Qlt_le_trans; [exact Hx|]; by rewrite <- Zle_Qle).
  assert (Ht : (inject_Z b <= tokens_ s + inject_Z el * inject_Z (bytes_per_sec_ s) / inject_Z 1000000)%Q).
  { assert (H : ((inject_Z b - tokens_ s) <= inject_Z el * inject_Z (bytes_per_sec_ s) / inject_Z 1000000)%Q).
    { apply Qle_shift_div_l; [done|]. rewrite <- Hxr. apply Qmult_le_compat_r; lra. }
    lra. }
  unfold update_tokens. cbn [tokens_]. fold el.
  match goal with |- context [if ?c then _ else _] => destruct c end; [exact Hbq|exact Ht].
Qed.

(** ** Properties *)

(** Whatever the arithmetic and the clock, handlers are posted in the order they asked,
    each at most once and none lost: those posted, followed by those still waiting, are the
    requests in order (as long as the rate stays positive). *)
Theorem limiter_fifo {T : Type} {A : TokenArith T} (clock : nat -> Z) (rate : Z)
    (evs : list limiter_event) (Hrate : 0 < rate) (Hevs : rates_positive evs) :
  let '(s, acts) := limiter_run clock evs (new_limiter (T := T) clock rate) in
  posted acts ++ waiting_handlers_ s = requested evs.
Proof.
  pose proof (limiter_run_queue clock evs (new_limiter (T := T) clock rate) Hrate Hevs) as H.
  by destruct (limiter_run _ _ _).
Qed.

(** The limiter bounds throughput: in exact arithmetic and under a monotone clock, the
    bytes granted since the limiter was created at time [t0] are at most one second's worth
    plus [rate] times the seconds elapsed at the last update. *)
Theorem limiter_throughput (clock : nat -> Z) (rate : Z) (evs : list limiter_event)
    (Hclock : forall i j, (i <= j)%nat -> clock i <= clock j) (Hrate : 0 < rate)
    (Hevs : sized_requests evs) :
  let '(s, acts) := limiter_run clock evs (new_limiter (T := Q) clock rate) in
  (inject_Z (demand (posted acts)) <= inject_Z rate + accrued rate (clock 0%nat) (last_update_ s))%Q.
Proof.
  pose proof (limiter_run_spends clock Hclock rate evs _ (new_limiter_inv clock rate Hrate) Hevs) as H.
  destruct (limiter_run _ _ _) as [s acts]. destruct H as (Hinv & _ & Hs).
  cbn [fst snd new_limiter tokens_ last_update_] in *. change (of_int rate) with (inject_Z rate) in Hs.
  destruct Hinv as [_ _ [Ht _] _ _]. lra.
Qed.

(** A request larger than the rate is never granted and blocks every later request: the
    token count is capped at the rate, in binary64 as in exact arithmetic, so whatever
    happens (timers, new requests), nothing is posted any more while the rate stays. *)
Theorem limiter_starves {T : Type} {A : TokenArith T} {L : TokenLaws T} (clock : nat -> Z)
    (s : RateLimiter T) (b : Z) (h : nat) (w : list (Z * nat)) (evs : list limiter_event)
    (Hrate : 0 < bytes_per_sec_ s) (Hbig : tlt (of_int (bytes_per_sec_ s)) (of_int b) = true)
    (Hfirst : waiting_handlers_ s = (b, h) :: w) (Hevs : no_rate_change evs) :
  let '(s', acts) := limiter_run clock evs s in
  posted acts = [] /\ waiting_handlers_ s' = (b, h) :: w ++ requested evs.
Proof. by apply limiter_run_blocked. Qed.

(** The timer makes progress: in exact arithmetic, once the timer armed for the first
    waiting request (at most the rate) expires and the clock has advanced by one more
    microsecond than the computed delay, that request is granted. *)
Theorem limiter_progress (clock : nat -> Z) (s : RateLimiter Q) (b : Z) (h : nat)
    (w : list (Z * nat)) (d : Z)
    (Hrate : 0 < b <= bytes_per_sec_ s) (Htokens : (0 <= tokens_ s < inject_Z b)%Q)
    (Hfirst : waiting_handlers_ s = (b, h) :: w)
    (Hdelay : to_int ((inject_Z b - tokens_ s) * inject_Z 1000000 / inject_Z (bytes_per_sec_ s))%Q = Some d)
    (Htime : last_update_ s + (d + 1) * 1000 <= clock (readings s)) :
  exists s' acts, on_timer clock true s = (s', post b h :: acts).
Proof.
  cbn [on_timer]. unfold schedule_timer. rewrite Hfirst. cbn [schedule_timer_loop].
  assert (Hok : tle (of_int b) (tokens_ (update_tokens clock s)) = true).
  { apply Qle_bool_iff. apply (refill_enough clock s b d); try done; lia. }
  rewrite Hok. destruct (schedule_timer_loop clock w _) as [s2 acts]. by exists s2, acts.
Qed.

(** ** Concrete instances *)
Definition demo_clock (n : nat) : Z := Z.of_nat n * 1000000.
Definition demo_requests : list limiter_event :=
  [ev_wait 600 1; ev_wait 600 2; ev_wait 100 3; ev_timer true; ev_timer false; ev_wait 1 4].

Lemma limiter_fifo_witness :
  let '(s, acts) := limiter_run demo_clock demo_requests (new_limiter (T := spec_float) demo_clock 1000) in
  posted acts ++ waiting_handlers_ s = requested demo_requests.
Proof. apply (limiter_fifo (T := spec_float) demo_clock 1000 demo_requests); [lia|by repeat constructor]. Defined.

Lemma limiter_throughput_witness :
  let '(s, acts) := limiter_run demo_clock demo_requests (new_limiter (T := Q) demo_clock 1000) in
  (inject_Z (demand (posted acts)) <= inject_Z 1000 + accrued 1000 (demo_clock 0) (last_update_ s))%Q.
Proof.
  apply (limiter_throughput demo_clock 1000 demo_requests); [|lia|].
  - intros i j Hij. unfold demo_clock. lia.
  - repeat constructor; lia.
Defined.

Definition demo_stuck : RateLimiter spec_float :=
  set_waiting [(4096, 9%nat)] (new_limiter demo_clock 1024).
Lemma limiter_starves_witness :
  let '(s', acts) := limiter_run demo_clock [ev_timer true; ev_wait 10 2; ev_timer true] demo_stuck in
  posted acts = [] /\ waiting_handlers_ s' = [(4096, 9%nat)] ++ requested [ev_wait 10 2].
Proof.
  apply (limiter_starves demo_clock demo_stuck 4096 9 [] [ev_timer true; ev_wait 10 2; ev_timer true]);
    [reflexivity|reflexivity|reflexivity|by repeat constructor].
Defined.

Definition demo_waiting : RateLimiter Q :=
  {| bytes_per_sec_ := 1000; tokens_ := inject_Z 400; last_update_ := 0;
     waiting_handlers_ := [(600, 2%nat); (100, 3%nat)]; readings := 300 |}.
Lemma limiter_progress_witness :
  exists s' acts, on_timer demo_clock true demo_waiting = (s', post 600 2 :: acts).
Proof.
  apply (limiter_progress demo_clock demo_waiting 600 2 [(100, 3%nat)] 200000);
    [cbn; lia|split; [discriminate|reflexivity]|reflexivity|reflexivity|vm_compute; discriminate].
Defined.
