(* ===== verification/BufferPool.v ===== *)
(** * Pooled buffers (src/common/buffer_pool.h)

    Buffers are identified by numbers (their addresses).  [Get] returns a
    buffer with the deleter its [shared_ptr] carries: back to the pool, or
    plain deletion. *)
From Stdlib Require Import ZArith Lia String List Sorted.
From stdpp Require Import base tactics list gmap sorting.
From S2P Require Import Prelude.
Local Open Scope Z_scope.

Record PoolConfig : Type := { buffer_size : Z; initial_count : Z; max_count : Z }.

Record Bucket : Type := {
  config : PoolConfig;
  buffers : list nat;
  allocated_count : Z
}.

Record BufferPool : Type := {
  buckets_ : gmap Z Bucket;
  bucket_sizes_ : list Z;
  next_buffer : nat          (* identity of the next allocation *)
}.

Inductive deleter : Type := to_pool (bucket_size : Z) | plain_delete.
Record Buffer : Type := { buf_id : nat; buf_size : Z; buf_deleter : deleter }.

(** [count] fresh buffers pushed at the back. *)
Fixpoint fill (count : nat) (next : nat) (b : Bucket) : Bucket * nat :=
  match count with
  | O => (b, next)
  | S k => fill k (S next) {| config := config b; buffers := buffers b ++ [next];
                              allocated_count := allocated_count b + 1 |}
  end.

(** [buckets_[size]]: the bucket, default constructed when there is none. *)
Definition bucket_at (size : Z) (m : gmap Z Bucket) : Bucket :=
  default {| config := {| buffer_size := 0; initial_count := 0; max_count := 0 |};
             buffers := []; allocated_count := 0 |} (m !! size).

Definition add_config (p : BufferPool) (c : PoolConfig) : BufferPool :=
  let b := bucket_at (buffer_size c) (buckets_ p) in
  let '(b', next) := fill (Z.to_nat (initial_count c)) (next_buffer p)
    {| config := c; buffers := buffers b; allocated_count := allocated_count b |} in
  {| buckets_ := <[buffer_size c := b']> (buckets_ p);
     bucket_sizes_ := bucket_sizes_ p ++ [buffer_size c]; next_buffer := next |}.

(** [std::unique] on a sorted vector. *)
Fixpoint unique (l : list Z) : list Z :=
  match l with
  | x :: ((y :: _) as l') => if x =? y then unique l' else x :: unique l'
  | _ => l
  end.

Definition make_pool (configs : list PoolConfig) : BufferPool :=
  let p := foldl add_config {| buckets_ := ∅; bucket_sizes_ := []; next_buffer := 0 |} configs in
  {| buckets_ := buckets_ p; bucket_sizes_ := unique (merge_sort Z.le (bucket_sizes_ p));
     next_buffer := next_buffer p |}.

Definition pool_config (size initial max : Z) : PoolConfig :=
  {| buffer_size := size; initial_count := initial; max_count := max |}.

(** [CreateByProfile], on the lower-cased name. *)
Definition profile_configs (p : string) : list PoolConfig :=
  if String.eqb p "low" then
    [pool_config 512 8 32; pool_config 1024 4 16; pool_config 4096 2 8;
     pool_config 16384 1 4; pool_config 65536 1 2]
  else if String.eqb p "high" then
    [pool_config 512 32 128; pool_config 1024 16 64; pool_config 4096 16 64;
     pool_config 16384 8 32; pool_config 65536 4 16]
  else
    [pool_config 512 16 64; pool_config 1024 8 32; pool_config 4096 8 32;
     pool_config 16384 4 16; pool_config 65536 2 8].
Definition CreateByProfile (p : string) : BufferPool := make_pool (profile_configs p).
Definition CreateDefault : BufferPool := CreateByProfile "low".

(** [std::lower_bound] over the sorted sizes. *)
Definition lower_bound (size : Z) (sizes : list Z) : option Z :=
  head (filter (fun b => size <= b) sizes).

Definition set_bucket (size : Z) (b : Bucket) (next : nat) (p : BufferPool) : BufferPool :=
  {| buckets_ := <[size := b]> (buckets_ p); bucket_sizes_ := bucket_sizes_ p; next_buffer := next |}.

Definition Get (size : Z) (p : BufferPool) : option (BufferPool * Buffer) :=
  match lower_bound size (bucket_sizes_ p) with
  | None =>
    Some ({| buckets_ := buckets_ p; bucket_sizes_ := bucket_sizes_ p;
             next_buffer := S (next_buffer p) |},
          {| buf_id := next_buffer p; buf_size := size; buf_deleter := plain_delete |})
  | Some bucket_size =>
    b ← buckets_ p !! bucket_size;
    match last (buffers b) with
    | Some raw =>
      Some (set_bucket bucket_size {| config := config b; buffers := removelast (buffers b);
              allocated_count := allocated_count b |} (next_buffer p) p,
            {| buf_id := raw; buf_size := bucket_size; buf_deleter := to_pool bucket_size |})
    | None =>
      if allocated_count b <? max_count (config b) then
        Some (set_bucket bucket_size {| config := config b; buffers := buffers b;
                allocated_count := allocated_count b + 1 |} (S (next_buffer p)) p,
              {| buf_id := next_buffer p; buf_size := bucket_size; buf_deleter := to_pool bucket_size |})
      else
        Some ({| buckets_ := buckets_ p; bucket_sizes_ := bucket_sizes_ p;
                 next_buffer := S (next_buffer p) |},
              {| buf_id := next_buffer p; buf_size := bucket_size; buf_deleter := plain_delete |})
    end
  end.

Definition Return (bucket_size : Z) (raw : nat) (p : BufferPool) : BufferPool :=
  match buckets_ p !! bucket_size with
  | None => p
  | Some b =>
    if zlen (buffers b) <? max_count (config b) then
      set_bucket bucket_size {| config := config b; buffers := buffers b ++ [raw];
        allocated_count := allocated_count b |} (next_buffer p) p
    else
      set_bucket bucket_size {| config := config b; buffers := buffers b;
        allocated_count := allocated_count b - 1 |} (next_buffer p) p
  end.

(** The last reference to a buffer goes away. *)
Definition release (b : Buffer) (p : BufferPool) : BufferPool :=
  match buf_deleter b with to_pool s => Return s (buf_id b) p | plain_delete => p end.

(** ** Use of a pool: the buffers held by the program *)
Inductive pool_op : Type := op_get (size : Z) | op_release (i : nat).
Definition pool_step (op : pool_op) (st : BufferPool * list Buffer) : option (BufferPool * list Buffer) :=
  let '(p, held) := st in
  match op with
  | op_get size => '(p', b) ← Get size p; mret (p', held ++ [b])
  | op_release i => b ← held !! i; mret (release b p, delete i held)
  end.
Fixpoint pool_run (ops : list pool_op) (st : BufferPool * list Buffer)
  : option (BufferPool * list Buffer) :=
  match ops with [] => Some st | op :: ops' => st1 ← pool_step op st; pool_run ops' st1 end.

(** ** Invariant *)
(** Buffers of bucket [s] the program holds. *)
Definition from_bucket (s : Z) (b : Buffer) : bool :=
  match buf_deleter b with to_pool s' => s' =? s | plain_delete => false end.
Fixpoint outstanding (s : Z) (held : list Buffer) : Z :=
  match held with
  | [] => 0
  | b :: held' => (if from_bucket s b then 1 else 0) + outstanding s held'
  end.

Record pool_inv (p : BufferPool) (held : list Buffer) : Prop := {
  pi_sorted : StronglySorted Z.le (bucket_sizes_ p);
  pi_sizes : forall s, s ∈ bucket_sizes_ p -> is_Some (buckets_ p !! s);
  pi_count : forall s b, buckets_ p !! s = Some b ->
    zlen (buffers b) + outstanding s held = allocated_count b /\ allocated_count b <= max_count (config b);
  pi_free : forall s b, buckets_ p !! s = Some b ->
    NoDup (buffers b) /\ forall i, i ∈ buffers b -> (i < next_buffer p)%nat /\ i ∉ map buf_id held;
  pi_apart : forall s1 s2 b1 b2 i, buckets_ p !! s1 = Some b1 -> buckets_ p !! s2 = Some b2 ->
    i ∈ buffers b1 -> i ∈ buffers b2 -> s1 = s2;
  pi_held : NoDup (map buf_id held) /\ Forall (fun b => (buf_id b < next_buffer p)%nat) held;
  pi_deleter : Forall (fun b => match buf_deleter b with
                                | to_pool s => buf_size b = s /\ is_Some (buckets_ p !! s)
                                | plain_delete => True end) held
}.

(** ** Lemmas *)
Lemma outstanding_app s xs ys : outstanding s (xs ++ ys) = outstanding s xs + outstanding s ys.
Proof. induction xs as [|x xs IH]; cbn; [done|]. rewrite IH. lia. Qed.
Lemma outstanding_nonneg s xs : 0 <= outstanding s xs.
Proof. induction xs as [|x xs IH]; cbn; [done|]. case_match; lia. Qed.

Lemma held_split (held : list Buffer) i b :
  held !! i = Some b -> exists h1 h2, held = h1 ++ b :: h2 /\ delete i held = h1 ++ h2.
Proof.
  intros H. exists (take i held), (drop (S i) held). split; [by rewrite take_drop_middle|].
  apply delete_take_drop.
Qed.

Lemma lower_bound_spec size sizes :
  StronglySorted Z.le sizes ->
  match lower_bound size sizes with
  | Some b => b ∈ sizes /\ size <= b /\ forall b', b' ∈ sizes -> size <= b' -> b <= b'
  | None => forall b', b' ∈ sizes -> b' < size
  end.
Proof.
  unfold lower_bound. induction 1 as [|x sizes Hs IH Hx]; [intros b' Hb; by apply elem_of_nil in Hb|].
  rewrite filter_cons. case_decide as Hle; cbn [head].
  - split; [left|]. split; [done|]. intros b' Hb' _. apply elem_of_cons in Hb' as [->|Hb']; [lia|].
    rewrite Forall_forall in Hx. by apply Hx.
  - destruct (head _) as [b|].
    + destruct IH as (I1 & I2 & I3). split; [by right|]. split; [done|].
      intros b' Hb' Hs'. apply elem_of_cons in Hb' as [->|Hb']; [lia|auto].
    + intros b' Hb'. apply elem_of_cons in Hb' as [->|Hb']; [lia|auto].
Qed.

Lemma last_split {A} (l : list A) x : last l = Some x -> l = removelast l ++ [x].
Proof. intros H. apply last_Some in H as [l' ->]. by rewrite List.removelast_last. Qed.

(** A buffer with a fresh identity joins the held ones. *)
Lemma hold_fresh p held size d :
  pool_inv p held -> (forall s, d = to_pool s -> size = s /\ is_Some (buckets_ p !! s)) ->
  (forall s b, d = to_pool s -> buckets_ p !! s = Some b -> allocated_count b < max_count (config b)) ->
  pool_inv (match d with
            | to_pool s => match buckets_ p !! s with
                           | Some b => set_bucket s {| config := config b; buffers := buffers b;
                               allocated_count := allocated_count b + 1 |} (S (next_buffer p)) p
                           | None => p end
            | plain_delete => {| buckets_ := buckets_ p; bucket_sizes_ := bucket_sizes_ p;
                                 next_buffer := S (next_buffer p) |} end)
           (held ++ [{| buf_id := next_buffer p; buf_size := size; buf_deleter := d |}]).
Proof.
  intros [H1 H2 H3 H4 H5 [H6a H6b] H7] Hd Hmax.
  assert (Hids : NoDup (map buf_id (held ++ [{| buf_id := next_buffer p; buf_size := size; buf_deleter := d |}]))
    /\ Forall (fun b => (buf_id b < S (next_buffer p))%nat)
         (held ++ [{| buf_id := next_buffer p; buf_size := size; buf_deleter := d |}])).
  { rewrite map_app. cbn [map buf_id]. split.
    - apply NoDup_app. split; [done|]. split; [|apply NoDup_singleton].
      intros i Hi Hi2. apply list_elem_of_singleton in Hi2 as ->.
      apply list_elem_of_fmap in Hi as (b & Hq & Hb). rewrite Forall_forall in H6b.
      specialize (H6b b Hb). lia.
    - apply Forall_app. split; [|apply Forall_singleton; cbn; lia].
      eapply Forall_impl; [exact H6b|]. cbn. lia. }
  assert (Hnot : forall s b i, buckets_ p !! s = Some b -> i ∈ buffers b -> (i < S (next_buffer p))%nat /\
    i ∉ map buf_id (held ++ [{| buf_id := next_buffer p; buf_size := size; buf_deleter := d |}])).
  { intros s b i Hb Hi. destruct (H4 s b Hb) as [_ Hf]. destruct (Hf i Hi) as [Hlt Hni].
    split; [lia|]. rewrite map_app. intros Hin. apply elem_of_app in Hin as [Hin|Hin]; [done|].
    apply list_elem_of_singleton in Hin. cbn in Hin. lia. }
  destruct d as [s|].
  - destruct (Hd s eq_refl) as [-> [b Hb]]. rewrite Hb. specialize (Hmax s b eq_refl Hb).
    unfold set_bucket.
    split; cbn [buckets_ bucket_sizes_ next_buffer]; try done.
    + intros s' Hs'. apply lookup_insert_is_Some'. auto.
    + intros s' b' Hl. rewrite outstanding_app. cbn [outstanding from_bucket buf_deleter].
      apply lookup_insert_Some in Hl as [[<- <-]|[Hne Hl]]; cbn [buffers allocated_count config].
      * rewrite Z.eqb_refl. destruct (H3 _ _ Hb). lia.
      * replace (s =? s') with false by (symmetry; by apply Z.eqb_neq). destruct (H3 _ _ Hl). lia.
    + intros s' b' Hl. apply lookup_insert_Some in Hl as [[<- <-]|[Hne Hl]]; cbn [buffers];
        (split; [by eapply H4|]); intros i Hi; by eapply Hnot.
    + intros s1 s2 b1 b2 i Hl1 Hl2 Hi1 Hi2.
      apply lookup_insert_Some in Hl1 as [[<- <-]|[Hne1 Hl1]];
        apply lookup_insert_Some in Hl2 as [[<- <-]|[Hne2 Hl2]]; cbn in *; try done; by eapply H5.
    + apply Forall_app. split; [|apply Forall_singleton; cbn; split; [done|rewrite lookup_insert_eq; eauto]].
      eapply Forall_impl; [exact H7|]. intros b'. cbn beta. destruct (buf_deleter b'); [|done].
      intros [? ?]. split; [done|]. apply lookup_insert_is_Some'. auto.
  - split; cbn [buckets_ bucket_sizes_ next_buffer]; try done.
    + intros s b Hb. rewrite outstanding_app. cbn. destruct (H3 _ _ Hb). lia.
    + intros s b Hb. split; [by eapply H4|]. intros i Hi. by eapply Hnot.
    + apply Forall_app. split; [done|]. by apply Forall_singleton.
Qed.

(** A free buffer of bucket [s] moves to the program. *)
Lemma hold_free p held s b i rest :
  pool_inv p held -> buckets_ p !! s = Some b -> buffers b = rest ++ [i] ->
  pool_inv (set_bucket s {| config := config b; buffers := rest; allocated_count := allocated_count b |}
              (next_buffer p) p)
           (held ++ [{| buf_id := i; buf_size := s; buf_deleter := to_pool s |}]).
Proof.
  intros [H1 H2 H3 H4 H5 [H6a H6b] H7] Hb Hbuf.
  destruct (H4 s b Hb) as [Hnd Hfree]. rewrite Hbuf in Hnd, Hfree.
  assert (Hi : (i < next_buffer p)%nat /\ i ∉ map buf_id held)
    by (apply Hfree, elem_of_app; right; by apply list_elem_of_singleton).
  apply NoDup_app in Hnd as (Hnd & Hni & _).
  assert (Hir : i ∉ rest) by (intros Hin; apply (Hni i Hin), list_elem_of_singleton; done).
  unfold set_bucket. split; cbn [buckets_ bucket_sizes_ next_buffer]; try done.
  - intros s' Hs'. apply lookup_insert_is_Some'. auto.
  - intros s' b' Hl. rewrite outstanding_app. cbn [outstanding from_bucket buf_deleter].
    apply lookup_insert_Some in Hl as [[<- <-]|[Hne Hl]]; cbn [buffers allocated_count config].
    + rewrite Z.eqb_refl. destruct (H3 _ _ Hb) as [Hc Hm]. rewrite Hbuf, zlen_app, zlen_cons, zlen_nil in Hc. lia.
    + replace (s =? s') with false by (symmetry; by apply Z.eqb_neq). destruct (H3 _ _ Hl). lia.
  - intros s' b' Hl. apply lookup_insert_Some in Hl as [[<- <-]|[Hne Hl]]; cbn [buffers].
    + split; [done|]. intros j Hj. destruct (Hfree j) as [Hlt Hnh]; [apply elem_of_app; by left|].
      split; [done|]. rewrite map_app. intros Hin. apply elem_of_app in Hin as [Hin|Hin]; [done|].
      apply list_elem_of_singleton in Hin as ->. done.
    + split; [by eapply H4|]. intros j Hj. destruct (H4 _ _ Hl) as [_ Hf]. destruct (Hf j Hj) as [Hlt Hnh].
      split; [done|]. rewrite map_app. intros Hin. apply elem_of_app in Hin as [Hin|Hin]; [done|].
      apply list_elem_of_singleton in Hin as ->. apply Hne. eapply H5; [exact Hb|exact Hl| |exact Hj].
      rewrite Hbuf. apply elem_of_app. right. by apply list_elem_of_singleton.
  - intros s1 s2 b1 b2 j Hl1 Hl2 Hi1 Hi2.
    apply lookup_insert_Some in Hl1 as [[<- <-]|[Hne1 Hl1]];
      apply lookup_insert_Some in Hl2 as [[<- <-]|[Hne2 Hl2]]; cbn in *; try done.
    + eapply H5; [exact Hb|exact Hl2| |exact Hi2]. rewrite Hbuf. apply elem_of_app. by left.
    + eapply H5; [exact Hl1|exact Hb|exact Hi1|]. rewrite Hbuf. apply elem_of_app. by left.
    + by eapply H5.
  - rewrite map_app. split.
    + apply NoDup_app. split; [done|]. split; [|apply NoDup_singleton].
      intros j Hj Hj2. apply list_elem_of_singleton in Hj2 as ->. cbn in Hj. tauto.
    + apply Forall_app. split; [done|]. apply Forall_singleton; cbn; tauto.
  - apply Forall_app. split; [|apply Forall_singleton; cbn; split; [done|rewrite lookup_insert_eq; eauto]].
    eapply Forall_impl; [exact H7|]. intros b'. cbn beta. destruct (buf_deleter b'); [|done].
    intros [? ?]. split; [done|]. apply lookup_insert_is_Some'. auto.
Qed.

(** What [Get] promises: it succeeds, keeps the invariant, and the buffer is
    large enough, of the smallest bucket size that is. *)
Lemma get_spec size p held :
  pool_inv p held ->
  exists p' b, Get size p = Some (p', b) /\ pool_inv p' (held ++ [b]) /\ size <= buf_size b /\
    (forall s, s ∈ bucket_sizes_ p -> size <= s -> buf_size b <= s) /\
    bucket_sizes_ p' = bucket_sizes_ p.
Proof.
  intros Hinv. unfold Get. pose proof (lower_bound_spec size _ (pi_sorted _ _ Hinv)) as Hlb.
  destruct (lower_bound size (bucket_sizes_ p)) as [s|].
  - destruct Hlb as (Hs & Hle & Hmin). destruct (pi_sizes _ _ Hinv s Hs) as [b Hb].
    rewrite Hb. cbn [mbind option_bind]. destruct (last (buffers b)) as [i|] eqn:El.
    + apply last_split in El. eexists _, _. split; [done|].
      split; [by eapply hold_free|]. cbn. done.
    + destruct (allocated_count b <? max_count (config b)) eqn:Em; bool_hyps.
      * pose proof (hold_fresh p held s (to_pool s) Hinv) as Hh. cbn iota in Hh. rewrite Hb in Hh.
        eexists _, _. split; [done|]. split; [|cbn; done]. apply Hh.
        -- intros s' [= <-]. by rewrite Hb.
        -- intros s' b' [= <-]. rewrite Hb. by intros [= <-].
      * eexists _, _. split; [done|]. split; [|cbn; done].
        by apply (hold_fresh p held s plain_delete Hinv).
  - eexists _, _. split; [done|]. split; [by apply (hold_fresh p held size plain_delete Hinv)|].
    cbn. split; [lia|]. split; [|done]. intros s Hs. specialize (Hlb s Hs). lia.
Qed.

(** The buffer given back is not held twice, and no free buffer is held. *)
Lemma release_facts p h1 h2 b : pool_inv p (h1 ++ b :: h2) ->
  NoDup (map buf_id (h1 ++ h2)) /\ (buf_id b ∉ map buf_id (h1 ++ h2)) /\
  forall s b0 i, buckets_ p !! s = Some b0 -> i ∈ buffers b0 ->
    (i < next_buffer p)%nat /\ (i ∉ map buf_id (h1 ++ h2)) /\ i <> buf_id b.
Proof.
  intros [H1 H2 H3 H4 H5 [H6a H6b] H7]. rewrite map_app in H6a. cbn [map] in H6a.
  assert (Hids : NoDup (map buf_id (h1 ++ h2)) /\ buf_id b ∉ map buf_id (h1 ++ h2)).
  { rewrite map_app. apply NoDup_app in H6a as (Hn1 & Hd & Hn2). apply NoDup_cons in Hn2 as [Hb Hn2].
    split.
    - apply NoDup_app. split; [done|]. split; [|done]. intros x Hx Hx2. apply (Hd x Hx). by right.
    - intros Hin. apply elem_of_app in Hin as [Hin|Hin]; [|done]. apply (Hd _ Hin). left. }
  destruct Hids as [Hnd Hnb]. split; [done|]. split; [done|].
  intros s b0 i Hb0 Hi. destruct (H4 _ _ Hb0) as [_ Hfr]. destruct (Hfr i Hi) as [Hlt Hnot].
  split; [done|]. rewrite map_app in Hnot |- *. cbn [map] in Hnot.
  rewrite elem_of_app in Hnot |- *. rewrite elem_of_cons in Hnot. tauto.
Qed.
(** Releasing keeps the invariant; the pool always takes a pooled buffer back. *)
Lemma release_returned p h1 h2 b s : buf_deleter b = to_pool s ->
  pool_inv p (h1 ++ b :: h2) ->
  pool_inv (release b p) (h1 ++ h2) /\ bucket_sizes_ (release b p) = bucket_sizes_ p.
Proof.
  intros Ed Hinv. destruct (release_facts _ _ _ _ Hinv) as (Hnd & Hnb & Hf).
  destruct Hinv as [H1 H2 H3 H4 H5 [H6a H6b] H7].
  apply Forall_app in H6b as [H6b1 H6b2]. apply Forall_cons in H6b2 as [Hbn H6b2].
  apply Forall_app in H7 as [H71 H72]. apply Forall_cons in H72 as [Hdel H72].
  unfold release. rewrite Ed in *.
  destruct Hdel as [Hsz [b0 Hb0]]. unfold Return. rewrite Hb0.
  destruct (H3 _ _ Hb0) as [Hc Hm]. rewrite outstanding_app in Hc. cbn [outstanding] in Hc.
  unfold from_bucket in Hc at 1. rewrite Ed, Z.eqb_refl in Hc.
  pose proof (outstanding_nonneg s h1). pose proof (outstanding_nonneg s h2).
  replace (zlen (buffers b0) <? max_count (config b0)) with true by (symmetry; apply Z.ltb_lt; lia).
  split; [|done]. unfold set_bucket. split; cbn [buckets_ bucket_sizes_ next_buffer]; try done.
  + intros s' Hs'. apply lookup_insert_is_Some'. auto.
  + intros s' b' Hl. rewrite outstanding_app.
    apply lookup_insert_Some in Hl as [[<- <-]|[Hne Hl]]; cbn [buffers allocated_count config].
    * rewrite zlen_app, zlen_cons, zlen_nil. lia.
    * destruct (H3 _ _ Hl) as [Hc' Hm']. rewrite outstanding_app in Hc'. cbn [outstanding] in Hc'.
      unfold from_bucket in Hc' at 1. rewrite Ed in Hc'.
      replace (s =? s') with false in Hc' by (symmetry; by apply Z.eqb_neq). lia.
  + intros s' b' Hl. apply lookup_insert_Some in Hl as [[<- <-]|[Hne Hl]]; cbn [buffers].
    * split.
      -- apply NoDup_app. split; [by destruct (H4 _ _ Hb0)|]. split; [|apply NoDup_singleton].
         intros x Hx Hx2. apply list_elem_of_singleton in Hx2 as ->. by destruct (Hf _ _ _ Hb0 Hx) as (_ & _ & ?).
      -- intros i Hi. apply elem_of_app in Hi as [Hi|Hi]; [by destruct (Hf _ _ _ Hb0 Hi) as (? & ? & _)|].
         apply list_elem_of_singleton in Hi as ->. done.
    * split; [by destruct (H4 _ _ Hl)|]. intros i Hi. by destruct (Hf _ _ _ Hl Hi) as (? & ? & _).
  + intros s1 s2 b1 b2 i Hl1 Hl2 Hi1 Hi2.
    apply lookup_insert_Some in Hl1 as [[<- <-]|[Hne1 Hl1]];
      apply lookup_insert_Some in Hl2 as [[<- <-]|[Hne2 Hl2]]; cbn in *; try done.
    * apply elem_of_app in Hi1 as [Hi1|Hi1]; [by eapply H5|].
      apply list_elem_of_singleton in Hi1 as ->. by destruct (Hf _ _ _ Hl2 Hi2) as (_ & _ & ?).
    * apply elem_of_app in Hi2 as [Hi2|Hi2]; [by eapply H5|].
      apply list_elem_of_singleton in Hi2 as ->. by destruct (Hf _ _ _ Hl1 Hi1) as (_ & _ & ?).
    * by eapply H5.
  + split; [done|]. by apply Forall_app.
  + apply Forall_app. split; (eapply Forall_impl; [eassumption|]); intros b'; cbn beta;
      (destruct (buf_deleter b'); [|done]); intros [? ?]; (split; [done|]);
      apply lookup_insert_is_Some'; auto.
Qed.
Lemma release_deleted p h1 h2 b : buf_deleter b = plain_delete ->
  pool_inv p (h1 ++ b :: h2) ->
  pool_inv (release b p) (h1 ++ h2) /\ bucket_sizes_ (release b p) = bucket_sizes_ p.
Proof.
  intros Ed Hinv. destruct (release_facts _ _ _ _ Hinv) as (Hnd & Hnb & Hf).
  destruct Hinv as [H1 H2 H3 H4 H5 [H6a H6b] H7].
  apply Forall_app in H6b as [H6b1 H6b2]. apply Forall_cons in H6b2 as [Hbn H6b2].
  apply Forall_app in H7 as [H71 H72]. apply Forall_cons in H72 as [Hdel H72].
  unfold release. rewrite Ed in *.
  split; [|done]. split; try done.
  + intros s b0 Hb0. destruct (H3 _ _ Hb0) as [Hc Hm]. rewrite outstanding_app in *.
    cbn [outstanding] in Hc. unfold from_bucket in Hc at 1. rewrite Ed in Hc. lia.
  + intros s b0 Hb0. split; [by destruct (H4 _ _ Hb0)|]. intros i Hi. by destruct (Hf _ _ _ Hb0 Hi) as (? & ? & _).
  + split; [done|]. by apply Forall_app.
  + by apply Forall_app.
Qed.
Lemma release_spec p h1 h2 b :
  pool_inv p (h1 ++ b :: h2) ->
  pool_inv (release b p) (h1 ++ h2) /\ bucket_sizes_ (release b p) = bucket_sizes_ p.
Proof.
  destruct (buf_deleter b) as [s|] eqn:Ed; [by eapply release_returned|by apply release_deleted].
Qed.

(** ** Construction *)
Lemma fill_spec k next b :
  fill k next b = ({| config := config b; buffers := buffers b ++ seq next k;
                      allocated_count := allocated_count b + Z.of_nat k |}, (next + k)%nat).
Proof.
  revert next b. induction k as [|k IH]; intros next b; cbn [fill seq].
  - rewrite app_nil_r, Z.add_0_r, Nat.add_0_r. by destruct b.
  - rewrite IH. cbn [config buffers allocated_count]. f_equal; [f_equal|lia].
    + by rewrite <- app_assoc.
    + lia.
Qed.

Definition config_ok (c : PoolConfig) : Prop := 0 <= initial_count c <= max_count c.

(** The buckets of a pool, whatever its list of sizes. *)
Definition unlisted (p : BufferPool) : BufferPool :=
  {| buckets_ := buckets_ p; bucket_sizes_ := []; next_buffer := next_buffer p |}.

Lemma add_config_inv p c :
  pool_inv (unlisted p) [] -> config_ok c -> buckets_ p !! buffer_size c = None ->
  pool_inv (unlisted (add_config p c)) [].
Proof.
  intros [H1 H2 H3 H4 H5 H6 H7] Hc Hnew. unfold add_config, bucket_at. rewrite Hnew.
  cbn [from_option id default]. rewrite fill_spec.
  assert (Hlen : zlen (seq (next_buffer p) (Z.to_nat (initial_count c))) = initial_count c)
    by (unfold zlen; rewrite length_seq; unfold config_ok in Hc; lia).
  unfold unlisted in *. cbn [buckets_ bucket_sizes_ next_buffer config buffers allocated_count app] in *.
  split; cbn [buckets_ bucket_sizes_ next_buffer]; try done.
  - intros s Hs. by apply elem_of_nil in Hs.
  - intros s b Hl. apply lookup_insert_Some in Hl as [[<- <-]|[_ Hl]]; [|by eapply H3].
    cbn. rewrite Hlen. unfold config_ok in Hc. lia.
  - intros s b Hl. apply lookup_insert_Some in Hl as [[<- <-]|[_ Hl]].
    + split; [apply NoDup_ListNoDup, seq_NoDup|]. intros i Hi. cbn in Hi. apply elem_of_seq in Hi.
      split; [lia|apply not_elem_of_nil].
    + split; [by eapply H4|]. intros i Hi. destruct (H4 _ _ Hl) as [_ Hf]. destruct (Hf i Hi). split; [lia|done].
  - intros s1 s2 b1 b2 i Hl1 Hl2 Hi1 Hi2.
    apply lookup_insert_Some in Hl1 as [[<- <-]|[Hne1 Hl1]];
      apply lookup_insert_Some in Hl2 as [[<- <-]|[Hne2 Hl2]]; cbn in *; try done.
    + apply elem_of_seq in Hi1. destruct (H4 _ _ Hl2) as [_ Hf]. destruct (Hf i Hi2). lia.
    + apply elem_of_seq in Hi2. destruct (H4 _ _ Hl1) as [_ Hf]. destruct (Hf i Hi1). lia.
    + by eapply H5.
  - split; [constructor|constructor].
Qed.

Lemma add_configs_inv configs p :
  pool_inv (unlisted p) [] -> Forall config_ok configs -> NoDup (map buffer_size configs) ->
  Forall (fun c => buckets_ p !! buffer_size c = None) configs ->
  (forall s, s ∈ bucket_sizes_ p -> is_Some (buckets_ p !! s)) ->
  let p' := foldl add_config p configs in
  pool_inv (unlisted p') [] /\ (forall s, s ∈ bucket_sizes_ p' -> is_Some (buckets_ p' !! s)).
Proof.
  revert p. induction configs as [|c configs IH]; intros p Hinv Hok Hnd Hnew Hsz; [done|].
  apply Forall_cons in Hok as [Hc Hok]. cbn [map] in Hnd. apply NoDup_cons in Hnd as [Hni Hnd].
  apply Forall_cons in Hnew as [Hn Hnew]. cbn [foldl]. pose proof (add_config_inv p c Hinv Hc Hn) as Hinv'.
  unfold add_config in *. rewrite fill_spec in *. apply IH; try done; cbn [buckets_ bucket_sizes_].
  - apply Forall_forall. intros c' Hc'. rewrite lookup_insert_ne.
    + rewrite Forall_forall in Hnew. by apply Hnew.
    + intros Heq. apply Hni. rewrite Heq. apply list_elem_of_fmap. by exists c'.
  - intros s Hs. apply lookup_insert_is_Some'. apply elem_of_app in Hs as [Hs|Hs]; [auto|].
    apply list_elem_of_singleton in Hs. auto.
Qed.

Lemma unique_elem l s : s ∈ unique l -> s ∈ l.
Proof.
  induction l as [|x [|y l] IH]; [done|done|]. cbn [unique].
  destruct (x =? y); intros H; [right; auto|].
  apply elem_of_cons in H as [->|H]; [left|right; auto].
Qed.

Lemma unique_sorted l : StronglySorted Z.le l -> StronglySorted Z.le (unique l).
Proof.
  induction l as [|x [|y l] IH]; intros H; [done|done|]. inversion H as [|? ? Hs Hx]; subst.
  cbn [unique]. destruct (x =? y); [auto|]. constructor; [auto|].
  apply Forall_forall. intros z Hz. apply (unique_elem (y :: l)) in Hz. rewrite Forall_forall in Hx. auto.
Qed.

Lemma make_pool_inv configs :
  Forall config_ok configs -> NoDup (map buffer_size configs) -> pool_inv (make_pool configs) [].
Proof.
  intros Hok Hnd. unfold make_pool. set (p0 := {| buckets_ := ∅; bucket_sizes_ := []; next_buffer := 0 |}).
  assert (H0 : pool_inv (unlisted p0) []).
  { split; cbn; try done; try (intros; set_solver); [constructor|split; constructor]. }
  destruct (add_configs_inv configs p0 H0 Hok Hnd) as [[H1 H2 H3 H4 H5 H6 H7] Hsz];
    [by apply Forall_forall|intros s Hs; by apply elem_of_nil in Hs|].
  set (p := foldl add_config p0 configs) in *. split; cbn [buckets_ bucket_sizes_ next_buffer]; try done.
  - apply unique_sorted, StronglySorted_merge_sort; [intros ? ? ?; lia|intros x y; lia].
  - intros s Hs. apply unique_elem in Hs. rewrite merge_sort_Permutation in Hs. auto.
Qed.

Lemma profile_ok p : Forall config_ok (profile_configs p) /\ NoDup (map buffer_size (profile_configs p)).
Proof.
  unfold profile_configs, config_ok. destruct (String.eqb p "low"), (String.eqb p "high");
    (split; [repeat constructor; cbn; lia|apply (bool_decide_unpack _); vm_compute; done]).
Qed.

Lemma pool_run_inv ops p held p' held' :
  pool_inv p held -> pool_run ops (p, held) = Some (p', held') ->
  pool_inv p' held' /\ bucket_sizes_ p' = bucket_sizes_ p.
Proof.
  revert p held. induction ops as [|op ops IH]; intros p held Hinv Hrun; [by injection Hrun as <- <-|].
  cbn [pool_run] in Hrun. destruct op as [size|i]; cbn [pool_step] in Hrun.
  - destruct (get_spec size p held Hinv) as (p1 & b & E & Hinv1 & _ & _ & Hs). rewrite E in Hrun.
    cbn in Hrun. apply IH in Hrun as [H1 H2]; [|done]. by rewrite H2.
  - destruct (held !! i) as [b|] eqn:E; [|done]. cbn in Hrun.
    destruct (held_split held i b E) as (h1 & h2 & -> & Hd). rewrite Hd in Hrun.
    destruct (release_spec p h1 h2 b Hinv) as [Hinv1 Hs]. apply IH in Hrun as [H1 H2]; [|done]. by rewrite H2.
Qed.

(** ** Properties *)

(** C40 Pools made from a profile are sound in every history of [Get] and releases: no two
    holders ever share a buffer and no free buffer is held; the buffers of a bucket that are
    free or held through the pool are exactly the counted ones, at most [max_count]; and the
    next [Get] succeeds with a buffer at least as large as asked, of the smallest bucket size
    that is. *)
Theorem pool_sound (profile : string) (ops : list pool_op) (p : BufferPool) (held : list Buffer) (size : Z)
    (Hrun : pool_run ops (CreateByProfile profile, []) = Some (p, held)) :
  NoDup (map buf_id held) /\
  (forall s b i, buckets_ p !! s = Some b -> i ∈ buffers b -> i ∉ map buf_id held) /\
  (forall s b, buckets_ p !! s = Some b ->
     zlen (buffers b) + outstanding s held = allocated_count b /\ allocated_count b <= max_count (config b)) /\
  exists p' b, Get size p = Some (p', b) /\ size <= buf_size b /\ (buf_id b ∉ map buf_id held) /\
    forall s, s ∈ bucket_sizes_ (CreateByProfile profile) -> size <= s -> buf_size b <= s.
Proof.
  destruct (profile_ok profile) as [Hok Hnd].
  apply pool_run_inv in Hrun as [Hinv Hs]; [|by apply make_pool_inv].
  destruct (get_spec size p held Hinv) as (p' & b & E & Hinv' & Hle & Hmin & _).
  destruct Hinv as [_ _ Hc Hf _ [Hnodup _] _].
  split; [done|]. split; [intros s b0 i Hb Hi; by apply (Hf s b0 Hb)|]. split; [done|].
  exists p', b. rewrite <- Hs. split; [done|]. split; [done|]. split; [|done].
  destruct Hinv' as [_ _ _ _ _ [Hnd' _] _]. rewrite map_app in Hnd'.
  apply NoDup_app in Hnd' as (_ & Hd & _). intros Hin. apply (Hd _ Hin). by apply list_elem_of_singleton.
Qed.

Definition demo_pool_ops : list pool_op :=
  [op_get 600; op_get 1024; op_get 70000; op_release 0; op_get 1000].
Definition demo_pool : BufferPool * list Buffer :=
  default (CreateDefault, []) (pool_run demo_pool_ops (CreateDefault, [])).
Lemma pool_sound_witness :
  map buf_size demo_pool.2 = [1024; 70000; 1024] /\ NoDup (map buf_id demo_pool.2) /\
  (forall s b i, buckets_ demo_pool.1 !! s = Some b -> i ∈ buffers b -> i ∉ map buf_id demo_pool.2) /\
  (forall s b, buckets_ demo_pool.1 !! s = Some b ->
     zlen (buffers b) + outstanding s demo_pool.2 = allocated_count b /\
     allocated_count b <= max_count (config b)) /\
  exists p' b, Get 32768 demo_pool.1 = Some (p', b) /\ 32768 <= buf_size b /\
    (buf_id b ∉ map buf_id demo_pool.2) /\
    forall s, s ∈ bucket_sizes_ (CreateByProfile "low") -> 32768 <= s -> buf_size b <= s.
Proof.
  split; [vm_compute; reflexivity|].
  apply (pool_sound "low" demo_pool_ops). vm_compute. reflexivity.
Defined.
