(* ===== verification/Bridge.v ===== *)
(** * The bridge between a user connection and a work stream
    (src/common/async_bridge.cpp, zstd_utils.h)

    Two directions, each with at most one operation outstanding: a read, a wait
    for the rate limiter, or a write.  An event is the completion of that
    operation.  Zstandard is a parameter, given by a class with the laws of its
    documentation; the streams complete an [async_read] with all the bytes asked
    for or with an error. *)
From Stdlib Require Import ZArith Lia Strings.Byte.
From stdpp Require Import base tactics list.
From S2P Require Import Prelude Protocol Zstd.
Local Open Scope Z_scope.

Definition read_size : Z := 32768.

Section Bridge.
Context `{Zstd}.
Variables (use_compression : bool) (compression_level : Z) (has_limiter : bool).

(** [D1]: from [s1] (user) to [s2] (work); [D2]: from [s2] to [s1]. *)
Inductive direction : Type := D1 | D2.

Inductive phase : Type :=
| not_started
| reading_some
| reading_header
| reading_body (len : Z) (compressed : bool)
| limited (packet : list byte) (counted : Z)   (* waiting for the rate limiter *)
| writing
| halted.

Record Bridge : Type := {
  stopped_ : bool;
  bytes_received_ : Z;    (* from the user *)
  bytes_sent_ : Z;        (* to the user *)
  phase1 : phase;
  phase2 : phase
}.
Definition new_bridge : Bridge := {| stopped_ := false; bytes_received_ := 0; bytes_sent_ := 0;
  phase1 := not_started; phase2 := not_started |}.

Inductive bridge_action : Type :=
| read_some (d : direction) (n : Z)
| read_exact (n : Z)                       (* from s2 *)
| wait_tokens (d : direction) (n : Z)
| write_to (d : direction) (packet : list byte)
| close_both
| call_on_stop.

Definition phase_of (d : direction) (b : Bridge) : phase :=
  match d with D1 => phase1 b | D2 => phase2 b end.
Definition set_phase (d : direction) (p : phase) (b : Bridge) : Bridge := {|
  stopped_ := stopped_ b; bytes_received_ := bytes_received_ b; bytes_sent_ := bytes_sent_ b;
  phase1 := match d with D1 => p | D2 => phase1 b end;
  phase2 := match d with D1 => phase2 b | D2 => p end |}.
Definition count (d : direction) (n : Z) (b : Bridge) : Bridge := {|
  stopped_ := stopped_ b;
  bytes_received_ := match d with D1 => wrap 64 (bytes_received_ b + n) | D2 => bytes_received_ b end;
  bytes_sent_ := match d with D1 => bytes_sent_ b | D2 => wrap 64 (bytes_sent_ b + n) end;
  phase1 := phase1 b; phase2 := phase2 b |}.

Definition HandleStop (b : Bridge) : Bridge * list bridge_action :=
  if stopped_ b then (b, [])
  else ({| stopped_ := true; bytes_received_ := bytes_received_ b; bytes_sent_ := bytes_sent_ b;
           phase1 := phase1 b; phase2 := phase2 b |}, [close_both; call_on_stop]).

Definition fail (d : direction) (b : Bridge) : Bridge * list bridge_action :=
  HandleStop (set_phase d halted b).

(** [DoRead(direction)] *)
Definition DoRead (d : direction) (b : Bridge) : Bridge * list bridge_action :=
  if negb use_compression then (set_phase d reading_some b, [read_some d read_size])
  else match d with
       | D1 => (set_phase D1 reading_some b, [read_some D1 read_size])
       | D2 => (set_phase D2 reading_header b, [read_exact 4])
       end.

Definition Start (b : Bridge) : Bridge * list bridge_action :=
  let '(b1, a1) := DoRead D1 b in let '(b2, a2) := DoRead D2 b1 in (b2, a1 ++ a2).

(** The lambda [write_op]. *)
Definition write_op (d : direction) (packet : list byte) (counted : Z) (b : Bridge)
  : Bridge * list bridge_action :=
  (set_phase d writing (count d counted b), [write_to d packet]).
(** [if (rate_limiter_) async_wait(counted, write_op) else write_op()] *)
Definition forward (d : direction) (packet : list byte) (counted : Z) (b : Bridge)
  : Bridge * list bridge_action :=
  if has_limiter then (set_phase d (limited packet counted) b, [wait_tokens d counted])
  else write_op d packet counted b.

(** The frame of one chunk: length, or compressed length with the flag. *)
Definition frame (data : list byte) : list byte :=
  match compress compression_level data with
  | Some c =>
    if zlen c <? zlen data
    then be_bytes 4 (Z.lor (wrap 32 (zlen c)) COMPRESSION_FLAG) ++ c
    else be_bytes 4 (wrap 32 (zlen data)) ++ data
  | None => be_bytes 4 (wrap 32 (zlen data)) ++ data
  end.

Definition on_chunk (d : direction) (ec : error_code) (data : list byte) (b : Bridge)
  : Bridge * list bridge_action :=
  if decide (ec = ec_ok) then
    if use_compression then forward d (frame data) (zlen data) b
    else forward d data (zlen data) b
  else fail d b.

Definition on_header (ec : error_code) (header : list byte) (b : Bridge)
  : Bridge * list bridge_action :=
  if decide (ec = ec_ok) then
    let h2 := be_val header in
    let len := Z.land h2 LENGTH_MASK in
    let compressed := negb (Z.land h2 COMPRESSION_FLAG =? 0) in
    if MAX_MESSAGE_SIZE <? len then fail D2 b
    else (set_phase D2 (reading_body len compressed) b, [read_exact len])
  else fail D2 b.

Definition on_body (compressed : bool) (ec : error_code) (body : list byte) (b : Bridge)
  : Bridge * list bridge_action :=
  if decide (ec = ec_ok) then
    if compressed then
      match frame_content_size body with
      | None => fail D2 b
      | Some decodedSize =>
        if MAX_DECOMPRESSED_SIZE <? decodedSize then fail D2 b else
        match decompress decodedSize body with
        | None => fail D2 b
        | Some out => forward D2 out (zlen out) b
        end
      end
    else forward D2 body (zlen body) b
  else fail D2 b.

Definition on_written (d : direction) (ec : error_code) (b : Bridge) : Bridge * list bridge_action :=
  if decide (ec = ec_ok) then DoRead d b else fail d b.

(** ** Events *)
Inductive bridge_event : Type :=
| ev_read (d : direction) (ec : error_code) (data : list byte)
| ev_tokens (d : direction)
| ev_written (d : direction) (ec : error_code).

(** What the streams deliver: [async_read] all the bytes asked for,
    [async_read_some] at most the buffer's size. *)
Definition read_fits (p : phase) (ec : error_code) (data : list byte) : bool :=
  if decide (ec = ec_ok) then
    match p with
    | reading_some => zlen data <=? read_size
    | reading_header => zlen data =? 4
    | reading_body len _ => zlen data =? len
    | _ => false
    end
  else true.

(** Only the outstanding operation of a direction can complete. *)
Definition bridge_step (ev : bridge_event) (b : Bridge) : option (Bridge * list bridge_action) :=
  match ev with
  | ev_read d ec data =>
    if negb (read_fits (phase_of d b) ec data) then None else
    match d, phase_of d b with
    | _, reading_some => Some (on_chunk d ec data b)
    | D2, reading_header => Some (on_header ec data b)
    | D2, reading_body _ compressed => Some (on_body compressed ec data b)
    | _, _ => None
    end
  | ev_tokens d =>
    match phase_of d b with limited packet n => Some (write_op d packet n b) | _ => None end
  | ev_written d ec =>
    match phase_of d b with writing => Some (on_written d ec b) | _ => None end
  end.

Fixpoint bridge_run (evs : list bridge_event) (b : Bridge) : option (Bridge * list bridge_action) :=
  match evs with
  | [] => Some (b, [])
  | ev :: evs' =>
    '(b1, a1) ← bridge_step ev b; '(b2, a2) ← bridge_run evs' b1; mret (b2, a1 ++ a2)
  end.

(** ** What a run does *)
Definition written (d : direction) (acts : list bridge_action) : list (list byte) :=
  omap (fun a => match a, d with
                 | write_to D1 p, D1 | write_to D2 p, D2 => Some p | _, _ => None end) acts.
Definition stops (acts : list bridge_action) : list bridge_action :=
  omap (fun a => match a with close_both | call_on_stop => Some a | _ => None end) acts.

Definition requests (acts : list bridge_action) : list Z :=
  omap (fun a => match a with read_exact n => Some n | _ => None end) acts.

(** The events that carry one chunk through a direction. *)
Definition pass (d : direction) (reads : list (list byte)) : list bridge_event :=
  map (ev_read d ec_ok) reads ++ (if has_limiter then [ev_tokens d] else []) ++ [ev_written d ec_ok].
(** The two reads a frame takes. *)
Definition frame_reads (packet : list byte) : list (list byte) := [ztake 4 packet; zdrop 4 packet].
Definition chunk_ok (data : list byte) : Prop := 0 < zlen data <= read_size.

(** ** Lemmas *)
Lemma written_app d xs ys : written d (xs ++ ys) = written d xs ++ written d ys.
Proof. apply omap_app. Qed.
Lemma requests_app xs ys : requests (xs ++ ys) = requests xs ++ requests ys.
Proof. apply omap_app. Qed.
Lemma stops_app xs ys : stops (xs ++ ys) = stops xs ++ stops ys.
Proof. apply omap_app. Qed.

Lemma bridge_run_app xs ys b :
  bridge_run (xs ++ ys) b =
    ('(b1, a1) ← bridge_run xs b; '(b2, a2) ← bridge_run ys b1; mret (b2, a1 ++ a2)).
Proof.
  revert b. induction xs as [|ev xs IH]; intros b; cbn [app bridge_run].
  - cbn. destruct (bridge_run ys b) as [[b2 a2]|]; done.
  - destruct (bridge_step ev b) as [[b1 a1]|]; [|done]. cbn [mbind option_bind]. rewrite IH.
    destruct (bridge_run xs b1) as [[b2 a2]|]; cbn [mbind option_bind]; [|done].
    unfold mret, option_ret. cbn [mbind option_bind].
    destruct (bridge_run ys b2) as [[b3 a3]|]; cbn [mbind option_bind]; [by rewrite app_assoc|done].
Qed.

(** After a chunk has been read, the limiter and the write bring the direction
    back to reading. *)
Lemma forward_done d packet n b :
  exists b' acts, bridge_run ((if has_limiter then [ev_tokens d] else []) ++ [ev_written d ec_ok])
      (forward d packet n b).1 = Some (b', acts) /\
    written d ((forward d packet n b).2 ++ acts) = [packet] /\
    phase_of d b' = phase_of d (DoRead d b).1 /\
    stops ((forward d packet n b).2 ++ acts) = [] /\
    requests ((forward d packet n b).2 ++ acts) = requests (DoRead d b).2.
Proof.
  assert (Hphase : forall p b0, phase_of d (set_phase d p b0) = p) by (by destruct d).
  unfold forward, write_op.
  destruct has_limiter; cbn [app bridge_run bridge_step fst snd mbind option_bind];
    rewrite ?Hphase; cbn [mbind option_bind]; unfold write_op; rewrite ?Hphase;
    unfold on_written; rewrite !decide_True by done; unfold DoRead;
    destruct use_compression, d; (eexists _, _; split; [reflexivity|repeat split]).
Qed.

Lemma chunk_passes d data b :
  use_compression = false \/ d = D1 -> phase_of d b = reading_some -> zlen data <= read_size ->
  exists b' acts, bridge_run (pass d [data]) b = Some (b', acts) /\
    written d acts = [if use_compression then frame data else data] /\
    phase_of d b' = reading_some.
Proof.
  intros Hd Hp Hsz. unfold pass.
  assert (Hstep : bridge_step (ev_read d ec_ok data) b = Some (on_chunk d ec_ok data b)).
  { cbn [bridge_step]. rewrite Hp. unfold read_fits. rewrite decide_True by done.
    rewrite (proj2 (Z.leb_le _ _)) by done. by destruct d; rewrite ?Hp. }
  cbn [map app bridge_run]. rewrite Hstep. clear Hstep.
  set (packet := if use_compression then frame data else data).
  assert (Hc : on_chunk d ec_ok data b = forward d packet (zlen data) b)
    by (unfold on_chunk, packet; rewrite decide_True by done; by destruct use_compression).
  rewrite Hc. destruct (forward_done d packet (zlen data) b) as (b' & acts & Hrun & Hw & Hph & _).
  destruct (forward d packet (zlen data) b) as [b1 a1]. cbn [fst snd] in *.
  cbn [mbind option_bind]. rewrite Hrun. eexists _, _. split; [done|]. split; [done|].
  rewrite Hph. unfold DoRead. destruct use_compression; [|by destruct d]. by destruct Hd as [?| ->].
Qed.

Lemma chunks_pass d chunks b :
  use_compression = false \/ d = D1 -> phase_of d b = reading_some ->
  Forall (fun c => zlen c <= read_size) chunks ->
  exists b' acts, bridge_run (concat (map (fun c => pass d [c]) chunks)) b = Some (b', acts) /\
    written d acts = map (fun c => if use_compression then frame c else c) chunks.
Proof.
  intros Hd. revert b. induction chunks as [|c chunks IH]; intros b Hp Hc; [by exists b, []|].
  apply Forall_cons in Hc as [Hc Hcs]. cbn [map concat]. rewrite bridge_run_app.
  destruct (chunk_passes d c b Hd Hp Hc) as (b1 & a1 & -> & Hw1 & Hp1). cbn [mbind option_bind].
  destruct (IH b1 Hp1 Hcs) as (b2 & a2 & -> & Hw2). cbn. eexists _, _. split; [done|].
  by rewrite written_app, Hw1, Hw2.
Qed.
End Bridge.

Section Framing.
Context `{ZstdLaws}.
Variables (compression_level receiver_level : Z) (has_limiter : bool).

Lemma header_length n flag :
  0 <= n <= read_size -> 
  let h := be_val (be_bytes 4 (if flag : bool then Z.lor (wrap 32 n) COMPRESSION_FLAG else wrap 32 n)) in
  Z.land h LENGTH_MASK = n /\ negb (Z.land h COMPRESSION_FLAG =? 0) = flag.
Proof.
  intros Hn h. unfold read_size in Hn.
  assert (Hw : wrap 32 n = n) by (unfold wrap; apply Z.mod_small; lia).
  assert (Hv : h = if flag then n + 2 ^ 31 else n).
  { unfold h. rewrite Hw. destruct flag.
    - change COMPRESSION_FLAG with (2 ^ 31). rewrite lor_flag_add by lia.
      rewrite be_val_bytes_small; [done|]. cbn. lia.
    - rewrite be_val_bytes_small; [done|]. cbn. lia. }
  rewrite Hv. change LENGTH_MASK with (2 ^ 31 - 1). rewrite land_ones_mod by lia.
  change COMPRESSION_FLAG with (2 ^ 31). rewrite land_flag by lia. destruct flag.
  - rewrite testbit_flag by lia. split; [|done].
    replace (n + 2 ^ 31) with (n + 1 * 2 ^ 31) by lia. rewrite Z.mod_add by lia. apply Z.mod_small. lia.
  - rewrite testbit_small by lia. split; [apply Z.mod_small; lia|done].
Qed.

(** A frame as header and body, and what the body stands for. *)
Lemma frame_shape data :
  chunk_ok data ->
  exists n flag body, frame compression_level data =
      be_bytes 4 (if flag : bool then Z.lor (wrap 32 n) COMPRESSION_FLAG else wrap 32 n) ++ body /\
    zlen body = n /\ 0 <= n <= read_size /\
    (flag = false /\ body = data \/
     flag = true /\ frame_content_size body = Some (zlen data) /\ decompress (zlen data) body = Some data).
Proof.
  intros Hc. unfold frame, chunk_ok in *. destruct (compress compression_level data) as [c|] eqn:E.
  - destruct (zlen c <? zlen data) eqn:El; bool_hyps.
    + exists (zlen c), true, c. split; [done|]. split; [done|]. split; [pose proof (zlen_nonneg c); lia|].
      right. split; [done|]. split; [by eapply content_size_compress|by eapply decompress_compress].
    + exists (zlen data), false, data. split; [done|]. split; [done|]. split; [lia|by left].
  - exists (zlen data), false, data. split; [done|]. split; [done|]. split; [lia|by left].
Qed.

Lemma frame_passes data b :
  chunk_ok data -> phase2 b = reading_header ->
  exists b' acts, bridge_run true receiver_level has_limiter
      (pass has_limiter D2 (frame_reads (frame compression_level data))) b = Some (b', acts) /\
    written D2 acts = [data] /\ phase2 b' = reading_header /\
    requests acts = [zlen (frame compression_level data) - 4; 4].
Proof.
  intros Hc Hp. destruct (frame_shape data Hc) as (n & flag & body & Hf & Hlen & Hn & Hbody).
  set (hdr := be_bytes 4 _) in Hf. assert (Hhdr : zlen hdr = 4) by done.
  unfold pass, frame_reads. rewrite Hf, ztake_app_exact, zdrop_app_exact by done.
  cbn [map app bridge_run bridge_step phase_of]. rewrite Hp.
  assert (Hfit1 : read_fits reading_header ec_ok hdr = true)
    by (unfold read_fits; rewrite decide_True, Hhdr by done; done).
  assert (Hfit2 : read_fits (reading_body n flag) ec_ok body = true)
    by (unfold read_fits; rewrite decide_True, Hlen by done; apply Z.eqb_refl).
  rewrite Hfit1. cbn [negb].
  unfold on_header. rewrite decide_True by done.
  destruct (header_length n flag Hn) as [H1 H2]. fold hdr in H1, H2. rewrite H1, H2.
  replace (MAX_MESSAGE_SIZE <? n) with false
    by (symmetry; apply Z.ltb_ge; unfold MAX_MESSAGE_SIZE, read_size in *; lia).
  cbn [mbind option_bind]. cbn [phase_of set_phase phase2]. rewrite Hfit2. cbn [negb]. set (b1 := set_phase D2 (reading_body n flag) b).
  assert (Hb : on_body has_limiter flag ec_ok body b1 = forward has_limiter D2 data (zlen data) b1).
  { unfold on_body. rewrite decide_True by done. destruct Hbody as [[-> ->]|(-> & Hs & Hd)]; [done|].
    rewrite Hs, Hd. replace (MAX_DECOMPRESSED_SIZE <? zlen data) with false; [done|].
    symmetry. apply Z.ltb_ge. unfold chunk_ok, read_size, MAX_DECOMPRESSED_SIZE in *. lia. }
  rewrite Hb.
  destruct (forward_done true receiver_level has_limiter D2 data (zlen data) b1)
    as (b' & acts & Hrun & Hw & Hph & _ & Hrq).
  destruct (forward has_limiter D2 data (zlen data) b1) as [b2 a2]. cbn [fst snd] in *.
  cbn [mbind option_bind]. rewrite Hrun. cbn [mbind option_bind].
  eexists _, _. split; [done|]. split; [exact Hw|]. split; [exact Hph|].
  rewrite zlen_app, Hhdr, Hlen. replace (4 + n - 4) with n by lia. cbn [app].
  change (n :: requests (a2 ++ acts) = [n; 4]). by rewrite Hrq.
Qed.

Lemma frames_pass chunks b :
  Forall chunk_ok chunks -> phase2 b = reading_header ->
  exists b' acts, bridge_run true receiver_level has_limiter
      (concat (map (fun c => pass has_limiter D2 (frame_reads (frame compression_level c))) chunks)) b =
      Some (b', acts) /\ written D2 acts = chunks /\
    requests acts = concat (map (fun c => [zlen (frame compression_level c) - 4; 4]) chunks).
Proof.
  revert b. induction chunks as [|c chunks IH]; intros b Hc Hp; [by exists b, []|].
  apply Forall_cons in Hc as [Hc Hcs]. cbn [map concat]. rewrite bridge_run_app.
  destruct (frame_passes c b Hc Hp) as (b1 & a1 & -> & Hw1 & Hp1 & Hr1). cbn [mbind option_bind].
  destruct (IH b1 Hcs Hp1) as (b2 & a2 & -> & Hw2 & Hr2). cbn [mbind option_bind].
  eexists _, _. split; [done|]. by rewrite written_app, requests_app, Hw1, Hw2, Hr1, Hr2.
Qed.
End Framing.

(** ** Stopping and bounds *)
Section Safety.
Context `{ZstdLaws}.
Variables (use_compression : bool) (compression_level : Z) (has_limiter : bool).

(** What the peer can make the bridge allocate. *)
Definition action_bounded (a : bridge_action) : Prop :=
  match a with
  | read_exact n => 0 <= n <= MAX_MESSAGE_SIZE
  | write_to D2 p => zlen p <= MAX_DECOMPRESSED_SIZE
  | _ => True
  end.
Definition phase_bounded (p : phase) : Prop :=
  match p with
  | reading_body n _ => 0 <= n <= MAX_MESSAGE_SIZE
  | limited p _ => zlen p <= MAX_DECOMPRESSED_SIZE
  | _ => True
  end.

(** Closing happens once, with the transition to stopped. *)
Definition step_stops (b b' : Bridge) (acts : list bridge_action) : Prop :=
  stops acts = (if stopped_ b' && negb (stopped_ b) then [close_both; call_on_stop] else []) /\
  (stopped_ b = true -> stopped_ b' = true).
Definition step_bounded (b' : Bridge) (acts : list bridge_action) : Prop :=
  phase_bounded (phase2 b') /\ Forall action_bounded acts.

Ltac all_actions := repeat first [apply Forall_nil_2 | apply Forall_cons_2]; cbn; try done.

Lemma fail_safe d b :
  phase_bounded (phase2 b) ->
  step_stops b (fail d b).1 (fail d b).2 /\ step_bounded (fail d b).1 (fail d b).2.
Proof.
  intros Hb. unfold fail, HandleStop, step_stops, step_bounded.
  destruct b as [[|] br bs p1 p2], d; cbn in *; repeat split; try done; all_actions.
Qed.

Lemma forward_safe d p n b :
  phase_bounded (phase2 b) -> (d = D2 -> zlen p <= MAX_DECOMPRESSED_SIZE) ->
  step_stops b (forward has_limiter d p n b).1 (forward has_limiter d p n b).2 /\
  step_bounded (forward has_limiter d p n b).1 (forward has_limiter d p n b).2.
Proof.
  intros Hb Hp. unfold forward, write_op, step_stops, step_bounded. destruct has_limiter, d; cbn;
    destruct (stopped_ b); cbn; repeat split; try done; all_actions; auto.
Qed.

Lemma doread_safe d b :
  phase_bounded (phase2 b) ->
  step_stops b (DoRead use_compression d b).1 (DoRead use_compression d b).2 /\
  step_bounded (DoRead use_compression d b).1 (DoRead use_compression d b).2.
Proof.
  intros Hb. unfold DoRead, step_stops, step_bounded. destruct use_compression, d; cbn;
    destruct (stopped_ b); cbn; repeat split; try done; all_actions.
Qed.

Lemma frame_length data : zlen (frame compression_level data) <= 4 + zlen data.
Proof.
  unfold frame. repeat case_match; bool_hyps; rewrite zlen_app, zlen_be_bytes; lia.
Qed.

Lemma on_chunk_safe d ec data b :
  phase_bounded (phase2 b) -> (ec = ec_ok -> zlen data <= read_size) ->
  step_stops b (on_chunk use_compression compression_level has_limiter d ec data b).1
    (on_chunk use_compression compression_level has_limiter d ec data b).2 /\
  step_bounded (on_chunk use_compression compression_level has_limiter d ec data b).1
    (on_chunk use_compression compression_level has_limiter d ec data b).2.
Proof.
  intros Hb Hsz. unfold on_chunk. destruct (decide (ec = ec_ok)); [|by apply fail_safe].
  specialize (Hsz e). pose proof (frame_length data). unfold read_size in *.
  destruct use_compression; apply forward_safe; try done; intros _; unfold MAX_DECOMPRESSED_SIZE; lia.
Qed.

Lemma on_header_safe ec data b :
  phase_bounded (phase2 b) ->
  step_stops b (on_header ec data b).1 (on_header ec data b).2 /\
  step_bounded (on_header ec data b).1 (on_header ec data b).2.
Proof.
  intros Hb. unfold on_header. destruct (decide (ec = ec_ok)); [|by apply fail_safe].
  destruct (MAX_MESSAGE_SIZE <? _) eqn:El; [by apply fail_safe|]. bool_hyps.
  assert (0 <= Z.land (be_val data) LENGTH_MASK)
    by (apply Z.land_nonneg; left; apply be_val_range).
  split; [unfold step_stops; cbn; by destruct (stopped_ b)|].
  split; [cbn; lia|]. apply Forall_singleton. cbn. lia.
Qed.

Lemma on_body_safe compressed ec data b :
  phase_bounded (phase2 b) -> (ec = ec_ok -> zlen data <= MAX_MESSAGE_SIZE) ->
  step_stops b (on_body has_limiter compressed ec data b).1 (on_body has_limiter compressed ec data b).2 /\
  step_bounded (on_body has_limiter compressed ec data b).1 (on_body has_limiter compressed ec data b).2.
Proof.
  intros Hb Hsz. unfold on_body. destruct (decide (ec = ec_ok)) as [e|]; [|by apply fail_safe].
  specialize (Hsz e). destruct compressed.
  - destruct (frame_content_size data) as [n|]; [|by apply fail_safe].
    destruct (MAX_DECOMPRESSED_SIZE <? n) eqn:En; [by apply fail_safe|]. bool_hyps.
    destruct (decompress n data) as [out|] eqn:Ed; [|by apply fail_safe].
    apply decompress_fits in Ed. apply forward_safe; [done|]. intros _. lia.
  - apply forward_safe; [done|]. intros _. unfold MAX_MESSAGE_SIZE, MAX_DECOMPRESSED_SIZE in *. lia.
Qed.

Lemma read_fits_ok p data :
  read_fits p ec_ok data = true ->
  match p with
  | reading_some => zlen data <= read_size
  | reading_header => zlen data = 4
  | reading_body len _ => zlen data = len
  | _ => False
  end.
Proof. unfold read_fits. rewrite decide_True by done. destruct p; intros; bool_hyps; done. Qed.

Lemma bridge_step_safe ev b b' acts :
  phase_bounded (phase2 b) ->
  bridge_step use_compression compression_level has_limiter ev b = Some (b', acts) ->
  step_stops b b' acts /\ step_bounded b' acts.
Proof.
  intros Hb. destruct ev as [d ec data|d|d ec]; cbn [bridge_step].
  - destruct (read_fits (phase_of d b) ec data) eqn:Efit; [|done]. cbn [negb].
    destruct d; cbn [phase_of] in *.
    + destruct (phase1 b); try done. intros [= E].
      pose proof (on_chunk_safe D1 ec data b Hb) as Hs. rewrite E in Hs. apply Hs.
      intros ->. by apply read_fits_ok in Efit.
    + destruct (phase2 b) as [| | |len compressed| | |] eqn:Ep; try done; intros [= E].
      * pose proof (on_chunk_safe D2 ec data b) as Hs. rewrite E, Ep in Hs. apply Hs; [done|].
        intros ->. by apply read_fits_ok in Efit.
      * pose proof (on_header_safe ec data b) as Hs. rewrite E, Ep in Hs. by apply Hs.
      * pose proof (on_body_safe compressed ec data b) as Hs. rewrite E, Ep in Hs. apply Hs; [done|].
        intros ->. apply read_fits_ok in Efit. cbn in Hb. lia.
  - destruct (phase_of d b) as [| | |len compressed|p n| |] eqn:Ep; try done. intros [= <- <-].
    unfold write_op, step_stops, step_bounded. destruct d; cbn in *; destruct (stopped_ b); cbn;
      repeat split; try done; all_actions; rewrite Ep in Hb; done.
  - destruct (phase_of d b) eqn:Ep; try done. intros [= E]. unfold on_written in E.
    destruct (decide (ec = ec_ok)).
    + pose proof (doread_safe d b Hb) as Hs. by rewrite E in Hs.
    + pose proof (fail_safe d b Hb) as Hs. by rewrite E in Hs.
Qed.

Lemma bridge_run_safe evs b b' acts :
  phase_bounded (phase2 b) ->
  bridge_run use_compression compression_level has_limiter evs b = Some (b', acts) ->
  step_stops b b' acts /\ step_bounded b' acts.
Proof.
  revert b acts. induction evs as [|ev evs IH]; intros b acts Hb Hrun.
  { injection Hrun as <- <-. unfold step_stops, step_bounded.
    split; [|by split]. by destruct (stopped_ b). }
  cbn [bridge_run] in Hrun.
  destruct (bridge_step _ _ _ ev b) as [[b1 a1]|] eqn:E1; [|done]. cbn [mbind option_bind] in Hrun.
  destruct (bridge_run _ _ _ evs b1) as [[b2 a2]|] eqn:E2; [|done]. injection Hrun as <- <-.
  apply bridge_step_safe in E1 as [[S1 S1'] [B1 B1']]; [|done].
  apply IH in E2 as [[S2 S2'] [B2 B2']]; [|done].
  split; [split|].
  - rewrite stops_app, S1, S2.
    destruct (stopped_ b), (stopped_ b1), (stopped_ b2); try done;
      first [discriminate (S1' eq_refl)|discriminate (S2' eq_refl)].
  - auto.
  - split; [done|]. apply Forall_app. by split.
Qed.
End Safety.

(** ** Properties *)

(** C11 A compressed connection carries the bytes unchanged.  The bridge at one end turns the
    chunks it reads into frames (compressed when that is smaller); the bridge at the other end,
    reading those frames, asks for exactly their headers and bodies in turn and writes the
    original chunks, one by one and in order, whatever the levels and rate limiters. *)
Theorem bridge_roundtrip {Z0 : Zstd} {L : ZstdLaws} (level1 level2 : Z) (limit1 limit2 : bool)
    (chunks : list (list byte)) (Hchunks : Forall chunk_ok chunks) :
  exists b1 acts1 b2 acts2,
    bridge_run true level1 limit1 (concat (map (fun c => pass limit1 D1 [c]) chunks))
      (Start true new_bridge).1 = Some (b1, acts1) /\
    written D1 acts1 = map (frame level1) chunks /\
    bridge_run true level2 limit2
      (concat (map (fun p => pass limit2 D2 (frame_reads p)) (written D1 acts1)))
      (Start true new_bridge).1 = Some (b2, acts2) /\
    written D2 acts2 = chunks /\
    requests ((Start true new_bridge).2 ++ acts2) =
      4 :: concat (map (fun p => [zlen p - 4; 4]) (written D1 acts1)).
Proof.
  destruct (chunks_pass true level1 limit1 D1 chunks (Start true new_bridge).1)
    as (b1 & acts1 & E1 & W1); [by right|done|eapply Forall_impl; [exact Hchunks|by intros c []]|].
  destruct (frames_pass level1 level2 limit2 chunks (Start true new_bridge).1 Hchunks eq_refl)
    as (b2 & acts2 & E2 & W2 & R2).
  exists b1, acts1, b2, acts2. rewrite W1. split; [done|]. split; [done|].
  rewrite !map_map. split; [done|]. split; [done|]. by rewrite requests_app, R2.
Qed.

(** Without compression each direction writes exactly the chunks it reads, in order. *)
Theorem bridge_passthrough {Z0 : Zstd} (level : Z) (limit : bool) (d : direction)
    (chunks : list (list byte)) (Hchunks : Forall chunk_ok chunks) :
  exists b acts, bridge_run false level limit (concat (map (fun c => pass limit d [c]) chunks))
      (Start false new_bridge).1 = Some (b, acts) /\ written d acts = chunks.
Proof.
  destruct (chunks_pass false level limit d chunks (Start false new_bridge).1)
    as (b & acts & E & W); [by left|by destruct d|eapply Forall_impl; [exact Hchunks|by intros c []]|].
  exists b, acts. split; [done|]. by rewrite W, map_id.
Qed.

(** Whatever the two sides and the limiter do, the bridge closes its streams and reports
    its end exactly once, when it first fails; it never asks for more than [MAX_MESSAGE_SIZE]
    bytes at once and never writes more than [MAX_DECOMPRESSED_SIZE] bytes to the user, so a
    hostile peer cannot make it allocate more. *)
Theorem bridge_stops_once_and_bounded {Z0 : Zstd} {L : ZstdLaws} (compression limit : bool) (level : Z)
    (evs : list bridge_event) (b : Bridge) (acts : list bridge_action)
    (Hrun : bridge_run compression level limit evs (Start compression new_bridge).1 = Some (b, acts)) :
  stops acts = (if stopped_ b then [close_both; call_on_stop] else []) /\ Forall action_bounded acts.
Proof.
  apply bridge_run_safe in Hrun as [[Hs _] [_ Hb]]; [|by destruct compression].
  split; [|done]. rewrite Hs. destruct compression; cbn; by rewrite andb_true_r.
Qed.

(** ** Concrete instances *)
#[local] Existing Instance rle_zstd.
#[local] Existing Instance rle_laws.
Definition demo_chunks : list (list byte) :=
  [repeat Byte.x41 300; [Byte.x42; Byte.x43]; repeat Byte.x00 20].

Lemma bridge_roundtrip_witness :
  exists b1 acts1 b2 acts2,
    bridge_run true 1 false (concat (map (fun c => pass false D1 [c]) demo_chunks))
      (Start true new_bridge).1 = Some (b1, acts1) /\
    written D1 acts1 = map (frame 1) demo_chunks /\
    bridge_run true 3 true
      (concat (map (fun p => pass true D2 (frame_reads p)) (written D1 acts1)))
      (Start true new_bridge).1 = Some (b2, acts2) /\
    written D2 acts2 = demo_chunks /\
    requests ((Start true new_bridge).2 ++ acts2) =
      4 :: concat (map (fun p => [zlen p - 4; 4]) (written D1 acts1)).
Proof.
  apply (bridge_roundtrip 1 3 false true demo_chunks).
  repeat constructor; vm_compute; congruence.
Defined.

Lemma bridge_passthrough_witness :
  exists b acts, bridge_run false 1 true (concat (map (fun c => pass true D2 [c]) demo_chunks))
      (Start false new_bridge).1 = Some (b, acts) /\ written D2 acts = demo_chunks.
Proof. apply (bridge_passthrough 1 true D2 demo_chunks). repeat constructor; vm_compute; congruence. Defined.

Definition demo_bridge_events : list bridge_event :=
  pass false D1 [[Byte.x01; Byte.x01]] ++ [ev_read D1 ec_eof []; ev_read D2 ec_operation_aborted []].
Lemma bridge_stops_once_and_bounded_witness :
  exists b acts, bridge_run true 1 false demo_bridge_events (Start true new_bridge).1 = Some (b, acts) /\
  stopped_ b = true /\
  stops acts = (if stopped_ b then [close_both; call_on_stop] else []) /\ Forall action_bounded acts.
Proof.
  eexists _, _. split; [reflexivity|]. split; [reflexivity|].
  apply (bridge_stops_once_and_bounded true false 1 demo_bridge_events). reflexivity.
Defined.
