(* ===== verification/PooledBridge.v ===== *)
(** * The bridge with its buffers (async_bridge.cpp, buffer_pool.h and
    zstd_utils.h together)

    Bridge.v passes bytes from one operation to the next.  The code passes
    buffers: [data1_] and [data2_], taken from the pool once and read into again
    and again, packets and bodies taken from it one by one, and the growing
    buffers of the compressor and the decompressor.  Here the bytes are in a
    memory shared with everything else that uses the pool, a phase names a
    buffer and a length, and what is written is what the buffer holds. *)
From Stdlib Require Import ZArith Lia Strings.Byte.
From stdpp Require Import base tactics list gmap.
From S2P Require Import Prelude Protocol Zstd BufferPool Bridge.
Local Open Scope Z_scope.

(** ** Memory *)
Abbreviation memory := (gmap nat (list byte)).
Definition content (m : memory) (b : Buffer) : list byte := default [] (m !! buf_id b).
(** [n] bytes from the start of a buffer. *)
Definition read_mem (m : memory) (b : Buffer) (n : Z) : list byte := ztake n (content m b).
(** [memcpy], or a completed read, to the start of a buffer; [None] when it
    would leave the buffer. *)
Definition store (b : Buffer) (bytes : list byte) (m : memory) : option memory :=
  if zlen bytes <=? buf_size b then Some (<[buf_id b := bytes ++ zdrop (zlen bytes) (content m b)]> m) else None.

(** ** The buffers of the compressor *)
(** [get_compress_buf], [get_decompress_buf]: the vector grows with zeros. *)
Definition grown (size : Z) (buf : list byte) : list byte := buf ++ repeat x00 (Z.to_nat (size - zlen buf)).
(** [src] written over the start of [dst]. *)
Definition overlay (src dst : list byte) : list byte := ztake (zlen dst) (src ++ zdrop (zlen src) dst).
(** A call that leaves [out] at the start of the buffer and anything behind it;
    [None] when it would leave the capacity it was given. *)
Definition left_in (capacity : Z) (out junk buf : list byte) : option (list byte) :=
  if zlen out <=? capacity then Some (overlay out (overlay junk buf)) else None.

(** ** The bridge *)
Inductive mphase : Type :=
| m_not_started
| m_reading_some
| m_reading_header
| m_reading_body (b : Buffer) (len : Z) (compressed : bool)
| m_limited (b : Buffer) (len : Z) (owned : bool) (counted : Z)
| m_writing (b : Buffer) (len : Z) (owned : bool)
| m_halted.
Record MBridge : Type := {
  mb_stopped : bool;
  mb_received : Z;
  mb_sent : Z;
  data1_ : Buffer;
  data2_ : Buffer;
  compress_buf_ : list byte;
  decompress_buf_ : list byte;
  mphase1 : mphase;
  mphase2 : mphase
}.
Record pooled : Type := { p_pool : BufferPool; p_others : list Buffer; p_mem : memory; p_bridge : MBridge }.

#[global] Instance direction_eq_dec : EqDecision direction.
Proof. solve_decision. Defined.
Definition data_of (d : direction) (b : MBridge) : Buffer := match d with D1 => data1_ b | D2 => data2_ b end.
Definition mphase_of (d : direction) (b : MBridge) : mphase := match d with D1 => mphase1 b | D2 => mphase2 b end.
Definition set_mphase (d : direction) (ph : mphase) (b : MBridge) : MBridge := {|
  mb_stopped := mb_stopped b; mb_received := mb_received b; mb_sent := mb_sent b; data1_ := data1_ b; data2_ := data2_ b;
  compress_buf_ := compress_buf_ b; decompress_buf_ := decompress_buf_ b;
  mphase1 := match d with D1 => ph | D2 => mphase1 b end; mphase2 := match d with D1 => mphase2 b | D2 => ph end |}.
Definition set_work (c dc : list byte) (b : MBridge) : MBridge := {|
  mb_stopped := mb_stopped b; mb_received := mb_received b; mb_sent := mb_sent b; data1_ := data1_ b; data2_ := data2_ b;
  compress_buf_ := c; decompress_buf_ := dc; mphase1 := mphase1 b; mphase2 := mphase2 b |}.
Definition mcount (d : direction) (n : Z) (b : MBridge) : MBridge := {|
  mb_stopped := mb_stopped b;
  mb_received := match d with D1 => wrap 64 (mb_received b + n) | D2 => mb_received b end;
  mb_sent := match d with D1 => mb_sent b | D2 => wrap 64 (mb_sent b + n) end;
  data1_ := data1_ b; data2_ := data2_ b; compress_buf_ := compress_buf_ b; decompress_buf_ := decompress_buf_ b;
  mphase1 := mphase1 b; mphase2 := mphase2 b |}.
Definition set_stopped (b : MBridge) : MBridge := {|
  mb_stopped := true; mb_received := mb_received b; mb_sent := mb_sent b; data1_ := data1_ b; data2_ := data2_ b;
  compress_buf_ := compress_buf_ b; decompress_buf_ := decompress_buf_ b; mphase1 := mphase1 b; mphase2 := mphase2 b |}.
Definition with_bridge (b : MBridge) (s : pooled) : pooled :=
  {| p_pool := p_pool s; p_others := p_others s; p_mem := p_mem s; p_bridge := b |}.
Definition with_mem (m : memory) (s : pooled) : pooled :=
  {| p_pool := p_pool s; p_others := p_others s; p_mem := m; p_bridge := p_bridge s |}.
Definition with_pool (p : BufferPool) (s : pooled) : pooled :=
  {| p_pool := p; p_others := p_others s; p_mem := p_mem s; p_bridge := p_bridge s |}.

Inductive maction : Type :=
| m_read_some (d : direction) (b : Buffer) (n : Z)
| m_read_exact (n : Z)                               (* the header, or a body *)
| m_wait_tokens (d : direction) (n : Z)
| m_write_to (d : direction) (b : Buffer) (len : Z)
| m_close_both
| m_call_on_stop.

(** An action with the bytes of its buffer. *)
Definition view_act (m : memory) (a : maction) : bridge_action :=
  match a with
  | m_read_some d _ n => read_some d n
  | m_read_exact n => read_exact n
  | m_wait_tokens d n => wait_tokens d n
  | m_write_to d b len => write_to d (read_mem m b len)
  | m_close_both => close_both
  | m_call_on_stop => call_on_stop
  end.

(** The buffer a phase keeps alive: its lambda holds the last reference. *)
Definition kept (ph : mphase) : list Buffer :=
  match ph with
  | m_reading_body b _ _ => [b]
  | m_limited b _ owned _ | m_writing b _ owned => if owned then [b] else []
  | _ => []
  end.
Definition release_all (bs : list Buffer) (s : pooled) : pooled :=
  with_pool (foldr release (p_pool s) bs) s.

Section PooledBridge.
Context `{Zstd}.
(** [ZSTD_compressBound]. *)
Variable compress_bound : Z -> Z.
Variables (use_compression : bool) (compression_level : Z) (has_limiter : bool).

Definition m_get (size : Z) (s : pooled) : option (pooled * Buffer) :=
  '(p, b) ← Get size (p_pool s); mret (with_pool p s, b).
(** The constructor. *)
Definition make_bridge (p : BufferPool) (others : list Buffer) (m : memory) : option pooled :=
  '(p1, d1) ← Get read_size p; '(p2, d2) ← Get read_size p1;
  mret {| p_pool := p2; p_others := others; p_mem := m;
          p_bridge := {| mb_stopped := false; mb_received := 0; mb_sent := 0; data1_ := d1; data2_ := d2;
                         compress_buf_ := []; decompress_buf_ := []; mphase1 := m_not_started; mphase2 := m_not_started |} |}.

Definition m_stop (s : pooled) : pooled * list maction :=
  if mb_stopped (p_bridge s) then (s, []) else (with_bridge (set_stopped (p_bridge s)) s, [m_close_both; m_call_on_stop]).
(** The phase ends and its lambda goes away. *)
Definition m_leave (d : direction) (ph : mphase) (s : pooled) : pooled :=
  let old := kept (mphase_of d (p_bridge s)) in release_all old (with_bridge (set_mphase d ph (p_bridge s)) s).
Definition m_fail (d : direction) (s : pooled) : pooled * list maction := m_stop (m_leave d m_halted s).
Definition m_DoRead (d : direction) (s : pooled) : pooled * list maction :=
  if negb use_compression then (m_leave d m_reading_some s, [m_read_some d (data_of d (p_bridge s)) read_size])
  else match d with
       | D1 => (m_leave D1 m_reading_some s, [m_read_some D1 (data1_ (p_bridge s)) read_size])
       | D2 => (m_leave D2 m_reading_header s, [m_read_exact 4])
       end.
Definition m_Start (s : pooled) : pooled * list maction :=
  let '(s1, a1) := m_DoRead D1 s in let '(s2, a2) := m_DoRead D2 s1 in (s2, a1 ++ a2).
Definition m_write_op (d : direction) (b : Buffer) (len : Z) (owned : bool) (counted : Z) (s : pooled) : pooled * list maction :=
  (with_bridge (set_mphase d (m_writing b len owned) (mcount d counted (p_bridge s))) s, [m_write_to d b len]).
(** The buffer handed on is not the one the phase before kept, or is it. *)
Definition m_forward (d : direction) (b : Buffer) (len : Z) (owned : bool) (counted : Z) (s : pooled) : pooled * list maction :=
  if has_limiter
  then (with_bridge (set_mphase d (m_limited b len owned counted) (p_bridge s)) s, [m_wait_tokens d counted])
  else m_write_op d b len owned counted s.

(** A chunk of [n] bytes is in the read buffer: compressed into
    [compress_buf_], put into a packet.  With compression only [D1] reads chunks. *)
Definition m_pack (d : direction) (n : Z) (junk : list byte) (s : pooled) : option (pooled * list maction) :=
  let b := p_bridge s in
  let data := read_mem (p_mem s) (data_of d b) n in
  let buf := grown (compress_bound n) (compress_buf_ b) in
  '(cbuf, header, payload) ←
    match compress compression_level data with
    | Some c =>
      cbuf ← left_in (compress_bound n) c junk buf;
      mret (if zlen c <? n then (cbuf, be_bytes 4 (Z.lor (wrap 32 (zlen c)) COMPRESSION_FLAG), ztake (zlen c) cbuf)
            else (cbuf, be_bytes 4 (wrap 32 n), data))
    | None => mret (overlay junk buf, be_bytes 4 (wrap 32 n), data)
    end;
  let s1 := with_bridge (set_work cbuf (decompress_buf_ b) b) s in
  '(s2, packet) ← m_get (4 + zlen payload) s1;
  m ← store packet (header ++ payload) (p_mem s2);
  mret (m_forward d packet (4 + zlen payload) true n (with_mem m s2)).
Definition m_on_chunk (d : direction) (ec : error_code) (data junk : list byte) (s : pooled) : option (pooled * list maction) :=
  if decide (ec = ec_ok) then
    m ← store (data_of d (p_bridge s)) data (p_mem s);
    let s1 := with_mem m s in
    if use_compression then m_pack d (zlen data) junk s1
    else mret (m_forward d (data_of d (p_bridge s1)) (zlen data) false (zlen data) s1)
  else mret (m_fail d s).
Definition m_on_header (ec : error_code) (header : list byte) (s : pooled) : option (pooled * list maction) :=
  if decide (ec = ec_ok) then
    let h2 := be_val header in
    let len := Z.land h2 LENGTH_MASK in
    let compressed := negb (Z.land h2 COMPRESSION_FLAG =? 0) in
    if MAX_MESSAGE_SIZE <? len then mret (m_fail D2 s)
    else '(s1, body) ← m_get len s;
         mret (with_bridge (set_mphase D2 (m_reading_body body len compressed) (p_bridge s1)) s1, [m_read_exact len])
  else mret (m_fail D2 s).
Definition m_on_body (body : Buffer) (len : Z) (compressed : bool) (ec : error_code) (data junk : list byte) (s : pooled)
  : option (pooled * list maction) :=
  if decide (ec = ec_ok) then
    m ← store body data (p_mem s);
    let s1 := with_mem m s in
    if compressed then
      let src := read_mem m body len in
      match frame_content_size src with
      | None => mret (m_fail D2 s1)
      | Some decodedSize =>
        if MAX_DECOMPRESSED_SIZE <? decodedSize then mret (m_fail D2 s1) else
        let b := p_bridge s1 in
        let buf := grown decodedSize (decompress_buf_ b) in
        match decompress decodedSize src with
        | None => mret (m_fail D2 (with_bridge (set_work (compress_buf_ b) (overlay junk buf) b) s1))
        | Some out =>
          dbuf ← left_in decodedSize out junk buf;
          '(s2, final) ← m_get (zlen out) (with_bridge (set_work (compress_buf_ b) dbuf b) s1);
          m2 ← store final (ztake (zlen out) dbuf) (p_mem s2);
          mret (m_forward D2 final (zlen out) true (zlen out) (release_all [body] (with_mem m2 s2)))
        end
      end
    else mret (m_forward D2 body len true len s1)
  else mret (m_fail D2 s).
Definition m_on_written (d : direction) (ec : error_code) (s : pooled) : pooled * list maction :=
  if decide (ec = ec_ok) then m_DoRead d s else m_fail d s.

(** [junk]: what the compressor leaves behind its output. *)
Definition m_bridge_step (ev : bridge_event) (junk : list byte) (s : pooled) : option (pooled * list maction) :=
  match ev with
  | ev_read d ec data =>
    match d, mphase_of d (p_bridge s) with
    | _, m_reading_some =>
      if (if decide (ec = ec_ok) then zlen data <=? read_size else true) then m_on_chunk d ec data junk s else None
    | D2, m_reading_header =>
      if (if decide (ec = ec_ok) then zlen data =? 4 else true) then m_on_header ec data s else None
    | D2, m_reading_body b len compressed =>
      if (if decide (ec = ec_ok) then zlen data =? len else true) then m_on_body b len compressed ec data junk s else None
    | _, _ => None
    end
  | ev_tokens d =>
    match mphase_of d (p_bridge s) with
    | m_limited b len owned n => Some (m_write_op d b len owned n s)
    | _ => None
    end
  | ev_written d ec =>
    match mphase_of d (p_bridge s) with m_writing _ _ _ => Some (m_on_written d ec s) | _ => None end
  end.

(** The rest of the program: it takes, returns and fills buffers of its own. *)
Inductive pooled_event : Type :=
| pe_bridge (ev : bridge_event) (junk : list byte)
| pe_get (size : Z)
| pe_release (i : nat)
| pe_fill (i : nat) (bytes : list byte).
Definition pooled_step (ev : pooled_event) (s : pooled) : option (pooled * list maction) :=
  match ev with
  | pe_bridge ev junk => m_bridge_step ev junk s
  | pe_get size =>
    '(s1, b) ← m_get size s;
    mret ({| p_pool := p_pool s1; p_others := p_others s1 ++ [b]; p_mem := p_mem s1; p_bridge := p_bridge s1 |}, [])
  | pe_release i =>
    b ← p_others s !! i;
    mret ({| p_pool := release b (p_pool s); p_others := delete i (p_others s); p_mem := p_mem s; p_bridge := p_bridge s |}, [])
  | pe_fill i bytes =>
    b ← p_others s !! i; m ← store b bytes (p_mem s); mret (with_mem m s, [])
  end.
(** What a run does, each action with the bytes its buffer holds at that moment. *)
Fixpoint pooled_run (evs : list pooled_event) (s : pooled) : option (pooled * list bridge_action) :=
  match evs with
  | [] => Some (s, [])
  | ev :: evs' =>
    '(s1, a1) ← pooled_step ev s; '(s2, a2) ← pooled_run evs' s1; mret (s2, map (view_act (p_mem s1)) a1 ++ a2)
  end.
Definition bridge_events (evs : list pooled_event) : list bridge_event :=
  omap (fun ev => match ev with pe_bridge ev _ => Some ev | _ => None end) evs.
End PooledBridge.

(** ** Buffers and what they hold *)
Lemma outstanding_perm s l l' : l ≡ₚ l' -> outstanding s l' = outstanding s l.
Proof. induction 1; cbn; [done|congruence|ring|congruence]. Qed.
Lemma pool_inv_perm p l l' : l ≡ₚ l' -> pool_inv p l -> pool_inv p l'.
Proof.
  intros Hp [H1 H2 H3 H4 H5 [H6a H6b] H7].
  assert (Ho : forall s, outstanding s l' = outstanding s l) by (intros s; by apply outstanding_perm).
  assert (Hm : map buf_id l ≡ₚ map buf_id l') by (by apply Permutation_map).
  split; try done.
  - intros s b Hb. rewrite Ho. by apply H3.
  - intros s b Hb. destruct (H4 s b Hb) as [Hn Hf]. split; [done|]. intros i Hi. rewrite <- Hm. by apply Hf.
  - rewrite <- Hm, <- Hp. done.
  - by rewrite <- Hp.
Qed.
Lemma content_store b bytes m m' : store b bytes m = Some m' -> read_mem m' b (zlen bytes) = bytes.
Proof.
  unfold store. destruct (_ <=? _); [|done]. intros [= <-]. unfold read_mem, content. rewrite lookup_insert_eq. cbn.
  by apply ztake_app_exact.
Qed.
Lemma content_other b b' bytes m m' : store b bytes m = Some m' -> buf_id b' <> buf_id b -> content m' b' = content m b'.
Proof. unfold store. destruct (_ <=? _); [|done]. intros [= <-] Hne. unfold content. by rewrite lookup_insert_ne. Qed.
Lemma overlay_start src dst : zlen src <= zlen dst -> ztake (zlen src) (overlay src dst) = src.
Proof. intros H. unfold overlay. rewrite ztake_app_ge by done. by apply ztake_app_exact. Qed.
Lemma zlen_overlay src dst : zlen (overlay src dst) = zlen dst.
Proof.
  unfold overlay. pose proof (zlen_nonneg dst). rewrite zlen_ztake by done. rewrite zlen_app.
  pose proof (zlen_nonneg (zdrop (zlen src) dst)). pose proof (zlen_nonneg src).
  destruct (Z.le_gt_cases (zlen src) (zlen dst)); [rewrite zlen_zdrop by lia; lia|lia].
Qed.
Lemma zlen_grown size buf : zlen (grown size buf) = Z.max size (zlen buf).
Proof.
  assert (E : forall k, zlen (repeat x00 k) = Z.of_nat k) by (intros k; unfold zlen; by rewrite repeat_length).
  unfold grown. rewrite zlen_app, E. pose proof (zlen_nonneg buf). lia.
Qed.
Lemma left_in_start capacity out junk buf r : left_in capacity out junk (grown capacity buf) = Some r -> ztake (zlen out) r = out.
Proof.
  unfold left_in. destruct (_ <=? _) eqn:E; [|done]. intros [= <-]. bool_hyps. apply overlay_start.
  rewrite zlen_overlay, zlen_grown. lia.
Qed.

(** ** What the memory shows: the bridge of Bridge.v *)
Definition view_phase (m : memory) (ph : mphase) : phase :=
  match ph with
  | m_not_started => not_started
  | m_reading_some => reading_some
  | m_reading_header => reading_header
  | m_reading_body _ len compressed => reading_body len compressed
  | m_limited b len _ n => limited (read_mem m b len) n
  | m_writing _ _ _ => writing
  | m_halted => halted
  end.
Definition view (s : pooled) : Bridge := let b := p_bridge s in {|
  stopped_ := mb_stopped b; bytes_received_ := mb_received b; bytes_sent_ := mb_sent b;
  phase1 := view_phase (p_mem s) (mphase1 b); phase2 := view_phase (p_mem s) (mphase2 b) |}.
(** The bytes a write that is under way has still to send. *)
Definition outgoing (s : pooled) (d : direction) : option (list byte) :=
  match mphase_of d (p_bridge s) with m_writing b len _ => Some (read_mem (p_mem s) b len) | _ => None end.

(** ** Ownership *)
Definition other (d : direction) : direction := match d with D1 => D2 | D2 => D1 end.
Definition reach (d : direction) (b : MBridge) : list Buffer := data_of d b :: kept (mphase_of d b).
Definition phase_ok (d : direction) (b : MBridge) : Prop :=
  match mphase_of d b with
  | m_reading_body buf len _ => len <= buf_size buf
  | m_limited buf _ owned _ | m_writing buf _ owned => owned = false -> buf = data_of d b
  | _ => True
  end.
(** Direction [d] keeps [ks]; nothing is kept twice. *)
Record owns (d : direction) (ks : list Buffer) (s : pooled) : Prop := {
  ow_pool : pool_inv (p_pool s) (p_others s ++ (data_of d (p_bridge s) :: ks) ++ reach (other d) (p_bridge s));
  ow_size : forall d', read_size <= buf_size (data_of d' (p_bridge s));
  ow_other : phase_ok (other d) (p_bridge s)
}.
Definition pooled_ok (s : pooled) : Prop := owns D1 (kept (mphase1 (p_bridge s))) s /\ phase_ok D1 (p_bridge s).
Lemma ok_owns d s : pooled_ok s <-> owns d (kept (mphase_of d (p_bridge s))) s /\ phase_ok d (p_bridge s).
Proof.
  destruct d; [done|]. unfold pooled_ok. split; intros [[H1 H2 H3] H4]; (split; [split|]); try done;
    (eapply pool_inv_perm; [|exact H1]); by rewrite (Permutation_app_comm (_ :: _)).
Qed.
Lemma owns_eq d ks s s' : owns d ks s -> p_pool s' = p_pool s -> p_others s' = p_others s ->
  data1_ (p_bridge s') = data1_ (p_bridge s) -> data2_ (p_bridge s') = data2_ (p_bridge s) ->
  mphase_of (other d) (p_bridge s') = mphase_of (other d) (p_bridge s) -> owns d ks s'.
Proof.
  intros [H1 H2 H3] E1 E2 E3 E4 E5.
  assert (Ed : forall d', data_of d' (p_bridge s') = data_of d' (p_bridge s)) by (by intros []).
  split; unfold phase_ok, reach in *; rewrite ?E1, ?E2, ?E5, ?Ed; try done. intros d'. by rewrite Ed.
Qed.
(** Buffers of one direction are none of the other's, nor anyone else's. *)
Lemma owns_apart d ks s b b' : owns d ks s -> b ∈ data_of d (p_bridge s) :: ks ->
  b' ∈ p_others s \/ b' ∈ reach (other d) (p_bridge s) -> buf_id b' <> buf_id b.
Proof.
  intros [H1 _ _] Hb Hb' Heq. destruct (pi_held _ _ H1) as [Hn _]. rewrite map_app in Hn.
  apply NoDup_app in Hn as (_ & Hn1 & Hn2). rewrite map_app in Hn2. apply NoDup_app in Hn2 as (_ & Hn2 & _).
  assert (Hi : buf_id b ∈ map buf_id (data_of d (p_bridge s) :: ks)) by (by apply list_elem_of_fmap_2).
  destruct Hb' as [Hb'|Hb']; apply (list_elem_of_fmap_2 buf_id) in Hb'; rewrite Heq in Hb'.
  - apply (Hn1 _ Hb'). rewrite map_app. apply elem_of_app. by left.
  - by apply (Hn2 _ Hi).
Qed.
Lemma phase_buffer d b buf : phase_ok d b ->
  (exists len owned n, mphase_of d b = m_limited buf len owned n) \/ (exists len owned, mphase_of d b = m_writing buf len owned) ->
  buf ∈ reach d b.
Proof.
  unfold phase_ok, reach. intros Hok [(len & owned & n & E)|(len & owned & E)]; rewrite E in *; cbn [kept];
    (destruct owned; [right; by left|rewrite (Hok eq_refl); by left]).
Qed.

(** ** Steps of ownership *)
Lemma own_get d ks s size : owns d ks s -> exists p' b, m_get size s = Some (with_pool p' s, b) /\
  owns d (ks ++ [b]) (with_pool p' s) /\ size <= buf_size b.
Proof.
  intros [H1 H2 H3]. destruct (get_spec size _ _ H1) as (p' & b & Hg & Hi & Hs & _). unfold m_get. rewrite Hg.
  exists p', b. split; [done|]. split; [|done]. split; try done. eapply pool_inv_perm; [|exact Hi].
  cbn [p_others with_pool p_bridge]. rewrite <- !app_assoc. apply Permutation_app_head. cbn [app].
  apply perm_skip. rewrite <- !app_assoc. apply Permutation_app_head. by rewrite (Permutation_app_comm [b]).
Qed.
Lemma own_release d ks1 b ks2 s : owns d (ks1 ++ b :: ks2) s -> owns d (ks1 ++ ks2) (release_all [b] s).
Proof.
  intros [H1 H2 H3]. split; try done. cbn [release_all with_pool foldr p_pool p_others p_bridge] in *.
  set (o := p_others s) in *. set (x := data_of d (p_bridge s)) in *. set (r := reach (other d) (p_bridge s)) in *.
  assert (E : o ++ (x :: ks1 ++ b :: ks2) ++ r = (o ++ x :: ks1) ++ b :: ks2 ++ r) by (by rewrite <- !app_assoc; cbn; rewrite <- !app_assoc).
  rewrite E in H1. apply release_spec in H1 as [H1 _].
  assert (E' : o ++ (x :: ks1 ++ ks2) ++ r = (o ++ x :: ks1) ++ ks2 ++ r) by (by rewrite <- !app_assoc; cbn; rewrite <- !app_assoc).
  by rewrite E'.
Qed.
Lemma own_store d ks s b bytes : owns d ks s -> b ∈ data_of d (p_bridge s) :: ks -> zlen bytes <= buf_size b ->
  exists m, store b bytes (p_mem s) = Some m /\ owns d ks (with_mem m s) /\
    (forall b', b' ∈ p_others s \/ b' ∈ reach (other d) (p_bridge s) -> content m b' = content (p_mem s) b') /\
    (forall b', b' ∈ data_of d (p_bridge s) :: ks -> buf_id b' <> buf_id b -> content m b' = content (p_mem s) b').
Proof.
  intros Ho Hb Hs. destruct (store b bytes (p_mem s)) as [m|] eqn:E.
  - exists m. split; [done|]. split; [by eapply owns_eq|]. split.
    + intros b' Hb'. eapply content_other; [done|]. by eapply owns_apart.
    + intros b' _ Hne. by eapply content_other.
  - unfold store in E. by rewrite (proj2 (Z.leb_le _ _) Hs) in E.
Qed.
(** What a direction shows and sends is untouched by writes elsewhere. *)
Lemma view_phase_same m m' d b : phase_ok d b -> (forall b', b' ∈ reach d b -> content m' b' = content m b') ->
  view_phase m' (mphase_of d b) = view_phase m (mphase_of d b) /\
  match mphase_of d b with m_writing buf len _ => read_mem m' buf len = read_mem m buf len | _ => True end.
Proof.
  intros Hok Hc. pose proof (phase_buffer d b) as Hb. destruct (mphase_of d b) as [| | |buf len c|buf len o n|buf len o|]; try done.
  - split; [|done]. cbn. unfold read_mem. rewrite Hc; [done|]. apply Hb; [done|]. left. eauto.
  - split; [done|]. unfold read_mem. rewrite Hc; [done|]. apply Hb; [done|]. right. eauto.
Qed.

(** ** Inside a step of direction [d]
    The state [s] has come from [s0]: [d] owns [ks], the rest of the bridge shows
    what it did. *)
Record keeps (d : direction) (s0 : pooled) (ks : list Buffer) (s : pooled) : Prop := {
  kp_owns : owns d ks s;
  kp_view : forall ph, set_phase d ph (view s) = set_phase d ph (view s0);
  kp_out : outgoing s (other d) = outgoing s0 (other d)
}.
(** A step of the detailed bridge and the step of Bridge.v it refines. *)
Record refined (d : direction) (s0 : pooled) (r : pooled * list maction) (o : Bridge * list bridge_action) : Prop := {
  rf_ok : pooled_ok r.1;
  rf_view : view r.1 = o.1;
  rf_acts : map (view_act (p_mem r.1)) r.2 = o.2;
  rf_out : outgoing r.1 (other d) = outgoing s0 (other d) /\ written (other d) o.2 = [];
  rf_own_out : forall w, outgoing r.1 d = Some w -> written d o.2 = [w]
}.
Lemma view_set d ph s : view (with_bridge (set_mphase d ph (p_bridge s)) s) = set_phase d (view_phase (p_mem s) ph) (view s).
Proof. by destruct d. Qed.
Lemma out_set d ph s : outgoing (with_bridge (set_mphase d ph (p_bridge s)) s) (other d) = outgoing s (other d).
Proof. by destruct d. Qed.
Lemma data_set d d' ph b : data_of d' (set_mphase d ph b) = data_of d' b.
Proof. by destruct d'. Qed.
Lemma phase_set d ph b : mphase_of d (set_mphase d ph b) = ph.
Proof. by destruct d. Qed.
Lemma phase_set_other d ph b : mphase_of (other d) (set_mphase d ph b) = mphase_of (other d) b.
Proof. by destruct d. Qed.
Lemma owns_set d ks ph s : owns d ks s -> owns d ks (with_bridge (set_mphase d ph (p_bridge s)) s).
Proof. intros Ho. eapply owns_eq; [exact Ho|try done..]. by destruct d. Qed.
Lemma keeps_refl d s : pooled_ok s -> keeps d s (kept (mphase_of d (p_bridge s))) s.
Proof. intros [Ho _]%(ok_owns d). by split. Qed.
Lemma keeps_eq d s0 ks s s' : keeps d s0 ks s -> p_pool s' = p_pool s -> p_others s' = p_others s -> p_mem s' = p_mem s ->
  view s' = view s -> data1_ (p_bridge s') = data1_ (p_bridge s) -> data2_ (p_bridge s') = data2_ (p_bridge s) ->
  mphase_of (other d) (p_bridge s') = mphase_of (other d) (p_bridge s) -> keeps d s0 ks s'.
Proof.
  intros [H1 H2 H3] E1 E2 E3 E4 E5 E6 E7. split; [by eapply owns_eq|by rewrite E4|]. rewrite <- H3. unfold outgoing. by rewrite E3, E7.
Qed.
Lemma keeps_get d s0 ks s size : keeps d s0 ks s ->
  exists p' b, m_get size s = Some (with_pool p' s, b) /\ keeps d s0 (ks ++ [b]) (with_pool p' s) /\ size <= buf_size b.
Proof.
  intros [H1 H2 H3]. destruct (own_get d ks s size H1) as (p' & b & Hg & Ho & Hs). exists p', b. split; [done|]. by split.
Qed.
Lemma keeps_release d s0 ks1 b ks2 s : keeps d s0 (ks1 ++ b :: ks2) s -> keeps d s0 (ks1 ++ ks2) (release_all [b] s).
Proof. intros [H1 H2 H3]. split; [by apply own_release|done|done]. Qed.
(** Bytes stored in a buffer of the direction can be read back. *)
Lemma keeps_store d s0 ks s b bytes : keeps d s0 ks s -> b ∈ data_of d (p_bridge s) :: ks -> zlen bytes <= buf_size b ->
  exists m, store b bytes (p_mem s) = Some m /\ keeps d s0 ks (with_mem m s) /\ read_mem m b (zlen bytes) = bytes /\
    (forall b', b' ∈ data_of d (p_bridge s) :: ks -> buf_id b' <> buf_id b -> content m b' = content (p_mem s) b').
Proof.
  intros [H1 H2 H3] Hb Hs. destruct (own_store d ks s b bytes H1 Hb Hs) as (m & Hst & Ho & Hother & Hmine).
  exists m. split; [done|]. split; [|split; [by eapply content_store|done]].
  destruct (view_phase_same (p_mem s) m (other d) (p_bridge s) (ow_other _ _ _ H1)) as [Hv Hw].
  { intros b' Hb'. apply Hother. by right. }
  split; [done| |].
  - intros ph. rewrite <- H2. unfold view. cbn. unfold set_phase. cbn. by destruct d; cbn in *; rewrite Hv.
  - rewrite <- H3. unfold outgoing in *. cbn [p_bridge p_mem with_mem]. by destruct (mphase_of _ _); rewrite ?Hw.
Qed.

Section Steps.
Context `{ZstdLaws}.
Variable compress_bound : Z -> Z.
(** [ZSTD_compressBound] bounds what [ZSTD_compressCCtx] produces. *)
Hypothesis bound_fits : forall level x c, compress level x = Some c -> zlen c <= compress_bound (zlen x).
Variables (use_compression : bool) (compression_level : Z) (has_limiter : bool).

(** The phase of a direction is set, with a phase that keeps what is owned. *)
Lemma keeps_phase d s0 ph s : keeps d s0 (kept ph) s ->
  phase_ok d (set_mphase d ph (p_bridge s)) ->
  let s' := with_bridge (set_mphase d ph (p_bridge s)) s in
  pooled_ok s' /\ view s' = set_phase d (view_phase (p_mem s) ph) (view s0) /\ outgoing s' (other d) = outgoing s0 (other d).
Proof.
  intros [H1 H2 H3] Hp s'. split; [|split].
  - apply (ok_owns d). cbn [s' p_bridge with_bridge]. rewrite phase_set. split; [by apply owns_set|done].
  - unfold s'. by rewrite view_set, H2.
  - unfold s'. by rewrite out_set, H3.
Qed.
Lemma keeps_leave d s0 ph s : keeps d s0 (kept (mphase_of d (p_bridge s))) s -> kept ph = [] ->
  phase_ok d (set_mphase d ph (p_bridge s)) ->
  let s' := m_leave d ph s in
  pooled_ok s' /\ view s' = set_phase d (view_phase (p_mem s) ph) (view s0) /\ outgoing s' (other d) = outgoing s0 (other d) /\
  mphase_of d (p_bridge s') = ph.
Proof.
  intros Hk Hph Hp. assert (Hr : keeps d s0 [] (release_all (kept (mphase_of d (p_bridge s))) s)).
  { destruct (mphase_of d (p_bridge s)) as [| | |b n c|b n [] k|b n []|]; cbn [kept] in *;
      first [by apply (keeps_release d s0 [] b [])|by eapply keeps_eq]. }
  rewrite <- Hph in Hr. destruct (keeps_phase d s0 ph _ Hr) as (H1 & H2 & H3); [done|].
  split; [done|]. split; [done|]. split; [done|]. apply phase_set.
Qed.
Lemma fail_refined d s0 s : keeps d s0 (kept (mphase_of d (p_bridge s))) s -> refined d s0 (m_fail d s) (fail d (view s0)).
Proof.
  intros Hk. destruct (keeps_leave d s0 m_halted s Hk eq_refl) as (H1 & H2 & H3 & H4); [by unfold phase_ok; rewrite phase_set|].
  unfold m_fail, m_stop, fail, HandleStop. set (s1 := m_leave d m_halted s) in *; clearbody s1.
  change (view_phase (p_mem s) m_halted) with halted in H2. cbn zeta in *. rewrite <- H2.
  change (stopped_ (view s1)) with (mb_stopped (p_bridge s1)). destruct (mb_stopped (p_bridge s1)) eqn:Est.
  - split; cbn; [done|done|done|by destruct d|]. intros w. unfold outgoing. by rewrite H4.
  - split; cbn; [by destruct H1 as [[] ?]; split|done|done|by destruct d|]. intros w. unfold outgoing. cbn.
    assert (E : forall b, mphase_of d (set_stopped b) = mphase_of d b) by (by destruct d). by rewrite E, H4.
Qed.
Lemma doread_refined d s0 s : keeps d s0 (kept (mphase_of d (p_bridge s))) s ->
  refined d s0 (m_DoRead use_compression d s) (DoRead use_compression d (view s0)).
Proof.
  intros Hk. assert (Hl : forall ph acts, kept ph = [] -> (forall b, phase_ok d (set_mphase d ph b)) ->
    view_phase (p_mem s) ph <> writing -> (forall m, written (other d) (map (view_act m) acts) = []) ->
    refined d s0 (m_leave d ph s, acts) (set_phase d (view_phase (p_mem s) ph) (view s0), map (view_act (p_mem (m_leave d ph s))) acts)).
  { intros ph acts Hph Hok Hw Ha. destruct (keeps_leave d s0 ph s Hk Hph (Hok _)) as (H1 & H2 & H3 & H4).
    split; cbn [fst snd]; try done. intros w. unfold outgoing. rewrite H4. by destruct ph. }
  unfold m_DoRead, DoRead. destruct use_compression; cbn [negb]; [|apply (Hl m_reading_some [m_read_some d (data_of d (p_bridge s)) read_size]); try done; by destruct d].
  destruct d; [by apply (Hl m_reading_some [m_read_some D1 (data1_ (p_bridge s)) read_size])|by apply (Hl m_reading_header [m_read_exact 4])].
Qed.
Lemma count_phase d n ph b : set_phase d ph (count d n b) = count d n (set_phase d ph b).
Proof. by destruct d. Qed.
Lemma forward_unlimited d s0 s b len (owned : bool) counted : keeps d s0 (if owned then [b] else []) s ->
  (owned = false -> b = data_of d (p_bridge s)) ->
  refined d s0 (m_write_op d b len owned counted s) (write_op d (read_mem (p_mem s) b len) counted (view s0)).
Proof.
  intros Hk Hb. unfold m_write_op, write_op. set (s1 := with_bridge (mcount d counted (p_bridge s)) s).
  assert (Ev : view s1 = count d counted (view s)) by (by destruct d).
  assert (Hk1 : keeps d (with_bridge (mcount d counted (p_bridge s0)) s0) (if owned then [b] else []) s1).
  { destruct Hk as [K1 K2 K3]. split.
    - eapply owns_eq; [exact K1|try done; by destruct d..].
    - intros ph. rewrite Ev, count_phase, K2, <- count_phase. by destruct d.
    - etransitivity; [|etransitivity; [exact K3|]]; by destruct d. }
  destruct (keeps_phase d _ (m_writing b len owned) s1 Hk1) as (H1 & H2 & H3).
  { unfold phase_ok. rewrite phase_set, data_set. intros Eo. rewrite (Hb Eo). by destruct d. }
  split; cbn [fst snd]; [done| |done| |].
  - etransitivity; [exact H2|]. by destruct d.
  - split; [|by destruct d]. etransitivity; [exact H3|]. by destruct d.
  - intros w. unfold outgoing. cbn [p_bridge with_bridge]. rewrite phase_set. intros [= <-]. by destruct d.
Qed.
Lemma forward_refined d s0 s b len (owned : bool) counted : keeps d s0 (if owned then [b] else []) s ->
  (owned = false -> b = data_of d (p_bridge s)) ->
  refined d s0 (m_forward has_limiter d b len owned counted s)
    (forward has_limiter d (read_mem (p_mem s) b len) counted (view s0)).
Proof.
  intros Hk Hb. unfold m_forward, forward. destruct has_limiter; [|by apply forward_unlimited].
  destruct (keeps_phase d s0 (m_limited b len owned counted) s Hk) as (H1 & H2 & H3).
  { unfold phase_ok. rewrite phase_set, data_set. done. }
  split; cbn [fst snd]; try done. intros w. unfold outgoing. cbn [p_bridge with_bridge]. by rewrite phase_set.
Qed.
(** Bytes copied into a buffer of the pool. *)
Lemma fresh_copy d s0 ks s bytes : keeps d s0 ks s ->
  exists p' b m, m_get (zlen bytes) s = Some (with_pool p' s, b) /\ store b bytes (p_mem s) = Some m /\
    keeps d s0 (ks ++ [b]) (with_mem m (with_pool p' s)) /\ read_mem m b (zlen bytes) = bytes.
Proof.
  intros Hk. destruct (keeps_get d s0 ks s (zlen bytes) Hk) as (p' & b & Hg & Hk' & Hs).
  destruct (keeps_store d s0 _ _ b bytes Hk') as (m & Hm & Hk2 & Hr & _); [right; apply elem_of_app; right; by left|done|].
  exists p', b, m. done.
Qed.
Lemma keeps_work d s0 ks s c dc : keeps d s0 ks s -> keeps d s0 ks (with_bridge (set_work c dc (p_bridge s)) s).
Proof. intros Hk. eapply keeps_eq; [exact Hk|try done; by destruct d..]. Qed.
Lemma pack_refined d s0 s data junk : keeps d s0 [] s -> read_mem (p_mem s) (data_of d (p_bridge s)) (zlen data) = data ->
  exists r, m_pack compress_bound compression_level has_limiter d (zlen data) junk s = Some r /\
    refined d s0 r (forward has_limiter d (frame compression_level data) (zlen data) (view s0)).
Proof.
  intros Hk Hd.
  assert (Hp : forall cbuf (header payload : list byte), zlen header = 4 -> exists r,
    ('(s2, packet) ← m_get (4 + zlen payload) (with_bridge (set_work cbuf (decompress_buf_ (p_bridge s)) (p_bridge s)) s);
     m ← store packet (header ++ payload) (p_mem s2);
     mret (m_forward has_limiter d packet (4 + zlen payload) true (zlen data) (with_mem m s2))) = Some r /\
    refined d s0 r (forward has_limiter d (header ++ payload) (zlen data) (view s0))).
  { intros cbuf header payload Hh. replace (4 + zlen payload) with (zlen (header ++ payload)) by (rewrite zlen_app; lia).
    destruct (fresh_copy d s0 [] _ (header ++ payload) (keeps_work d s0 [] s cbuf (decompress_buf_ (p_bridge s)) Hk))
      as (p' & b & m & Hg & Hm & Hk2 & Hr).
    rewrite Hg. cbn [mbind option_bind p_mem with_pool with_bridge] in *. rewrite Hm. cbn [mbind option_bind].
    eexists. split; [reflexivity|].
    pose proof (forward_refined d s0 _ b (zlen (header ++ payload)) true (zlen data) Hk2 ltac:(done)) as Hf.
    cbn [p_mem with_mem] in Hf. by rewrite Hr in Hf. }
  unfold m_pack. rewrite Hd. cbv zeta. unfold frame. destruct (compress compression_level data) as [c|] eqn:Ec; cbn [mbind option_bind].
  - assert (Hl : left_in (compress_bound (zlen data)) c junk (grown (compress_bound (zlen data)) (compress_buf_ (p_bridge s))) =
      Some (overlay c (overlay junk (grown (compress_bound (zlen data)) (compress_buf_ (p_bridge s)))))).
    { unfold left_in. by rewrite (proj2 (Z.leb_le _ _) (bound_fits _ _ _ Ec)). }
    rewrite Hl. apply left_in_start in Hl. cbn [mbind option_bind].
    destruct (zlen c <? zlen data); cbn [mbind option_bind mret option_ret]; [rewrite Hl|]; by apply Hp.
  - by apply Hp.
Qed.
Lemma chunk_refined d ec data junk s : pooled_ok s -> mphase_of d (p_bridge s) = m_reading_some ->
  (ec = ec_ok -> zlen data <= read_size) ->
  exists r, m_on_chunk compress_bound use_compression compression_level has_limiter d ec data junk s = Some r /\
    refined d s r (on_chunk use_compression compression_level has_limiter d ec data (view s)).
Proof.
  intros Hok Hp Hn. pose proof (keeps_refl d s Hok) as Hk. unfold m_on_chunk, on_chunk.
  destruct (decide (ec = ec_ok)) as [->|]; [|eexists; split; [reflexivity|by apply fail_refined]].
  rewrite Hp in Hk. cbn [kept] in Hk.
  destruct (keeps_store d s [] s (data_of d (p_bridge s)) data Hk) as (m & Hm & Hk2 & Hr & _); [by left|
    etransitivity; [by apply Hn|apply (ow_size _ _ _ (kp_owns _ _ _ _ Hk))]|].
  rewrite Hm. cbn [mbind option_bind]. destruct use_compression; [by apply pack_refined|].
  eexists. split; [reflexivity|].
  pose proof (forward_refined d s (with_mem m s) (data_of d (p_bridge s)) (zlen data) false (zlen data) Hk2 (fun _ => eq_refl)) as Hf.
  cbn [p_mem with_mem] in Hf. by rewrite Hr in Hf.
Qed.
Lemma header_refined ec header s : pooled_ok s -> mphase2 (p_bridge s) = m_reading_header ->
  exists r, m_on_header ec header s = Some r /\ refined D2 s r (on_header ec header (view s)).
Proof.
  intros Hok Hp. pose proof (keeps_refl D2 s Hok) as Hk. unfold m_on_header, on_header.
  destruct (decide (ec = ec_ok)) as [->|]; [|eexists; split; [reflexivity|by apply fail_refined]]. cbv zeta.
  destruct (MAX_MESSAGE_SIZE <? _); [eexists; split; [reflexivity|by apply fail_refined]|].
  cbn [mphase_of] in Hk. rewrite Hp in Hk. cbn [kept] in Hk.
  destruct (keeps_get D2 s [] s (Z.land (be_val header) LENGTH_MASK) Hk) as (p' & b & Hg & Hk2 & Hs).
  rewrite Hg. cbn [mbind option_bind mret option_ret app] in *. eexists. split; [reflexivity|].
  destruct (keeps_phase D2 s (m_reading_body b (Z.land (be_val header) LENGTH_MASK)
    (negb (Z.land (be_val header) COMPRESSION_FLAG =? 0))) _ Hk2) as (H1 & H2 & H3); [done|].
  split; cbn [fst snd]; try done.
Qed.
Lemma body_refined body len compressed ec data junk s : pooled_ok s ->
  mphase2 (p_bridge s) = m_reading_body body len compressed -> (ec = ec_ok -> zlen data = len) ->
  exists r, m_on_body has_limiter body len compressed ec data junk s = Some r /\
    refined D2 s r (on_body has_limiter compressed ec data (view s)).
Proof.
  intros Hok Hp Hn. pose proof (keeps_refl D2 s Hok) as Hk. unfold m_on_body, on_body.
  destruct (decide (ec = ec_ok)) as [->|]; [|eexists; split; [reflexivity|by apply fail_refined]].
  specialize (Hn eq_refl). subst len. apply (ok_owns D2) in Hok as [_ Hsz]. unfold phase_ok in Hsz. cbn [mphase_of] in Hsz, Hk.
  rewrite Hp in Hsz, Hk. cbn [kept] in Hk.
  destruct (keeps_store D2 s _ s body data Hk) as (m & Hm & Hk2 & Hr & _); [right; by left|done|].
  assert (Hk3 : keeps D2 s (kept (mphase_of D2 (p_bridge s))) (with_mem m s)) by (cbn [mphase_of]; by rewrite Hp).
  rewrite Hm. cbn [mbind option_bind]. rewrite Hr. destruct compressed.
  2: { eexists. split; [reflexivity|].
       pose proof (forward_refined D2 s _ body (zlen data) true (zlen data) Hk2 ltac:(done)) as Hf.
       cbn [p_mem with_mem] in Hf. by rewrite Hr in Hf. }
  destruct (frame_content_size data) as [size|]; [|eexists; split; [reflexivity|by apply fail_refined]].
  destruct (MAX_DECOMPRESSED_SIZE <? size); [eexists; split; [reflexivity|by apply fail_refined]|].
  destruct (decompress size data) as [out|] eqn:Ed;
    [|eexists; split; [reflexivity|apply fail_refined; by apply (keeps_work D2 s _ (with_mem m s))]].
  assert (Hl : left_in size out junk (grown size (decompress_buf_ (p_bridge s))) =
    Some (overlay out (overlay junk (grown size (decompress_buf_ (p_bridge s)))))).
  { unfold left_in. by rewrite (proj2 (Z.leb_le _ _) (decompress_fits _ _ _ Ed)). }
  cbn [p_bridge with_mem]. rewrite Hl. pose proof (left_in_start _ _ _ _ _ Hl) as Hout. cbn [mbind option_bind]. rewrite Hout.
  destruct (fresh_copy D2 s [body] _ out (keeps_work D2 s [body] (with_mem m s) (compress_buf_ (p_bridge s))
    (overlay out (overlay junk (grown size (decompress_buf_ (p_bridge s))))) Hk2)) as (p' & b & m2 & Hg & Hm2 & Hk4 & Hr2).
  cbn [p_bridge with_mem] in Hg. rewrite Hg. cbn [mbind option_bind p_mem with_pool with_bridge with_mem] in *. rewrite Hm2.
  cbn [mbind option_bind]. eexists. split; [reflexivity|]. apply (keeps_release D2 s [] body [b]) in Hk4.
  pose proof (forward_refined D2 s _ b (zlen out) true (zlen out) Hk4 ltac:(done)) as Hf.
  cbn [p_mem with_mem with_pool release_all] in Hf. by rewrite Hr2 in Hf.
Qed.

Definition ev_direction (ev : bridge_event) : direction :=
  match ev with ev_read d _ _ | ev_tokens d | ev_written d _ => d end.
Lemma phase_of_view d s : phase_of d (view s) = view_phase (p_mem s) (mphase_of d (p_bridge s)).
Proof. by destruct d. Qed.
Lemma tokens_refined d s b len owned n : pooled_ok s -> mphase_of d (p_bridge s) = m_limited b len owned n ->
  refined d s (m_write_op d b len owned n s) (write_op d (read_mem (p_mem s) b len) n (view s)).
Proof.
  intros Hok Hp. pose proof (keeps_refl d s Hok) as Hk. apply (ok_owns d) in Hok as [_ Hb]. unfold phase_ok in Hb.
  rewrite Hp in Hk, Hb. cbn [kept] in Hk. exact (forward_unlimited d s s b len owned n Hk Hb).
Qed.
Lemma step_refined ev junk s : pooled_ok s ->
  match bridge_step use_compression compression_level has_limiter ev (view s) with
  | Some o => exists r,
      m_bridge_step compress_bound use_compression compression_level has_limiter ev junk s = Some r /\
      refined (ev_direction ev) s r o
  | None => m_bridge_step compress_bound use_compression compression_level has_limiter ev junk s = None
  end.
Proof.
  intros Hok. destruct ev as [d ec data|d|d ec]; cbn [bridge_step m_bridge_step ev_direction]; rewrite phase_of_view.
  - unfold read_fits. destruct d; rewrite ?phase_of_view.
    all: match goal with |- context [mphase_of ?d (p_bridge ?x)] => destruct (mphase_of d (p_bridge x)) eqn:Ep end.
    all: cbn [view_phase]; destruct (decide (ec = ec_ok)) as [->|]; cbn [negb]; try done.
    all: try (match goal with |- context [if negb ?x then _ else _] => destruct x eqn:Ex end; cbn [negb]; [|done]; bool_hyps).
    all: first [by apply chunk_refined|by apply header_refined|by apply body_refined|done].
  - destruct (mphase_of d (p_bridge s)) eqn:Ep; cbn [view_phase]; try done.
    eexists. split; [reflexivity|]. by apply tokens_refined.
  - destruct (mphase_of d (p_bridge s)) eqn:Ep; cbn [view_phase]; try done.
    eexists. split; [reflexivity|]. pose proof (keeps_refl d s Hok) as Hk. unfold m_on_written, on_written.
    destruct (decide (ec = ec_ok)); [by apply doread_refined|by apply fail_refined].
Qed.

(** The rest of the program does not touch what the bridge shows. *)
Lemma owns_others s others p' : pooled_ok s -> pool_inv p' (others ++ reach D1 (p_bridge s) ++ reach D2 (p_bridge s)) ->
  pooled_ok {| p_pool := p'; p_others := others; p_mem := p_mem s; p_bridge := p_bridge s |}.
Proof. intros [[H1 H2 H3] H4] Hp. by split. Qed.
Lemma fill_same s i b bytes m d : pooled_ok s -> p_others s !! i = Some b -> store b bytes (p_mem s) = Some m ->
  view_phase m (mphase_of d (p_bridge s)) = view_phase (p_mem s) (mphase_of d (p_bridge s)) /\
  outgoing (with_mem m s) d = outgoing s d.
Proof.
  intros Hok Hi Hm. apply (ok_owns d) in Hok as [Ho Hp].
  destruct (view_phase_same (p_mem s) m d (p_bridge s) Hp) as [Hv Hw].
  - intros b' Hb'. eapply content_other; [done|]. apply list_elem_of_lookup_2 in Hi.
    intros Heq. by apply (owns_apart d _ s b' b Ho Hb' (or_introl Hi)).
  - split; [done|]. unfold outgoing. cbn [p_bridge p_mem with_mem]. by destruct (mphase_of d _); rewrite ?Hw.
Qed.
Lemma rest_step ev s s' acts : pooled_ok s -> match ev with pe_bridge _ _ => False | _ => True end ->
  pooled_step compress_bound use_compression compression_level has_limiter ev s = Some (s', acts) ->
  acts = [] /\ pooled_ok s' /\ view s' = view s /\ forall d, outgoing s' d = outgoing s d.
Proof.
  intros Hok Hev. pose proof Hok as [[Hpool _ _] _].
  destruct ev as [| size|i|i bytes]; [done| | |]; cbn [pooled_step].
  - destruct (get_spec size _ _ Hpool) as (p' & b & Hg & Hi & _). unfold m_get. rewrite Hg. intros [= <- <-].
    split; [done|]. split; [|done]. apply owns_others; [done|]. eapply pool_inv_perm; [|exact Hi].
    rewrite <- !app_assoc. apply Permutation_app_head. symmetry. by rewrite (Permutation_app_comm [b]), <- !app_assoc.
  - destruct (p_others s !! i) as [b|] eqn:Ei; [|done]. intros [= <- <-]. split; [done|]. split; [|done].
    apply owns_others; [done|]. destruct (held_split _ _ _ Ei) as (h1 & h2 & E & ->). rewrite E, <- app_assoc in Hpool.
    cbn [app] in Hpool. apply release_spec in Hpool as [Hpool _]. by rewrite <- app_assoc.
  - destruct (p_others s !! i) as [b|] eqn:Ei; [|done]. cbn [mbind option_bind].
    destruct (store b bytes (p_mem s)) as [m|] eqn:Em; [|done]. intros [= <- <-]. split; [done|].
    split; [|split; [|by intros d; apply (fill_same s i b bytes m d)]].
    + destruct Hok as [Ho Hp]. split; [by eapply owns_eq|done].
    + unfold view. cbn. destruct (fill_same s i b bytes m D1 Hok Ei Em) as [E1 _].
      destruct (fill_same s i b bytes m D2 Hok Ei Em) as [E2 _]. cbn in E1, E2. by rewrite E1, E2.
Qed.
Lemma run_refined evs s s' acts : pooled_ok s ->
  pooled_run compress_bound use_compression compression_level has_limiter evs s = Some (s', acts) ->
  bridge_run use_compression compression_level has_limiter (bridge_events evs) (view s) = Some (view s', acts) /\
  pooled_ok s' /\
  forall d w, outgoing s' d = Some w -> last (written d acts) = Some w \/ written d acts = [] /\ outgoing s d = Some w.
Proof.
  revert s acts. induction evs as [|ev evs IH]; intros s acts Hok; cbn [pooled_run].
  { intros [= <- <-]. split; [done|]. split; [done|]. by right. }
  destruct (pooled_step _ _ _ _ ev s) as [[s1 a1]|] eqn:E1; [|done]. cbn [mbind option_bind].
  destruct (pooled_run _ _ _ _ evs s1) as [[s2 a2]|] eqn:E2; [|done]. intros [= <- <-].
  assert (Hc : (match ev with pe_bridge _ _ => False | _ => True end) \/ exists ev' junk, ev = pe_bridge ev' junk)
    by (destruct ev; eauto).
  destruct Hc as [Hev|(ev' & junk & ->)].
  - destruct (rest_step ev s s1 a1 Hok Hev E1) as (-> & Hok1 & Hv & Hout). destruct (IH _ _ Hok1 E2) as (I1 & I2 & I3).
    split; [|split; [done|]].
    + cbn [bridge_events map app]. rewrite <- Hv. by destruct ev.
    + intros d w Hw. rewrite <- Hout. by apply I3.
  - cbn [pooled_step] in E1. rename ev' into ev.
    pose proof (step_refined ev junk s Hok) as Hs. cbn [bridge_events omap list_omap bridge_run].
    destruct (bridge_step _ _ _ ev (view s)) as [[b ba]|]; [|by rewrite E1 in Hs].
    destruct Hs as (r & Hr & [R1 R2 R3 [R4 R4'] R5]). rewrite E1 in Hr. injection Hr as <-. cbn [fst snd] in *. subst b ba.
    destruct (IH _ _ R1 E2) as (I1 & I2 & I3). cbn [mbind option_bind]. unfold bridge_events in I1. rewrite I1.
    split; [done|]. split; [done|]. intros d w Hw. rewrite written_app.
    destruct (I3 d w Hw) as [Hl|[Hn Hl]]; [left; by rewrite last_app, Hl|]. rewrite Hn, app_nil_r.
    destruct (decide (d = ev_direction ev)) as [->|Hd]; [left; by rewrite (R5 w Hl)|].
    assert (d = other (ev_direction ev)) as -> by (by destruct d, (ev_direction ev)).
    right. split; [done|]. by rewrite <- R4.
Qed.
End Steps.

(** ** From the constructor *)
Lemma make_bridge_ok `{Zstd} p others m : pool_inv p others ->
  exists s, make_bridge p others m = Some s /\ pooled_ok s /\ view s = new_bridge /\ p_others s = others /\
    forall d, outgoing s d = None.
Proof.
  intros Hp. destruct (get_spec read_size _ _ Hp) as (p1 & d1 & Hg1 & Hp1 & Hs1 & _).
  destruct (get_spec read_size _ _ Hp1) as (p2 & d2 & Hg2 & Hp2 & Hs2 & _).
  unfold make_bridge. rewrite Hg1. cbn [mbind option_bind]. rewrite Hg2. cbn [mbind option_bind].
  eexists. split; [reflexivity|]. split; [|by repeat split; intros []]. split; [|done]. split; cbn; [|by intros []|done].
  by rewrite <- app_assoc in Hp2.
Qed.
(** A read is not a write: nothing is being sent after it starts. *)
Lemma doread_idle use_compression d s : outgoing (m_DoRead use_compression d s).1 d = None.
Proof.
  unfold m_DoRead, outgoing. destruct use_compression; cbn [negb]; destruct d; done.
Qed.
Lemma start_refined use_compression s : pooled_ok s ->
  let r := m_Start use_compression s in
  pooled_ok r.1 /\ view r.1 = (Start use_compression (view s)).1 /\ forall d, outgoing r.1 d = None.
Proof.
  intros Hok. pose proof (doread_refined use_compression D1 s s (keeps_refl D1 s Hok)) as [A1 A2 A3 [A4 A4'] A5].
  pose proof (doread_idle use_compression D1 s) as I1. unfold m_Start, Start. cbn zeta.
  destruct (m_DoRead use_compression D1 s) as [s1 a1]. destruct (DoRead use_compression D1 (view s)) as [b1 ba1].
  cbn [fst snd] in *. subst b1 ba1.
  pose proof (doread_refined use_compression D2 s1 s1 (keeps_refl D2 s1 A1)) as [B1 B2 B3 [B4 B4'] B5].
  pose proof (doread_idle use_compression D2 s1) as I2.
  destruct (m_DoRead use_compression D2 s1) as [s2 a2]. destruct (DoRead use_compression D2 (view s1)) as [b2 ba2].
  cbn [fst snd other] in *. subst b2 ba2. split; [done|]. split; [done|]. intros []; [by rewrite B4|done].
Qed.

(** ** Properties *)

(** C12 The buffers of the bridge do not get in the way.  The bridge as the code has it reads again
    and again into the two buffers it was built with, takes packets from the pool it shares with the
    rest of the program and gives them back with the last closure that holds them, and works in the
    growing buffers of the compressor and the decompressor, which hold what the calls before left
    there.  Whatever the rest of the program takes, returns and writes in between, it does, byte for
    byte, what the bridge of Bridge.v does, on which the theorems about the data are proved; a write
    that is under way has in its buffer the bytes it was started with until it completes; and no
    step is stuck for want of room in a buffer. *)
Theorem pooled_bridge_refines {Z0 : Zstd} {L : ZstdLaws} (compress_bound : Z -> Z)
    (use_compression limit : bool) (level : Z) (p : BufferPool) (others : list Buffer) (m : memory)
    (Hbound : forall level x c, compress level x = Some c -> zlen c <= compress_bound (zlen x))
    (Hpool : pool_inv p others) :
  exists s0, make_bridge p others m = Some s0 /\
  forall evs s acts,
    pooled_run compress_bound use_compression level limit evs (m_Start use_compression s0).1 = Some (s, acts) ->
    bridge_run use_compression level limit (bridge_events evs) (Start use_compression new_bridge).1 = Some (view s, acts) /\
    (forall d w, outgoing s d = Some w -> last (written d acts) = Some w) /\
    (forall ev junk, is_Some (m_bridge_step compress_bound use_compression level limit ev junk s) <->
                     is_Some (bridge_step use_compression level limit ev (view s))) /\
    pool_inv (p_pool s) (p_others s ++ reach D1 (p_bridge s) ++ reach D2 (p_bridge s)).
Proof.
  destruct (make_bridge_ok p others m Hpool) as (s0 & Hs0 & Hok & Hv & _). exists s0. split; [done|].
  intros evs s acts Hrun. destruct (start_refined use_compression s0 Hok) as (Hok1 & Hv1 & Hout1). cbn zeta in *. rewrite Hv in Hv1.
  destruct (run_refined compress_bound Hbound _ _ _ _ _ _ _ Hok1 Hrun) as (Hr & Hok2 & Hw). rewrite Hv1 in Hr.
  split; [done|]. split; [|split; [|apply Hok2]].
  - intros d w Hd. destruct (Hw d w Hd) as [?|[_ Ho]]; [done|]. by rewrite Hout1 in Ho.
  - intros ev junk. pose proof (step_refined compress_bound Hbound use_compression level limit ev junk s Hok2) as Hs.
    destruct (bridge_step _ _ _ ev (view s)) as [o|]; [|by rewrite Hs]. destruct Hs as (r & -> & _). by split.
Qed.

(** ** A concrete run: both ways, with another user of the pool between the steps *)
#[local] Existing Instance rle_zstd.
#[local] Existing Instance rle_laws.
Definition demo_pool : BufferPool := make_pool [pool_config 64 1 2; pool_config 32768 0 4].
Definition demo_between : list pooled_event :=
  [pe_bridge (ev_read D1 ec_ok (repeat x41 20)) [x01; x02];           (* a packet of 9 bytes *)
   pe_get 16; pe_fill 0 [x63; x63; x63; x63];
   pe_bridge (ev_read D2 ec_ok (be_bytes 4 3)) [];                    (* a body of 3 bytes *)
   pe_bridge (ev_written D1 ec_ok) [];                                (* the packet returns *)
   pe_get 16; pe_fill 1 [x64; x64; x64; x64];                         (* and is used again *)
   pe_bridge (ev_read D2 ec_ok [x41; x42; x43]) []; pe_release 0;
   pe_bridge (ev_read D1 ec_ok [x44]) []].

Lemma rle_bound level x c : compress level x = Some c -> zlen c <= zlen x + 5.
Proof.
  cbn. destruct x as [|b x]; [done|]. destruct (_ && _); [|done]. intros [= <-].
  pose proof (zlen_nonneg (b :: x)). unfold zlen in *. cbn [length]. lia.
Qed.
Definition demo_view (s0 s : pooled) (acts : list bridge_action) : Prop :=
  pooled_run (fun n => n + 5) true 1 false demo_between (m_Start true s0).1 = Some (s, acts) /\
  bridge_run true 1 false (bridge_events demo_between) (Start true new_bridge).1 = Some (view s, acts) /\
  written D1 acts = [be_bytes 4 (COMPRESSION_FLAG + 5) ++ be_bytes 4 20 ++ [x41]; be_bytes 4 1 ++ [x44]] /\
  written D2 acts = [[x41; x42; x43]] /\
  map (outgoing s) [D1; D2] = [Some (be_bytes 4 1 ++ [x44]); Some [x41; x42; x43]].
Lemma pooled_bridge_refines_witness : exists s0 s acts, make_bridge demo_pool [] ∅ = Some s0 /\ demo_view s0 s acts.
Proof.
  assert (Hp : pool_inv demo_pool []).
  { apply make_pool_inv; [repeat constructor; vm_compute; congruence|]. by apply (bool_decide_unpack _). }
  destruct (pooled_bridge_refines (fun n => n + 5) true false 1 demo_pool [] ∅ (fun l x c => rle_bound l x c) Hp)
    as (s0 & Hs0 & H).
  assert (E : exists s acts, pooled_run (fun n => n + 5) true 1 false demo_between (m_Start true s0).1 = Some (s, acts) /\
    written D1 acts = [be_bytes 4 (COMPRESSION_FLAG + 5) ++ be_bytes 4 20 ++ [x41]; be_bytes 4 1 ++ [x44]] /\
    written D2 acts = [[x41; x42; x43]] /\
    map (outgoing s) [D1; D2] = [Some (be_bytes 4 1 ++ [x44]); Some [x41; x42; x43]]).
  { vm_compute in Hs0. injection Hs0 as <-. eexists _, _. split; [vm_compute; reflexivity|]. by vm_compute. }
  destruct E as (s & acts & Hrun & H1 & H2 & H3). exists s0, s, acts. split; [done|]. split; [done|].
  destruct (H _ _ _ Hrun) as [Hr _]. done.
Defined.
(** A body whose read ended early with success, as a mux stream's does when the
    peer has closed, is forwarded with the bytes the buffer of the pool held
    before. *)
Lemma short_body_discloses `{Zstd} (body : Buffer) (len : Z) (data junk : list byte) (s s' : pooled) (acts : list maction) :
  m_on_body false body len false ec_ok data junk s = Some (s', acts) -> zlen data <= len ->
  acts = [m_write_to D2 body len] /\
  read_mem (p_mem s') body len = data ++ ztake (len - zlen data) (zdrop (zlen data) (content (p_mem s) body)).
Proof.
  unfold m_on_body, store. rewrite decide_True by done. destruct (_ <=? _); [|done]. intros [= <- <-] Hl. split; [done|].
  unfold read_mem, content. cbn. rewrite lookup_insert_eq. cbn. by rewrite ztake_app_ge.
Qed.
