(* ===== verification/Tunnel.v ===== *)
(** * A tunnel: two bridges over one multiplexed stream
    (async_bridge.cpp and mux.cpp together)

    At the server a bridge joins the user's connection to the work stream, at
    the client another joins the work stream to the local service.  Each end [x]
    is a [Bridge] whose [s1] is a plain connection and whose [s2] is end [x] of
    the stream of MuxFlow.v: what a bridge asks of [s2] is an operation of the
    [MuxStream], and the reads that the stream completes are handed to the
    bridge one by one.  A write of the bridge is completed in any way the stream
    may, but with success only if it was taken and all of it sent.  The runs go up to the stop of
    an end: from then on that end takes no step, and the FIN its closing sends
    is not delivered. *)
From Stdlib Require Import ZArith Lia Strings.Byte.
From stdpp Require Import base tactics list.
From S2P Require Import Prelude Protocol Zstd MuxFrame MuxStream MuxSession MuxFlow Bridge.
Local Open Scope Z_scope.

Record Tunnel : Type := {
  t_bridge : bool -> Bridge;
  t_link : link;
  t_inbox : bool -> list (list byte);    (* completed reads of the stream, to be handled *)
  t_in : bool -> list byte;              (* read from the plain connection *)
  t_out : bool -> list byte;             (* written to it *)
  t_lost : bool -> bool                  (* a write was refused by the stream *)
}.
Definition new_tunnel (id : Z) : Tunnel := {|
  t_bridge := fun _ => new_bridge; t_link := new_link id; t_inbox := fun _ => []; t_in := fun _ => [];
  t_out := fun _ => []; t_lost := fun _ => false |}.
Definition set_bridge (x : bool) (b : Bridge) (t : Tunnel) : Tunnel := {|
  t_bridge := upd x b (t_bridge t); t_link := t_link t; t_inbox := t_inbox t; t_in := t_in t; t_out := t_out t;
  t_lost := t_lost t |}.
Definition set_link (x : bool) (l : link) (posts : list (list byte)) (lost : bool) (t : Tunnel) : Tunnel := {|
  t_bridge := t_bridge t; t_link := l; t_inbox := upd x (t_inbox t x ++ posts) (t_inbox t); t_in := t_in t;
  t_out := t_out t; t_lost := upd x (t_lost t x || lost) (t_lost t) |}.
Definition set_inbox (x : bool) (q : list (list byte)) (t : Tunnel) : Tunnel := {|
  t_bridge := t_bridge t; t_link := t_link t; t_inbox := upd x q (t_inbox t); t_in := t_in t; t_out := t_out t;
  t_lost := t_lost t |}.
Definition took_in (x : bool) (data : list byte) (t : Tunnel) : Tunnel := {|
  t_bridge := t_bridge t; t_link := t_link t; t_inbox := t_inbox t; t_in := upd x (t_in t x ++ data) (t_in t);
  t_out := t_out t; t_lost := t_lost t |}.
Definition put_out (x : bool) (data : list byte) (t : Tunnel) : Tunnel := {|
  t_bridge := t_bridge t; t_link := t_link t; t_inbox := t_inbox t; t_in := t_in t;
  t_out := upd x (t_out t x ++ data) (t_out t); t_lost := t_lost t |}.

(** ** The stream's part *)
Definition posted_data (acts : list action) : list (list byte) := map (fun '(_, _, d) => d) (read_posts acts).
Definition link_app (x : bool) (ev : event) (l : link) : option (link * list (list byte)) :=
  if app_event_b ev then
    '(st', acts) ← step_event true ev (endpoint l x); mret (after x ev st' acts l, posted_data acts)
  else None.
Definition link_deliver (x : bool) (l : link) : option (link * list (list byte)) :=
  match wire l (negb x) with
  | [] => None
  | f :: rest =>
    match frame_events f with
    | [ev] =>
      '(st', acts) ← step_event true ev (endpoint l x);
      mret (after x ev st' acts (take_frame (negb x) rest l), posted_data acts)
    | _ => None
    end
  end.
Definition refused (x : bool) (l : link) : bool := kMuxStreamMaxPendingWrites <=? zlen (pending_writes_ (endpoint l x)).

(** A write of the bridge is complete when the stream has made frames of it. *)
Definition all_sent (x : bool) (t : Tunnel) : bool :=
  match pending_writes_ (endpoint (t_link t) x) with [] => true | _ => false end.

(** ** The bridge's requests *)
Definition perform_one (x : bool) (a : bridge_action) (t : Tunnel) : option Tunnel :=
  match a with
  | write_to D1 p =>
    '(l, posts) ← link_app x (ev_write [p] 0) (t_link t); Some (set_link x l posts (refused x (t_link t)) t)
  | write_to D2 p => Some (put_out x p t)
  | read_exact n => '(l, posts) ← link_app x (MuxStream.ev_read true n 0) (t_link t); Some (set_link x l posts false t)
  | read_some D2 n => '(l, posts) ← link_app x (MuxStream.ev_read false n 0) (t_link t); Some (set_link x l posts false t)
  | read_some D1 _ | wait_tokens _ _ | close_both | call_on_stop => Some t
  end.
Fixpoint perform (x : bool) (acts : list bridge_action) (t : Tunnel) : option Tunnel :=
  match acts with [] => Some t | a :: acts' => t1 ← perform_one x a t; perform x acts' t1 end.

Section Tunnel.
Context `{Zstd}.
(** The client's choice of compression, known to both ends; a level and a
    limiter or none for each end. *)
Variables (compressed : bool) (level : bool -> Z) (limiter : bool -> bool).

Inductive tunnel_event : Type :=
| t_start (x : bool)
| t_plain (x : bool) (ec : error_code) (data : list byte)     (* a read of the plain connection ends *)
| t_tokens (x : bool) (d : direction)
| t_written (x : bool) (d : direction) (ec : error_code)
| t_stream (x : bool)                                         (* a completed read of the stream is handled *)
| t_stream_failed (x : bool) (ec : error_code)
| t_deliver (x : bool).                                       (* the next frame reaches end [x] *)

Definition bridge_event_at (x : bool) (ev : bridge_event) (t : Tunnel) : option Tunnel :=
  if stopped_ (t_bridge t x) then None else
  '(b, acts) ← bridge_step compressed (level x) (limiter x) ev (t_bridge t x);
  perform x acts (set_bridge x b t).
Definition tunnel_step (ev : tunnel_event) (t : Tunnel) : option Tunnel :=
  match ev with
  | t_start x =>
    match phase1 (t_bridge t x), phase2 (t_bridge t x) with
    | not_started, not_started =>
      let '(b, acts) := Start compressed (t_bridge t x) in perform x acts (set_bridge x b t)
    | _, _ => None
    end
  | t_plain x ec data =>
    if decide (ec = ec_ok) then
      if 0 <? zlen data then bridge_event_at x (ev_read D1 ec data) (took_in x data t) else None
    else bridge_event_at x (ev_read D1 ec []) t
  | t_tokens x d => bridge_event_at x (ev_tokens d) t
  | t_written x d ec =>
    match d with
    | D1 =>
      if bool_decide (ec = ec_ok) && (t_lost t x || negb (all_sent x t)) then None
      else bridge_event_at x (ev_written D1 ec) t
    | D2 => bridge_event_at x (ev_written D2 ec) t
    end
  | t_stream x =>
    match t_inbox t x with
    | [] => None
    | data :: rest => bridge_event_at x (ev_read D2 ec_ok data) (set_inbox x rest t)
    end
  | t_stream_failed x ec => if decide (ec = ec_ok) then None else bridge_event_at x (ev_read D2 ec []) t
  | t_deliver x => '(l, posts) ← link_deliver x (t_link t); Some (set_link x l posts false t)
  end.
Fixpoint tunnel_run (evs : list tunnel_event) (t : Tunnel) : option Tunnel :=
  match evs with [] => Some t | ev :: evs' => t1 ← tunnel_step ev t; tunnel_run evs' t1 end.
End Tunnel.

(** ** The stream's part, as steps of the link *)
Lemma link_app_spec x ev l l' posts : link_app x ev l = Some (l', posts) ->
  link_step l l' /\ gave l' = upd x (gave l x ++ accepted ev (MuxFlow.endpoint l x)) (gave l) /\
  got l' = upd x (got l x ++ concat posts) (got l).
Proof.
  unfold link_app. destruct (app_event_b ev) eqn:Ea; [|done].
  destruct (step_event true ev (MuxFlow.endpoint l x)) as [[st' acts]|] eqn:E; [|done]. intros [= <- <-].
  split; [|done]. apply step_app; [|done]. destruct ev; cbn in *; bool_hyps; done.
Qed.
Lemma frame_events_accept f ev st : frame_events f = [ev] -> accepted ev st = [].
Proof.
  unfold frame_events. intros Ef. repeat case_match; simplify_eq/=; try done;
    repeat match goal with H : _ ++ _ = [_] |- _ => apply app_eq_unit in H end; naive_solver.
Qed.
Lemma upd_idem {A} x (f : bool -> A) y : upd x (f x) f y = f y.
Proof. unfold upd. destruct (Bool.eqb x y) eqn:E; [|done]. by apply Bool.eqb_prop in E as ->. Qed.
Lemma link_deliver_spec x l l' posts : link_deliver x l = Some (l', posts) ->
  link_step l l' /\ (forall y, gave l' y = gave l y) /\ got l' = upd x (got l x ++ concat posts) (got l).
Proof.
  unfold link_deliver. destruct (wire l (negb x)) as [|f rest] eqn:Ew; [done|].
  destruct (frame_events f) as [|ev [|]] eqn:Ef; try done.
  destruct (step_event true ev (MuxFlow.endpoint l x)) as [[st' acts]|] eqn:E; [|done]. intros [= <- <-].
  split; [by eapply step_deliver|]. split; [|done]. intros y. cbn [gave after take_frame MuxFlow.endpoint].
  rewrite (frame_events_accept f) by done. rewrite app_nil_r. apply upd_idem.
Qed.

(** ** The bridge's requests, one by one *)
(** What handing over completed reads leaves unchanged: the bytes delivered to
    an end are those handled before and those of its inbox. *)
Definition same_handled (t t' : Tunnel) : Prop := forall y K,
  got (t_link t) y = K ++ concat (t_inbox t y) -> got (t_link t') y = K ++ concat (t_inbox t' y).
(** The fate of the packets written to the stream. *)
Definition writes_at (x : bool) (ps : list (list byte)) (t t' : Tunnel) : Prop :=
  match ps with
  | [] => gave (t_link t') x = gave (t_link t) x /\ t_lost t' x = t_lost t x
  | _ => (gave (t_link t') x = gave (t_link t) x ++ concat ps /\ t_lost t' x = t_lost t x) \/
         (gave (t_link t') x = gave (t_link t) x /\ t_lost t' x = true)
  end.
Definition effects (x : bool) (acts : list bridge_action) (t t' : Tunnel) : Prop :=
  t_bridge t' = t_bridge t /\ t_in t' = t_in t /\
  same_handled t t' /\
  (forall y, t_out t' y = if Bool.eqb x y then t_out t y ++ concat (written D2 acts) else t_out t y) /\
  (forall y, y <> x -> gave (t_link t') y = gave (t_link t) y /\ t_lost t' y = t_lost t y) /\
  writes_at x (written D1 acts) t t'.
Definition performs (x : bool) (acts : list bridge_action) (t t' : Tunnel) : Prop :=
  star link_step (t_link t) (t_link t') /\ effects x acts t t'.

Lemma set_link_handled x l posts lost t : got l = upd x (got (t_link t) x ++ concat posts) (got (t_link t)) ->
  same_handled t (set_link x l posts lost t).
Proof.
  intros Hg y K H. cbn [t_link set_link t_inbox]. rewrite Hg. unfold upd.
  destruct (Bool.eqb x y) eqn:E; [|done]. apply Bool.eqb_prop in E as ->.
  by rewrite H, concat_app, app_assoc.
Qed.
Lemma upd_or x b (f : bool -> bool) y : upd x (f x || b) f y = if Bool.eqb x y then f y || b else f y.
Proof. unfold upd. destruct (Bool.eqb x y) eqn:E; [|done]. by apply Bool.eqb_prop in E as ->. Qed.

Lemma set_link_effects x l posts lost t acts more : gave l = upd x (gave (t_link t) x ++ more) (gave (t_link t)) ->
  got l = upd x (got (t_link t) x ++ concat posts) (got (t_link t)) -> written D2 acts = [] ->
  writes_at x (written D1 acts) t (set_link x l posts lost t) -> effects x acts t (set_link x l posts lost t).
Proof.
  intros Hv Hg Hd2 Hw. unfold effects. rewrite Hd2. split; [done|]. split; [done|]. split; [by apply set_link_handled|].
  split; [intros y; by destruct (Bool.eqb x y); cbn; rewrite ?app_nil_r|].
  split; [|done]. intros y Hy. assert (E : Bool.eqb x y = false) by (by destruct x, y).
  cbn [t_link set_link t_lost]. rewrite Hv, upd_or, E. unfold upd. by rewrite E.
Qed.
Lemma perform_link x ev l posts lost t acts :
  link_app x ev (t_link t) = Some (l, posts) -> written D2 acts = [] ->
  writes_at x (written D1 acts) t (set_link x l posts lost t) ->
  performs x acts t (set_link x l posts lost t).
Proof.
  intros (Hs & Hv & Hg)%link_app_spec Hd2 Hw. split; [by apply star_one|]. by eapply set_link_effects.
Qed.
Lemma effects_nothing x acts t : written D1 acts = [] -> written D2 acts = [] -> effects x acts t t.
Proof.
  intros H1 H2. unfold effects. rewrite H1, H2. do 2 (split; [done|]).
  split; [by intros y K|]. split; [|by split]. intros y. cbn. rewrite app_nil_r. by destruct (Bool.eqb x y).
Qed.
Lemma effects_put_out x p t : effects x [write_to D2 p] t (put_out x p t).
Proof.
  do 2 (split; [done|]). split; [by intros y K|].
  split; [|by split]. intros y. cbn [t_out put_out]. unfold upd. destruct (Bool.eqb x y) eqn:E; [|done].
  apply Bool.eqb_prop in E as ->. cbn. by rewrite app_nil_r.
Qed.
(** One request after another, of which one writes to the stream at most. *)
Lemma effects_trans x a acts t t1 t' : effects x [a] t t1 -> effects x acts t1 t' -> (length (written D1 (a :: acts)) <= 1)%nat ->
  effects x (a :: acts) t t'.
Proof.
  intros (B2 & B3 & B4 & B5 & B6 & B7) (A2 & A3 & A4 & A5 & A6 & A7) Hl.
  change (a :: acts) with ([a] ++ acts) in *. rewrite written_app, length_app in Hl.
  unfold effects. rewrite !written_app. do 2 (split; [congruence|]).
  split; [intros y K HK; by apply A4, B4|]. split; [|split].
  - intros y. rewrite A5, B5. destruct (Bool.eqb x y); [|done]. by rewrite concat_app, app_assoc.
  - intros y Hy. destruct (A6 y Hy), (B6 y Hy). split; congruence.
  - destruct (written D1 [a]) as [|p [|]]; [| |cbn in Hl; lia]; cbn [writes_at app] in B7 |- *.
    + destruct B7 as [Hg Hlo]. unfold writes_at in *. by rewrite <- Hg, <- Hlo.
    + destruct (written D1 acts); [|cbn in Hl; lia]. cbn [writes_at app] in A7 |- *. by destruct A7 as [-> ->].
Qed.
Lemma performs_nothing x acts t : written D1 acts = [] -> written D2 acts = [] -> performs x acts t t.
Proof. intros H1 H2. split; [apply star_refl|by apply effects_nothing]. Qed.
Lemma perform_one_spec x a t t' : perform_one x a t = Some t' -> performs x [a] t t'.
Proof.
  intros H. assert (Hread : forall all n, a = read_exact n \/ a = read_some D2 n ->
    ('(l, posts) ← link_app x (MuxStream.ev_read all n 0) (t_link t); Some (set_link x l posts false t)) = Some t' ->
    performs x [a] t t').
  { intros all n Ha E. destruct (link_app x _ (t_link t)) as [[l posts]|] eqn:El; [|done]. injection E as <-.
    eapply perform_link; [done|by destruct Ha as [-> | ->]|].
    apply link_app_spec in El as (_ & Hv & _).
    assert (Hn : written D1 [a] = []) by (by destruct Ha as [-> | ->]). rewrite Hn. cbn [writes_at t_link set_link t_lost].
    rewrite Hv, upd_same, app_nil_r, upd_or, Bool.eqb_reflx, Bool.orb_false_r. done. }
  assert (Hnone : written D1 [a] = [] -> written D2 [a] = [] -> t' = t -> performs x [a] t t')
    by (intros ? ? ->; by apply performs_nothing).
  destruct a as [d n|n|d n|[|] p| |]; cbn [perform_one] in H.
  - destruct d; [by injection H as <-; apply Hnone|]. eapply Hread; eauto.
  - eapply Hread; eauto.
  - by injection H as <-; apply Hnone.
  - destruct (link_app x _ (t_link t)) as [[l posts]|] eqn:El; [|done]. injection H as <-.
    eapply perform_link; [done|done|]. apply link_app_spec in El as (_ & Hv & _).
    cbn [written omap list_omap writes_at t_link set_link t_lost]. rewrite Hv, upd_same, upd_or, Bool.eqb_reflx.
    cbn [accepted concat]. unfold refused. destruct (kMuxStreamMaxPendingWrites <=? _).
    + right. by rewrite Bool.orb_true_r, app_nil_r.
    + left. rewrite Bool.orb_false_r. done.
  - injection H as <-. split; [apply star_refl|apply effects_put_out].
  - by injection H as <-; apply Hnone.
  - by injection H as <-; apply Hnone.
Qed.

(** Requests that write at most one packet to the stream. *)
Lemma perform_spec x acts t t' : perform x acts t = Some t' -> (length (written D1 acts) <= 1)%nat ->
  performs x acts t t'.
Proof.
  revert t. induction acts as [|a acts IH]; intros t H Hl; cbn [perform] in H.
  { injection H as <-. by apply performs_nothing. }
  destruct (perform_one x a t) as [t1|] eqn:E; [|done]. cbn [mbind option_bind] in H.
  destruct (perform_one_spec _ _ _ _ E) as [B1 B2]. destruct (IH t1 H) as [A1 A2].
  { change (a :: acts) with ([a] ++ acts) in Hl. rewrite written_app, length_app in Hl. lia. }
  split; [by eapply star_trans|by eapply effects_trans].
Qed.

(** ** The moves of a direction *)
Section Moves.
Context `{Zstd}.
Variables (compressed : bool) (level : Z) (limiter : bool).
Definition packet (data : list byte) : list byte := if compressed then frame level data else data.

(** One step of the sending direction: its phases and the packet written. *)
Inductive sender_move : bridge_event -> phase -> phase -> list (list byte) -> Prop :=
| sender_fails ev ph : sender_move ev ph halted []
| sender_reads data n : zlen data <= read_size ->
    sender_move (ev_read D1 ec_ok data) reading_some (limited (packet data) n) []
| sender_sends data : zlen data <= read_size ->
    sender_move (ev_read D1 ec_ok data) reading_some writing [packet data]
| sender_released p n : sender_move (ev_tokens D1) (limited p n) writing [p]
| sender_done : sender_move (ev_written D1 ec_ok) writing reading_some [].

(** One step of the receiving direction, and the bytes it writes out. *)
Definition body_means (flag : bool) (body out : list byte) : Prop :=
  flag = false /\ out = body \/
  flag = true /\ exists n, frame_content_size body = Some n /\ decompress n body = Some out.
Inductive receiver_move : bridge_event -> phase -> phase -> list (list byte) -> Prop :=
| receiver_fails ec data ph : ec <> ec_ok -> receiver_move (ev_read D2 ec data) ph halted []
| receiver_write_fails ec ph : receiver_move (ev_written D2 ec) ph halted []
| receiver_bad_header h : receiver_move (ev_read D2 ec_ok h) reading_header halted []
| receiver_bad_body flag len body : receiver_move (ev_read D2 ec_ok body) (reading_body len flag) halted []
| receiver_header h : zlen h = 4 ->
    receiver_move (ev_read D2 ec_ok h) reading_header
      (reading_body (Z.land (be_val h) LENGTH_MASK) (negb (Z.land (be_val h) COMPRESSION_FLAG =? 0))) []
| receiver_body flag len body out ph' ws : zlen body = len -> body_means flag body out ->
    (exists n, ph' = limited out n /\ ws = []) \/ (ph' = writing /\ ws = [out]) ->
    receiver_move (ev_read D2 ec_ok body) (reading_body len flag) ph' ws
| receiver_chunk data ph' ws :
    (exists n, ph' = limited (packet data) n /\ ws = []) \/ (ph' = writing /\ ws = [packet data]) ->
    receiver_move (ev_read D2 ec_ok data) reading_some ph' ws
| receiver_released p n : receiver_move (ev_tokens D2) (limited p n) writing [p]
| receiver_done : receiver_move (ev_written D2 ec_ok) writing (if compressed then reading_header else reading_some) [].

Lemma fail_effects d b : phase_of d (fail d b).1 = halted /\ (forall d', written d' (fail d b).2 = []) /\
  (forall d', d' <> d -> phase_of d' (fail d b).1 = phase_of d' b).
Proof.
  unfold fail, HandleStop. destruct (stopped_ (set_phase d halted b)), d; cbn; split_and!; try done; by intros [].
Qed.
Lemma forward_effects d p n b :
  ((phase_of d (forward limiter d p n b).1 = limited p n /\ written d (forward limiter d p n b).2 = []) \/
   (phase_of d (forward limiter d p n b).1 = writing /\ written d (forward limiter d p n b).2 = [p])) /\
  (forall d', d' <> d -> phase_of d' (forward limiter d p n b).1 = phase_of d' b /\ written d' (forward limiter d p n b).2 = []).
Proof. unfold forward, write_op. destruct limiter, d; cbn; (split; [auto|by intros []]). Qed.
Lemma DoRead_effects d b : phase_of d (DoRead compressed d b).1 =
    (match d with D1 => reading_some | D2 => if compressed then reading_header else reading_some end) /\
  (forall d', written d' (DoRead compressed d b).2 = []) /\
  (forall d', d' <> d -> phase_of d' (DoRead compressed d b).1 = phase_of d' b).
Proof. unfold DoRead. destruct compressed, d; cbn; split_and!; try done; by intros []. Qed.

Definition event_dir (ev : bridge_event) : direction :=
  match ev with ev_read d _ _ | ev_tokens d | ev_written d _ => d end.
Definition other (d : direction) : direction := match d with D1 => D2 | D2 => D1 end.
(** A direction's step leaves the other direction alone. *)
Lemma step_frame ev b b' acts : bridge_step compressed level limiter ev b = Some (b', acts) ->
  let d := event_dir ev in phase_of (other d) b' = phase_of (other d) b /\ written (other d) acts = [].
Proof.
  assert (Hf : forall d b r, r = fail d b -> phase_of (other d) r.1 = phase_of (other d) b /\ written (other d) r.2 = []).
  { intros d b0 r ->. destruct (fail_effects d b0) as (_ & Hw & Hp). split; [apply Hp; by destruct d|apply Hw]. }
  assert (Hg : forall d p n b r, r = forward limiter d p n b -> phase_of (other d) r.1 = phase_of (other d) b /\ written (other d) r.2 = []).
  { intros d p n b0 r ->. destruct (forward_effects d p n b0) as (_ & Hp). apply Hp. by destruct d. }
  assert (Hr : forall d b r, r = DoRead compressed d b -> phase_of (other d) r.1 = phase_of (other d) b /\ written (other d) r.2 = []).
  { intros d b0 r ->. destruct (DoRead_effects d b0) as (_ & Hw & Hp). split; [apply Hp; by destruct d|apply Hw]. }
  intros E d. enough (Hall : forall r, bridge_step compressed level limiter ev b = Some r ->
    phase_of (other d) r.1 = phase_of (other d) b /\ written (other d) r.2 = []) by (by apply (Hall (b', acts))).
  clear E. intros r E.
  destruct ev as [dd ec data|dd|dd ec]; subst d; cbn [event_dir bridge_step] in *.
  - destruct (negb _); [done|]. destruct dd, (phase_of _ b); try done; injection E as <-;
      unfold on_chunk, on_header, on_body; repeat case_match; eauto; by split.
  - destruct (phase_of dd b) as [| | | |p n| |]; try done. injection E as <-.
    unfold write_op. by destruct dd.
  - destruct (phase_of dd b); try done. injection E as <-. unfold on_written. case_match; eauto.
Qed.
Lemma sender_step ev b b' acts : bridge_step compressed level limiter ev b = Some (b', acts) -> event_dir ev = D1 ->
  sender_move ev (phase1 b) (phase1 b') (written D1 acts).
Proof.
  intros E Hd. assert (Hf : forall r, Some r = Some (b', acts) -> r = fail D1 b -> sender_move ev (phase1 b) (phase1 b') (written D1 acts)).
  { intros r [= ->] Er. destruct (fail_effects D1 b) as (Hp & Hw & _). rewrite <- Er in *. cbn [fst snd phase_of] in *.
    rewrite Hp, Hw. constructor. }
  destruct ev as [d ec data|d|d ec]; cbn [event_dir] in Hd; subst d; cbn [bridge_step phase_of] in E.
  - destruct (negb (read_fits (phase1 b) ec data)) eqn:Efit; [done|]. destruct (phase1 b); try done.
    unfold on_chunk in E. destruct (decide (ec = ec_ok)) as [->|]; [|by eapply Hf].
    unfold read_fits in Efit. rewrite decide_True in Efit by done. apply Bool.negb_false_iff, Z.leb_le in Efit.
    assert (Hr : forward limiter D1 (packet data) (zlen data) b = (b', acts))
      by (injection E as <-; unfold packet; by destruct compressed).
    destruct (forward_effects D1 (packet data) (zlen data) b) as [He _]. rewrite Hr in He.
    cbn [fst snd phase_of] in He. destruct He as [[-> ->]|[-> ->]]; by constructor.
  - destruct (phase1 b); try done. injection E as <- <-. cbn. constructor.
  - destruct (phase1 b); try done. unfold on_written in E. destruct (decide (ec = ec_ok)) as [->|]; [|by eapply Hf].
    destruct (DoRead_effects D1 b) as (Hp & Hw & _). injection E as E. rewrite E in *. cbn [fst snd phase_of] in *.
    rewrite Hp, Hw. constructor.
Qed.
Lemma receiver_step ev b b' acts : bridge_step compressed level limiter ev b = Some (b', acts) -> event_dir ev = D2 ->
  receiver_move ev (phase2 b) (phase2 b') (written D2 acts).
Proof.
  intros E Hd. assert (Hf : forall r, Some r = Some (b', acts) -> r = fail D2 b -> phase2 b' = halted /\ written D2 acts = []).
  { intros r [= ->] Er. destruct (fail_effects D2 b) as (Hp & Hw & _). rewrite <- Er in *. done. }
  assert (Hg : forall p n, Some (forward limiter D2 p n b) = Some (b', acts) ->
    (exists m, phase2 b' = limited p m /\ written D2 acts = []) \/ (phase2 b' = writing /\ written D2 acts = [p])).
  { intros p n [= Er]. destruct (forward_effects D2 p n b) as [He _]. rewrite Er in He. cbn [fst snd phase_of] in He. naive_solver. }
  destruct ev as [d ec data|d|d ec]; cbn [event_dir] in Hd; subst d; cbn [bridge_step phase_of] in E.
  - destruct (negb (read_fits (phase2 b) ec data)) eqn:Efit; [done|]. apply Bool.negb_false_iff in Efit.
    unfold read_fits in Efit. unfold on_chunk, on_header, on_body in E.
    destruct (decide (ec = ec_ok)) as [->|Hec].
    2:{ assert (Hh : phase2 b' = halted /\ written D2 acts = []) by (destruct (phase2 b); try done; by eapply Hf).
        destruct Hh as [-> ->]. by constructor. }
    destruct (phase2 b) as [| | |len flag| | |]; try done.
    + assert (Hr : Some (forward limiter D2 (packet data) (zlen data) b) = Some (b', acts))
        by (unfold packet; by destruct compressed).
      apply receiver_chunk. by eapply Hg.
    + apply Z.eqb_eq in Efit. destruct (MAX_MESSAGE_SIZE <? _); [destruct (Hf _ E eq_refl) as [-> ->]; apply receiver_bad_header|].
      injection E as <- <-. by apply receiver_header.
    + apply Z.eqb_eq in Efit. destruct flag.
      * destruct (frame_content_size data) as [n|] eqn:En; [|destruct (Hf _ E eq_refl) as [-> ->]; apply receiver_bad_body].
        destruct (MAX_DECOMPRESSED_SIZE <? n); [destruct (Hf _ E eq_refl) as [-> ->]; apply receiver_bad_body|].
        destruct (decompress n data) as [out|] eqn:Eo; [|destruct (Hf _ E eq_refl) as [-> ->]; apply receiver_bad_body].
        eapply receiver_body; [done| |by eapply Hg]. right. split; [done|]. by exists n.
      * eapply receiver_body; [done| |by eapply Hg]. by left.
  - destruct (phase2 b); try done. injection E as <- <-. cbn. constructor.
  - destruct (phase2 b); try done. unfold on_written in E. destruct (decide (ec = ec_ok)) as [->|].
    + destruct (DoRead_effects D2 b) as (Hp & Hw & _). injection E as E. rewrite E in *. cbn [fst snd phase_of] in *.
      rewrite Hp, Hw. constructor.
    + destruct (Hf _ E eq_refl) as [-> ->]. constructor.
Qed.
End Moves.

(** ** The invariant of a direction *)
Section Direction.
Context `{ZstdLaws}.
Variables (compressed : bool) (level : Z).
Definition packets (chunks : list (list byte)) : list byte := concat (map (packet compressed level) chunks).
Lemma packets_of_app xs ys : packets (xs ++ ys) = packets xs ++ packets ys.
Proof. unfold packets. by rewrite map_app, concat_app. Qed.
Lemma packets_one x : packets [x] = packet compressed level x.
Proof. apply app_nil_r. Qed.

(** A body that stands for a chunk. *)
Definition body_holds (flag : bool) (body ch : list byte) : Prop :=
  flag = false /\ body = ch \/ flag = true /\ frame_content_size body = Some (zlen ch) /\ decompress (zlen ch) body = Some ch.
Lemma body_holds_means flag body ch o : body_holds flag body ch -> body_means flag body o -> o = ch.
Proof. intros [[-> ->]|(-> & Hs & Hd)] [[Hf ->]|(Hf & m & Hs' & Hd')]; congruence. Qed.

(** The sender: the chunks handed to the stream, what was given to it and what
    was read from the plain connection. *)
Definition send_ok (ph : phase) (lost : bool) (chunks : list (list byte)) (given taken : list byte) : Prop :=
  Forall chunk_ok chunks /\ given `prefix_of` packets chunks /\ (lost = false -> given = packets chunks) /\
  match ph with
  | not_started | reading_some => lost = false /\ taken = concat chunks
  | limited p _ => lost = false /\ exists ch, chunk_ok ch /\ p = packet compressed level ch /\ taken = concat chunks ++ ch
  | writing => if lost then concat chunks `prefix_of` taken else taken = concat chunks
  | halted => concat chunks `prefix_of` taken
  | _ => False
  end.
(** The receiver: the bytes its reads were given and those written out. *)
Definition recv_ok (ph : phase) (handled out : list byte) (chunks : list (list byte)) : Prop :=
  if compressed then
    exists done rest, chunks = done ++ rest /\
    match ph with
    | not_started | reading_header | writing => handled = packets done /\ out = concat done
    | reading_body n flag => out = concat done /\ exists ch rest' h body, rest = ch :: rest' /\
        packet compressed level ch = h ++ body /\ zlen h = 4 /\ zlen body = n /\ handled = packets done ++ h /\
        body_holds flag body ch
    | limited p _ => handled = packets done /\ exists done', done = done' ++ [p] /\ out = concat done'
    | halted => out = concat done
    | reading_some => False
    end
  else match ph with
       | not_started | reading_some | writing => handled = out
       | limited p _ => handled = out ++ p
       | halted => out `prefix_of` handled
       | _ => False
       end.
Lemma recv_ok_more ph handled out chunks more : recv_ok ph handled out chunks -> recv_ok ph handled out (chunks ++ more).
Proof.
  unfold recv_ok. destruct compressed; [|done]. intros (done & rest & -> & Hp). exists done, (rest ++ more).
  split; [by rewrite app_assoc|]. destruct ph; try done.
  destruct Hp as (Ho & ch & rest' & h & body & -> & Hr). split; [done|]. by exists ch, (rest' ++ more), h, body.
Qed.

(** A frame splits into four bytes and a body that means the chunk. *)
Lemma packet_shape ch : compressed = true -> chunk_ok ch -> exists h body, packet compressed level ch = h ++ body /\ zlen h = 4 /\
  Z.land (be_val h) LENGTH_MASK = zlen body /\ zlen body <= read_size /\
  body_holds (negb (Z.land (be_val h) COMPRESSION_FLAG =? 0)) body ch.
Proof.
  intros Hcomp Hc. unfold packet. rewrite Hcomp. destruct (frame_shape level ch Hc) as (n & flag & body & -> & Hl & Hn & Hb).
  destruct (header_length n flag Hn) as [H1 H2]. eexists _, body. split; [done|]. split; [done|].
  rewrite H1, H2. split; [done|]. split; [lia|exact Hb].
Qed.

Lemma send_prefix ph lost chunks given taken : send_ok ph lost chunks given taken -> concat chunks `prefix_of` taken.
Proof.
  intros (_ & _ & _ & Hp). destruct ph; try done; try by destruct Hp as [_ ->].
  - destruct Hp as (_ & ch & _ & _ & ->). by eexists.
  - destruct lost; [done|]. by rewrite Hp.
Qed.
(** A written packet is given to the stream or lost. *)
Definition fate (ps : list (list byte)) (given : list byte) (lost : bool) (given' : list byte) (lost' : bool) : Prop :=
  match ps with
  | [] => given' = given /\ lost' = lost
  | _ => (given' = given ++ concat ps /\ lost' = lost) \/ (given' = given /\ lost' = true)
  end.
Lemma send_write chunks given ch lost given' lost' taken : Forall chunk_ok chunks -> given = packets chunks -> chunk_ok ch ->
  lost = false -> fate [packet compressed level ch] given lost given' lost' -> taken = concat chunks ++ ch ->
  exists more, send_ok writing lost' (chunks ++ more) given' taken.
Proof.
  intros Hc -> Hch -> [[-> ->]|[-> ->]] ->.
  - exists [ch]. cbn [concat]. rewrite app_nil_r. split; [by apply Forall_app; split; [|apply Forall_singleton]|].
    rewrite packets_of_app, packets_one. split; [done|]. split; [done|]. rewrite concat_app. cbn. by rewrite app_nil_r.
  - exists []. rewrite app_nil_r. split; [done|]. split; [done|]. split; [done|]. by eexists.
Qed.
Definition bytes_of_read (ev : bridge_event) : list byte := match ev with ev_read _ _ data => data | _ => [] end.
Lemma send_move ev ph ph' ws lost chunks given taken given' lost' :
  send_ok ph lost chunks given taken -> sender_move compressed level ev ph ph' ws ->
  (forall data, ev = ev_read D1 ec_ok data -> 0 < zlen data) -> (ev = ev_written D1 ec_ok -> lost = false) ->
  fate ws given lost given' lost' ->
  exists more, send_ok ph' lost' (chunks ++ more) given' (taken ++ bytes_of_read ev).
Proof.
  intros Hs Hm Hdata Hlost Hf. pose proof (send_prefix _ _ _ _ _ Hs) as Hpre. destruct Hs as (Hc & Hg & Hge & Hp).
  destruct Hm as [ev ph|data n Hn|data Hn|p n|]; cbn [bytes_of_read]; rewrite ?app_nil_r.
  - destruct Hf as [-> ->]. exists []. rewrite app_nil_r. split_and!; try done. cbn. by apply prefix_app_r.
  - destruct Hf as [-> ->]. destruct Hp as [-> ->]. exists []. rewrite app_nil_r. split_and!; try done.
    exists data. split; [|done]. split; [by apply Hdata|done].
  - destruct Hp as [-> ->]. eapply send_write; [done|by apply Hge| |done|done|done]. split; [by apply Hdata|done].
  - destruct Hp as [-> (ch & Hch & -> & ->)]. eapply send_write; [done|by apply Hge|exact Hch|done|exact Hf|done].
  - destruct Hf as [-> ->]. rewrite Hlost in * by done. exists []. by rewrite app_nil_r.
Qed.

Lemma recv_halts ph handled out chunks d : recv_ok ph handled out chunks -> recv_ok halted (handled ++ d) out chunks.
Proof.
  unfold recv_ok. destruct compressed.
  - intros (done & rest & -> & Hp). destruct ph as [| | |n flag|p n| |]; try done; try (exists done, rest; naive_solver).
    destruct Hp as (_ & done' & -> & ->). exists done', ([p] ++ rest). by rewrite app_assoc.
  - intros Hp. apply prefix_app_r. destruct ph; try done; rewrite Hp; try done; by apply prefix_app_r.
Qed.
(** What a chunk received does: it waits for the limiter or is written. *)
Lemma recv_forward done ch rest handled out ph' ws : compressed = true -> handled = packets (done ++ [ch]) -> out = concat done ->
  (exists n, ph' = limited ch n /\ ws = []) \/ (ph' = writing /\ ws = [ch]) ->
  recv_ok ph' handled (out ++ concat ws) (done ++ ch :: rest).
Proof.
  intros Hcomp -> -> Hf. unfold recv_ok. rewrite Hcomp. exists (done ++ [ch]), rest. split; [by rewrite <- app_assoc|].
  destruct Hf as [(n & -> & ->)|[-> ->]]; cbn [concat].
  - split; [done|]. exists done. by rewrite app_nil_r.
  - split; [done|]. rewrite concat_app. cbn. by rewrite app_nil_r.
Qed.
Lemma prefix_take_eq (h d r : list byte) n : zlen h = n -> zlen d = n -> d `prefix_of` h ++ r -> d = h.
Proof.
  intros Hh Hd [k E]. symmetry in E. apply app_inj_1 in E as [-> _]; [done|]. unfold zlen in *. lia.
Qed.
Lemma recv_move level' ev ph ph' ws handled out chunks :
  recv_ok ph handled out chunks -> Forall chunk_ok chunks -> receiver_move compressed level' ev ph ph' ws ->
  handled ++ bytes_of_read ev `prefix_of` packets chunks ->
  recv_ok ph' (handled ++ bytes_of_read ev) (out ++ concat ws) chunks.
Proof.
  intros Hr Hc Hm Hpre. destruct Hm as [ec data ph Hec|ec ph|h|flag len body|h Hh|flag len body o ph' ws Hlen Hb Hf|data ph' ws Hf|p n|];
    cbn [bytes_of_read concat] in *; rewrite ?(app_nil_r out); try (by eapply recv_halts).
  - unfold recv_ok in *. destruct compressed eqn:Hcomp; [|done]. destruct Hr as (done & rest & -> & -> & ->).
    rewrite packets_of_app in Hpre. apply prefix_app_inv in Hpre. destruct rest as [|ch rest].
    { apply prefix_nil_inv in Hpre as ->. done. }
    apply Forall_app in Hc as [_ Hc]. apply Forall_cons in Hc as [Hch _].
    destruct (packet_shape ch) as (h' & body & Hp & Hh' & Hl & _ & Hb); [done|done|].
    change (ch :: rest) with ([ch] ++ rest) in Hpre. rewrite packets_of_app, packets_one, Hp, <- app_assoc in Hpre.
    apply (prefix_take_eq h' h _ 4) in Hpre as ->; [|done|done].
    rewrite Hcomp in Hp. exists done, (ch :: rest). split; [done|]. rewrite Hl. split; [done|]. by exists ch, rest, h', body.
  - unfold recv_ok in Hr. destruct compressed eqn:Hcomp; [|done].
    destruct Hr as (done & rest & -> & -> & ch & rest' & h & body' & -> & Hp & Hh & Hl & -> & Hm).
    rewrite <- Hcomp in Hp. rewrite packets_of_app in Hpre. change (ch :: rest') with ([ch] ++ rest') in Hpre.
    rewrite (packets_of_app [ch]), packets_one, Hp, <- !app_assoc in Hpre. do 2 apply prefix_app_inv in Hpre.
    apply (prefix_take_eq body' body _ len) in Hpre as ->; [|done|done]. rewrite (body_holds_means _ _ _ _ Hm Hb) in Hf.
    apply recv_forward; [done| |done|done]. rewrite packets_of_app, packets_one, Hp. by rewrite <- app_assoc.
  - unfold recv_ok in *. unfold packet in Hf. destruct compressed eqn:Hcomp; [by destruct Hr as (? & ? & _ & [])|]. subst handled.
    destruct Hf as [(n & -> & ->)|[-> ->]]; cbn [concat]; by rewrite ?app_nil_r.
  - rewrite !app_nil_r. unfold recv_ok in *. destruct compressed; [|by subst].
    destruct Hr as (done & rest & -> & -> & done' & -> & ->). exists (done' ++ [p]), rest.
    split; [done|]. split; [done|]. rewrite concat_app. cbn. by rewrite app_nil_r.
  - rewrite app_nil_r. unfold recv_ok in *. by destruct compressed.
Qed.
End Direction.

(** ** The invariant of the tunnel *)
Section Invariant.
Context `{ZstdLaws}.
Variables (compressed : bool) (level : bool -> Z) (limiter : bool -> bool) (id : Z).
Definition dir_ok (x : bool) (t : Tunnel) (chunks : list (list byte)) (handled : list byte) : Prop :=
  send_ok compressed (level x) (phase1 (t_bridge t x)) (t_lost t x) chunks (gave (t_link t) x) (t_in t x) /\
  got (t_link t) (negb x) = handled ++ concat (t_inbox t (negb x)) /\
  recv_ok compressed (level x) (phase2 (t_bridge t (negb x))) handled (t_out t (negb x)) chunks.
Definition tunnel_inv (t : Tunnel) : Prop :=
  star link_step (new_link id) (t_link t) /\ forall x, exists chunks handled, dir_ok x t chunks handled.

Lemma got_prefix l x : star link_step (new_link id) l -> got l (negb x) `prefix_of` gave l x.
Proof.
  intros Hs. destruct (reachable_inv id l Hs) as [_ Hd]. destruct (Hd x) as [_ _ _ _ _ _ _ _ Hb _ _]. rewrite Hb. by eexists.
Qed.
(** The bytes handed to a read of the receiver are a prefix of the packets. *)
Lemma handled_in_order x t chunks handled more : got (t_link t) (negb x) `prefix_of` gave (t_link t) x ->
  send_ok compressed (level x) (phase1 (t_bridge t x)) (t_lost t x) chunks (gave (t_link t) x) (t_in t x) ->
  got (t_link t) (negb x) = handled ++ more -> forall d rest, more = d ++ rest ->
  handled ++ d `prefix_of` packets compressed (level x) chunks.
Proof.
  intros Ho (_ & Hg & _) Hgot d rest ->. etrans; [|exact Hg]. etrans; [|exact Ho].
  rewrite Hgot, app_assoc. by eexists.
Qed.
Lemma handled_prefix x t chunks handled more : star link_step (new_link id) (t_link t) ->
  send_ok compressed (level x) (phase1 (t_bridge t x)) (t_lost t x) chunks (gave (t_link t) x) (t_in t x) ->
  got (t_link t) (negb x) = handled ++ more -> forall d rest, more = d ++ rest ->
  handled ++ d `prefix_of` packets compressed (level x) chunks.
Proof. intros Hs. apply handled_in_order. by apply got_prefix. Qed.

(** What the link does aside: it hands over no more than it was given. *)
Definition dirs_ok (t : Tunnel) : Prop := forall x, exists chunks handled, dir_ok x t chunks handled.
Definition in_order (l : link) : Prop := forall x, got l (negb x) `prefix_of` gave l x.
(** An event of the sending direction at [e]; [t0] is the tunnel with what the
    event read already recorded. *)
Lemma sender_dirs e ev t t0 b' acts t' :
  dirs_ok t -> event_dir ev = D1 ->
  t_bridge t0 = t_bridge t -> t_link t0 = t_link t -> t_inbox t0 = t_inbox t -> t_out t0 = t_out t -> t_lost t0 = t_lost t ->
  t_in t0 e = t_in t e ++ bytes_of_read ev -> t_in t0 (negb e) = t_in t (negb e) ->
  (forall data, ev = ev_read D1 ec_ok data -> 0 < zlen data) -> (ev = ev_written D1 ec_ok -> t_lost t e = false) ->
  bridge_step compressed (level e) (limiter e) ev (t_bridge t e) = Some (b', acts) ->
  effects e acts (set_bridge e b' t0) t' -> dirs_ok t'.
Proof.
  intros Hd Hev E1 E2 E3 E4 E5 E6 E7 Hdata Hlost Estep (P2 & P3 & P4 & P5 & P6 & P7).
  pose proof (sender_step _ _ _ _ _ _ _ Estep Hev) as Hm.
  destruct (step_frame _ _ _ _ _ _ _ Estep) as [Hph Hw]. rewrite Hev in Hph, Hw. cbn [other phase_of] in Hph, Hw.
  cbn [t_link t_bridge t_in t_out t_lost set_bridge] in *. rewrite Hw in P5. cbn [concat] in P5.
  assert (Hout : forall y, t_out t' y = t_out t y) by (intros y; rewrite P5, app_nil_r, E4; by destruct (Bool.eqb e y)).
  intros x. destruct (Hd x) as (chunks & handled & Hsend & Hgot & Hrecv).
  assert (Hgot' : got (t_link t') (negb x) = handled ++ concat (t_inbox t' (negb x)))
    by (apply P4; cbn [t_link t_inbox set_bridge]; by rewrite E2, E3).
  destruct (Bool.bool_dec x e) as [->|Hx].
  - assert (Hfate : fate (written D1 acts) (gave (t_link t) e) (t_lost t e) (gave (t_link t') e) (t_lost t' e))
      by (unfold writes_at in P7; cbn [t_link t_lost set_bridge] in P7; by rewrite E2, E5 in P7).
    destruct (send_move _ _ _ _ _ _ _ _ _ _ _ _ Hsend Hm Hdata Hlost Hfate) as [more Hnew].
    exists (chunks ++ more), handled. split; [|split; [done|]].
    + by rewrite P2, upd_same, P3, E6.
    + rewrite P2, upd_other, E1, Hout by done. by apply recv_ok_more.
  - assert (x = negb e) as -> by (by destruct x, e). rewrite negb_involutive in *.
    destruct (P6 (negb e)) as [Hg Hl]; [by destruct e|]. exists chunks, handled. unfold dir_ok. rewrite negb_involutive.
    split; [|split; [done|]].
    + by rewrite P2, upd_other, E1, P3, E7, Hg, Hl, E2, E5.
    + by rewrite P2, upd_same, Hph, Hout.
Qed.
(** An event of the receiving direction at [e]; [t0] is the tunnel without what
    the event took from the inbox. *)
Lemma receiver_dirs e ev t t0 b' acts t' :
  in_order (t_link t) -> dirs_ok t -> event_dir ev = D2 ->
  t_bridge t0 = t_bridge t -> t_link t0 = t_link t -> t_in t0 = t_in t -> t_out t0 = t_out t -> t_lost t0 = t_lost t ->
  concat (t_inbox t e) = bytes_of_read ev ++ concat (t_inbox t0 e) -> t_inbox t0 (negb e) = t_inbox t (negb e) ->
  bridge_step compressed (level e) (limiter e) ev (t_bridge t e) = Some (b', acts) ->
  effects e acts (set_bridge e b' t0) t' -> dirs_ok t'.
Proof.
  intros Ho Hd Hev E1 E2 E3 E4 E5 E6 E7 Estep (P2 & P3 & P4 & P5 & P6 & P7).
  pose proof (receiver_step _ _ _ _ _ _ _ Estep Hev) as Hm.
  destruct (step_frame _ _ _ _ _ _ _ Estep) as [Hph Hw]. rewrite Hev in Hph, Hw. cbn [other phase_of] in Hph, Hw.
  rewrite Hw in P7. cbn [t_link t_bridge t_in t_out t_lost set_bridge writes_at] in *.
  intros x. destruct (Hd x) as (chunks & handled & Hsend & Hgot & Hrecv).
  destruct (Bool.bool_dec x e) as [->|Hx].
  - exists chunks, handled. destruct P7 as [Hg Hl]. split; [|split].
    + by rewrite P2, upd_same, Hph, P3, E3, Hg, Hl, E2, E5.
    + apply P4. cbn [t_link t_inbox set_bridge]. by rewrite E2, E7.
    + rewrite P2, upd_other, E1, P5, E4 by done. by destruct e.
  - assert (x = negb e) as -> by (by destruct x, e). rewrite negb_involutive in *.
    destruct (P6 (negb e)) as [Hg Hl]; [by destruct e|]. exists chunks, (handled ++ bytes_of_read ev).
    unfold dir_ok. rewrite negb_involutive. split; [|split].
    + by rewrite P2, upd_other, E1, P3, E3, Hg, Hl, E2, E5.
    + apply P4. cbn [t_link t_inbox set_bridge]. by rewrite E2, Hgot, E6, app_assoc.
    + rewrite P2, upd_same, P5, E4, Bool.eqb_reflx. eapply recv_move; [exact Hrecv|by destruct Hsend|exact Hm|].
      eapply (handled_in_order (negb e)); [apply Ho|exact Hsend|by rewrite negb_involutive|exact E6].
Qed.
Lemma start_dirs e t b acts t' : dirs_ok t -> phase1 (t_bridge t e) = not_started -> phase2 (t_bridge t e) = not_started ->
  Start compressed (t_bridge t e) = (b, acts) -> effects e acts (set_bridge e b t) t' -> dirs_ok t'.
Proof.
  intros Hd Hp1 Hp2 E (P2 & P3 & P4 & P5 & P6 & P7).
  assert (Hb : phase1 b = reading_some /\ phase2 b = (if compressed then reading_header else reading_some) /\
    written D1 acts = [] /\ written D2 acts = []) by (unfold Start, DoRead in E; destruct compressed; by injection E as <- <-).
  destruct Hb as (Hb1 & Hb2 & Hw1 & Hw2). rewrite Hw1 in P7. rewrite Hw2 in P5.
  cbn [t_link t_bridge t_in t_out t_lost set_bridge writes_at concat] in *.
  assert (Hout : forall y, t_out t' y = t_out t y) by (intros y; rewrite P5, app_nil_r; by destruct (Bool.eqb e y)).
  intros x. destruct (Hd x) as (chunks & handled & Hsend & Hgot & Hrecv).
  exists chunks, handled. assert (Hsame : gave (t_link t') x = gave (t_link t) x /\ t_lost t' x = t_lost t x).
  { destruct (Bool.bool_dec x e) as [->|Hx]; [done|by apply P6]. }
  destruct Hsame as [Hg Hl]. split; [|split].
  - rewrite P2, P3, Hg, Hl. unfold upd. destruct (Bool.eqb e x) eqn:Ex; [|done]. apply Bool.eqb_prop in Ex as <-.
    rewrite Hb1. by rewrite Hp1 in Hsend.
  - by apply P4.
  - rewrite P2, Hout. unfold upd. destruct (Bool.eqb e (negb x)) eqn:Ex; [|done]. apply Bool.eqb_prop in Ex. rewrite <- Ex in *.
    rewrite Hb2. rewrite Hp2 in Hrecv. unfold recv_ok in *. by destruct compressed.
Qed.
(** The packets of a step. *)
Lemma step_writes e ev b b' acts : bridge_step compressed (level e) (limiter e) ev b = Some (b', acts) -> (length (written D1 acts) <= 1)%nat.
Proof.
  intros E. destruct (event_dir ev) eqn:Hev.
  - destruct (sender_step _ _ _ _ _ _ _ E Hev); cbn; lia.
  - destruct (step_frame _ _ _ _ _ _ _ E) as [_ Hw]. rewrite Hev in Hw. cbn [other] in Hw. rewrite Hw. cbn. lia.
Qed.
Lemma reached_order t : star link_step (new_link id) (t_link t) -> in_order (t_link t).
Proof. intros Hs x. by apply got_prefix. Qed.
Lemma event_inv e ev t t0 b' acts t' : tunnel_inv t -> t_link t0 = t_link t ->
  bridge_step compressed (level e) (limiter e) ev (t_bridge t e) = Some (b', acts) ->
  perform e acts (set_bridge e b' t0) = Some t' -> (effects e acts (set_bridge e b' t0) t' -> dirs_ok t') -> tunnel_inv t'.
Proof.
  intros [Hs _] E2 Estep Eperf Hk. apply perform_spec in Eperf as [P1 P2]; [|by eapply step_writes].
  cbn [t_link set_bridge] in P1. rewrite E2 in P1. split; [by eapply star_trans|by apply Hk].
Qed.
Lemma start_event e t b acts t' : tunnel_inv t -> phase1 (t_bridge t e) = not_started -> phase2 (t_bridge t e) = not_started ->
  Start compressed (t_bridge t e) = (b, acts) -> perform e acts (set_bridge e b t) = Some t' -> tunnel_inv t'.
Proof.
  intros [Hs Hd] Hp1 Hp2 E Eperf. apply perform_spec in Eperf as [P1 P2].
  - split; [by eapply star_trans|by eapply start_dirs].
  - unfold Start, DoRead in E. destruct compressed; injection E as <- <-; cbn; lia.
Qed.
Lemma tunnel_step_inv ev t t' : tunnel_inv t -> tunnel_step compressed level limiter ev t = Some t' -> tunnel_inv t'.
Proof.
  intros Hinv E.
  assert (Hat : forall x ev t0, bridge_event_at compressed level limiter x ev t0 = Some t' -> t_bridge t0 = t_bridge t ->
    exists b acts, bridge_step compressed (level x) (limiter x) ev (t_bridge t x) = Some (b, acts) /\
      perform x acts (set_bridge x b t0) = Some t').
  { intros x ev0 t0 E0 Hb. unfold bridge_event_at in E0. rewrite Hb in E0. destruct (stopped_ _); [done|].
    destruct (bridge_step _ _ _ ev0 _) as [[b acts]|]; [|done]. by exists b, acts. }
  pose proof Hinv as [Hstar0 Hd0]. pose proof (reached_order _ Hstar0) as Ho.
  destruct ev as [x|x ec data|x d|x d ec|x|x ec|x]; cbn [tunnel_step] in E.
  - destruct (phase1 (t_bridge t x)) eqn:H1; try done. destruct (phase2 (t_bridge t x)) eqn:H2; try done.
    destruct (Start compressed (t_bridge t x)) as [b acts] eqn:Es. by eapply start_event.
  - destruct (decide (ec = ec_ok)) as [->|Hec].
    + destruct (0 <? zlen data) eqn:Ez; [|done]. bool_hyps. apply Hat in E as (b & acts & Eb & Ep); [|done].
      apply (event_inv _ _ _ (took_in x data t) _ _ _ Hinv eq_refl Eb Ep). apply (sender_dirs x (ev_read D1 ec_ok data) t (took_in x data t) b acts); try done;
        [by cbn; rewrite upd_same|by cbn; rewrite upd_other|by intros ? [= <-]].
    + apply Hat in E as (b & acts & Eb & Ep); [|done]. apply (event_inv _ _ _ _ _ _ _ Hinv eq_refl Eb Ep).
      apply (sender_dirs x (ev_read D1 ec []) t t b acts); try done; [by rewrite app_nil_r|by intros ? [= ? <-]].
  - apply Hat in E as (b & acts & Eb & Ep); [|done]. apply (event_inv _ _ _ _ _ _ _ Hinv eq_refl Eb Ep).
    destruct d; [|by apply (receiver_dirs x (ev_tokens D2) t t b acts)].
    apply (sender_dirs x (ev_tokens D1) t t b acts); try done. by rewrite app_nil_r.
  - destruct d.
    + destruct (bool_decide (ec = ec_ok) && _) eqn:El; [done|]. apply Hat in E as (b & acts & Eb & Ep); [|done].
      apply (event_inv _ _ _ _ _ _ _ Hinv eq_refl Eb Ep).
      apply (sender_dirs x (ev_written D1 ec) t t b acts); try done; [by rewrite app_nil_r|].
      intros [= ->]. by destruct (t_lost t x).
    + apply Hat in E as (b & acts & Eb & Ep); [|done]. apply (event_inv _ _ _ _ _ _ _ Hinv eq_refl Eb Ep).
      by apply (receiver_dirs x (ev_written D2 ec) t t b acts).
  - destruct (t_inbox t x) as [|data rest] eqn:Ei; [done|]. apply Hat in E as (b & acts & Eb & Ep); [|done].
    apply (event_inv _ _ _ (set_inbox x rest t) _ _ _ Hinv eq_refl Eb Ep).
    apply (receiver_dirs x (ev_read D2 ec_ok data) t (set_inbox x rest t) b acts); try done;
      [by cbn; rewrite upd_same, Ei|by cbn; rewrite upd_other].
  - destruct (decide (ec = ec_ok)); [done|]. apply Hat in E as (b & acts & Eb & Ep); [|done].
    apply (event_inv _ _ _ _ _ _ _ Hinv eq_refl Eb Ep).
    by apply (receiver_dirs x (ev_read D2 ec []) t t b acts).
  - destruct (link_deliver x (t_link t)) as [[l posts]|] eqn:El; [|done]. injection E as <-.
    apply link_deliver_spec in El as (Hs & Hv & Hg). destruct Hinv as [Hstar Hd].
    split; [by eapply star_snoc|]. intros y. destruct (Hd y) as (chunks & handled & Hsend & Hgot & Hrecv).
    exists chunks, handled. split; [|split; [by apply set_link_handled|done]].
    cbn [t_bridge set_link t_lost t_link t_in]. rewrite Hv, upd_or, Bool.orb_false_r. by destruct (Bool.eqb x y).
Qed.
Lemma tunnel_run_inv evs t t' : tunnel_inv t -> tunnel_run compressed level limiter evs t = Some t' -> tunnel_inv t'.
Proof.
  revert t. induction evs as [|ev evs IH]; intros t Hinv E; cbn [tunnel_run] in E; [by injection E as <-|].
  destruct (tunnel_step _ _ _ ev t) as [t1|] eqn:E1; [|done]. eapply IH; [|exact E]. by eapply tunnel_step_inv.
Qed.
Lemma new_tunnel_inv : tunnel_inv (new_tunnel id).
Proof.
  split; [apply star_refl|]. intros x. exists [], []. split; [by repeat split|]. split; [done|].
  unfold recv_ok. destruct compressed; [|done]. by exists [], [].
Qed.

Lemma recv_prefix lvl ph handled out chunks : recv_ok compressed lvl ph handled out chunks -> Forall chunk_ok chunks ->
  handled `prefix_of` packets compressed lvl chunks -> out `prefix_of` concat chunks.
Proof.
  unfold recv_ok, packets, packet. destruct compressed.
  - intros (done & rest & -> & Hp) _ _. rewrite concat_app. apply prefix_app_r.
    assert (Ho : out = concat done \/ exists p done', done = done' ++ [p] /\ out = concat done')
      by (destruct ph; naive_solver).
    destruct Ho as [->|(p & done' & -> & ->)]; [done|]. rewrite concat_app. by eexists.
  - intros Hp _. rewrite map_id. intros Hh. etrans; [|exact Hh]. destruct ph; subst; try done. by eexists.
Qed.
(** With nothing held back, everything was written out. *)
Lemma recv_complete lvl handled out chunks :
  recv_ok compressed lvl (if compressed then reading_header else reading_some) handled out chunks -> Forall chunk_ok chunks ->
  handled = packets compressed lvl chunks -> out = concat chunks.
Proof.
  unfold recv_ok. intros Hr Hc ->. destruct compressed eqn:Hcomp.
  - destruct Hr as (done & rest & -> & Hp & ->). rewrite packets_of_app, <- (app_nil_r (packets _ _ done)) in Hp.
    rewrite <- app_assoc in Hp. apply app_inv_head in Hp. destruct rest as [|ch rest]; [by rewrite app_nil_r|].
    apply Forall_app in Hc as [_ Hc]. apply Forall_cons in Hc as [Hch _].
    destruct (packet_shape true lvl ch) as (h & body & Ep & Hh & _); [done|done|].
    change (ch :: rest) with ([ch] ++ rest) in Hp. rewrite packets_of_app, packets_one, Ep in Hp. by destruct h.
  - rewrite <- Hr. unfold packets, packet. by rewrite map_id.
Qed.
End Invariant.

(** C5 The tunnel carries each direction's bytes unchanged: in every run of the
    two bridges over their stream - any interleaving of reads, writes, tokens,
    deliveries and failures, compressed or not, with any levels and limiters -
    what has been written to one plain connection is a prefix of what was read
    from the other; and when the sender holds nothing, the stream has delivered
    all it was given and the receiver waits for more, it is all of it. *)
Theorem tunnel_prefix `{ZstdLaws} (compressed : bool) (level : bool -> Z) (limiter : bool -> bool) (id : Z)
    (evs : list tunnel_event) (t : Tunnel) :
  tunnel_run compressed level limiter evs (new_tunnel id) = Some t -> forall x,
  t_out t (negb x) `prefix_of` t_in t x /\
  (phase1 (t_bridge t x) = reading_some -> got (t_link t) (negb x) = gave (t_link t) x -> t_inbox t (negb x) = [] ->
   phase2 (t_bridge t (negb x)) = (if compressed then reading_header else reading_some) ->
   t_out t (negb x) = t_in t x).
Proof.
  intros Hrun x. apply (tunnel_run_inv _ _ _ id) in Hrun as [Hs Hd]; [|apply new_tunnel_inv].
  destruct (Hd x) as (chunks & handled & Hsend & Hgot & Hrecv). pose proof (send_prefix _ _ _ _ _ _ _ Hsend) as Hpre.
  pose proof (handled_prefix _ _ _ _ _ _ _ _ Hs Hsend Hgot [] _ eq_refl) as Hh. rewrite app_nil_r in Hh.
  pose proof Hsend as (Hc & _). split.
  - etrans; [|exact Hpre]. by eapply recv_prefix.
  - intros H1 H2 H3 H4. destruct Hsend as (_ & _ & Hg & Hp). rewrite H1 in Hp. destruct Hp as [Hl ->].
    rewrite H4 in Hrecv. rewrite H3, app_nil_r in Hgot. eapply recv_complete; [exact Hrecv|done|].
    rewrite <- Hgot, H2. by apply Hg.
Qed.

(** ** A run *)
Definition demo_data : list byte := repeat x61 40 ++ [x62].
Definition demo_level (x : bool) : Z := if x then 3 else 5.
Definition demo_limiter (x : bool) : bool := x.
Definition demo_run : list tunnel_event :=
  [t_start true; t_start false; t_plain true ec_ok demo_data; t_tokens true D1; t_deliver false; t_stream false;
   t_stream false; t_written false D2 ec_ok; t_written true D1 ec_ok].
Definition demo_end : Tunnel :=
  default (new_tunnel 7) (@tunnel_run rle_zstd true demo_level demo_limiter demo_run (new_tunnel 7)).
Lemma demo_reached : @tunnel_run rle_zstd true demo_level demo_limiter demo_run (new_tunnel 7) = Some demo_end.
Proof. vm_compute. reflexivity. Qed.
Lemma tunnel_prefix_witness : t_out demo_end false = demo_data.
Proof.
  assert (Hin : t_in demo_end true = demo_data) by (vm_compute; reflexivity).
  rewrite <- Hin.
  exact (proj2 (@tunnel_prefix rle_zstd rle_laws true demo_level demo_limiter 7 demo_run demo_end demo_reached true)
    ltac:(vm_compute; reflexivity) ltac:(vm_compute; reflexivity) ltac:(vm_compute; reflexivity) ltac:(vm_compute; reflexivity)).
Defined.
