(* ===== verification/Bandwidth.v ===== *)
(** * The bandwidth of a proxy (rate_limiter.h and async_bridge.cpp together)

    Every bridge of a proxy, in both directions, asks the one limiter of the
    proxy for the bytes of each packet and writes the packet when its handler,
    posted by the limiter, is run.  [proxy] holds the limiter, the bridges and
    the handlers posted and not yet run, which any thread of the event loop may
    run in any order.  What is read from and written to the users' connections
    is counted and compared with the rate. *)
From Stdlib Require Import ZArith Lia QArith Lqa Strings.Byte Floats.SpecFloat.
From stdpp Require Import base tactics list gmap.
From S2P Require Import Prelude Protocol Zstd RateLimiter Bridge Tunnel.
Local Open Scope Z_scope.

(** ** Handlers *)
(** A direction of a bridge has at most one [write_op] under way: it names it. *)
Definition handler_of (i : nat) (d : direction) : nat := (2 * i + match d with D1 => 0 | D2 => 1 end)%nat.
Definition handler_bridge (h : nat) : nat := Nat.div2 h.
Definition handler_dir (h : nat) : direction := if Nat.even h then D1 else D2.
Lemma handler_of_bridge i d : handler_bridge (handler_of i d) = i.
Proof. unfold handler_bridge, handler_of. destruct d; [rewrite Nat.add_0_r; apply Nat.div2_double|rewrite Nat.add_1_r; apply Nat.div2_succ_double]. Qed.
Lemma handler_of_dir i d : handler_dir (handler_of i d) = d.
Proof.
  unfold handler_dir, handler_of. destruct d; rewrite Nat.even_add, Nat.even_mul; done.
Qed.
Lemma handler_of_inv h : handler_of (handler_bridge h) (handler_dir h) = h.
Proof.
  unfold handler_of, handler_bridge, handler_dir. rewrite (Nat.div2_odd h) at 3. rewrite <- Nat.negb_odd. destruct (Nat.odd h); cbn; lia.
Qed.

(** ** The proxy *)
Record proxy (T : Type) : Type := {
  px_limiter : RateLimiter T;
  px_bridges : gmap nat Bridge;
  px_ready : list (Z * nat);      (* handlers posted, with the bytes they asked for *)
  px_run : list (Z * nat);        (* handlers run *)
  px_taken : Z;                   (* bytes read from the users' connections *)
  px_given : Z                    (* bytes written to them *)
}.
Arguments px_limiter {T}.
Arguments px_bridges {T}.
Arguments px_ready {T}.
Arguments px_run {T}.
Arguments px_taken {T}.
Arguments px_given {T}.

(** Waits for what was read from a user, and for what is to be written to one. *)
Definition is_taken (t : Z * nat) : bool := Nat.even t.2.
Definition from_users (l : list (Z * nat)) : list (Z * nat) := List.filter is_taken l.
Definition to_users (l : list (Z * nat)) : list (Z * nat) := List.filter (fun t => negb (is_taken t)) l.
#[export] Instance demand_Permutation : Proper ((≡ₚ) ==> eq) demand.
Proof. unfold demand. intros xs ys P. induction P; cbn in *; lia. Qed.
#[export] Instance from_users_Permutation : Proper ((≡ₚ) ==> (≡ₚ)) from_users.
Proof.
  unfold from_users. intros xs ys P. induction P as [|t xs ys _ IH|t u xs|]; cbn [List.filter]; [done| | |by etrans].
  - destruct (is_taken t); [by constructor|done].
  - destruct (is_taken t), (is_taken u); try done. constructor.
Qed.

Section Proxy.
Context {T : Type} `{TokenArith T} `{Zstd}.
Variables (clock : nat -> Z) (compressed : bool) (level : Z).
Definition new_proxy (rate : Z) : proxy T := {|
  px_limiter := new_limiter clock rate; px_bridges := ∅; px_ready := []; px_run := []; px_taken := 0; px_given := 0 |}.
(** The limiter has taken a step. *)
Definition limiter_stepped (r : RateLimiter T * list limiter_action) (px : proxy T) : proxy T := {|
  px_limiter := r.1; px_bridges := px_bridges px; px_ready := px_ready px ++ posted r.2; px_run := px_run px;
  px_taken := px_taken px; px_given := px_given px |}.
(** [rate_limiter_->async_wait] for each request of bridge [i]. *)
Fixpoint ask (i : nat) (acts : list bridge_action) (px : proxy T) : proxy T :=
  match acts with
  | [] => px
  | wait_tokens d n :: acts' => ask i acts' (limiter_stepped (async_wait clock n (handler_of i d) (px_limiter px)) px)
  | _ :: acts' => ask i acts' px
  end.
Definition total (l : list (list byte)) : Z := zlen (concat l).
Definition bridge_moved (i : nat) (b : Bridge) (taken : Z) (acts : list bridge_action) (px : proxy T) : proxy T :=
  ask i acts {| px_limiter := px_limiter px; px_bridges := <[i := b]> (px_bridges px); px_ready := px_ready px; px_run := px_run px;
    px_taken := px_taken px + taken; px_given := px_given px + total (written D2 acts) |}.
Definition ran (k : nat) (t : Z * nat) (px : proxy T) : proxy T := {|
  px_limiter := px_limiter px; px_bridges := px_bridges px; px_ready := delete k (px_ready px); px_run := px_run px ++ [t];
  px_taken := px_taken px; px_given := px_given px |}.

Inductive proxy_event : Type :=
| px_start (i : nat)                            (* a user is spliced *)
| px_bridge (i : nat) (ev : bridge_event)       (* a read or write of bridge [i] completes *)
| px_timer (ok : bool)                          (* the limiter's timer *)
| px_handler (k : nat)                          (* the [k]-th posted handler runs *)
| px_rate (rate : Z).                           (* the proxy is registered again *)
(** What a completed read took from the user. *)
Definition taken_by (ev : bridge_event) : Z := match ev with ev_read D1 ec data => if decide (ec = ec_ok) then zlen data else 0 | _ => 0 end.
Definition proxy_step (ev : proxy_event) (px : proxy T) : option (proxy T) :=
  match ev with
  | px_start i =>
    match px_bridges px !! i with
    | Some _ => None
    | None => let '(b, acts) := Start compressed new_bridge in Some (bridge_moved i b 0 acts px)
    end
  | px_bridge i ev =>
    match ev with
    | ev_tokens _ => None
    | _ =>
      b ← px_bridges px !! i;
      '(b', acts) ← bridge_step compressed level true ev b;
      Some (bridge_moved i b' (taken_by ev) acts px)
    end
  | px_timer ok => Some (limiter_stepped (on_timer clock ok (px_limiter px)) px)
  | px_rate rate => Some (limiter_stepped (set_rate rate (px_limiter px), []) px)
  | px_handler k =>
    t ← px_ready px !! k;
    b ← px_bridges px !! handler_bridge t.2;
    '(b', acts) ← bridge_step compressed level true (ev_tokens (handler_dir t.2)) b;
    Some (bridge_moved (handler_bridge t.2) b' 0 acts (ran k t px))
  end.
Fixpoint proxy_run (evs : list proxy_event) (px : proxy T) : option (proxy T) :=
  match evs with [] => Some px | ev :: evs' => px1 ← proxy_step ev px; proxy_run evs' px1 end.

(** The sources register a limit only when it is positive. *)
Definition limits_positive (evs : list proxy_event) : Prop := Forall (fun ev => match ev with px_rate r => 0 < r | _ => True end) evs.
Definition same_limit (evs : list proxy_event) : Prop := Forall (fun ev => match ev with px_rate _ => False | _ => True end) evs.

(** ** Every wait is known to the limiter *)
Definition outstanding (px : proxy T) : list (Z * nat) := px_ready px ++ waiting_handlers_ (px_limiter px).
(** The bytes a direction waits for. *)
Definition awaited (ph : phase) : option Z := match ph with limited _ n => Some n | _ => None end.
Definition wait_of (bs : gmap nat Bridge) (h : nat) : option Z :=
  b ← bs !! handler_bridge h; awaited (phase_of (handler_dir h) b).
Definition tracks (out : list (Z * nat)) (w : nat -> option Z) : Prop :=
  NoDup out.*2 /\ forall n h, (n, h) ∈ out <-> w h = Some n.
(** What the bridges of a proxy keep: at most a buffer is waited for from a
    user, and what is waited for towards one is what will be written. *)
Record shares_limiter (b : Bridge) : Prop := {
  sl_from : forall p n, phase1 b = limited p n -> 0 <= n <= read_size;
  sl_to : forall p n, phase2 b = limited p n -> n = zlen p;
  sl_frames : compressed = true -> phase2 b <> reading_some
}.
Record proxy_inv (px : proxy T) : Prop := {
  pv_rate : 0 < bytes_per_sec_ (px_limiter px);
  pv_waits : tracks (outstanding px) (wait_of (px_bridges px));
  pv_bridges : map_Forall (fun _ b => shares_limiter b) (px_bridges px);
  pv_taken : px_taken px = demand (from_users (px_run px)) + demand (from_users (outstanding px));
  pv_given : px_given px = demand (to_users (px_run px))
}.

(** ** Lemmas *)
Definition asked (acts : list bridge_action) : list (direction * Z) :=
  omap (fun a => match a with wait_tokens d n => Some (d, n) | _ => None end) acts.
Lemma ask_asked i acts px : ask i acts px =
  foldl (fun px dn => limiter_stepped (async_wait clock dn.2 (handler_of i dn.1) (px_limiter px)) px) px (asked acts).
Proof. revert px. induction acts as [|[] acts IH]; intros px; cbn; by rewrite ?IH. Qed.

(** A step of a bridge that has a limiter asks it for the packet just read, or
    asks for nothing; only the handler of a request writes. *)
Record quiet_step (ev : bridge_event) (b b' : Bridge) (acts : list bridge_action) : Prop := {
  qs_asked : asked acts = (match awaited (phase_of (event_dir ev) b') with Some n => [(event_dir ev, n)] | None => [] end);
  qs_taken : taken_by ev = (match event_dir ev with D1 => default 0 (awaited (phase1 b')) | D2 => 0 end);
  qs_written : written D2 acts = [];
  qs_before : awaited (phase_of (event_dir ev) b) = None;
  qs_other : phase_of (other (event_dir ev)) b' = phase_of (other (event_dir ev)) b;
  qs_shares : shares_limiter b'
}.
Lemma fail_quiet ev b : shares_limiter b -> taken_by ev = 0 -> awaited (phase_of (event_dir ev) b) = None ->
  quiet_step ev b (fail (event_dir ev) b).1 (fail (event_dir ev) b).2.
Proof.
  intros [S1 S2 S3] Ht Hp. unfold fail, HandleStop.
  destruct (event_dir ev) eqn:Ed, (stopped_ _); split; rewrite ?Ed; cbn; try done; split; cbn; try done; auto.
Qed.
Lemma forward_quiet ev p n b : shares_limiter b -> awaited (phase_of (event_dir ev) b) = None ->
  taken_by ev = (match event_dir ev with D1 => n | D2 => 0 end) ->
  match event_dir ev with D1 => 0 <= n <= read_size | D2 => n = zlen p end ->
  quiet_step ev b (forward true (event_dir ev) p n b).1 (forward true (event_dir ev) p n b).2.
Proof.
  intros [S1 S2 S3] Hp Ht Hn. unfold forward. destruct (event_dir ev) eqn:Ed; split; rewrite ?Ed; cbn; try done; split; cbn; try done.
  all: by intros ?? [= <- <-].
Qed.
Lemma read_some_quiet d ec data b : shares_limiter b -> phase_of d b = reading_some -> read_fits reading_some ec data = true ->
  quiet_step (ev_read d ec data) b (on_chunk compressed level true d ec data b).1 (on_chunk compressed level true d ec data b).2.
Proof.
  intros S Hp Hfit. unfold on_chunk, read_fits in *. destruct (decide (ec = ec_ok)) as [->|Hec].
  - apply Z.leb_le in Hfit. pose proof (zlen_nonneg data). destruct compressed eqn:Hc; apply (forward_quiet (ev_read d ec_ok data)); try done;
      cbn [event_dir]; rewrite ?Hp; try done; destruct d; try done.
    by destruct (sl_frames _ S Hc).
  - apply (fail_quiet (ev_read d ec data)); [done| |cbn; by rewrite Hp]. cbn. rewrite decide_False by done. by destruct d.
Qed.
Lemma read_frame_quiet ec data b : shares_limiter b ->
  (phase2 b = reading_header -> quiet_step (ev_read D2 ec data) b (on_header ec data b).1 (on_header ec data b).2) /\
  (forall n z, phase2 b = reading_body n z ->
    quiet_step (ev_read D2 ec data) b (on_body true z ec data b).1 (on_body true z ec data b).2).
Proof.
  intros S. assert (Hf : awaited (phase2 b) = None -> quiet_step (ev_read D2 ec data) b (fail D2 b).1 (fail D2 b).2)
    by (intros Hp; by apply (fail_quiet (ev_read D2 ec data))).
  assert (Hg : forall out, awaited (phase2 b) = None ->
    quiet_step (ev_read D2 ec data) b (forward true D2 out (zlen out) b).1 (forward true D2 out (zlen out) b).2)
    by (intros out Hp; by apply (forward_quiet (ev_read D2 ec data))).
  split; [intros Hp|intros n z Hp]; (assert (Ha : awaited (phase2 b) = None) by (by rewrite Hp)); specialize (Hf Ha).
  - unfold on_header. destruct (decide _); [|done]. destruct (_ <? _); [done|].
    destruct S as [S1 S2 S3]. by split; cbn.
  - unfold on_body. destruct (decide _); [|done]. destruct z; [|by apply Hg].
    destruct (frame_content_size data) as [m|]; [|done]. destruct (_ <? _); [done|]. destruct (decompress m data); [by apply Hg|done].
Qed.
Lemma bridge_step_quiet ev b b' acts : bridge_step compressed level true ev b = Some (b', acts) ->
  shares_limiter b -> (forall d, ev <> ev_tokens d) -> quiet_step ev b b' acts.
Proof.
  intros E S Hev. destruct ev as [d ec data|d|d ec]; [|by destruct (Hev d)|]; cbn [bridge_step] in E.
  - destruct (read_fits (phase_of d b) ec data) eqn:Efit; [|done]. cbn [negb] in E.
    destruct d, (phase_of _ b) as [| | |n z|p n| |] eqn:Hp; try done; injection E as E.
    + pose proof (read_some_quiet D1 ec data b S Hp Efit) as Q. by rewrite E in Q.
    + pose proof (read_some_quiet D2 ec data b S Hp Efit) as Q. by rewrite E in Q.
    + pose proof (proj1 (read_frame_quiet ec data b S) Hp) as Q. by rewrite E in Q.
    + pose proof (proj2 (read_frame_quiet ec data b S) n z Hp) as Q. by rewrite E in Q.
  - destruct (phase_of d b) eqn:Hp; try done. injection E as E. unfold on_written in E. destruct (decide (ec = ec_ok)).
    + unfold DoRead in E. destruct S as [S1 S2 S3], d, compressed eqn:Hc; cbn in E, Hp; injection E as <- <-; split; cbn; try done;
        rewrite ?Hp; try done; split; cbn; try done; intros ?; try congruence; by apply S3.
    + pose proof (fail_quiet (ev_written d ec) b S eq_refl) as Q. cbn [event_dir] in Q. rewrite Hp, E in Q. by apply Q.
Qed.

(** The list of the outstanding waits, and the map of what each direction awaits. *)
Lemma tracks_ext out w w' : (forall h, w' h = w h) -> tracks out w -> tracks out w'.
Proof. intros E [H1 H2]. split; [done|]. intros n h. by rewrite E. Qed.
Lemma tracks_asked out w w' n h : tracks out w -> w h = None ->
  (forall h', w' h' = if decide (h' = h) then Some n else w h') -> tracks (out ++ [(n, h)]) w'.
Proof.
  intros [H1 H2] Hw E. split.
  - rewrite fmap_app. apply NoDup_app. split; [done|]. split; [|apply NoDup_singleton].
    intros x ([m ?] & -> & Ht)%list_elem_of_fmap Hx%list_elem_of_singleton. cbn in Hx. subst.
    apply H2 in Ht. congruence.
  - intros m h'. rewrite elem_of_app, list_elem_of_singleton, H2, E. destruct (decide (h' = h)) as [->|]; naive_solver.
Qed.
Lemma tracks_run out out' w w' n h : tracks out w -> out ≡ₚ (n, h) :: out' ->
  (forall h', w' h' = if decide (h' = h) then None else w h') -> tracks out' w'.
Proof.
  intros [H1 H2] P E. rewrite P in H1. apply NoDup_cons in H1 as [Hn H1]. cbn in Hn. split; [done|].
  assert (H2' : forall m h', (m, h') = (n, h) \/ (m, h') ∈ out' <-> w h' = Some m) by (intros; by rewrite <- H2, P, elem_of_cons).
  intros m h'. rewrite E. destruct (decide (h' = h)) as [->|Hne].
  - split; [|done]. intros Hin. destruct Hn. exact (list_elem_of_fmap_2 snd _ _ Hin).
  - rewrite <- H2'. naive_solver.
Qed.
Lemma wait_of_insert bs i d b' h : (forall b, bs !! i = Some b -> phase_of (other d) b' = phase_of (other d) b) ->
  (bs !! i = None -> awaited (phase_of (other d) b') = None) ->
  wait_of (<[i := b']> bs) h = if decide (h = handler_of i d) then awaited (phase_of d b') else wait_of bs h.
Proof.
  intros Hs Hn. unfold wait_of. destruct (decide (h = handler_of i d)) as [->|Hne].
  - by rewrite handler_of_bridge, handler_of_dir, lookup_insert_eq.
  - destruct (decide (handler_bridge h = i)) as [<-|Hi]; [|by rewrite lookup_insert_ne].
    assert (Hd : handler_dir h = other d).
    { pose proof (handler_of_inv h). destruct d, (handler_dir h); done || congruence. }
    rewrite Hd, lookup_insert_eq. cbn. destruct (bs !! handler_bridge h) as [b|] eqn:Eb; cbn; [by rewrite (Hs b)|by apply Hn].
Qed.
(** What the limiter is asked is outstanding, posted or not. *)
Lemma limiter_stepped_outstanding ev px : 0 < bytes_per_sec_ (px_limiter px) -> (forall r, ev <> ev_rate r) ->
  outstanding (limiter_stepped (limiter_step clock ev (px_limiter px)) px) = outstanding px ++ requested [ev] /\
  0 < bytes_per_sec_ (limiter_step clock ev (px_limiter px)).1.
Proof.
  intros Hr Hev. pose proof (limiter_step_queue clock ev (px_limiter px) Hr) as Q.
  destruct (limiter_step clock ev (px_limiter px)) as [l' acts]. destruct Q as [Q1 Q2]; [by destruct ev; try destruct (Hev rate)|].
  split; [|done]. unfold outstanding, limiter_stepped. cbn [px_ready px_limiter fst snd]. by rewrite <- !app_assoc, Q1.
Qed.
Lemma from_users_app xs ys : from_users (xs ++ ys) = from_users xs ++ from_users ys.
Proof. apply List.filter_app. Qed.
Lemma to_users_app xs ys : to_users (xs ++ ys) = to_users xs ++ to_users ys.
Proof. apply List.filter_app. Qed.
Lemma demand_from_user t l : demand (from_users (t :: l)) = (if is_taken t then t.1 else 0) + demand (from_users l).
Proof. unfold from_users. cbn [List.filter]. by destruct (is_taken t). Qed.
Lemma is_taken_handler n i d : is_taken (n, handler_of i d) = match d with D1 => true | D2 => false end.
Proof.
  pose proof (handler_of_dir i d) as E. unfold handler_dir in E. unfold is_taken. cbn [snd].
  by destruct (Nat.even (handler_of i d)), d.
Qed.
(** A bridge event other than a handler. *)
Lemma bridge_moved_inv i ev b b' acts px : proxy_inv px -> px_bridges px !! i = Some b -> quiet_step ev b b' acts ->
  proxy_inv (bridge_moved i b' (taken_by ev) acts px).
Proof.
  intros [Hr Hw Hb Ht Hg] Eb [Qa Qt Qw Qp Qo Qs]. unfold bridge_moved. rewrite ask_asked, Qa, Qw.
  change (total []) with 0. rewrite Z.add_0_r.
  assert (Hwait : forall h, wait_of (<[i := b']> (px_bridges px)) h =
    if decide (h = handler_of i (event_dir ev)) then awaited (phase_of (event_dir ev) b') else wait_of (px_bridges px) h)
    by (intros h; apply wait_of_insert; naive_solver).
  assert (Hnone : wait_of (px_bridges px) (handler_of i (event_dir ev)) = None)
    by (unfold wait_of; by rewrite handler_of_bridge, handler_of_dir, Eb).
  assert (Hbs : map_Forall (fun _ b => shares_limiter b) (<[i := b']> (px_bridges px))) by (by apply map_Forall_insert_2).
  destruct (awaited (phase_of (event_dir ev) b')) as [n|] eqn:Ea; cbn [foldl].
  - set (px0 := Build_proxy _ _ _ _ _ _ _).
    destruct (limiter_stepped_outstanding (ev_wait n (handler_of i (event_dir ev))) px0 Hr) as [Ho Hr']; [done|].
    split; cbn [fst snd]; [done| |done| |done].
    + cbn [limiter_step] in Ho. rewrite Ho. by apply (tracks_asked _ _ _ _ _ Hw Hnone).
    + cbn [limiter_step] in Ho. rewrite Ho, from_users_app, demand_app. cbn [px_taken px_run limiter_stepped px0 requested omap list_omap].
      rewrite Ht, Qt. unfold outstanding at 2. cbn [px_ready px_limiter px0]. fold (outstanding px).
      cbn [from_users List.filter]. rewrite is_taken_handler. destruct (event_dir ev); cbn in Ea |- *; rewrite ?Ea; cbn; lia.
  - split; cbn; try done.
    + apply (tracks_ext _ (wait_of (px_bridges px))); [|exact Hw].
      intros h. rewrite Hwait. case_decide; congruence.
    + rewrite Qt. destruct (event_dir ev); cbn in Ea; rewrite ?Ea; cbn; rewrite Z.add_0_r; exact Ht.
Qed.
Lemma start_inv i px : proxy_inv px -> px_bridges px !! i = None ->
  proxy_inv (bridge_moved i (Start compressed new_bridge).1 0 (Start compressed new_bridge).2 px).
Proof.
  intros [Hr Hw Hb Ht Hg] Eb. set (b := (Start compressed new_bridge).1).
  assert (Ha : forall d, awaited (phase_of d b) = None) by (intros []; unfold b; by destruct compressed).
  assert (Hq : asked (Start compressed new_bridge).2 = [] /\ written D2 (Start compressed new_bridge).2 = []) by (by destruct compressed).
  unfold bridge_moved. rewrite ask_asked, (proj1 Hq), (proj2 Hq).
  split; cbn [px_limiter px_bridges px_ready px_run px_taken px_given foldl]; rewrite ?Z.add_0_r; try done.
  - apply (tracks_ext _ (wait_of (px_bridges px))); [|exact Hw].
    intros h. rewrite (wait_of_insert _ i D1); [|congruence|done]. case_decide as Eh; [|done]. subst h. rewrite Ha.
    unfold wait_of. by rewrite handler_of_bridge, Eb.
  - apply map_Forall_insert_2; [|done]. unfold b, Start. destruct compressed eqn:Ec; split; cbn; try done; congruence.
Qed.
Lemma rate_inv r px : 0 < r -> proxy_inv px -> proxy_inv (limiter_stepped (set_rate r (px_limiter px), []) px).
Proof.
  intros Hr' [Hr Hw Hb Ht Hg]. set (px' := limiter_stepped _ px).
  assert (Ho : outstanding px' = outstanding px) by (unfold outstanding, px'; cbn; by rewrite app_nil_r).
  split; [done| |done| |done]; rewrite Ho; [exact Hw|exact Ht].
Qed.
Lemma timer_inv ok px : proxy_inv px -> proxy_inv (limiter_stepped (on_timer clock ok (px_limiter px)) px).
Proof.
  intros [Hr Hw Hb Ht Hg]. destruct (limiter_stepped_outstanding (ev_timer ok) px Hr) as [Ho Hr']; [done|].
  cbn [limiter_step] in Ho, Hr'. change (requested [ev_timer ok]) with (@nil (Z * nat)) in Ho. rewrite app_nil_r in Ho.
  split; [done| |done| |done]; rewrite Ho; [exact Hw|exact Ht].
Qed.
Lemma outstanding_ran k t px : px_ready px !! k = Some t -> outstanding px ≡ₚ t :: outstanding (ran k t px).
Proof. intros Ek. unfold outstanding, ran. cbn. by rewrite app_comm_cons, <- delete_Permutation. Qed.
Lemma handler_inv k t b p n px : proxy_inv px -> px_ready px !! k = Some t -> px_bridges px !! handler_bridge t.2 = Some b ->
  phase_of (handler_dir t.2) b = limited p n ->
  proxy_inv (bridge_moved (handler_bridge t.2) (write_op (handler_dir t.2) p n b).1 0 (write_op (handler_dir t.2) p n b).2 (ran k t px)).
Proof.
  intros [Hr Hw Hb Ht Hg] Ek Eb Ep. pose proof (outstanding_ran k t px Ek) as P.
  destruct t as [m h]. cbn [snd] in *.
  assert (Hm : m = n).
  { assert (Hin : (m, h) ∈ outstanding px) by (rewrite P; by left). apply (proj2 Hw) in Hin.
    unfold wait_of in Hin. rewrite Eb in Hin. cbn in Hin. rewrite Ep in Hin. cbn in Hin. congruence. }
  subst m. rewrite P in Ht. pose proof (is_taken_handler n (handler_bridge h) (handler_dir h)) as Htk.
  rewrite handler_of_inv in Htk. pose proof (map_Forall_lookup_1 _ _ _ _ Hb Eb) as [S1 S2 S3].
  split; cbn [bridge_moved write_op ask fst snd px_limiter px_bridges px_ready px_run px_taken px_given ran]; try done.
  - apply (tracks_run _ _ _ _ n h Hw P). intros h'.
    rewrite (wait_of_insert _ _ (handler_dir h)); [by rewrite handler_of_inv; destruct (handler_dir h)| |congruence].
    intros b0 Hb0. rewrite Eb in Hb0. injection Hb0 as <-. by destruct (handler_dir h).
  - apply map_Forall_insert_2; [|done]. destruct (handler_dir h); split; cbn; done.
  - rewrite from_users_app, demand_app, Z.add_0_r, Ht, !demand_from_user, Htk.
    match goal with |- _ = _ + demand (from_users (outstanding ?q)) => change (outstanding q) with (outstanding (ran k (n, h) px)) end.
    change (demand (from_users [])) with 0. lia.
  - rewrite to_users_app, demand_app, Hg. cbn [to_users List.filter]. rewrite Htk.
    destruct (handler_dir h) eqn:Ed; cbn [negb]; [done|]. change (written D2 [write_to D2 p]) with [p].
    rewrite (S2 _ _ Ep). unfold total. cbn [concat]. rewrite app_nil_r. cbn. lia.
Qed.
Lemma proxy_step_inv ev px px' : match ev with px_rate r => 0 < r | _ => True end -> proxy_inv px -> proxy_step ev px = Some px' -> proxy_inv px'.
Proof.
  intros Hp V E. destruct ev as [i|i ev|ok|k|r]; cbn [proxy_step] in E.
  - destruct (px_bridges px !! i) eqn:Eb; [done|]. pose proof (start_inv i px V Eb) as V'.
    destruct (Start compressed new_bridge) as [b acts]. injection E as <-. exact V'.
  - assert (Hev : forall d, ev <> ev_tokens d) by (by intros d ->).
    assert (E' : (b ← px_bridges px !! i; '(b', acts) ← bridge_step compressed level true ev b;
      Some (bridge_moved i b' (taken_by ev) acts px)) = Some px') by (by destruct ev).
    destruct (px_bridges px !! i) as [b|] eqn:Eb; [|done]. cbn [mbind option_bind] in E'.
    destruct (bridge_step compressed level true ev b) as [[b' acts]|] eqn:Es; [|done]. injection E' as <-.
    apply (bridge_moved_inv i ev b); [done..|]. apply (bridge_step_quiet _ _ _ _ Es); [|done]. by apply (map_Forall_lookup_1 _ _ _ _ (pv_bridges _ V) Eb).
  - injection E as <-. by apply timer_inv.
  - destruct (px_ready px !! k) as [t|] eqn:Ek; [|done]. cbn [mbind option_bind] in E.
    destruct (px_bridges px !! handler_bridge t.2) as [b|] eqn:Eb; [|done]. cbn [mbind option_bind bridge_step] in E.
    destruct (phase_of (handler_dir t.2) b) as [| | |n z|p n| |] eqn:Ep; try done. injection E as <-.
    by apply (handler_inv k t b p n).
  - injection E as <-. by apply rate_inv.
Qed.
Lemma new_proxy_inv rate : 0 < rate -> proxy_inv (new_proxy rate).
Proof.
  intros Hr. split; cbn; try done. split; [constructor|]. intros n h. unfold wait_of. rewrite lookup_empty. split; [by intros ?%not_elem_of_nil|done].
Qed.
Lemma proxy_run_inv evs px px' : limits_positive evs -> proxy_inv px -> proxy_run evs px = Some px' -> proxy_inv px'.
Proof.
  intros Hp. revert px. induction Hp as [|ev evs Hp _ IH]; intros px V E; [by injection E as <-|]. cbn [proxy_run] in E.
  destruct (proxy_step ev px) as [px1|] eqn:E1; [|done]. by apply (IH px1); [eapply proxy_step_inv|].
Qed.
End Proxy.

(** ** Counting *)
Lemma from_users_sublist l : from_users l `sublist_of` l.
Proof. unfold from_users. induction l as [|t l IH]; cbn; [done|]. by destruct (is_taken t); constructor. Qed.
Lemma demand_users l : demand (from_users l) + demand (to_users l) = demand l.
Proof. unfold from_users, to_users, demand. induction l as [|t l IH]; cbn in *; [done|]. destruct (is_taken t); cbn; lia. Qed.
Lemma demand_nonneg l : Forall (fun t => 0 <= t.1) l -> 0 <= demand l.
Proof. unfold demand. induction 1; cbn [foldr]; lia. Qed.
Lemma demand_at_most c l : Forall (fun t => t.1 <= c) l -> demand l <= c * zlen l.
Proof. unfold demand. induction 1 as [|t l Ht _ IH]; cbn [foldr]; [unfold zlen; cbn; lia|]. rewrite zlen_cons, Z.mul_add_distr_l. lia. Qed.
(** Distinct waits from users are of distinct bridges. *)
Lemma from_users_length {A} (bs : gmap nat A) l : NoDup l.*2 ->
  (forall n h, (n, h) ∈ l -> Nat.even h = true -> is_Some (bs !! handler_bridge h)) -> zlen (from_users l) <= Z.of_nat (size bs).
Proof.
  intros Hd Hb. unfold zlen. apply Nat2Z.inj_le. rewrite <- (length_fmap snd), <- (length_fmap handler_bridge).
  assert (Hin : forall t, t ∈ from_users l -> t ∈ l /\ Nat.even t.2 = true) by (intros t Ht%list_elem_of_In; unfold from_users in Ht;
    apply filter_In in Ht as [??]; split; [by apply list_elem_of_In|done]).
  rewrite <- (size_list_to_set (C := gset nat)).
  - rewrite <- size_dom. apply subseteq_size. intros i (h & -> & (t & -> & Ht)%list_elem_of_fmap)%elem_of_list_to_set%list_elem_of_fmap.
    apply Hin in Ht as [Ht He]. apply elem_of_dom. destruct t as [n h]. by apply (Hb n).
  - apply NoDup_fmap_2_strong.
    + intros h1 h2 (t1 & -> & [_ H1]%Hin)%list_elem_of_fmap (t2 & -> & [_ H2]%Hin)%list_elem_of_fmap E.
      rewrite <- (handler_of_inv t1.2), <- (handler_of_inv t2.2), E. unfold handler_dir. by rewrite H1, H2.
    + eapply sublist_NoDup; [exact Hd|]. apply fmap_sublist, from_users_sublist.
Qed.

(** ** The bandwidth, in exact arithmetic *)
Section Bandwidth.
Context `{Zstd}.
Variables (clock : nat -> Z) (compressed : bool) (level : Z) (rate : Z).
Hypothesis clock_monotone : forall i j, (i <= j)%nat -> clock i <= clock j.
(** What the limiter has posted has been run or is ready. *)
Definition accounted (px : proxy Q) : Prop :=
  exists acts, spends clock rate (new_limiter clock rate) (px_limiter px) acts /\
    demand (posted acts) = demand (px_run px) + demand (px_ready px).
Lemma limiter_stepped_accounted ev px : accounted px ->
  match ev with ev_rate _ => False | ev_wait n _ => 0 <= n | _ => True end ->
  accounted (limiter_stepped (limiter_step clock ev (px_limiter px)) px).
Proof.
  intros (acts & S & D) Hev. pose proof (limiter_step_spends clock clock_monotone rate ev _ (proj1 S) Hev) as S'.
  exists (acts ++ (limiter_step clock ev (px_limiter px)).2). split; [by apply (spends_trans _ _ _ (px_limiter px))|].
  rewrite posted_app, demand_app, D. cbn [px_run px_ready limiter_stepped]. rewrite demand_app. lia.
Qed.
Lemma bridge_moved_accounted i b taken acts px : accounted px -> Forall (fun dn => 0 <= dn.2) (asked acts) ->
  accounted (bridge_moved clock i b taken acts px).
Proof.
  intros A Hn. unfold bridge_moved. rewrite ask_asked.
  assert (A' : accounted (Build_proxy _ (px_limiter px) (<[i:=b]> (px_bridges px)) (px_ready px) (px_run px) (px_taken px + taken)
    (px_given px + total (written D2 acts)))) by exact A.
  revert A'. generalize (Build_proxy _ (px_limiter px) (<[i:=b]> (px_bridges px)) (px_ready px) (px_run px) (px_taken px + taken)
    (px_given px + total (written D2 acts))). induction Hn as [|[d n] l Hn _ IH]; intros px0 A'; [done|]. cbn [foldl fst snd] in *.
  apply IH. by apply (limiter_stepped_accounted (ev_wait n (handler_of i d)) px0 A').
Qed.
Lemma ran_accounted k t px : accounted px -> px_ready px !! k = Some t -> accounted (ran k t px).
Proof.
  intros (acts & S & D) Ek. exists acts. split; [done|]. rewrite D. cbn [px_run px_ready ran].
  pose proof (demand_Permutation _ _ (delete_Permutation _ _ _ Ek)) as E. rewrite E, demand_app.
  unfold demand. cbn [foldr]. lia.
Qed.
Lemma asked_nonneg ev b b' acts : quiet_step compressed ev b b' acts -> Forall (fun dn => 0 <= dn.2) (asked acts).
Proof.
  intros [Qa _ _ _ _ [S1 S2 _]]. rewrite Qa. destruct (awaited _) as [n|] eqn:E; [|done]. apply Forall_singleton. cbn.
  unfold awaited in E. destruct (event_dir ev); cbn in E.
  - destruct (phase1 b') as [| | | |p m| |]; try done. injection E as ->. by apply (S1 p).
  - destruct (phase2 b') as [| | | |p m| |]; try done. injection E as ->. rewrite (S2 p n) by done. apply zlen_nonneg.
Qed.
Lemma step_accounted ev px px' : match ev with px_rate _ => False | _ => True end -> proxy_inv compressed px -> accounted px ->
  proxy_step clock compressed level ev px = Some px' -> accounted px'.
Proof.
  intros Hs V A E. destruct ev as [i|i ev|ok|k|r]; [..|done]; cbn [proxy_step] in E.
  - destruct (px_bridges px !! i) eqn:Eb; [done|].
    destruct (Start compressed new_bridge) as [b acts] eqn:Es. injection E as <-. apply bridge_moved_accounted; [done|].
    replace (asked acts) with (@nil (direction * Z)); [done|]. unfold Start in Es. destruct compressed; by injection Es as <- <-.
  - assert (Hev : forall d, ev <> ev_tokens d) by (by intros d ->).
    assert (E' : (b ← px_bridges px !! i; '(b', acts) ← bridge_step compressed level true ev b;
      Some (bridge_moved clock i b' (taken_by ev) acts px)) = Some px') by (by destruct ev).
    destruct (px_bridges px !! i) as [b|] eqn:Eb; [|done]. cbn [mbind option_bind] in E'.
    destruct (bridge_step compressed level true ev b) as [[b' acts]|] eqn:Es; [|done]. injection E' as <-.
    apply bridge_moved_accounted; [done|]. eapply (asked_nonneg ev b), bridge_step_quiet; [exact Es| |done].
    by apply (map_Forall_lookup_1 _ _ _ _ (pv_bridges _ _ V) Eb).
  - injection E as <-. by apply (limiter_stepped_accounted (ev_timer ok)).
  - destruct (px_ready px !! k) as [t|] eqn:Ek; [|done]. cbn [mbind option_bind] in E.
    destruct (px_bridges px !! handler_bridge t.2) as [b|] eqn:Eb; [|done]. cbn [mbind option_bind bridge_step] in E.
    destruct (phase_of (handler_dir t.2) b) as [| | |n z|p n| |] eqn:Ep; try done. injection E as <-.
    apply bridge_moved_accounted; [by apply ran_accounted|constructor].
Qed.
Lemma same_limit_positive evs : same_limit evs -> limits_positive evs.
Proof. intros E. eapply Forall_impl; [exact E|]. by intros []. Qed.
Lemma run_accounted evs px px' : same_limit evs -> proxy_inv compressed px -> accounted px ->
  proxy_run clock compressed level evs px = Some px' -> accounted px'.
Proof.
  intros Hs. revert px. induction Hs as [|ev evs Hs _ IH]; intros px V A E; [by injection E as <-|]. cbn [proxy_run] in E.
  destruct (proxy_step clock compressed level ev px) as [px1|] eqn:E1; [|done].
  apply (IH px1); [eapply proxy_step_inv; [|exact V|exact E1]; by destruct ev|by eapply step_accounted|done].
Qed.
Lemma new_proxy_accounted : 0 < rate -> accounted (new_proxy clock rate).
Proof.
  intros Hr. exists []. split; [|done]. apply spends_same; [by apply new_limiter_inv|done|].
  change (inject_Z (demand (posted []))) with 0%Q. cbn [px_limiter new_proxy]. lra.
Qed.
(** What is waited for is at most a buffer for each user, and never negative. *)
Lemma waits_sized (px : proxy Q) : proxy_inv compressed px ->
  Forall (fun t => 0 <= t.1) (outstanding px) /\ Forall (fun t => t.1 <= read_size) (from_users (outstanding px)).
Proof.
  intros V. assert (Hs : forall n h, (n, h) ∈ outstanding px -> 0 <= n /\ (Nat.even h = true -> n <= read_size)).
  { intros n h Hin. apply (proj2 (pv_waits _ _ V)) in Hin. unfold wait_of in Hin. destruct (px_bridges px !! _) as [b|] eqn:Eb; [|done].
    pose proof (map_Forall_lookup_1 _ _ _ _ (pv_bridges _ _ V) Eb) as [S1 S2 _]. cbn [mbind option_bind] in Hin.
    unfold handler_dir in Hin. destruct (Nat.even h); cbn in Hin.
    - destruct (phase1 b) as [| | | |p m| |]; try done. injection Hin as ->. pose proof (S1 p n eq_refl). lia.
    - destruct (phase2 b) as [| | | |p m| |]; try done. injection Hin as ->. rewrite (S2 p n) by done.
      pose proof (zlen_nonneg p). split; [lia|done]. }
  split; apply Forall_forall.
  - intros [n h] Hin. by apply (Hs n h).
  - intros [n h] Hin%list_elem_of_In. unfold from_users in Hin. apply filter_In in Hin as [Hin He].
    apply (Hs n h); [by apply list_elem_of_In|exact He].
Qed.
End Bandwidth.

(** ** Properties *)


(** Nothing is lost between the bridges and their limiter, in whatever arithmetic: at every
    moment of a run each direction of a bridge that waits for its bytes is known to the limiter
    exactly once, for those bytes, and is queued or has been posted; and a handler that has
    been posted can run, which writes the packet it was asked for. *)
Theorem proxy_waits_once `{TokenArith T} `{Zstd} (clock : nat -> Z) (compressed : bool) (level rate : Z)
    (evs : list proxy_event) (px : proxy T) (Hrate : 0 < rate) (Hlimits : limits_positive evs)
    (Hrun : proxy_run clock compressed level evs (new_proxy clock rate) = Some px) :
  NoDup (px_ready px ++ waiting_handlers_ (px_limiter px)).*2 /\
  (forall n i d, (n, handler_of i d) ∈ px_ready px ++ waiting_handlers_ (px_limiter px) <->
     exists b p, px_bridges px !! i = Some b /\ phase_of d b = limited p n) /\
  (forall k n h, px_ready px !! k = Some (n, h) -> exists b p px',
     proxy_step clock compressed level (px_handler k) px = Some px' /\ px_bridges px !! handler_bridge h = Some b /\
     phase_of (handler_dir h) b = limited p n /\ px_run px' = px_run px ++ [(n, h)] /\ px_ready px' = delete k (px_ready px)).
Proof.
  pose proof (proxy_run_inv clock compressed level evs _ px Hlimits (new_proxy_inv (T := T) clock compressed rate Hrate) Hrun) as V.
  destruct (pv_waits _ _ V) as [Hd Hw].
  assert (Hiff : forall n i d, (n, handler_of i d) ∈ outstanding px <->
    exists b p, px_bridges px !! i = Some b /\ phase_of d b = limited p n).
  { intros n i d. rewrite Hw. unfold wait_of. rewrite handler_of_bridge, handler_of_dir. split.
    - destruct (px_bridges px !! i) as [b|]; [|done]. cbn. destruct (phase_of d b) as [| | | |p m| |] eqn:Ep; try done.
      intros [= ->]. by exists b, p.
    - intros (b & p & -> & Hp). cbn. by rewrite Hp. }
  split; [exact Hd|]. split; [exact Hiff|]. intros k n h Ek.
  assert (Hin : (n, handler_of (handler_bridge h) (handler_dir h)) ∈ outstanding px).
  { rewrite handler_of_inv. apply elem_of_app. left. by apply list_elem_of_lookup_2 in Ek. }
  apply Hiff in Hin as (b & p & Eb & Ep). exists b, p. cbn [proxy_step]. rewrite Ek. cbn [mbind option_bind snd].
  rewrite Eb. cbn [mbind option_bind bridge_step]. rewrite Ep. eexists. repeat split; try done.
Qed.

(** ** A concrete run *)
#[local] Existing Instance rle_zstd.
Definition px_data (n : nat) : list byte := repeat x2a n.
Definition px_clock (n : nat) : Z := Z.of_nat n * 200000000.
(** Two users of a proxy of 1000 bytes a second: the first sends 700 bytes and
    is sent 300; the second, who sends 800, waits for the timer, and so do the
    300 bytes behind it. *)
Definition demo_traffic : list proxy_event :=
  [px_start 0; px_start 1; px_bridge 0 (ev_read D1 ec_ok (px_data 700)); px_bridge 1 (ev_read D1 ec_ok (px_data 800));
   px_bridge 0 (ev_read D2 ec_ok (px_data 300)); px_handler 0; px_timer true; px_timer true; px_handler 0; px_timer true; px_handler 0].
Definition demo_proxy : option (proxy Q) := proxy_run px_clock false 3 demo_traffic (new_proxy px_clock 1000).
Definition demo_proxy_end : proxy Q := default (new_proxy px_clock 1000) demo_proxy.
Example demo_proxy_state : match demo_proxy with
  | Some px => (map fst (px_run px), map fst (px_ready px), map fst (waiting_handlers_ (px_limiter px)), px_taken px, px_given px) = ([700; 800; 300], [], [], 1500, 300)
  | None => False end.
Proof. vm_compute. reflexivity. Qed.
(** One handler posted, two requests waiting, and the limit raised. *)
Definition demo_midway : list proxy_event := take 5 demo_traffic ++ [px_rate 2000].
Definition demo_proxy_midway : proxy spec_float := default (new_proxy px_clock 1000) (proxy_run px_clock false 3 demo_midway (new_proxy px_clock 1000)).
Lemma proxy_waits_once_witness :
  (map fst (px_ready demo_proxy_midway), map fst (waiting_handlers_ (px_limiter demo_proxy_midway))) = ([700], [800; 300]) /\
  NoDup (px_ready demo_proxy_midway ++ waiting_handlers_ (px_limiter demo_proxy_midway)).*2.
Proof.
  split; [vm_compute; reflexivity|].
  apply (proxy_waits_once (T := spec_float) px_clock false 3 1000 demo_midway demo_proxy_midway); [lia|by repeat constructor|vm_compute; reflexivity].
Defined.
