(* ===== verification/TunnelRequests.v ===== *)
(** * What a bridge asks of its stream (async_bridge.cpp and mux.cpp together)

    A bridge that goes on asks for one thing at a time: a read of the stream
    while its receiving direction waits, and a write only while its sending
    direction writes.  This is an invariant of the runs of Tunnel.v. *)
From Stdlib Require Import ZArith Lia Strings.Byte.
From stdpp Require Import base tactics list.
From S2P Require Import Prelude Protocol Zstd MuxFrame MuxStream MuxSession MuxFlow StreamEnd Bridge Tunnel.
Local Open Scope Z_scope.

(** ** What a bridge has outstanding at its stream
    A read while the receiving direction waits, and a write only while the
    sending direction writes. *)
Definition mk_read (all : bool) (n : Z) : PendingRead := {| pr_size := n; pr_handler := 0; pr_read_all := all |}.
Definition waits_for (ph : phase) : option (bool * Z) :=
  match ph with
  | reading_some => Some (false, read_size) | reading_header => Some (true, 4) | reading_body n _ => Some (true, n) | _ => None
  end.
Definition requests_read (a : bridge_action) : option (bool * Z) :=
  match a with read_exact n => Some (true, n) | read_some D2 n => Some (false, n) | _ => None end.
Definition is_write1 (a : bridge_action) : bool := match a with write_to D1 _ => true | _ => false end.

(** One step of a bridge that goes on asks for one thing. *)
Record one_request (ev : bridge_event) (b b' : Bridge) (a : bridge_action) : Prop := {
  or_going : stopped_ b' = stopped_ b /\ a <> close_both;
  or_read : match event_dir ev with
            | D1 => requests_read a = None /\ phase2 b' = phase2 b
            | D2 => requests_read a = waits_for (phase2 b') /\ (forall all n, requests_read a = Some (all, n) -> 0 <= n) /\
                    phase2 b' <> halted
            end;
  or_write : match event_dir ev with
             | D1 => (phase1 b' = writing <-> is_write1 a = true)
             | D2 => phase1 b' = phase1 b /\ is_write1 a = false
             end
}.
Section Requests.
Context `{Zstd}.
Variables (compressed : bool) (level : Z) (limited_ : bool).
Lemma fail_stops d b r : Some (fail d b) = Some r -> stopped_ b = false -> r.2 = [close_both; call_on_stop] /\ stopped_ r.1 = true.
Proof. intros [= <-] Hs. unfold fail, HandleStop. destruct d; cbn; by rewrite Hs. Qed.
Lemma forward_request ev d p n b r : Some (forward limited_ d p n b) = Some r -> event_dir ev = d ->
  exists a, r.2 = [a] /\ one_request ev b r.1 a.
Proof.
  intros [= <-] Hd. unfold forward, write_op. destruct limited_; (eexists; split; [done|]); split; rewrite ?Hd; by destruct d.
Qed.
Lemma read_request ev d b r : Some (DoRead compressed d b) = Some r -> event_dir ev = d ->
  exists a, r.2 = [a] /\ one_request ev b r.1 a.
Proof.
  intros [= <-] Hd. unfold DoRead. destruct compressed, d; (eexists; split; [done|]); split; rewrite ?Hd; cbn; try done;
    (split; [done|]); (split; [by intros ? ? [= <- <-]|done]).
Qed.
Lemma bridge_step_requests ev b b' acts : bridge_step compressed level limited_ ev b = Some (b', acts) -> stopped_ b = false ->
  (acts = [close_both; call_on_stop] /\ stopped_ b' = true) \/ exists a, acts = [a] /\ one_request ev b b' a.
Proof.
  intros E Hs.
  assert (Hf : forall d, Some (fail d b) = Some (b', acts) -> (acts = [close_both; call_on_stop] /\ stopped_ b' = true) \/
    exists a, acts = [a] /\ one_request ev b b' a) by (intros d Ef; left; by apply (fail_stops _ _ _ Ef)).
  assert (Hw : forall d p n, Some (forward limited_ d p n b) = Some (b', acts) -> event_dir ev = d ->
    (acts = [close_both; call_on_stop] /\ stopped_ b' = true) \/ exists a, acts = [a] /\ one_request ev b b' a)
    by (intros d p n Ef Hd; right; by apply (forward_request ev _ _ _ _ _ Ef)).
  destruct ev as [d ec data|d|d ec]; cbn [bridge_step] in E.
  - destruct (negb _); [done|]. unfold on_chunk, on_header, on_body in E.
    destruct d, (phase_of _ b); try done; (destruct (decide (ec = ec_ok)); [|by eauto]); repeat (case_match; try by eauto).
    injection E as <- <-. right. eexists. split; [done|]. split; cbn; try done. split; [done|]. split; [|done]. intros all n [= _ <-].
    apply Z.land_nonneg. left. apply be_val_range.
  - destruct (phase_of d b) eqn:Ep; try done. injection E as <- <-. right. eexists. split; [done|]. split; destruct d; cbn; done.
  - destruct (phase_of d b); try done. unfold on_written in E. case_match; [|by eauto]. right. by apply (read_request _ _ _ _ E).
Qed.
Lemma end_fails ec b b' acts : bridge_step compressed level limited_ (ev_read D1 ec []) b = Some (b', acts) -> ec <> ec_ok ->
  phase1 b = reading_some /\ Some (fail D1 b) = Some (b', acts).
Proof.
  intros E Hec. cbn [bridge_step phase_of] in E. destruct (negb (read_fits _ _ _)); [done|]. destruct (phase1 b); try done.
  unfold on_chunk in E. by rewrite decide_False in E.
Qed.
Lemma start_requests b b' acts : Start compressed b = (b', acts) -> exists a, acts = [read_some D1 read_size; a] /\
  stopped_ b' = stopped_ b /\ one_request (ev_written D2 ec_ok) (set_phase D1 reading_some b) b' a.
Proof.
  unfold Start, DoRead. intros Eb. destruct compressed; injection Eb as <- <-; (eexists; split; [done|]; split; [done|]);
    split; cbn; try done; (split; [done|]); (split; [by intros ? ? [= <- <-]|done]).
Qed.
End Requests.

(** A complete read has the bytes it asked for, or some. *)
Definition read_len (all : bool) (n : Z) (d : list byte) : Prop := if all then zlen d = n else zlen d <= n /\ (0 < n -> d <> []).
(** One read on an open stream either waits or is complete. *)
Lemma serve_one all n bytes : 0 <= n -> serve false [mk_read all n] bytes = ([], [mk_read all n], bytes) \/
  exists d rest, serve false [mk_read all n] bytes = ([(0%nat, ec_ok, d)], [], rest) /\ read_len all n d.
Proof.
  intros Hn. cbn [serve]. destruct bytes as [|b bytes]; [by left|]. cbn [pr_read_all pr_size mk_read negb].
  destruct (all && (zlen (b :: bytes) <? n) && true) eqn:E; [by left|right]. eexists _, _. split; [done|].
  unfold read_len. rewrite zlen_ztake by done. rewrite andb_true_r in E. destruct all; [cbn in E; bool_hyps; lia|].
  split; [lia|]. intros Hp Hd. apply (f_equal (@zlen byte)) in Hd. rewrite zlen_ztake in Hd by done. unfold zlen in Hd. cbn in Hd. lia.
Qed.
Definition reads_after (st st' : MuxStream) (acts : list action) (read : option (bool * Z)) : Prop :=
  match read with
  | None => pending_reads_ st' = [] /\ read_posts acts = []
  | Some (all, n) => (pending_reads_ st' = [mk_read all n] /\ read_posts acts = []) \/
                     (pending_reads_ st' = [] /\ exists d, read_posts acts = [(0%nat, ec_ok, d)] /\ read_len all n d)
  end.
Definition pending_of (read : option (bool * Z)) : list PendingRead := match read with Some (all, n) => [mk_read all n] | None => [] end.
Lemma read_effect st read : queue_ok st -> remote_closed_ st = false -> pending_reads_ st = pending_of read ->
  (forall all n, read = Some (all, n) -> 0 <= n) ->
  exists st' acts, do_read_from_buffer true st = Some (st', acts) /\ pending_writes_ st' = pending_writes_ st /\
    reads_after st st' acts read.
Proof.
  intros Hq Hr Hp Hn.
  assert (Hz : reads_sized (pending_reads_ st)).
  { rewrite Hp. destruct read as [[all n]|]; [|constructor]. constructor; [|done]. by eapply Hn. }
  destruct (do_read_spec true st Hq Hz) as (st' & acts & E & _ & _ & Hw & Hs & _). exists st', acts. split; [done|].
  destruct Hw as (_ & _ & _ & Hw & _). split; [done|]. rewrite Hr, Hp in Hs. unfold reads_after, pending_of in *.
  destruct read as [[all n]|]; [|by injection Hs as -> -> _].
  destruct (serve_one all n (unread st)) as [E1|(d & rest & E1 & Hl)]; [by eapply Hn|rewrite E1 in Hs; injection Hs as -> -> _; by left|right].
  rewrite E1 in Hs. injection Hs as -> -> _. split; [done|]. by exists d.
Qed.
Lemma write_effect st : pending_reads_ (MuxStream.do_write true st).1 = pending_reads_ st /\
  read_posts (MuxStream.do_write true st).2 = [] /\
  (pending_writes_ st = [] -> pending_writes_ (MuxStream.do_write true st).1 = []).
Proof.
  destruct (do_write_gives st) as (_ & _ & _ & _ & H). split; [done|]. split.
  - unfold MuxStream.do_write. generalize (do_write_fuel st). intros fuel. revert st H. clear. intros st _. revert st.
    induction fuel as [|fuel IH]; intros st; [done|]. cbn [do_write_loop negb].
    destruct (pending_writes_ st) as [|pw pws]; [done|]. destruct (_ <=? 0); [done|].
    destruct (_ =? 0); [|destruct (_ <? _)];
      match goal with |- context [do_write_loop fuel true ?s] => specialize (IH s); by destruct (do_write_loop fuel true s) end.
  - intros Hp. unfold MuxStream.do_write, do_write_fuel. cbn [do_write_loop]. by rewrite Hp.
Qed.

(** ** The invariant of an end that goes on *)
Definition outstanding_ok (ph : phase) (prs : list PendingRead) (inbox : list (list byte)) : Prop :=
  match waits_for ph with
  | None => prs = [] /\ inbox = []
  | Some (all, n) => (prs = [mk_read all n] /\ inbox = []) \/ (prs = [] /\ exists d, inbox = [d] /\ read_len all n d)
  end.
Record io_ok (x : bool) (t : Tunnel) : Prop := {
  io_read : outstanding_ok (phase2 (t_bridge t x)) (pending_reads_ (endpoint (t_link t) x)) (t_inbox t x);
  io_write : phase1 (t_bridge t x) <> writing -> pending_writes_ (endpoint (t_link t) x) = [];
  io_alive : phase2 (t_bridge t x) <> halted
}.
Lemma io_same x t t' : io_ok x t -> t_bridge t' x = t_bridge t x -> endpoint (t_link t') x = endpoint (t_link t) x ->
  t_inbox t' x = t_inbox t x -> io_ok x t'.
Proof. intros [H1 H2 H3] E1 E2 E3. split; by rewrite ?E1, ?E2, ?E3. Qed.

(** What the stream does at end [x] stays at end [x]. *)
Lemma link_app_other x ev l l' posts : link_app x ev l = Some (l', posts) -> endpoint l' (negb x) = endpoint l (negb x) /\
  wire l' (negb x) = wire l (negb x) /\ exists acts, step_event true ev (endpoint l x) = Some (endpoint l' x, acts) /\
    posts = posted_data acts /\ wire l' x = wire l x ++ emitted acts.
Proof.
  unfold link_app. destruct (app_event_b ev); [|done]. destruct (step_event _ _ _) as [[st acts]|] eqn:E; [|done]. intros [= <- <-].
  cbn. rewrite !upd_other by (by destruct x). rewrite !upd_same. split; [done|]. split; [done|]. by exists acts.
Qed.
Lemma perform_one_other x a t t' : perform_one x a t = Some t' -> t_bridge t' = t_bridge t /\
  endpoint (t_link t') (negb x) = endpoint (t_link t) (negb x) /\ t_inbox t' (negb x) = t_inbox t (negb x).
Proof.
  intros E. assert (Hl : forall ev lost, ('(l, posts) ← link_app x ev (t_link t); Some (set_link x l posts lost t)) = Some t' ->
    t_bridge t' = t_bridge t /\ endpoint (t_link t') (negb x) = endpoint (t_link t) (negb x) /\ t_inbox t' (negb x) = t_inbox t (negb x)).
  { intros ev lost El. destruct (link_app x ev _) as [[l posts]|] eqn:E1; [|done]. injection El as <-.
    apply link_app_other in E1 as (H1 & _). cbn. rewrite upd_other by (by destruct x). done. }
  destruct a as [[] n|n|d n|[] p| |]; cbn [perform_one] in E; try (by injection E as <-); by eapply Hl.
Qed.
Lemma perform_quiet x a t t' : perform_one x a t = Some t' -> requests_read a = None ->
  pending_reads_ (endpoint (t_link t') x) = pending_reads_ (endpoint (t_link t) x) /\ t_inbox t' x = t_inbox t x /\
  (is_write1 a = false -> endpoint (t_link t') x = endpoint (t_link t) x).
Proof.
  intros E Hr. destruct a as [[] n|n|d n|[] p| |]; try done; cbn [perform_one] in E; try by injection E as <-.
  destruct (link_app x _ _) as [[l posts]|] eqn:El; [|done]. injection E as <-.
  apply link_app_other in El as (_ & _ & acts & Es & -> & _). cbn [step_event] in Es. unfold async_write_bufs in Es.
  cbn [t_link set_link t_inbox is_write1]. rewrite upd_same. unfold posted_data.
  destruct (_ <=? _); [injection Es as -> <-; by rewrite app_nil_r|].
  match type of Es with Some (MuxStream.do_write true ?s) = _ => destruct (write_effect s) as (W1 & W2 & _); destruct (MuxStream.do_write true s) end.
  injection Es as -> ->. cbn [fst snd] in *. rewrite W2. by rewrite app_nil_r.
Qed.
(** A read asked of an open stream that owes nothing. *)
Lemma perform_read x a all n t t' : perform_one x a t = Some t' -> requests_read a = Some (all, n) -> 0 <= n ->
  queue_ok (endpoint (t_link t) x) -> remote_closed_ (endpoint (t_link t) x) = false ->
  pending_reads_ (endpoint (t_link t) x) = [] -> t_inbox t x = [] ->
  pending_writes_ (endpoint (t_link t') x) = pending_writes_ (endpoint (t_link t) x) /\
  ((pending_reads_ (endpoint (t_link t') x) = [mk_read all n] /\ t_inbox t' x = []) \/
   (pending_reads_ (endpoint (t_link t') x) = [] /\ exists d, t_inbox t' x = [d] /\ read_len all n d)).
Proof.
  intros E Ha Hn Hq Hr Hp Hi. set (st := endpoint (t_link t) x) in *.
  assert (El : exists l posts, link_app x (MuxStream.ev_read all n 0) (t_link t) = Some (l, posts) /\ t' = set_link x l posts false t).
  { destruct a as [[] m|m|d m|[] p| |]; try done; injection Ha as <- <-; cbn [perform_one] in E;
      (destruct (link_app x _ _) as [[l posts]|] eqn:El; [|done]); injection E as <-; by exists l, posts. }
  destruct El as (l & posts & El & ->). apply link_app_other in El as (_ & _ & acts & Es & -> & _). fold st in Es.
  destruct (read_effect (set_pending_reads [mk_read all n] st) (Some (all, n))) as (st' & acts' & Ed & Hw & Hra); try done.
  { by intros ? ? [= <- <-]. }
  assert (Ed' : step_event true (MuxStream.ev_read all n 0) st = do_read_from_buffer true (set_pending_reads [mk_read all n] st))
    by (destruct all; cbn [step_event]; unfold async_read, async_read_some; by rewrite Hp).
  rewrite Ed', Ed in Es. cbn [t_link set_link t_inbox]. injection Es as <- <-. split; [done|]. rewrite upd_same, Hi. unfold posted_data.
  destruct Hra as [[H1 H2]|[H1 (d & H2 & Hl)]]; rewrite H2; [by left|right]. split; [done|]. by exists d.
Qed.

(** What the next frame does to the outstanding read and writes. *)
Lemma read_outstanding ph st st' acts inbox : do_read_from_buffer true st = Some (st', acts) -> queue_ok st ->
  reads_sized (pending_reads_ st) -> remote_closed_ st = false -> outstanding_ok ph (pending_reads_ st) inbox ->
  outstanding_ok ph (pending_reads_ st') (inbox ++ posted_data acts) /\ pending_writes_ st' = pending_writes_ st.
Proof.
  intros E Hq Hz Hr Ho. destruct (do_read_spec true st Hq Hz) as (st1 & a1 & E1 & _ & _ & Hw & Hs & _).
  rewrite E in E1. injection E1 as <- <-. split; [|apply Hw]. rewrite Hr in Hs. unfold outstanding_ok, posted_data in *.
  destruct (waits_for ph) as [[all n]|].
  - destruct Ho as [[Hp ->]|[Hp (d & -> & Hl)]]; rewrite Hp in Hs; [|injection Hs as -> -> _; right; split; [done|]; by exists d].
    assert (Hn : 0 <= n) by (rewrite Hp in Hz; by apply Forall_cons in Hz as [? _]).
    destruct (serve_one all n (unread st) Hn) as [E1|(d & rest & E1 & Hl)]; rewrite E1 in Hs; injection Hs as -> -> _; [by left|right].
    split; [done|]. by exists d.
  - destruct Ho as [Hp ->]. rewrite Hp in Hs. by injection Hs as -> -> _.
Qed.
Lemma next_frame x l f rest ev : link_inv l -> wire l (negb x) = f :: rest -> frame_events f = [ev] ->
  let st := endpoint l x in (exists n, ev = ev_window n) \/
  exists d, ev = ev_data d /\ queue_ok (set_read_queue (read_queue_ st ++ [d]) (read_queue_offset_ st) st) /\
    reads_sized (pending_reads_ st) /\ remote_closed_ st = false.
Proof.
  intros Hinv Ew Ef. cbn zeta. destruct (wire_split _ _ _ _ Hinv Ew) as (Hf & _ & Hdata & _). destruct Hinv as [_ Hdir].
  specialize (Hdir (negb x)). rewrite negb_involutive in Hdir. destruct Hdir as [[_ Hrc] Hq Hb Hsz Hc Hw Hcr Hsum _ _ _].
  destruct Hf as [(id & Hh & Hl)|(id & n & -> & Hn)].
  - right. unfold frame_events in Ef. rewrite Hh in Ef. cbn in Ef.
    replace (0 <? zlen f.2) with true in Ef by (symmetry; apply Z.ltb_lt; lia). injection Ef as <-. exists f.2.
    assert (Hwd : wire_data [f] = f.2) by (unfold wire_data; cbn; rewrite Hh; apply app_nil_r).
    rewrite Hdata, Hwd, zlen_app in Hsum. pose proof (zlen_nonneg (wire_data rest)). split; [done|].
    destruct (queue_push_ok (endpoint l x) f.2) as [Hok _]; [done|done|lia|lia|done].
  - left. exists n. by injection Ef as <-.
Qed.
Lemma deliver_effect x l f rest ev st acts ph inbox : link_inv l -> wire l (negb x) = f :: rest -> frame_events f = [ev] ->
  step_event true ev (endpoint l x) = Some (st, acts) -> outstanding_ok ph (pending_reads_ (endpoint l x)) inbox ->
  outstanding_ok ph (pending_reads_ st) (inbox ++ posted_data acts) /\
  (pending_writes_ (endpoint l x) = [] -> pending_writes_ st = []).
Proof.
  intros Hinv Ew Ef E Ho. destruct (next_frame _ _ _ _ _ Hinv Ew Ef) as [[n ->]|(d & -> & Hok & Hsz & Hrc)]; cbn [step_event] in E.
  - unfold handle_window_update in E.
    match type of E with Some (MuxStream.do_write true ?s) = _ => destruct (write_effect s) as (W1 & W2 & W3); destruct (MuxStream.do_write true s) end.
    injection E as -> ->. cbn [fst snd] in *. unfold posted_data. rewrite W1, W2, app_nil_r. done.
  - unfold handle_data in E. destruct (read_outstanding ph _ _ _ inbox E Hok) as [R1 R2]; try done. split; [done|]. by rewrite R2.
Qed.

Section Outstanding.
Context `{ZstdLaws}.
Variables (compressed : bool) (level : bool -> Z) (limiter : bool -> bool) (id : Z).
Definition going (t : Tunnel) : Prop := forall x, stopped_ (t_bridge t x) = false -> io_ok x t.
Lemma open_end x t : star link_step (new_link id) (t_link t) -> queue_ok (endpoint (t_link t) x) /\
  remote_closed_ (endpoint (t_link t) x) = false /\ local_closed_ (endpoint (t_link t) x) = false.
Proof.
  intros Hs. destruct (reachable_inv _ _ Hs) as [_ Hd]. destruct (Hd (negb x)) as [[Ho1 Ho2] Hq _ _ _ _ _ _ _ _ _].
  by rewrite negb_involutive in *.
Qed.
(** One request of end [x]; before it nothing is outstanding in the direction
    of the event. *)
Lemma request_io x ev b b' a t t' : star link_step (new_link id) (t_link t) -> one_request ev b b' a ->
  perform_one x a (set_bridge x b' t) = Some t' ->
  (match event_dir ev with
   | D1 => outstanding_ok (phase2 b) (pending_reads_ (endpoint (t_link t) x)) (t_inbox t x) /\
           (is_write1 a = false -> pending_writes_ (endpoint (t_link t) x) = []) /\ phase2 b <> halted
   | D2 => pending_reads_ (endpoint (t_link t) x) = [] /\ t_inbox t x = [] /\
           (phase1 b <> writing -> pending_writes_ (endpoint (t_link t) x) = [])
   end) -> io_ok x t'.
Proof.
  intros Hinv [Hg Hrd Hwr] E Hpre. destruct (perform_one_other _ _ _ _ E) as (Eb & _).
  assert (Eb' : t_bridge t' x = b') by (rewrite Eb; cbn; by rewrite upd_same).
  destruct (open_end x t Hinv) as (Hq & Hrc & _). destruct (event_dir ev).
  - destruct Hpre as (I1 & Hpw & Hal). destruct Hrd as [Hrd Hp2]. destruct (perform_quiet _ _ _ _ E Hrd) as (P1 & P2 & P3).
    split; rewrite Eb'; [by rewrite Hp2, P1, P2| |by rewrite Hp2].
    intros Hw. destruct (is_write1 a) eqn:Ea; [by destruct Hwr as [_ Hwr]; destruct Hw; apply Hwr|]. rewrite P3 by done. by apply Hpw.
  - destruct Hpre as (Hp & Hi & Hpw). destruct Hrd as (Hrd & Hn & Hal), Hwr as [Hp1 Hnw]. rewrite <- Hp1 in Hpw.
    destruct (requests_read a) as [[all n]|] eqn:Ea.
    + destruct (perform_read _ _ _ _ _ _ E Ea (Hn _ _ eq_refl)) as [P1 P2]; try done.
      split; rewrite Eb'; [unfold outstanding_ok; by rewrite <- Hrd| |done]. rewrite P1. done.
    + destruct (perform_quiet _ _ _ _ E Ea) as (P1 & P2 & P3).
      split; rewrite Eb'; [|by rewrite P3|done]. unfold outstanding_ok. rewrite <- Hrd. by rewrite P1, P2.
Qed.
Lemma going_at x t t' : going t -> t_bridge t' (negb x) = t_bridge t (negb x) ->
  endpoint (t_link t') (negb x) = endpoint (t_link t) (negb x) -> t_inbox t' (negb x) = t_inbox t (negb x) ->
  (stopped_ (t_bridge t' x) = false -> io_ok x t') -> going t'.
Proof.
  intros Hgo O1 O2 O3 Hx y Hy. destruct (Bool.bool_dec y x) as [->|Hyx]; [by apply Hx|].
  assert (y = negb x) as -> by (by destruct x, y). eapply io_same; [apply Hgo; by rewrite <- O1|done..].
Qed.
(** An event of the bridge at [x], from a tunnel [t0] with the links of [t]. *)
Lemma event_going x ev t t0 t' : going t -> star link_step (new_link id) (t_link t) ->
  t_bridge t0 = t_bridge t -> t_link t0 = t_link t -> t_inbox t0 (negb x) = t_inbox t (negb x) ->
  bridge_event_at compressed level limiter x ev t0 = Some t' ->
  (forall b, bridge_step compressed (level x) (limiter x) ev (t_bridge t x) = Some b ->
   stopped_ (t_bridge t x) = false -> stopped_ b.1 = false -> io_ok x t ->
   match event_dir ev with
   | D1 => t_inbox t0 x = t_inbox t x /\ pending_writes_ (endpoint (t_link t) x) = []
   | D2 => pending_reads_ (endpoint (t_link t) x) = [] /\ t_inbox t0 x = []
   end) -> going t'.
Proof.
  intros Hgo Hs E1 E2 E3 E Hpre. unfold bridge_event_at in E. rewrite E1 in E.
  destruct (stopped_ (t_bridge t x)) eqn:Est; [done|]. destruct (bridge_step _ _ _ ev _) as [[b acts]|] eqn:Eb; [|done].
  cbn [mbind option_bind] in E. assert (Hio : io_ok x t) by (by apply Hgo). specialize (Hpre _ eq_refl eq_refl). cbn [fst] in Hpre.
  destruct (bridge_step_requests _ _ _ _ _ _ _ Eb Est) as [[-> Hst]|(a & -> & Hreq)].
  - injection E as <-. apply (going_at x t); cbn; rewrite ?upd_same, ?upd_other, ?E1, ?E2 by done; try done. by rewrite Hst.
  - cbn [perform] in E. destruct (perform_one x a _) as [t1|] eqn:Ep; [|done]. injection E as <-.
    destruct (perform_one_other _ _ _ _ Ep) as (P1 & P2 & P3). cbn [t_bridge set_bridge t_link t_inbox] in P1, P2, P3.
    apply (going_at x t); rewrite ?P1, ?P2, ?P3, ?upd_other, ?E1, ?E2 by done; try done. intros _.
    pose proof (or_going _ _ _ _ Hreq) as [Hst _]. rewrite Est in Hst. specialize (Hpre Hst Hio).
    eapply (request_io x ev _ b a t0); [by rewrite E2|done|done|]. destruct (event_dir ev).
    + destruct Hpre as [Hi Hp]. rewrite E2, Hi. split; [apply (io_read _ _ Hio)|]. split; [done|apply (io_alive _ _ Hio)].
    + destruct Hpre as [Hp Hi]. rewrite E2. split; [done|]. split; [done|]. apply (io_write _ _ Hio).
Qed.
(** A frame handed to an open end. *)
Lemma deliver_going x t l posts : going t -> star link_step (new_link id) (t_link t) -> link_deliver x (t_link t) = Some (l, posts) ->
  going (set_link x l posts false t).
Proof.
  intros Hgo Hs E. unfold link_deliver in E. destruct (wire (t_link t) (negb x)) as [|f rest] eqn:Ew; [done|].
  destruct (frame_events f) as [|ev [|]] eqn:Ef; try done.
  destruct (step_event true ev (endpoint (t_link t) x)) as [[st acts]|] eqn:Es; [|done]. injection E as <- <-.
  intros y. cbn [t_bridge set_link]. intros Hy. specialize (Hgo y Hy).
  destruct (Bool.bool_dec y x) as [->|Hyx].
  2:{ assert (y = negb x) as -> by (by destruct x, y). eapply io_same; [done|done|cbn; by rewrite upd_other..]. }
  destruct Hgo as [I1 I2 I3].
  destruct (deliver_effect x (t_link t) f rest ev st acts (phase2 (t_bridge t x)) (t_inbox t x)) as [D1 D2];
    [by eapply reachable_inv|done..|]. split; cbn; rewrite ?upd_same; auto.
Qed.
Lemma tunnel_step_going ev t t' : going t -> star link_step (new_link id) (t_link t) ->
  tunnel_step compressed level limiter ev t = Some t' -> going t'.
Proof.
  intros Hgo Hs E.
  assert (Hbusy : forall x, waits_for (phase2 (t_bridge t x)) = None -> io_ok x t ->
    pending_reads_ (endpoint (t_link t) x) = [] /\ t_inbox t x = []).
  { intros x Hw [I1 _ _]. unfold outstanding_ok in I1. by rewrite Hw in I1. }
  destruct ev as [x|x ec data|x d|x d ec|x|x ec|x]; cbn [tunnel_step] in E.
  - destruct (phase1 (t_bridge t x)) eqn:H1; try done. destruct (phase2 (t_bridge t x)) eqn:H2; try done.
    destruct (Start compressed (t_bridge t x)) as [b acts] eqn:Eb.
    destruct (start_requests _ _ _ _ Eb) as (a & -> & Hst & Hreq). cbn [perform perform_one mbind option_bind] in E.
    destruct (perform_one x a _) as [t1|] eqn:Ep; [|done]. injection E as <-.
    destruct (perform_one_other _ _ _ _ Ep) as (P1 & P2 & P3). cbn [t_bridge set_bridge t_link t_inbox] in P1, P2, P3.
    apply (going_at x t); rewrite ?P1, ?P2, ?P3, ?upd_other, ?upd_same by done; try done. rewrite Hst. intros Hrun.
    assert (Hio : io_ok x t) by (by apply Hgo). destruct (Hbusy x) as [B1 B2]; [by rewrite H2|done|].
    apply (request_io x _ _ b a t _ Hs Hreq Ep). cbn [event_dir]. split; [done|]. split; [done|]. intros _.
    apply (io_write _ _ Hio). by rewrite H1.
  - destruct (decide (ec = ec_ok)) as [->|Hec].
    + destruct (0 <? zlen data); [|done]. apply (event_going x _ t _ _ Hgo Hs) in E; try done. intros r Er _ _ Hio. split; [done|].
      apply (io_write _ _ Hio). intros Hp. cbn [bridge_step phase_of] in Er. rewrite Hp in Er. by destruct (negb _).
    + apply (event_going x _ t _ _ Hgo Hs) in E; try done. intros r Er _ _ Hio. split; [done|].
      apply (io_write _ _ Hio). intros Hp. cbn [bridge_step phase_of] in Er. rewrite Hp in Er. by destruct (negb _).
  - apply (event_going x _ t _ _ Hgo Hs) in E; try done. intros r Er _ _ Hio. cbn [bridge_step] in Er.
    destruct d; cbn [event_dir phase_of] in *.
    + split; [done|]. apply (io_write _ _ Hio). intros Hp. by rewrite Hp in Er.
    + apply Hbusy; [|done]. by destruct (phase2 (t_bridge t x)).
  - destruct d.
    + destruct (bool_decide (ec = ec_ok) && _) eqn:El; [done|]. apply (event_going x _ t _ _ Hgo Hs) in E; try done.
      intros r Er Hold Hst Hio. split; [done|]. cbn [bridge_step phase_of] in Er. destruct (phase1 (t_bridge t x)); try done.
      unfold on_written in Er. destruct (decide (ec = ec_ok)) as [->|Hec].
      * rewrite bool_decide_eq_true_2 in El by done. cbn [andb] in El. apply orb_false_iff in El as [_ El].
        unfold all_sent in El. by destruct (pending_writes_ _).
      * apply (fail_stops D1) in Er as [_ Er]; [by rewrite Er in Hst|done].
    + apply (event_going x _ t _ _ Hgo Hs) in E; try done. intros r Er _ _ Hio. cbn [bridge_step phase_of] in Er.
      apply Hbusy; [|done]. by destruct (phase2 (t_bridge t x)).
  - destruct (t_inbox t x) as [|data rest] eqn:Ei; [done|]. apply (event_going x _ t _ _ Hgo Hs) in E; try done.
    { cbn. by rewrite upd_other. }
    intros r Er _ _ [I1 _ _]. cbn [event_dir t_inbox set_inbox]. rewrite upd_same. unfold outstanding_ok in I1. rewrite Ei in I1.
    destruct (waits_for _) as [[all n]|]; [|by destruct I1]. destruct I1 as [[_ I1]|[I1 (d' & I2 & _)]]; [done|]. by injection I2 as _ ->.
  - destruct (decide (ec = ec_ok)) as [|Hec]; [done|]. apply (event_going x _ t _ _ Hgo Hs) in E; try done.
    intros r Er Hold Hst _. cbn [bridge_step phase_of] in Er. destruct (negb _); [done|].
    assert (Hf : Some (fail D2 (t_bridge t x)) = Some r).
    { unfold on_chunk, on_header, on_body in Er. destruct (phase2 (t_bridge t x)); try done; by rewrite decide_False in Er. }
    apply fail_stops in Hf as [_ Hf]; [by rewrite Hf in Hst|done].
  - destruct (link_deliver x _) as [[l posts]|] eqn:El; [|done]. injection E as <-. by apply deliver_going.
Qed.
End Outstanding.
