(* ===== verification/Closing.v ===== *)
(** * The end of a tunnel (async_bridge.cpp and mux.cpp together)

    Tunnel.v follows two bridges up to the stop of one of them.  Here one has
    stopped: it has closed its connection and its end of the stream, a FIN is on
    its way behind the data, and the other end goes on until it learns of it.
    The proofs compare what the other end sees with a tunnel of Tunnel.v whose
    first end has merely fallen silent ([stream_follows], [draining]). *)
From Stdlib Require Import ZArith Lia Strings.Byte.
From stdpp Require Import base tactics list.
From S2P Require Import Prelude Protocol Zstd MuxFrame MuxStream MuxSession MuxFlow StreamEnd Bridge Tunnel TunnelRequests.
Local Open Scope Z_scope.

(** ** The tunnel with closing ends *)
(** What Tunnel.v has, with the reads that failed and the streams the sessions
    have forgotten. *)
Record Closing : Type := {
  k_tunnel : Tunnel;
  k_ends : bool -> list error_code;      (* errors of completed reads, to be handled *)
  k_given_back : bool -> bool
}.
Definition still_open (t : Tunnel) : Closing := {| k_tunnel := t; k_ends := fun _ => []; k_given_back := fun _ => false |}.
Definition with_tunnel (t : Tunnel) (c : Closing) : Closing :=
  {| k_tunnel := t; k_ends := k_ends c; k_given_back := k_given_back c |}.
Definition ok_data (acts : list action) : list (list byte) :=
  omap (fun p => if decide (p.1.2 = ec_ok) then Some p.2 else None) (read_posts acts).
Definition failed_reads (acts : list action) : list error_code :=
  omap (fun p => if decide (p.1.2 = ec_ok) then None else Some p.1.2) (read_posts acts).
(** The stream of end [x] has handled [ev]. *)
Definition k_after (x : bool) (ev : event) (st : MuxStream) (acts : list action) (l : link) (lost : bool) (c : Closing) : Closing := {|
  k_tunnel := set_link x (after x ev st acts l) (ok_data acts) lost (k_tunnel c);
  k_ends := upd x (k_ends c x ++ failed_reads acts) (k_ends c);
  k_given_back := upd x (k_given_back c x || gives_back acts) (k_given_back c) |}.
Definition k_app (x : bool) (ev : event) (lost : bool) (c : Closing) : option Closing :=
  '(st, acts) ← step_event true ev (endpoint (t_link (k_tunnel c)) x);
  mret (k_after x ev st acts (t_link (k_tunnel c)) lost c).
(** The next frame reaches end [x]; the session drops it when it has forgotten
    the stream. *)
Definition k_deliver (x : bool) (c : Closing) : option Closing :=
  let l := t_link (k_tunnel c) in
  match wire l (negb x) with
  | [] => None
  | f :: rest =>
    if k_given_back c x then Some (with_tunnel (set_link x (take_frame (negb x) rest l) [] false (k_tunnel c)) c) else
    match frame_events f with
    | [ev] => '(st, acts) ← step_event true ev (endpoint l x); mret (k_after x ev st acts (take_frame (negb x) rest l) false c)
    | _ => None
    end
  end.
Definition k_perform_one (x : bool) (a : bridge_action) (c : Closing) : option Closing :=
  match a with
  | write_to D1 p => k_app x (ev_write [p] 0) (refused x (t_link (k_tunnel c))) c
  | write_to D2 p => Some (with_tunnel (put_out x p (k_tunnel c)) c)
  | read_exact n => k_app x (MuxStream.ev_read true n 0) false c
  | read_some D2 n => k_app x (MuxStream.ev_read false n 0) false c
  | close_both => k_app x ev_close false c
  | read_some D1 _ | wait_tokens _ _ | call_on_stop => Some c
  end.
Fixpoint k_perform (x : bool) (acts : list bridge_action) (c : Closing) : option Closing :=
  match acts with [] => Some c | a :: acts' => c1 ← k_perform_one x a c; k_perform x acts' c1 end.

Section Closing.
Context `{Zstd}.
Variables (compressed : bool) (level : bool -> Z) (limiter : bool -> bool).
(** A bridge that has stopped is told of aborted reads and writes, which it
    ignores; but a packet that waits for the rate limiter is still written. *)
Definition k_at (x : bool) (ev : bridge_event) (c : Closing) : option Closing :=
  if stopped_ (t_bridge (k_tunnel c) x) && match ev with ev_tokens D1 => false | _ => true end then None else
  '(b, acts) ← bridge_step compressed (level x) (limiter x) ev (t_bridge (k_tunnel c) x);
  k_perform x acts (with_tunnel (set_bridge x b (k_tunnel c)) c).
Definition closing_step (ev : tunnel_event) (c : Closing) : option Closing :=
  let t := k_tunnel c in
  match ev with
  | t_start x =>
    match phase1 (t_bridge t x), phase2 (t_bridge t x) with
    | not_started, not_started =>
      let '(b, acts) := Start compressed (t_bridge t x) in k_perform x acts (with_tunnel (set_bridge x b t) c)
    | _, _ => None
    end
  | t_plain x ec data =>
    if decide (ec = ec_ok) then
      if 0 <? zlen data then k_at x (ev_read D1 ec data) (with_tunnel (took_in x data t) c) else None
    else k_at x (ev_read D1 ec []) c
  | t_tokens x d => k_at x (ev_tokens d) c
  | t_written x d ec =>
    match d with
    | D1 => if bool_decide (ec = ec_ok) && (t_lost t x || negb (all_sent x t)) then None else k_at x (ev_written D1 ec) c
    | D2 => k_at x (ev_written D2 ec) c
    end
  | t_stream x =>
    match t_inbox t x, k_ends c x with
    | data :: rest, _ => k_at x (ev_read D2 ec_ok data) (with_tunnel (set_inbox x rest t) c)
    | [], ec :: rest =>
      k_at x (ev_read D2 ec []) {| k_tunnel := t; k_ends := upd x rest (k_ends c); k_given_back := k_given_back c |}
    | [], [] => None
    end
  | t_stream_failed _ _ => None       (* failures come from the stream itself *)
  | t_deliver x => k_deliver x c
  end.
Fixpoint closing_run (evs : list tunnel_event) (c : Closing) : option Closing :=
  match evs with [] => Some c | ev :: evs' => c1 ← closing_step ev c; closing_run evs' c1 end.
End Closing.

(** ** After the end of one connection
    The tunnel [t] is what the other end sees: one in which end [x] has not been
    told of the end of its connection and does nothing. *)
Definition fin_frame (id : Z) : wire_frame := (mk_header Data FIN id 0, []).
Definition after_fin (st : MuxStream) : MuxStream := set_closed (local_closed_ st) true (set_pending_reads [] st).
Record stream_follows (x : bool) (t : Tunnel) (c : Closing) : Prop := {
  sf_out : t_out (k_tunnel c) (negb x) = t_out t (negb x);
  sf_in : t_in (k_tunnel c) x = t_in t x;
  sf_lost : t_lost (k_tunnel c) (negb x) = t_lost t (negb x);
  sf_inbox : t_inbox (k_tunnel c) (negb x) = t_inbox t (negb x);
  sf_known : k_given_back c (negb x) = false;
  sf_link : let y := negb x in
    (endpoint (t_link (k_tunnel c)) y = endpoint (t_link t) y /\ k_ends c y = [] /\
     exists i, wire (t_link (k_tunnel c)) x = wire (t_link t) x ++ [fin_frame i]) \/
    (endpoint (t_link (k_tunnel c)) y = after_fin (endpoint (t_link t) y) /\
     wire (t_link (k_tunnel c)) x = [] /\ wire (t_link t) x = [] /\
     k_ends c y = (match pending_reads_ (endpoint (t_link t) y) with [] => [] | _ => [ec_eof] end))
}.
Record at_rest (x : bool) (c : Closing) : Prop := {
  ar_stopped : stopped_ (t_bridge (k_tunnel c) x) = true;
  ar_phase : phase1 (t_bridge (k_tunnel c) x) = halted;
  ar_stream : let st := endpoint (t_link (k_tunnel c)) x in
    local_closed_ st = true /\ pending_reads_ st = [] /\ pending_writes_ st = []
}.

Lemma emitted_app xs ys : emitted (xs ++ ys) = emitted xs ++ emitted ys.
Proof. apply omap_app. Qed.
(** A closed stream that owes nothing sends nothing more. *)
Lemma closed_idle ev st st' acts : step_event true ev st = Some (st', acts) -> pending_reads_ st = [] -> pending_writes_ st = [] ->
  match ev with ev_data _ | ev_window _ | ev_remote_close => True | _ => False end ->
  local_closed_ st' = local_closed_ st /\ pending_reads_ st' = [] /\ pending_writes_ st' = [] /\ emitted acts = [] /\ read_posts acts = [].
Proof.
  intros E Hr Hw Hev.
  assert (Hc : forall st, emitted (check_cleanup true st) = [] /\ read_posts (check_cleanup true st) = [])
    by (intros s0; unfold check_cleanup; by destruct (_ && _)).
  destruct ev as [| |d|delta| | |]; try done; cbn [step_event] in E.
  - unfold handle_data in E. rewrite do_read_idle in E by done. injection E as <- <-. split; [done|]. split; [done|]. split; [done|]. apply Hc.
  - unfold handle_window_update, MuxStream.do_write, do_write_fuel in E. cbn [do_write_loop pending_writes_ set_remote_window] in E.
    rewrite Hw in E. by injection E as <- <-.
  - unfold handle_close in E. rewrite do_read_idle in E by done. injection E as <- <-. split; [done|]. split; [done|]. split; [done|].
    rewrite emitted_app, read_posts_app. split; [rewrite !(proj1 (Hc _))|rewrite !(proj2 (Hc _))]; done.
Qed.
(** An open stream completes its reads without errors and is not given back. *)
Lemma serve_ok prs bytes out rest bs : serve false prs bytes = (out, rest, bs) -> Forall (fun p => p.1.2 = ec_ok) out.
Proof.
  revert bytes out rest bs. induction prs as [|pr prs IH]; intros bytes out rest bs; cbn [serve]; [by intros [= <- <- <-]|].
  destruct bytes; [by intros [= <- <- <-]|]. destruct (_ && _ && _); [by intros [= <- <- <-]|].
  destruct (serve false prs _) as [[o r] b1] eqn:E. intros [= <- <- <-]. constructor; [done|]. by eapply IH.
Qed.
Lemma ok_posts acts : Forall (fun p => p.1.2 = ec_ok) (read_posts acts) -> ok_data acts = posted_data acts /\ failed_reads acts = [].
Proof.
  unfold ok_data, posted_data, failed_reads. induction (read_posts acts) as [|[[h ec] d] l IH]; [done|]. intros [Hec Hl]%Forall_cons.
  cbn in Hec. subst ec. destruct (IH Hl) as [E1 E2]. split; [exact (f_equal (cons d) E1)|exact E2].
Qed.
Lemma open_posts st st' acts : do_read_from_buffer true st = Some (st', acts) -> queue_ok st -> reads_sized (pending_reads_ st) ->
  remote_closed_ st = false -> local_closed_ st = false ->
  ok_data acts = posted_data acts /\ failed_reads acts = [] /\ gives_back acts = false.
Proof.
  intros E Hq Hz Hr Hl. destruct (do_read_spec true st Hq Hz) as (st1 & a1 & E1 & _ & _ & _ & Hs & _). rewrite E in E1.
  injection E1 as <- <-. rewrite Hr in Hs. symmetry in Hs. apply serve_ok in Hs. apply ok_posts in Hs as [H1 H2].
  split; [done|]. split; [done|]. destruct (do_read_gives _ _ _ E) as (-> & Hl' & _). unfold over. by rewrite Hl', Hl.
Qed.
(** Writing does not look at the FIN received. *)
Lemma fin_do_write_loop fuel st : do_write_loop fuel true (after_fin st) =
  (after_fin (do_write_loop fuel true st).1, (do_write_loop fuel true st).2).
Proof.
  revert st. induction fuel as [|fuel IH]; intros st; [done|]. cbn [do_write_loop negb].
  change (pending_writes_ (after_fin st)) with (pending_writes_ st). change (remote_window_size_ (after_fin st)) with (remote_window_size_ st).
  destruct (pending_writes_ st) as [|pw pws]; [done|]. destruct (_ <=? 0); [done|].
  assert (Hs : forall q, set_pending_writes q (after_fin st) = after_fin (set_pending_writes q st)) by done.
  assert (Hw : forall n q, set_pending_writes q (set_remote_window n (after_fin st)) = after_fin (set_pending_writes q (set_remote_window n st))) by done.
  destruct (_ =? 0); [|destruct (_ <? _)]; rewrite ?Hs, ?Hw, IH;
    match goal with |- context [do_write_loop fuel true ?s] => by destruct (do_write_loop fuel true s) end.
Qed.
Lemma fin_do_write st : MuxStream.do_write true (after_fin st) =
  (after_fin (MuxStream.do_write true st).1, (MuxStream.do_write true st).2).
Proof. apply fin_do_write_loop. Qed.
(** Reading: what an open stream completes, this one completes; where it waits
    with nothing left, the end is reported. *)
Lemma fin_read pr st st' acts : queue_ok st -> remote_closed_ st = false -> local_closed_ st = false ->
  do_read_from_buffer true (set_pending_reads [pr] st) = Some (st', acts) -> (pending_reads_ st' <> [] -> unread st' = []) ->
  exists acts', do_read_from_buffer true (set_pending_reads [pr] (after_fin st)) = Some (after_fin st', acts') /\
    ((pending_reads_ st' = [] /\ acts' = acts) \/ (pending_reads_ st' = [pr] /\ acts = [] /\ acts' = [post_read (pr_handler pr) ec_eof []])).
Proof.
  intros Hq Hr Hl E Hun. unfold do_read_from_buffer in *. cbn [pending_reads_ set_pending_reads read_loop] in *.
  change (read_queue_ (after_fin st)) with (read_queue_ st).
  change (read_queue_offset_ (set_pending_reads [pr] (after_fin st))) with (read_queue_offset_ st).
  cbn [read_queue_ read_queue_offset_ set_pending_reads remote_closed_ after_fin set_closed] in *. rewrite Hr in E.
  assert (Hc : forall s, local_closed_ s = false -> check_cleanup true s = []) by (intros s Hs; unfold check_cleanup; by rewrite Hs).
  destruct (read_queue_ st) as [|b q] eqn:Eq.
  - cbn [mbind option_bind] in E. injection E as <- <-. rewrite !Hc by done. cbn [mbind option_bind].
    eexists. split; [reflexivity|]. right. by rewrite Hc.
  - destruct (pr_read_all pr && (size_sub (total_size (b :: q)) (read_queue_offset_ st) <? pr_size pr)) eqn:Es; cbn [andb negb] in *.
    + cbn [mbind option_bind] in E. injection E as <- <-. exfalso. specialize (Hun ltac:(done)).
      change (unread (set_pending_reads [pr] st) = []) in Hun. change (unread st = []) in Hun.
      destruct Hq as (Hq1 & Hq2 & _). rewrite Eq in *. unfold unread in Hun. rewrite Eq in Hun. cbn [concat] in Hun.
      apply (f_equal (@zlen byte)) in Hun. change (@zlen byte []) with 0 in Hun. rewrite zlen_zdrop, zlen_app in Hun by lia. pose proof (zlen_nonneg (concat q)). lia.
    + destruct (copy_blocks (b :: q) (read_queue_offset_ st) (pr_size pr) []) as [[[q' off'] data]|]; [|done].
      cbn [mbind option_bind] in *. unfold account_consumed in *.
      cbn [consumed_since_last_update_ set_read_queue set_pending_reads set_closed after_fin] in *.
      set (full := (32 * 1024 <=? _) && true) in *. clearbody full. destruct full;
      cbn [read_loop mbind option_bind mret option_ret] in *; injection E as <- <-; (eexists; split; [|left; split; [done|reflexivity]]).
      all: by rewrite !Hc.
Qed.

(** ** Nothing is left behind *)
Section Drained.
Context `{ZstdLaws}.
(** Too short for a frame: ZSTD_CONTENTSIZE_ERROR. *)
Hypothesis empty_no_frame : frame_content_size [] = None.
Variables (compressed : bool) (level : bool -> Z) (limiter : bool -> bool) (id : Z).
Lemma packet_body lvl ch h body : compressed = true -> chunk_ok ch -> packet compressed lvl ch = h ++ body -> zlen h = 4 -> body <> [].
Proof.
  intros Hcomp Hc Hp Hh ->. unfold packet in Hp. rewrite Hcomp in Hp.
  destruct (frame_shape lvl ch Hc) as (n & flag & body & Hf & _ & _ & Hb). rewrite Hf in Hp.
  apply app_inj_1 in Hp as [_ ->]; [|by unfold zlen in Hh; cbn; lia].
  destruct Hb as [[_ Hb]|(_ & Hb & _)]; [|by rewrite empty_no_frame in Hb]. rewrite <- Hb in Hc. by destruct Hc.
Qed.
Lemma serve_served all n bytes : bytes <> [] -> n <= zlen bytes \/ all = false ->
  serve false [mk_read all n] bytes <> ([], [mk_read all n], bytes).
Proof.
  intros Hb Hn. cbn [serve]. destruct bytes; [done|]. cbn [pr_read_all pr_size mk_read].
  destruct Hn as [Hn| ->]; [|done]. rewrite (proj2 (Z.ltb_ge _ _) Hn), andb_false_r. done.
Qed.
Lemma drained x t : tunnel_inv compressed level id t -> phase1 (t_bridge t x) = reading_some ->
  pending_writes_ (endpoint (t_link t) x) = [] -> wire (t_link t) x = [] -> io_ok (negb x) t ->
  pending_reads_ (endpoint (t_link t) (negb x)) <> [] ->
  unread (endpoint (t_link t) (negb x)) = [] /\ t_out t (negb x) = t_in t x.
Proof.
  intros [Hs Hd] Hp1 Hw Hwire [Hio _ _] Hne. destruct (Hd x) as (chunks & handled & Hsend & Hgot & Hrecv).
  destruct Hsend as (Hc & _ & Hgave & Hph). rewrite Hp1 in Hph. destruct Hph as [Hlost Hin]. specialize (Hgave Hlost).
  destruct (reachable_inv _ _ Hs) as [_ Hdir]. destruct (Hdir x) as [_ _ _ _ _ _ _ _ Hbytes _ Hst].
  set (st := endpoint (t_link t) (negb x)) in *. rewrite Hwire in Hbytes. unfold unsent in Hbytes. rewrite Hw, Hgot in Hbytes.
  cbn [map concat wire_data] in Hbytes. rewrite !app_nil_r in Hbytes. unfold outstanding_ok in Hio. fold st in Hio.
  destruct (waits_for _) as [[all n]|] eqn:Ewf; [|by destruct Hio]. destruct Hio as [[Hpr Hib]|[Hpr _]]; [|done].
  rewrite Hib in Hbytes. cbn [concat] in Hbytes. rewrite app_nil_r, Hgave in Hbytes. rewrite Hpr in Hst.
  assert (Hserved : unread st = [] \/ (zlen (unread st) < n /\ all = true)).
  { destruct (unread st) as [|u us] eqn:Eu; [by left|right]. destruct (Z.le_gt_cases n (zlen (u :: us))).
    - destruct (serve_served all n (u :: us)); [done|by left|done].
    - split; [done|]. destruct all; [done|]. destruct (serve_served false n (u :: us)); [done|by right|done]. }
  unfold recv_ok in Hrecv. rewrite Hin. destruct compressed eqn:Hcomp.
  - destruct Hrecv as (dn & rest & -> & Hph). rewrite packets_of_app in Hbytes.
    destruct (phase2 (t_bridge t (negb x))) eqn:Ep; try done; injection Ewf as <- <-.
    + destruct Hph as [-> ->]. apply app_inv_head in Hbytes. rewrite concat_app.
      destruct rest as [|ch rest]; [by rewrite !app_nil_r|]. exfalso. apply Forall_app in Hc as [_ Hc]. apply Forall_cons in Hc as [Hch _].
      destruct (packet_shape true (level x) ch eq_refl Hch) as (h & body & Hp & Hh & _).
      change (ch :: rest) with ([ch] ++ rest) in Hbytes. rewrite packets_of_app, packets_one, Hp in Hbytes.
      assert (Hlen : 4 <= zlen (unread st)) by (rewrite <- Hbytes, !zlen_app; zsize).
      destruct Hserved as [Hz|[Hz _]]; [rewrite Hz in Hlen; by destruct Hlen|lia].
    + exfalso. destruct Hph as (_ & ch & rest' & h & body & -> & Hp & Hh & Hl & -> & _).
      apply Forall_app in Hc as [_ Hc]. apply Forall_cons in Hc as [Hch _].
      change (ch :: rest') with ([ch] ++ rest') in Hbytes. rewrite packets_of_app, packets_one, Hp, <- !app_assoc in Hbytes.
      do 2 apply app_inv_head in Hbytes. assert (Hb : body <> []) by (by eapply (packet_body (level x) ch); [|exact Hch|rewrite Hcomp|]).
      assert (Hlen : len <= zlen (unread st)) by (rewrite <- Hbytes, zlen_app; zsize).
      destruct Hserved as [Hz|[Hz _]]; [|lia]. rewrite Hz in Hbytes. by destruct body.
  - destruct (phase2 (t_bridge t (negb x))) eqn:Ep; try done; injection Ewf as <- <-.
    destruct Hserved as [Hz|[_ Hz]]; [|done]. split; [done|]. rewrite <- Hrecv. rewrite Hz, app_nil_r in Hbytes.
    rewrite <- Hbytes. unfold packets, packet. by rewrite map_id.
Qed.
End Drained.

(** ** The other end, step by step *)
Lemma negb_upd {A} x (v : A) f : upd (negb x) v f x = f x.
Proof. apply upd_other. by rewrite negb_involutive. Qed.
(** The stream of the other end has handled the same event in [t] and in [c]. *)
Lemma follows_after x ev lost t c st acts st' acts' :
  stream_follows x t c -> ok_data acts' = posted_data acts -> gives_back acts' = false ->
  let y := negb x in
  (st' = st /\ failed_reads acts' = [] /\ k_ends c y = [] /\
   exists i, wire (t_link (k_tunnel c)) x = wire (t_link t) x ++ [fin_frame i]) \/
  (st' = after_fin st /\ wire (t_link (k_tunnel c)) x = [] /\ wire (t_link t) x = [] /\
   k_ends c y ++ failed_reads acts' = match pending_reads_ st with [] => [] | _ => [ec_eof] end) ->
  stream_follows x (set_link y (after y ev st acts (t_link t)) (posted_data acts) lost t)
    (k_after y ev st' acts' (t_link (k_tunnel c)) lost c).
Proof.
  intros [F1 F2 F3 F4 F5 F6] Hok Hg y Hst. subst y. split; cbn; rewrite ?upd_same, ?negb_upd; try done.
  - by rewrite F3.
  - by rewrite F4, Hok.
  - by rewrite F5, Hg.
  - destruct Hst as [(-> & -> & E2 & E3)|(-> & E2 & E3 & E4)]; [left|by right]. by rewrite E2.
Qed.
Lemma quiet_posts acts : read_posts acts = [] -> ok_data acts = posted_data acts /\ failed_reads acts = [].
Proof. intros E. unfold ok_data, posted_data, failed_reads. by rewrite E. Qed.
Lemma write_follows x p lost t c c' : stream_follows x t c -> k_app (negb x) (ev_write [p] 0) lost c = Some c' ->
  exists l posts, link_app (negb x) (ev_write [p] 0) (t_link t) = Some (l, posts) /\
    stream_follows x (set_link (negb x) l posts lost t) c'.
Proof.
  intros F E. unfold k_app, link_app in *. cbn [app_event_b step_event] in *. set (st := endpoint (t_link t) (negb x)) in *.
  assert (Hq : read_posts (async_write_bufs true [p] 0 st).2 = [] /\ gives_back (async_write_bufs true [p] 0 st).2 = false /\
    pending_reads_ (async_write_bufs true [p] 0 st).1 = pending_reads_ st).
  { unfold async_write_bufs. destruct (_ <=? _); [done|].
    match goal with |- context [MuxStream.do_write true ?s] => destruct (write_effect s) as (W1 & W2 & _); destruct (do_write_gives s) as (W3 & _) end. done. }
  assert (Hf : async_write_bufs true [p] 0 (after_fin st) = (after_fin (async_write_bufs true [p] 0 st).1, (async_write_bufs true [p] 0 st).2)).
  { unfold async_write_bufs. change (pending_writes_ (after_fin st)) with (pending_writes_ st). destruct (_ <=? _); [done|].
    exact (fin_do_write (set_pending_writes (pending_writes_ st ++ [{| pw_buffers := [p]; pw_handler := 0 |}]) st)). }
  destruct (async_write_bufs true [p] 0 st) as [st' acts] eqn:Ew. cbn [fst snd mbind option_bind] in *. destruct Hq as (H1 & H2 & H3).
  eexists _, _. split; [reflexivity|]. destruct (quiet_posts acts H1) as [Hok Hfail].
  pose proof (sf_link _ _ _ F) as Hlink. cbn zeta in Hlink. fold st in Hlink.
  destruct Hlink as [(E1 & E2 & E3)|(E1 & E2 & E3 & E4)]; rewrite E1, ?Ew, ?Hf in E; injection E as <-; (apply follows_after; [done..|]);
    [by left|right]. by rewrite Hfail, app_nil_r, E4, H3.
Qed.
(** A read asked when none is outstanding; [Hd]: where it waits and no frame is
    left, nothing is unread. *)
Lemma read_follows x all n lost t c c' : stream_follows x t c -> k_app (negb x) (MuxStream.ev_read all n 0) lost c = Some c' ->
  0 <= n -> let st := endpoint (t_link t) (negb x) in
  queue_ok st -> remote_closed_ st = false -> local_closed_ st = false -> pending_reads_ st = [] ->
  exists l posts, link_app (negb x) (MuxStream.ev_read all n 0) (t_link t) = Some (l, posts) /\
    ((wire l x = [] -> pending_reads_ (endpoint l (negb x)) <> [] -> unread (endpoint l (negb x)) = []) ->
     stream_follows x (set_link (negb x) l posts lost t) c').
Proof.
  intros F E Hn st Hq Hr Hl Hp.
  assert (Hstep : forall s, pending_reads_ s = [] ->
    step_event true (MuxStream.ev_read all n 0) s = do_read_from_buffer true (set_pending_reads [mk_read all n] s)).
  { intros s Hs. destruct all; cbn [step_event]; unfold async_read, async_read_some; by rewrite Hs. }
  destruct (read_effect (set_pending_reads [mk_read all n] st) (Some (all, n))) as (st' & acts & Ed & _ & Ha); try done.
  { by intros ? ? [= <- <-]. }
  assert (Hz : reads_sized [mk_read all n]) by (by constructor).
  destruct (open_posts _ _ _ Ed Hq Hz Hr Hl) as (O1 & O2 & O3).
  unfold link_app. cbn [app_event_b]. fold st. rewrite (proj2 (Z.leb_le _ _) Hn), (Hstep st Hp), Ed. cbn [mbind option_bind].
  eexists _, _. split; [reflexivity|]. cbn [wire endpoint after]. rewrite negb_upd, upd_same. intros Hd.
  unfold k_app in E. pose proof (sf_link _ _ _ F) as Hlink. cbn zeta in Hlink. fold st in Hlink.
  destruct Hlink as [(E1 & E2 & E3)|(E1 & E2 & E3 & E4)]; rewrite E1 in E.
  - rewrite (Hstep st Hp), Ed in E. injection E as <-. apply follows_after; [done..|]. by left.
  - destruct (fin_read _ _ _ _ Hq Hr Hl Ed (Hd E3)) as (acts' & Ef & Hacts). rewrite (Hstep (after_fin st)), Ef in E by done.
    injection E as <-. rewrite Hp in E4. destruct Hacts as [[Hp' ->]|(Hp' & -> & ->)].
    + apply follows_after; [done..|]. right. by rewrite E4, O2, Hp'.
    + apply follows_after; [done..|]. right. by rewrite E4, Hp'.
Qed.

Lemma unread_none st : queue_ok st -> unread st = [] -> read_queue_ st = [].
Proof.
  intros (_ & Hq & _) Hu. unfold unread in Hu. destruct (read_queue_ st) as [|b q]; [done|]. exfalso. cbn [concat] in Hu.
  apply (f_equal (@zlen byte)) in Hu. change (@zlen byte []) with 0 in Hu. rewrite zlen_zdrop, zlen_app in Hu by lia.
  pose proof (zlen_nonneg (concat q)). lia.
Qed.
(** The FIN reaches an open stream with nothing unread. *)
Lemma fin_arrives st prs : queue_ok st -> local_closed_ st = false -> pending_reads_ st = prs ->
  prs = [] \/ (exists all n, prs = [mk_read all n]) /\ unread st = [] ->
  handle_close true st = Some (after_fin st, match prs with [] => [] | _ => [post_read 0 ec_eof []] end).
Proof.
  intros Hq Hl Hp Hc. unfold handle_close.
  assert (Hcl : forall s, local_closed_ s = false -> check_cleanup true s = []) by (intros s Hs; unfold check_cleanup; by rewrite Hs).
  destruct Hc as [->|[(all & n & ->) Hu]].
  - rewrite do_read_idle by done. cbn [mbind option_bind]. by rewrite !Hcl.
  - apply unread_none in Hu; [|done]. unfold do_read_from_buffer. cbn [pending_reads_ set_closed]. rewrite Hp.
    cbn [read_loop read_queue_ remote_closed_ set_closed]. rewrite Hu. cbn [mret option_ret mbind option_bind].
    rewrite !Hcl by done. cbn [app mret option_ret mbind option_bind]. by rewrite ?Hcl.
Qed.
Lemma k_perform_one_other x a c c' : k_perform_one x a c = Some c' -> t_bridge (k_tunnel c') = t_bridge (k_tunnel c) /\
  endpoint (t_link (k_tunnel c')) (negb x) = endpoint (t_link (k_tunnel c)) (negb x) /\ t_in (k_tunnel c') = t_in (k_tunnel c) /\
  ((forall p, a <> write_to D2 p) -> t_out (k_tunnel c') = t_out (k_tunnel c)).
Proof.
  intros E. assert (Hl : forall ev lost, k_app x ev lost c = Some c' -> t_bridge (k_tunnel c') = t_bridge (k_tunnel c) /\
    endpoint (t_link (k_tunnel c')) (negb x) = endpoint (t_link (k_tunnel c)) (negb x) /\ t_in (k_tunnel c') = t_in (k_tunnel c) /\
    t_out (k_tunnel c') = t_out (k_tunnel c)).
  { intros ev lost El. unfold k_app in El. destruct (step_event _ _ _) as [[st acts]|]; [|done]. injection El as <-. cbn.
    by rewrite upd_other by (by destruct x). }
  destruct a as [[] n|n|d n|[] p| |]; cbn [k_perform_one] in E; try (injection E as <-; cbn); try done;
    try (by apply Hl in E as (H1 & H2 & H3 & H4)).
  do 3 (split; [done|]). intros Hp. by destruct (Hp p).
Qed.

Section Ending.
Context `{ZstdLaws}.
Hypothesis empty_no_frame : frame_content_size [] = None.
Variables (compressed : bool) (level : bool -> Z) (limiter : bool -> bool) (id : Z).
Lemma request_follows x a t c c' : stream_follows x t c -> star link_step (new_link id) (t_link t) -> a <> close_both ->
  (forall all n, requests_read a = Some (all, n) -> 0 <= n /\ pending_reads_ (endpoint (t_link t) (negb x)) = []) ->
  k_perform_one (negb x) a c = Some c' ->
  exists t', perform_one (negb x) a t = Some t' /\
    ((wire (t_link t') x = [] -> pending_reads_ (endpoint (t_link t') (negb x)) <> [] -> unread (endpoint (t_link t') (negb x)) = []) ->
     stream_follows x t' c').
Proof.
  intros F Hs Ha Hn E. destruct (open_end id (negb x) t Hs) as (Hq & Hr & Hl).
  assert (Hid : exists t', Some t = Some t' /\ (Some c = Some c' -> stream_follows x t' c')) by (exists t; split; [done|]; by intros [= <-]).
  assert (Href : refused (negb x) (t_link (k_tunnel c)) = refused (negb x) (t_link t)).
  { unfold refused. by destruct (sf_link _ _ _ F) as [(-> & _)|(-> & _)]. }
  assert (Hread : forall all n, requests_read a = Some (all, n) -> k_app (negb x) (MuxStream.ev_read all n 0) false c = Some c' ->
    exists t', ('(l, posts) ← link_app (negb x) (MuxStream.ev_read all n 0) (t_link t); Some (set_link (negb x) l posts false t)) = Some t' /\
    ((wire (t_link t') x = [] -> pending_reads_ (endpoint (t_link t') (negb x)) <> [] -> unread (endpoint (t_link t') (negb x)) = []) ->
     stream_follows x t' c')).
  { intros all n Har Er. destruct (Hn all n Har) as [Hn0 Hp].
    destruct (read_follows x all n false t c c' F Er Hn0 Hq Hr Hl Hp) as (l & posts & -> & Hf). by eexists. }
  destruct a as [[] n|n|d n|[] p| |]; cbn [k_perform_one perform_one] in *; try done;
    try (destruct Hid as (t' & E1 & E2); exists t'; split; [done|]; intros _; by apply E2); try by apply Hread.
  - destruct (write_follows x p _ t c c' F E) as (l & posts & -> & Hf). eexists. split; [reflexivity|]. intros _. by rewrite <- Href.
  - eexists. split; [done|]. intros _. injection E as <-. destruct F as [F1 F2 F3 F4 F5 F6]. split; try done. cbn. by rewrite !upd_same, F1.
Qed.

(** End [x] has ended and the other goes on. *)
Record draining (x : bool) (t : Tunnel) (c : Closing) : Prop := {
  dr_inv : tunnel_inv compressed level id t;
  dr_going : going t;
  dr_phase : phase1 (t_bridge t x) = reading_some;
  dr_open : stopped_ (t_bridge t x) = false;
  dr_bridge : t_bridge (k_tunnel c) (negb x) = t_bridge t (negb x);
  dr_alive : stopped_ (t_bridge t (negb x)) = false;
  dr_follows : stream_follows x t c;
  dr_rest : at_rest x c
}.
(** Both have ended. *)
Record both_ended (x : bool) (c : Closing) : Prop := {
  be_stopped : forall y, stopped_ (t_bridge (k_tunnel c) y) = true;
  be_phase : phase1 (t_bridge (k_tunnel c) x) = halted;
  be_out : t_out (k_tunnel c) (negb x) `prefix_of` t_in (k_tunnel c) x
}.
Lemma out_prefix x t : tunnel_inv compressed level id t -> t_out t (negb x) `prefix_of` t_in t x.
Proof.
  intros [Hs Hd]. destruct (Hd x) as (chunks & handled & Hsend & Hgot & Hrecv).
  pose proof (handled_prefix _ _ _ _ _ _ _ _ Hs Hsend Hgot [] _ eq_refl) as Hh. rewrite app_nil_r in Hh.
  etrans; [|by eapply send_prefix]. apply (recv_prefix compressed level limiter _ _ _ _ _ Hrecv); [by destruct Hsend|exact Hh].
Qed.
Lemma draining_empty x t : tunnel_inv compressed level id t -> going t -> phase1 (t_bridge t x) = reading_some ->
  stopped_ (t_bridge t x) = false -> stopped_ (t_bridge t (negb x)) = false -> wire (t_link t) x = [] ->
  pending_reads_ (endpoint (t_link t) (negb x)) <> [] ->
  unread (endpoint (t_link t) (negb x)) = [] /\ t_out t (negb x) = t_in t x.
Proof.
  intros Hi Hg Hp Hox Hoy Hw. eapply drained; eauto. apply (io_write x t); [by apply Hg|]. by rewrite Hp.
Qed.
Lemma mirrored x tev t t' c' : tunnel_inv compressed level id t -> going t -> phase1 (t_bridge t x) = reading_some ->
  stopped_ (t_bridge t x) = false -> tunnel_step compressed level limiter tev t = Some t' ->
  t_bridge t' x = t_bridge t x -> stopped_ (t_bridge t' (negb x)) = false ->
  t_bridge (k_tunnel c') (negb x) = t_bridge t' (negb x) -> at_rest x c' ->
  ((wire (t_link t') x = [] -> pending_reads_ (endpoint (t_link t') (negb x)) <> [] -> unread (endpoint (t_link t') (negb x)) = []) ->
   stream_follows x t' c') -> draining x t' c'.
Proof.
  intros Hi Hg Hp Ho Es Eb Hal Hb Hrest Hf.
  assert (Hi' : tunnel_inv compressed level id t') by (by eapply tunnel_step_inv).
  assert (Hg' : going t') by (eapply tunnel_step_going; [exact Hg|apply Hi|exact Es]).
  split; rewrite ?Eb; try done. apply Hf. intros Hw Hne. eapply draining_empty; rewrite ?Eb; eauto.
Qed.
Lemma both_end x c c0 c' b : at_rest x c -> t_bridge (k_tunnel c0) x = t_bridge (k_tunnel c) x ->
  t_out (k_tunnel c0) (negb x) `prefix_of` t_in (k_tunnel c0) x -> stopped_ b = true ->
  k_perform (negb x) [close_both; call_on_stop] (with_tunnel (set_bridge (negb x) b (k_tunnel c0)) c0) = Some c' -> both_ended x c'.
Proof.
  intros [R1 R2 _] Eb Hpre Hb E. cbn [k_perform mbind option_bind] in E.
  destruct (k_perform_one _ close_both _) as [c1|] eqn:E1; [|done]. injection E as <-.
  destruct (k_perform_one_other _ _ _ _ E1) as (P1 & _ & P3 & P4). specialize (P4 ltac:(done)).
  cbn in P1, P3, P4. split; rewrite ?P1, ?P3, ?P4, ?negb_upd, ?Eb; try done.
  intros y. destruct (Bool.bool_dec y x) as [->|Hyx]; [by rewrite negb_upd, Eb|].
  assert (y = negb x) as -> by (by destruct x, y). by rewrite upd_same.
Qed.
(** One request of the other end. *)
Lemma request_drains x tev a b t t0 c c0 c1 : draining x t c -> stream_follows x t0 c0 ->
  t_bridge t0 = t_bridge t -> t_link t0 = t_link t -> t_bridge (k_tunnel c0) = t_bridge (k_tunnel c) ->
  endpoint (t_link (k_tunnel c0)) x = endpoint (t_link (k_tunnel c)) x -> a <> close_both -> stopped_ b = false ->
  (forall all n, requests_read a = Some (all, n) -> 0 <= n /\ pending_reads_ (endpoint (t_link t) (negb x)) = []) ->
  tunnel_step compressed level limiter tev t = perform_one (negb x) a (set_bridge (negb x) b t0) ->
  k_perform_one (negb x) a (with_tunnel (set_bridge (negb x) b (k_tunnel c0)) c0) = Some c1 ->
  exists t', tunnel_step compressed level limiter tev t = Some t' /\ draining x t' c1.
Proof.
  intros [Hi Hg Hp Ho Hb Hal _ Hrest] F E1 E2 E3 E4 Hnc Hst Hread Et Ea.
  assert (F0 : stream_follows x (set_bridge (negb x) b t0) (with_tunnel (set_bridge (negb x) b (k_tunnel c0)) c0))
    by (destruct F as [F1 F2 F3 F4 F5 F6]; by split).
  destruct (request_follows x a _ _ c1 F0) as (t' & Ep & Hf); [cbn; rewrite E2; apply Hi|done|cbn; by rewrite E2|exact Ea|].
  exists t'. rewrite Ep in Et. split; [done|].
  destruct (perform_one_other _ _ _ _ Ep) as (P1 & _). cbn in P1. destruct (k_perform_one_other _ _ _ _ Ea) as (Q1 & Q2 & _). cbn in Q1, Q2.
  rewrite Bool.negb_involutive in Q2.
  eapply (mirrored x tev t); try done; rewrite ?P1, ?Q1, ?upd_same, ?negb_upd; try done; [by rewrite E1|].
  destruct Hrest as [R1 R2 R3]. split; rewrite ?Q1, ?Q2, ?negb_upd, ?E3, ?E4; done.
Qed.
(** While a completed read is handled none is outstanding. *)
Lemma idle_read y t : going t -> stopped_ (t_bridge t y) = false ->
  waits_for (phase2 (t_bridge t y)) = None \/ t_inbox t y <> [] -> pending_reads_ (endpoint (t_link t) y) = [].
Proof.
  intros Hg Hs Hd. destruct (Hg y Hs) as [I1 _ _]. unfold outstanding_ok in I1. destruct Hd as [Hw|Hne]; [rewrite Hw in I1; apply I1|].
  destruct (waits_for _) as [[? ?]|]; [|apply I1]. by destruct I1 as [[_ I1]|[I1 _]].
Qed.
(** A bridge event at the other end: [t0] and [c0] are [t] and [c] with what the
    event took from the inbox or recorded. *)
Lemma event_follows x ev tev t t0 c c0 c' : draining x t c -> stream_follows x t0 c0 ->
  t_bridge t0 = t_bridge t -> t_link t0 = t_link t -> t_bridge (k_tunnel c0) = t_bridge (k_tunnel c) ->
  endpoint (t_link (k_tunnel c0)) x = endpoint (t_link (k_tunnel c)) x ->
  tunnel_step compressed level limiter tev t = bridge_event_at compressed level limiter (negb x) ev t0 ->
  t_out t0 = t_out t -> t_in t0 x = t_in t x ->
  (event_dir ev = D2 -> waits_for (phase2 (t_bridge t (negb x))) = None \/ t_inbox t (negb x) <> []) ->
  k_at compressed level limiter (negb x) ev c0 = Some c' ->
  (exists t', tunnel_step compressed level limiter tev t = Some t' /\ draining x t' c') \/ both_ended x c'.
Proof.
  intros D F E1 E2 E3 E4 Et E5 E6 Hd E. pose proof D as [Hi Hg Hp Ho Hb Hal _ Hrest]. unfold k_at in E. unfold bridge_event_at in Et.
  rewrite E3, Hb, Hal in E. rewrite E1, Hal in Et. cbn [andb] in E.
  destruct (bridge_step _ _ _ ev _) as [[b acts]|] eqn:Eb; [|done]. cbn [mbind option_bind] in E, Et.
  destruct (bridge_step_requests _ _ _ _ _ _ _ Eb Hal) as [[-> Hst]|(a & -> & Hreq)].
  - right. eapply (both_end x c c0); [done|by rewrite E3| |done|exact E].
    rewrite (sf_out _ _ _ F), (sf_in _ _ _ F), E5, E6. by apply out_prefix.
  - left. cbn [k_perform mbind option_bind] in E. destruct (k_perform_one _ a _) as [c1|] eqn:Ea; [|done]. injection E as <-.
    pose proof (or_going _ _ _ _ Hreq) as [Hst Hnc]. rewrite Hal in Hst.
    assert (Hread : forall all n, requests_read a = Some (all, n) -> 0 <= n /\ pending_reads_ (endpoint (t_link t) (negb x)) = []).
    { intros all n Har.
      pose proof (or_read _ _ _ _ Hreq) as Hr. destruct (event_dir ev); [by destruct Hr as [Hr _]; rewrite Hr in Har|].
      split; [by eapply Hr|]. apply idle_read; auto. }
    eapply (request_drains x tev a b t t0 c c0); try done. cbn [perform mbind option_bind] in Et.
    rewrite Et. by destruct (perform_one _ a _).
Qed.
(** The next frame reaches the other end. *)
Lemma fin_ready x t c : draining x t c -> wire (t_link t) x = [] -> let st := endpoint (t_link t) (negb x) in
  pending_reads_ st = [] \/ (exists all n, pending_reads_ st = [mk_read all n]) /\ unread st = [].
Proof.
  intros [Hi Hg Hp Ho Hb Hal F Hrest] Ew. cbn zeta. destruct (pending_reads_ _) as [|pr prs] eqn:Epr; [by left|right]. split.
  - destruct (Hg (negb x) Hal) as [I1 _ _]. unfold outstanding_ok in I1. rewrite Epr in I1.
    destruct (waits_for _) as [[all n]|]; [|by destruct I1]. destruct I1 as [[-> _]|[I1 _]]; [by exists all, n|done].
  - apply (draining_empty x t); eauto. by rewrite Epr.
Qed.
Lemma deliver_follows x t c c' : draining x t c -> k_deliver (negb x) c = Some c' ->
  exists t', (t' = t \/ tunnel_step compressed level limiter (t_deliver (negb x)) t = Some t') /\ draining x t' c'.
Proof.
  intros D E. pose proof D as [Hi Hg Hp Ho Hb Hal F Hrest]. unfold k_deliver in E. rewrite (sf_known _ _ _ F), negb_involutive in E.
  pose proof (sf_link _ _ _ F) as Hl. cbn zeta in Hl. destruct (open_end id (negb x) t) as (Hq & Hrc & Hlc); [apply Hi|].
  destruct Hl as [(E1 & E2 & i & E3)|(E1 & E2 & E3 & E4)]; [|by rewrite E2 in E].
  rewrite E3, E1 in E. destruct (wire (t_link t) x) as [|f rest] eqn:Ew; cbn [app] in E.
  - change (frame_events (fin_frame i)) with [ev_remote_close] in E. cbn [step_event] in E.
    pose proof (fin_ready x t c D Ew) as Hread.
    rewrite (fin_arrives _ _ Hq Hlc eq_refl Hread) in E. injection E as <-. exists t. split; [by left|].
    set (acts := match pending_reads_ _ with [] => [] | _ => _ end).
    assert (Ha : ok_data acts = [] /\ gives_back acts = false /\
      failed_reads acts = match pending_reads_ (endpoint (t_link t) (negb x)) with [] => [] | _ => [ec_eof] end)
      by (subst acts; by destruct (pending_reads_ _)).
    destruct Ha as (A1 & A2 & A3). split; try done.
    + destruct F as [F1 F2 F3 F4 F5 F6]. split; cbn; rewrite ?upd_same, ?negb_upd, ?upd_same; try done;
        [by rewrite F3, orb_false_r|by rewrite F4, A1, app_nil_r|by rewrite F5, A2|].
      right. split; [done|]. split; [done|]. split; [done|]. by rewrite E2, A3.
    + destruct Hrest as [R1 R2 R3]. split; try done. cbn. by rewrite negb_upd.
  - destruct (frame_events f) as [|ev [|]] eqn:Ef; try done.
    destruct (step_event true ev _) as [[st acts]|] eqn:Es; [|done]. injection E as <-.
    assert (Hacts : ok_data acts = posted_data acts /\ failed_reads acts = [] /\ gives_back acts = false).
    { destruct (next_frame (negb x) (t_link t) f rest ev) as [[n ->]|(d & -> & Hok & Hsz & _)];
        [apply (reachable_inv id), Hi|by rewrite negb_involutive|done|..]; cbn [step_event] in Es.
      - unfold handle_window_update in Es. match type of Es with Some (MuxStream.do_write true ?s) = _ =>
          destruct (write_effect s) as (_ & W & _); destruct (do_write_gives s) as (G & _); destruct (MuxStream.do_write true s) end.
        injection Es as -> ->. by destruct (quiet_posts _ W).
      - unfold handle_data in Es. by apply (open_posts _ _ _ Es). }
    assert (Et : tunnel_step compressed level limiter (t_deliver (negb x)) t = Some (set_link (negb x)
      (after (negb x) ev st acts (take_frame x rest (t_link t))) (posted_data acts) false t)).
    { cbn [tunnel_step]. unfold link_deliver. rewrite negb_involutive, Ew, Ef, Es. done. }
    eexists. split; [by right|]. eapply mirrored; [done..|exact Et|done|done|done| |].
    + destruct Hrest as [R1 R2 R3]. split; try done. cbn. by rewrite negb_upd.
    + intros _. destruct F as [F1 F2 F3 F4 F5 F6]. destruct Hacts as (O1 & O2 & O3).
      split; cbn; rewrite ?upd_same, ?negb_upd, ?upd_same; try done; [by rewrite F3|by rewrite F4, O1|by rewrite F5, O3|].
      left. split; [done|]. rewrite E2, O2. split; [done|]. by exists i.
Qed.
(** The end that has closed does nothing more, whatever reaches it. *)
Lemma at_rest_event x ev c : at_rest x c -> k_at compressed level limiter x ev c = None.
Proof.
  intros [R1 R2 _]. unfold k_at. rewrite R1. destruct ev as [d ec data|[]|d ec]; try done. cbn [andb bridge_step phase_of]. by rewrite R2.
Qed.
Lemma frame_events_kind f ev : frame_events f = [ev] -> match ev with ev_data _ | ev_window _ | ev_remote_close => True | _ => False end.
Proof.
  unfold frame_events. intros Ef. repeat case_match; simplify_eq/=; try done;
    repeat match goal with H : _ ++ _ = [_] |- _ => apply app_eq_unit in H end; naive_solver.
Qed.
Lemma rest_deliver x t c c' : draining x t c -> k_deliver x c = Some c' -> draining x t c'.
Proof.
  intros [Hi Hg Hp Ho Hb Hal F Hrest] E. unfold k_deliver in E. destruct (wire _ (negb x)) as [|f rest] eqn:Ew; [done|].
  destruct F as [F1 F2 F3 F4 F5 F6], Hrest as [R1 R2 (R3 & R4 & R5)].
  assert (Hnx : forall {A} (v : A) f, upd x v f (negb x) = f (negb x)) by (intros A v g; apply upd_other; by destruct x).
  destruct (k_given_back c x).
  - injection E as <-. split; try done; split; cbn; rewrite ?Hnx, ?upd_same, ?negb_upd; done.
  - destruct (frame_events f) as [|ev [|]] eqn:Ef; try done. destruct (step_event true ev _) as [[st acts]|] eqn:Es; [|done]. injection E as <-.
    destruct (closed_idle _ _ _ _ Es R4 R5 (frame_events_kind _ _ Ef)) as (C1 & C2 & C3 & C4 & C5).
    split; try done; split; cbn; rewrite ?Hnx, ?upd_same, ?negb_upd, ?C4, ?app_nil_r; try done. by rewrite C1.
Qed.
Lemma start_drains x t c c' b acts : draining x t c -> phase1 (t_bridge t (negb x)) = not_started ->
  phase2 (t_bridge t (negb x)) = not_started -> Start compressed (t_bridge t (negb x)) = (b, acts) ->
  k_perform (negb x) acts (with_tunnel (set_bridge (negb x) b (k_tunnel c)) c) = Some c' ->
  exists t', tunnel_step compressed level limiter (t_start (negb x)) t = Some t' /\ draining x t' c'.
Proof.
  intros D H1 H2 Eb E. pose proof D as [Hi Hg Hp Ho Hb Hal F Hrest].
  destruct (start_requests _ _ _ _ Eb) as (a & -> & Hst & [Hr1 Hr2 _]). cbn [event_dir k_perform k_perform_one mbind option_bind] in *.
  destruct (k_perform_one _ a _) as [c1|] eqn:Ea; [|done]. injection E as <-.
  eapply (request_drains x (t_start (negb x)) a b t t c c); try done; [apply Hr1|by rewrite Hst| |].
  - intros all n Har. split; [by eapply Hr2|]. destruct (Hg (negb x) Hal) as [I1 _ _]. unfold outstanding_ok in I1.
    rewrite H2 in I1. apply I1.
  - cbn [tunnel_step]. rewrite H1, H2, Eb. cbn [perform perform_one mbind option_bind]. by destruct (perform_one _ a _).
Qed.
(** The other end is told of the end: it closes as well. *)
Lemma told_of_end x t c c' ec ends : draining x t c -> ec ∈ k_ends c (negb x) ->
  k_at compressed level limiter (negb x) (ev_read D2 ec []) {| k_tunnel := k_tunnel c; k_ends := ends; k_given_back := k_given_back c |} = Some c' ->
  both_ended x c'.
Proof.
  intros [Hi Hg Hp Ho Hb Hal [F1 F2 F3 F4 F5 F6] Hrest] Hin E.
  assert (ec = ec_eof) as ->.
  { cbn zeta in F6. destruct F6 as [(_ & F6 & _)|(_ & _ & _ & F6)]; rewrite F6 in Hin; [by apply elem_of_nil in Hin|].
    destruct (pending_reads_ _); [by apply elem_of_nil in Hin|by apply list_elem_of_singleton in Hin]. }
  unfold k_at in E. cbn [k_tunnel] in E. rewrite Hb, Hal in E. cbn [andb] in E.
  destruct (bridge_step _ _ _ _ _) as [[b acts]|] eqn:Eb; [|done]. cbn [mbind option_bind] in E.
  assert (Hf : Some (fail D2 (t_bridge t (negb x))) = Some (b, acts)).
  { cbn [bridge_step phase_of] in Eb. destruct (negb (read_fits _ _ _)); [done|]. unfold on_chunk, on_header, on_body in Eb.
    destruct (phase2 (t_bridge t (negb x))); try done; by rewrite decide_False in Eb. }
  apply fail_stops in Hf as [Hacts Hst]; [|done]. cbn [fst snd] in *. subst acts.
  eapply (both_end x c {| k_tunnel := k_tunnel c; k_ends := ends; k_given_back := k_given_back c |});
    try done. cbn. rewrite F1, F2. by apply out_prefix.
Qed.
Lemma draining_step x ev t c c' : draining x t c -> closing_step compressed level limiter ev c = Some c' ->
  (exists t', draining x t' c') \/ both_ended x c'.
Proof.
  intros D E. pose proof D as [Hi Hg Hp Ho Hb Hal F Hrest]. pose proof F as [F1 F2 F3 F4 F5 F6].
  assert (Hrefuse : forall ev c0, at_rest x c0 -> k_at compressed level limiter x ev c0 = Some c' -> False)
    by (intros ev0 c0 R Ek; by rewrite at_rest_event in Ek).
  assert (Hweak : forall tev, (exists t', tunnel_step compressed level limiter tev t = Some t' /\ draining x t' c') \/ both_ended x c' ->
    (exists t', draining x t' c') \/ both_ended x c') by (intros tev [(t' & _ & D')|B]; [left; by exists t'|by right]).
  assert (Hside : forall y, y = x \/ y = negb x) by (intros y; destruct x, y; auto).
  assert (Hnx : forall {A} (v : A) f, upd x v f (negb x) = f (negb x)) by (intros A v g; apply upd_other; by destruct x).
  destruct ev as [y|y ec data|y d|y d ec|y|y ec|y]; cbn [closing_step] in E; try done; destruct (Hside y) as [-> | ->].
  - by rewrite (ar_phase _ _ Hrest) in E.
  - rewrite Hb in E. destruct (phase1 (t_bridge t (negb x))) eqn:H1; try done. destruct (phase2 (t_bridge t (negb x))) eqn:H2; try done.
    destruct (Start _ _) as [b acts] eqn:Es. apply (Hweak (t_start (negb x))). left. by eapply (start_drains x t c c' b acts).
  - exfalso. destruct (decide (ec = ec_ok)); [destruct (0 <? zlen data); [|done]|]; (eapply Hrefuse; [|exact E]); [|done].
    destruct Hrest as [R1 R2 R3]. by split.
  - destruct (decide (ec = ec_ok)) as [->|Hec]; [destruct (0 <? zlen data) eqn:Ez; [|done]|].
    + eapply (Hweak (t_plain (negb x) ec_ok data)), (event_follows x _ (t_plain (negb x) ec_ok data) t (took_in (negb x) data t) c _ c' D); try exact E; try done.
      * split; cbn; rewrite ?negb_upd; done.
      * cbn. by rewrite Ez.
      * cbn. by rewrite negb_upd.
    + eapply (Hweak (t_plain (negb x) ec data)), (event_follows x _ (t_plain (negb x) ec data) t t c _ c' D); try exact E; try done. cbn. by rewrite decide_False.
  - exfalso. by eapply Hrefuse.
  - eapply (Hweak (t_tokens (negb x) d)), (event_follows x _ (t_tokens (negb x) d) t t c _ c' D); try exact E; try done.
    intros Hd. cbn in Hd. subst d. left. unfold k_at in E. rewrite Hb, Hal in E. cbn [andb bridge_step phase_of] in E.
    by destruct (phase2 (t_bridge t (negb x))).
  - exfalso. destruct d; [destruct (_ && _); [done|]|]; by eapply Hrefuse.
  - assert (Hsent : all_sent (negb x) (k_tunnel c) = all_sent (negb x) t).
    { unfold all_sent. cbn zeta in F6. by destruct F6 as [(-> & _)|(-> & _)]. }
    destruct d.
    + rewrite F3, Hsent in E. destruct (bool_decide (ec = ec_ok) && _) eqn:El; [done|].
      eapply (Hweak (t_written (negb x) D1 ec)), (event_follows x _ (t_written (negb x) D1 ec) t t c _ c' D); try exact E; try done. cbn. by rewrite El.
    + eapply (Hweak (t_written (negb x) D2 ec)), (event_follows x _ (t_written (negb x) D2 ec) t t c _ c' D); try exact E; try done.
      intros _. left. unfold k_at in E. rewrite Hb, Hal in E. cbn [andb bridge_step phase_of] in E.
      by destruct (phase2 (t_bridge t (negb x))).
  - exfalso. destruct (t_inbox _ x), (k_ends c x); try done; (eapply Hrefuse; [|exact E]);
      destruct Hrest as [R1 R2 R3]; by split.
  - rewrite F4 in E. destruct (t_inbox t (negb x)) as [|data rest] eqn:Ei.
    + destruct (k_ends c (negb x)) as [|ec rest] eqn:Ee; [done|]. right.
      eapply told_of_end; [exact D| |exact E]. by rewrite Ee; left.
    + eapply (Hweak (t_stream (negb x))), (event_follows x _ (t_stream (negb x)) t (set_inbox (negb x) rest t) c _ c' D); try exact E; try done.
      * split; cbn; rewrite ?upd_same; done.
      * cbn. by rewrite Ei.
      * intros _. right. by rewrite Ei.
  - left. exists t. by eapply rest_deliver.
  - left. destruct (deliver_follows _ _ _ _ D E) as (t' & _ & D'). by exists t'.
Qed.
(** Once both have ended nothing is written out. *)
Lemma ended_keeps x c c' : both_ended x c -> (forall y, stopped_ (t_bridge (k_tunnel c') y) = stopped_ (t_bridge (k_tunnel c) y)) ->
  phase1 (t_bridge (k_tunnel c') x) = phase1 (t_bridge (k_tunnel c) x) -> t_out (k_tunnel c') = t_out (k_tunnel c) ->
  t_in (k_tunnel c') = t_in (k_tunnel c) -> both_ended x c'.
Proof. intros [B1 B2 B3] E1 E2 E3 E4. split; [intros y; by rewrite E1|by rewrite E2|by rewrite E3, E4]. Qed.
Lemma ended_perform x y b a c c' : both_ended x c -> stopped_ b = stopped_ (t_bridge (k_tunnel c) y) -> y <> x ->
  (forall p, a <> write_to D2 p) -> k_perform_one y a (with_tunnel (set_bridge y b (k_tunnel c)) c) = Some c' -> both_ended x c'.
Proof.
  intros B Hst Hy Ha E. destruct (k_perform_one_other _ _ _ _ E) as (P1 & _ & P3 & P4). specialize (P4 Ha). cbn in P1, P3, P4.
  apply (ended_keeps x c); rewrite ?P1; try done; [|rewrite upd_other by (by destruct x, y); done].
  intros z. destruct (Bool.bool_dec z y) as [->|Hz]; [by rewrite upd_same|]. rewrite upd_other by (by destruct y, z). done.
Qed.
Lemma ended_event x y ev c c' : both_ended x c -> k_at compressed level limiter y ev c = Some c' -> both_ended x c'.
Proof.
  intros B E. pose proof B as [B1 B2 _]. unfold k_at in E. rewrite B1 in E. destruct ev as [d ec data|[]|d ec]; try done.
  cbn [andb bridge_step phase_of] in E. destruct (Bool.bool_dec y x) as [->|Hy]; [by rewrite B2 in E|].
  destruct (phase1 (t_bridge (k_tunnel c) y)); try done. cbn [mbind option_bind write_op k_perform] in E.
  destruct (k_perform_one y _ _) as [c1|] eqn:E1; [|done]. injection E as <-. by eapply ended_perform in E1.
Qed.
Lemma ended_start x y c c' b acts : both_ended x c -> Start compressed (t_bridge (k_tunnel c) y) = (b, acts) -> y <> x ->
  k_perform y acts (with_tunnel (set_bridge y b (k_tunnel c)) c) = Some c' -> both_ended x c'.
Proof.
  intros B Es Hy E. destruct (start_requests _ _ _ _ Es) as (a & -> & Hst & Hr). cbn [k_perform k_perform_one mbind option_bind] in E.
  destruct (k_perform_one y a _) as [c1|] eqn:E1; [|done]. injection E as <-. eapply ended_perform in E1; try done.
  intros p ->. unfold Start, DoRead in Es. by destruct compressed.
Qed.
Lemma ended_step x ev c c' : both_ended x c -> closing_step compressed level limiter ev c = Some c' -> both_ended x c'.
Proof.
  intros B E. pose proof B as [B1 B2 B3].
  destruct ev as [y|y ec data|y d|y d ec|y|y ec|y]; cbn [closing_step] in E; try done.
  - destruct (phase1 (t_bridge (k_tunnel c) y)) eqn:H1; try done. destruct (phase2 (t_bridge (k_tunnel c) y)); try done.
    destruct (Start _ _) as [b acts] eqn:Es. eapply ended_start; [done|exact Es| |exact E]. intros ->. by rewrite B2 in H1.
  - destruct (decide (ec = ec_ok)); [destruct (0 <? zlen data); [|done]|]; [|by eapply ended_event].
    unfold k_at in E. cbn [k_tunnel with_tunnel t_bridge took_in] in E. by rewrite B1 in E.
  - by eapply ended_event.
  - destruct d; [destruct (_ && _); [done|]|]; by eapply ended_event.
  - destruct (t_inbox _ y), (k_ends c y); try done; unfold k_at in E; cbn in E; by rewrite B1 in E.
  - unfold k_deliver in E. destruct (wire _ _) as [|f rest]; [done|]. destruct (k_given_back c y); [by injection E as <-|].
    destruct (frame_events f) as [|ev [|]]; try done. destruct (step_event _ _ _) as [[st acts]|]; [|done]. by injection E as <-.
Qed.
(** The end of a connection is learned. *)
Lemma draining_starts x ec t c : tunnel_inv compressed level id t -> going t -> (forall y, stopped_ (t_bridge t y) = false) ->
  ec <> ec_ok -> closing_step compressed level limiter (t_plain x ec []) (still_open t) = Some c -> draining x t c.
Proof.
  intros Hi Hg Hst Hec E. cbn [closing_step] in E. rewrite decide_False in E by done. unfold k_at in E. cbn [k_tunnel still_open] in E.
  rewrite Hst in E. cbn [andb] in E. destruct (bridge_step _ _ _ _ _) as [[b acts]|] eqn:Eb; [|done]. cbn [mbind option_bind] in E.
  destruct (end_fails _ _ _ _ _ _ _ Eb Hec) as [Hp Hf]. pose proof Hf as [= Hf']. apply fail_stops in Hf as [Hacts Hsb]; [|done]. cbn [fst snd] in Hacts, Hsb. subst acts.
  assert (Hph : phase1 b = halted) by (destruct (fail_effects D1 (t_bridge t x)) as (F1 & _); by rewrite Hf' in F1).
  cbn [k_perform k_perform_one mbind option_bind] in E. unfold k_app in E. cbn [with_tunnel k_tunnel t_link set_bridge step_event] in E.
  destruct (open_end id x t) as (Hq & Hrc & Hlc); [apply Hi|]. unfold MuxStream.close in E. rewrite Hlc in E.
  cbn [mbind option_bind mret option_ret] in E.
  match type of E with context [k_after x ev_close ?s ?a _ _ _] => set (acts := a) in E; set (st := s) in * end.
  assert (Hem : emitted acts = [fin_frame (id_ (endpoint (t_link t) x))]).
  { subst acts. rewrite !emitted_app. unfold check_cleanup. cbn [remote_closed_ set_closed local_closed_ st]. subst st.
    cbn [remote_closed_ set_closed set_read_queue set_pending_writes set_pending_reads]. rewrite Hrc. cbn [andb].
    assert (Hnone : forall A (f : A -> action) l, (forall v, emitted [f v] = []) -> emitted (map f l) = []).
    { intros A f l Hf. induction l as [|v l IH]; [done|]. change (map f (v :: l)) with ([f v] ++ map f l). by rewrite emitted_app, Hf. }
    by rewrite !Hnone. }
  assert (Hnx : forall {A} (v : A) f, upd x v f (negb x) = f (negb x)) by (intros A v g; apply upd_other; by destruct x).
  assert (Hidle : local_closed_ st = true /\ pending_reads_ st = [] /\ pending_writes_ st = []) by done. clearbody acts st. injection E as <-.
  split; try done; cbn; rewrite ?Hnx, ?upd_same; try done.
  - split; cbn; rewrite ?Hnx; try done. left.
  rewrite upd_same, Hem. split; [done|]. split; [done|]. by eexists.
  - split; cbn; rewrite ?upd_same; done.
Qed.
Lemma draining_run x evs t c c' : draining x t c \/ both_ended x c -> closing_run compressed level limiter evs c = Some c' ->
  (exists t', draining x t' c') \/ both_ended x c'.
Proof.
  revert t c. induction evs as [|ev evs IH]; intros t c Hd E; cbn [closing_run] in E.
  { injection E as <-. destruct Hd; [left; by exists t|by right]. }
  destruct (closing_step _ _ _ ev c) as [c1|] eqn:E1; [|done]. cbn [mbind option_bind] in E.
  destruct Hd as [Hd|Hd]; [|by eapply (IH t); [right; eapply ended_step|]].
  destruct (draining_step _ _ _ _ _ Hd E1) as [[t1 Hd1]|Hd1]; [by eapply (IH t1); [left|]|by eapply (IH t); [right|]].
Qed.
Lemma draining_whole x t c : draining x t c -> k_ends c (negb x) <> [] -> t_out (k_tunnel c) (negb x) = t_in (k_tunnel c) x.
Proof.
  intros [Hi Hg Hp Ho Hb Hal [F1 F2 F3 F4 F5 F6] Hrest] He. cbn zeta in F6. destruct F6 as [(_ & E & _)|(_ & _ & Hw & E)]; [done|].
  rewrite F1, F2. apply (draining_empty x t); try done. intros Hpr. by rewrite Hpr in E.
Qed.
End Ending.

(** ** An end that has stopped *)
Section Stopped.
Context `{Zstd}.
Variables (compressed : bool) (level : bool -> Z) (limiter : bool -> bool).
Definition silent_at (x : bool) (c c' : Closing) : Prop := stopped_ (t_bridge (k_tunnel c') x) = true /\
  t_in (k_tunnel c') x = t_in (k_tunnel c) x /\ t_out (k_tunnel c') x = t_out (k_tunnel c) x.
Lemma k_perform_silent x y acts c c' : k_perform y acts c = Some c' -> y <> x \/ (forall p, write_to D2 p ∉ acts) ->
  t_bridge (k_tunnel c') = t_bridge (k_tunnel c) /\ t_in (k_tunnel c') = t_in (k_tunnel c) /\
  t_out (k_tunnel c') x = t_out (k_tunnel c) x.
Proof.
  revert c. induction acts as [|a acts IH]; intros c E Hy; cbn [k_perform] in E; [by injection E as <-|].
  destruct (k_perform_one y a c) as [c1|] eqn:E1; [|done]. cbn [mbind option_bind] in E.
  destruct (IH c1 E) as (I1 & I2 & I3). { destruct Hy as [Hy|Hy]; [by left|right; intros p Hin; by destruct (Hy p); right]. }
  destruct (k_perform_one_other _ _ _ _ E1) as (P1 & _ & P3 & P4). rewrite I1, I2, I3. split; [done|]. split; [done|].
  destruct a as [| | |[] p| |]; try (by rewrite P4). cbn in E1. injection E1 as <-. cbn.
  destruct Hy as [Hy|Hy]; [by rewrite upd_other by (by destruct x, y)|by destruct (Hy p); left].
Qed.
Lemma k_at_silent x y ev c c' : stopped_ (t_bridge (k_tunnel c) x) = true ->
  k_at compressed level limiter y ev c = Some c' -> silent_at x c c'.
Proof.
  intros Hst E. unfold k_at in E. destruct (Bool.bool_dec y x) as [->|Hy].
  - rewrite Hst in E. destruct ev as [d ec data|[]|d ec]; try done. cbn [andb bridge_step phase_of] in E.
    destruct (phase1 _); try done. cbn [mbind option_bind write_op] in E. apply (k_perform_silent x) in E as (E1 & E2 & E3).
    + unfold silent_at. rewrite E1, E2, E3. cbn. by rewrite upd_same.
    + right. intros q Hq. by apply list_elem_of_singleton in Hq.
  - destruct (_ && _); [done|]. destruct (bridge_step _ _ _ _ _) as [[b acts]|]; [|done]. cbn [mbind option_bind] in E.
    apply (k_perform_silent x) in E as (E1 & E2 & E3); [|by left]. unfold silent_at. rewrite E1, E2, E3. cbn.
    by rewrite upd_other by (by destruct x, y).
Qed.
Lemma closing_silent x ev c c' : stopped_ (t_bridge (k_tunnel c) x) = true ->
  closing_step compressed level limiter ev c = Some c' -> silent_at x c c'.
Proof.
  intros Hst E. destruct ev as [y|y ec data|y d|y d ec|y|y ec|y]; cbn [closing_step] in E; try done.
  - destruct (phase1 _); try done. destruct (phase2 _); try done. destruct (Start _ _) as [b acts] eqn:Es.
    assert (Hp : forall p, write_to D2 p ∉ acts).
    { intros p Hin. unfold Start, DoRead in Es. destruct compressed; injection Es as _ <-; by repeat (apply elem_of_cons in Hin as [?|Hin]; [done|]); apply elem_of_nil in Hin. }
    destruct (start_requests _ _ _ _ Es) as (a & _ & Hb & _).
    apply (k_perform_silent x) in E as (E1 & E2 & E3); [|by right]. unfold silent_at. rewrite E1, E2, E3. cbn. split; [|done].
    destruct (Bool.bool_dec y x) as [->|Hy]; [by rewrite upd_same, Hb|by rewrite upd_other by (by destruct x, y)].
  - destruct (decide (ec = ec_ok)); [destruct (0 <? zlen data); [|done]|]; [|by eapply k_at_silent].
    destruct (Bool.bool_dec y x) as [->|Hy].
    + unfold k_at in E. cbn [k_tunnel with_tunnel t_bridge took_in] in E. by rewrite Hst in E.
    + apply (k_at_silent x) in E as (E1 & E2 & E3); [|done]. split; [done|]. rewrite E2, E3. cbn.
      by rewrite upd_other by (by destruct x, y).
  - by eapply k_at_silent.
  - destruct d; [destruct (_ && _); [done|]|]; by eapply k_at_silent.
  - destruct (t_inbox _ y), (k_ends c y); try done; by apply (k_at_silent x) in E.
  - unfold k_deliver in E. destruct (wire _ _) as [|f rest]; [done|]. destruct (k_given_back c y); [by injection E as <-|].
    destruct (frame_events f) as [|ev [|]]; try done. destruct (step_event _ _ _) as [[st acts]|]; [|done]. by injection E as <-.
Qed.
Lemma closing_run_silent x evs c c' : stopped_ (t_bridge (k_tunnel c) x) = true ->
  closing_run compressed level limiter evs c = Some c' -> silent_at x c c'.
Proof.
  revert c. induction evs as [|ev evs IH]; intros c Hst E; cbn [closing_run] in E; [by injection E as <-|].
  destruct (closing_step _ _ _ ev c) as [c1|] eqn:E1; [|done]. destruct (closing_silent x _ _ _ Hst E1) as (S1 & S2 & S3).
  destruct (IH _ S1 E) as (R1 & R2 & R3). split; [done|]. by rewrite R2, R3.
Qed.
End Stopped.
Lemma new_tunnel_going id : going (new_tunnel id).
Proof. intros x _. split; [by split|done|done]. Qed.
Lemma tunnel_run_going `{ZstdLaws} (compressed : bool) (level : bool -> Z) (limiter : bool -> bool) id evs t t' :
  tunnel_inv compressed level id t -> going t -> tunnel_run compressed level limiter evs t = Some t' ->
  tunnel_inv compressed level id t' /\ going t'.
Proof.
  revert t. induction evs as [|ev evs IH]; intros t Hi Hg E; cbn [tunnel_run] in E; [by injection E as <-|].
  destruct (tunnel_step _ _ _ ev t) as [t1|] eqn:E1; [|done]. apply (IH t1); [by eapply tunnel_step_inv| |done].
  eapply tunnel_step_going; [done|apply Hi|done].
Qed.
(** The first step of [c] after the end of the connection of [x]. *)
Lemma end_learned `{ZstdLaws} (compressed : bool) (level : bool -> Z) (limiter : bool -> bool) id x evs ec t c :
  tunnel_run compressed level limiter evs (new_tunnel id) = Some t -> (forall y, stopped_ (t_bridge t y) = false) -> ec <> ec_ok ->
  closing_step compressed level limiter (t_plain x ec []) (still_open t) = Some c -> draining compressed level id x t c.
Proof.
  intros Hrun Hst Hec E.
  destruct (tunnel_run_going compressed level limiter id evs (new_tunnel id) t) as [Hi Hg];
    [apply new_tunnel_inv|apply new_tunnel_going|done|]. by apply (draining_starts compressed level limiter id x ec).
Qed.

(** ** Runs *)
Definition before_end : list tunnel_event :=
  [t_start true; t_start false; t_plain true ec_ok demo_data; t_tokens true D1; t_deliver false; t_written true D1 ec_ok;
   t_stream false].
Definition before_tunnel : Tunnel :=
  default (new_tunnel 7) (@tunnel_run rle_zstd true demo_level demo_limiter before_end (new_tunnel 7)).
Definition ending (evs : list tunnel_event) : Closing :=
  default (still_open before_tunnel) (@closing_run rle_zstd true demo_level demo_limiter evs (still_open before_tunnel)).
(** The user's end is over while the service is answering; then the service's
    end learns of it. *)
Definition user_ends : list tunnel_event := [t_plain true ec_eof []; t_plain false ec_ok [x63]; t_deliver true; t_deliver false].
Definition service_ends : list tunnel_event := [t_stream false; t_written false D2 ec_ok; t_stream false; t_deliver true].

(** The service's byte crossed the FIN: its stream is never forgotten at the
    user's end, although both ends have closed and no frame is left. *)
Lemma crossing_keeps_stream : let c := ending (user_ends ++ service_ends) in
  k_given_back c false = true /\ k_given_back c true = false /\
  wire (t_link (k_tunnel c)) true = [] /\ wire (t_link (k_tunnel c)) false = [] /\
  stopped_ (t_bridge (k_tunnel c) true) = true /\ stopped_ (t_bridge (k_tunnel c) false) = true.
Proof. vm_compute. done. Qed.
(** The end of one direction of a connection ends both: what the other side
    answers afterwards is never written out. *)
Lemma end_of_input_cuts_answer `{ZstdLaws} (compressed : bool) (level : bool -> Z) (limiter : bool -> bool) id x evs evs' t c :
  tunnel_run compressed level limiter evs (new_tunnel id) = Some t -> (forall y, stopped_ (t_bridge t y) = false) ->
  closing_run compressed level limiter (t_plain x ec_eof [] :: evs') (still_open t) = Some c ->
  t_out (k_tunnel c) x = t_out t x.
Proof.
  intros Hrun Hopen Hend. cbn [closing_run] in Hend. destruct (closing_step _ _ _ _ (still_open t)) as [c1|] eqn:E1; [|done].
  assert (Hd : draining compressed level id x t c1) by (by apply (end_learned _ _ limiter _ _ evs ec_eof)).
  destruct (closing_run_silent _ _ _ x _ _ _ (ar_stopped _ _ (dr_rest _ _ _ _ _ _ Hd)) Hend) as (_ & _ & ->).
  cbn [closing_step] in E1. rewrite decide_False in E1 by done. unfold k_at in E1. cbn [k_tunnel still_open] in E1. rewrite Hopen in E1. cbn [andb] in E1.
  destruct (bridge_step _ _ _ _ _) as [[b acts]|] eqn:Eb; [|done]. cbn [mbind option_bind] in E1.
  destruct (end_fails _ _ _ _ _ _ _ Eb ltac:(done)) as [_ Hf]. apply fail_stops in Hf as [Hacts _]; [|done]. cbn [snd] in Hacts. subst acts.
  apply (k_perform_silent x) in E1 as (_ & _ & ->); [done|]. right. intros p Hin.
  repeat (apply elem_of_cons in Hin as [?|Hin]; [done|]). by apply elem_of_nil in Hin.
Qed.
