(* ===== verification/Interrupted.v ===== *)
(** * A tunnel interrupted at any moment (async_bridge.cpp and mux.cpp together)

    Closing.v and Draining.v follow the end of a connection that is read to its
    end.  Here anything may fail at any time - a read or a write of either
    connection, with packets half sent or waiting for the limiter - and what is
    written to each connection is still a prefix of what was read from the
    other: bytes are lost at the end only. *)
From Stdlib Require Import ZArith Lia Strings.Byte.
From stdpp Require Import base tactics list.
From S2P Require Import Prelude Protocol Zstd MuxFrame MuxStream MuxSession MuxFlow StreamEnd Bridge Tunnel TunnelRequests Closing.
Local Open Scope Z_scope.

(** ** One event of a stream, closed or not *)
Definition credit_frame (f : wire_frame) : Prop := is_update f.1 = true -> 0 <= length_ f.1.
Record safe_step (ev : event) (st st' : MuxStream) (acts : list action) : Prop := {
  ss_local : local_closed_ st' = local_closed_ st || is_close ev;
  ss_reader : if local_closed_ st' then delivered acts = [] else delivered acts ++ unread st' = unread st ++ received [ev];
  ss_writer : is_close ev = false -> sent_data acts ++ unsent st' = unsent st ++ accepted ev st;
  ss_close : is_close ev = true -> sent_data acts = [] /\ unsent st' `prefix_of` unsent st;
  ss_gives : gives_back acts = true -> local_closed_ st' = true;
  ss_credit : Forall credit_frame (emitted acts);
  ss_posts : concat (ok_data acts) = delivered acts
}.
(** Failing reads are given nothing. *)
Definition empty_failure (p : nat * error_code * list byte) : Prop := p.1.2 = ec_ok \/ p.2 = [].
Lemma serve_failures closed prs bytes out rest bs : serve closed prs bytes = (out, rest, bs) -> Forall empty_failure out.
Proof.
  revert bytes out rest bs. induction prs as [|pr prs IH]; intros bytes out rest bs E; cbn [serve] in E; [by injection E as <- <- <-|].
  destruct bytes as [|b bytes].
  - destruct closed; [|by injection E as <- <- <-]. destruct (serve true prs []) as [[o r] x] eqn:E1. injection E as <- <- <-.
    constructor; [by right|by eapply IH].
  - destruct (_ && _); [by injection E as <- <- <-|]. destruct (serve closed prs _) as [[o r] x] eqn:E1. injection E as <- <- <-.
    constructor; [by left|by eapply IH].
Qed.
Lemma rd_step_failures ev r : Forall empty_failure (rd_step ev r).2.
Proof.
  assert (Hs : forall r0, Forall empty_failure (rd_serve r0).2).
  { intros r0. unfold rd_serve. destruct (serve _ _ _) as [[out rest] bs] eqn:E. by eapply serve_failures. }
  destruct ev; cbn [rd_step]; try apply Hs; try by constructor.
  - destruct (_ <=? _); [|apply Hs]. constructor; [by right|constructor].
  - cbn. induction (rd_reads r) as [|pr prs IH]; constructor; [by right|done].
Qed.
Lemma failures_posts acts : Forall empty_failure (read_posts acts) -> concat (ok_data acts) = delivered acts.
Proof.
  unfold ok_data, delivered. induction 1 as [|[[h ec] d] ps Hp _ IH]; [done|]. cbn [omap list_omap map concat fst snd] in *.
  destruct (decide (ec = ec_ok)) as [->|Hec]; cbn [concat]; rewrite IH; [done|]. destruct Hp as [?|Hd]; [done|]. cbn in Hd. by rewrite Hd.
Qed.
(** Frames that grant a negative credit are never sent. *)
Lemma update_credit acts : Forall update_only acts -> Forall credit_frame (emitted acts).
Proof.
  unfold emitted. induction 1 as [|a acts Ha _ IH]; [constructor|]. destruct a; cbn in *; try done.
  constructor; [|done]. destruct Ha as [(id & n & -> & Hn) _]. by intros _.
Qed.
Lemma data_credit id acts : Forall (frame_ok id) acts -> Forall credit_frame (emitted acts).
Proof.
  unfold emitted. induction 1 as [|a acts Ha _ IH]; [constructor|]. destruct a; cbn in *; try done. constructor; [|done].
  destruct Ha as [-> _]. by intros ?.
Qed.
Lemma emitted_frames xs ys : Forall credit_frame (emitted xs) -> Forall credit_frame (emitted ys) -> Forall credit_frame (emitted (xs ++ ys)).
Proof. intros. unfold emitted in *. rewrite omap_app. by apply Forall_app. Qed.
Lemma emitted_none {A} (f : A -> action) l : (forall x, emitted [f x] = []) -> emitted (map f l) = [].
Proof. intros H. induction l as [|x l IH]; [done|]. cbn [map]. change (f x :: map f l) with ([f x] ++ map f l). by rewrite emitted_app, H, IH. Qed.
Lemma cleanup_frames st : emitted (check_cleanup true st) = [].
Proof. unfold check_cleanup. by case_match. Qed.
(** The reading loop, whatever the state. *)
Lemma reading_safe st st' acts : do_read_from_buffer true st = Some (st', acts) ->
  sent_data acts = [] /\ pending_writes_ st' = pending_writes_ st /\ Forall credit_frame (emitted acts).
Proof.
  unfold do_read_from_buffer. destruct (read_loop true (pending_reads_ st) st) as [[st1 a1]|] eqn:E; [|done]. intros [= <- <-].
  rewrite sent_data_app, (proj1 (proj2 (check_cleanup_quiet true st1))), app_nil_r.
  pose proof (read_loop_updates _ _ _ _ _ E) as Hu. assert (Hp : pending_writes_ st1 = pending_writes_ st).
  { clear Hu. revert E. generalize (pending_reads_ st). intros prs. revert st st1 a1. induction prs as [|pr prs IH]; intros st st1 a1 E; cbn [read_loop] in E;
      [by injection E as <- <-|]. destruct (read_queue_ st).
    - destruct (remote_closed_ st); [|by injection E as <- <-]. destruct (read_loop true prs st) as [[s2 a2]|] eqn:E2; [|done].
      injection E as <- <-. by eapply IH.
    - destruct (_ && _); [by injection E as <- <-|]. destruct (copy_blocks _ _ _ _) as [[[q' off'] data]|]; [|done]. cbn [mbind option_bind] in E.
      destruct (account_consumed _ _ _) as [s1 u] eqn:Ea. destruct (read_loop true prs s1) as [[s2 a2]|] eqn:E2; [|done]. injection E as <- <-.
      apply IH in E2. rewrite E2. unfold account_consumed in Ea. destruct (_ && _); by injection Ea as <- <-. }
  split; [|split; [done|]].
  - clear -Hu. unfold sent_data. induction Hu as [|a acts Ha _ IH]; [done|]. cbn [map concat]. rewrite IH, app_nil_r.
    destruct a; try done. destruct Ha as [_ ->]. by destruct (is_data hdr).
  - apply emitted_frames; [by apply update_credit|]. by rewrite cleanup_frames.
Qed.
Lemma writing_safe st st' acts : 0 <= remote_window_size_ st -> MuxStream.do_write true st = (st', acts) ->
  sent_data acts ++ unsent st' = unsent st /\ Forall credit_frame (emitted acts).
Proof.
  intros Hw E. pose proof (do_write_spec true st Hw) as S. rewrite E in S.
  destruct S as [(_ & _ & Hf & _ & _ & _ & _ & Hu) _]. split; [by apply Hu|by eapply data_credit].
Qed.
Lemma closing_safe st : let '(st', acts) := MuxStream.close true st in
  sent_data acts = [] /\ Forall credit_frame (emitted acts) /\ unsent st' `prefix_of` unsent st.
Proof.
  unfold MuxStream.close. destruct (local_closed_ st) eqn:El; [by split; [|split; [constructor|]]|].
  set (st1 := set_closed _ _ _). set (fin := [send_frame _ _ _]).
  assert (He : emitted (fin ++ map (fun pr => post_read (pr_handler pr) ec_operation_aborted []) (pending_reads_ st) ++
    map (fun pw => post_write (pw_handler pw) ec_operation_aborted 0) (pending_writes_ st) ++ check_cleanup true st1) = emitted fin)
    by (rewrite !emitted_app, !emitted_none, cleanup_frames by done; by rewrite !app_nil_r).
  rewrite <- emitted_data, He. split; [done|]. split; [|apply prefix_nil]. constructor; [by intros ?|constructor].
Qed.
Lemma write_event_safe ev st st' acts : step_event true ev st = Some (st', acts) -> 0 <= remote_window_size_ st ->
  well_used (local_closed_ st) [ev] = true -> is_close ev = false -> (forall ec, ev <> ev_send_failed ec) ->
  sent_data acts ++ unsent st' = unsent st ++ accepted ev st /\ Forall credit_frame (emitted acts).
Proof.
  intros E Hw Hu Hc Hf.
  assert (Hr : forall st1, do_read_from_buffer true st1 = Some (st', acts) -> pending_writes_ st1 = pending_writes_ st ->
    sent_data acts ++ unsent st' = unsent st ++ [] /\ Forall credit_frame (emitted acts)).
  { intros st1 Er Hp. destruct (reading_safe _ _ _ Er) as (-> & H2 & H3). split; [|done]. unfold unsent. by rewrite H2, Hp, app_nil_r. }
  destruct ev as [all size h|bufs h|d|delta| | |ec]; cbn [step_event accepted well_used] in *; bool_hyps; [| | | | |done|by destruct (Hf ec)].
  - unfold async_read, async_read_some in E. destruct all; (destruct (_ <=? _); [injection E as <- <-; split; [by rewrite app_nil_r|by constructor]|]);
      by eapply Hr.
  - unfold async_write_bufs in E. destruct (_ <=? _); [injection E as <- <-; split; [by rewrite app_nil_r|by constructor]|].
    injection E as E. apply writing_safe in E as [-> H2]; [|exact Hw]. split; [|done].
    unfold unsent. cbn. rewrite map_app, concat_app. cbn. by rewrite app_nil_r.
  - by eapply Hr.
  - injection E as E. apply writing_safe in E as [-> H2]; [by rewrite app_nil_r|]. cbn. unfold MAX_MESSAGE_SIZE. lia.
  - unfold handle_close in E. destruct (do_read_from_buffer true _) as [[st1 a1]|] eqn:Er; [|done]. injection E as <- <-.
    destruct (reading_safe _ _ _ Er) as (H1 & H2 & H3).
    rewrite sent_data_app, H1, (proj1 (proj2 (check_cleanup_quiet true st1))). split.
    + cbn [app]. unfold unsent. by rewrite H2, app_nil_r.
    + apply emitted_frames; [done|]. by rewrite cleanup_frames.
Qed.
Lemma safe_event B ev st : 0 <= B -> stream_inv (B + zlen (received [ev])) st -> well_used (local_closed_ st) [ev] = true ->
  (forall ec, ev <> ev_send_failed ec) -> exists st' acts, step_event true ev st = Some (st', acts) /\ stream_inv B st' /\ safe_step ev st st' acts.
Proof.
  intros HB Hi Hu Hf. set (evs := if B =? 0 then [] else [ev_data (repeat x00 (Z.to_nat B))]).
  assert (Hlen : zlen (repeat x00 (Z.to_nat B)) = B) by (unfold zlen; rewrite repeat_length; lia).
  assert (Hevs : zlen (received evs) = B).
  { unfold evs. destruct (Z.eqb_spec B 0) as [->|]; [done|]. cbn [received]. by rewrite app_nil_r. }
  assert (Hwu : well_used (local_closed_ st) (ev :: evs) = true).
  { assert (Hall : forall c, well_used c evs = true).
    { intros c. unfold evs. destruct (Z.eqb_spec B 0); [done|]. cbn [well_used]. rewrite Hlen, andb_true_r. apply Z.ltb_lt. lia. }
    destruct ev; cbn [well_used] in *; rewrite ?Hall, ?andb_true_r in *; done. }
  destruct (event_step true ev evs st) as (st' & acts & E & (Hi' & Hr & _) & Hl & _); [|done|].
  { replace (zlen (received (ev :: evs))) with (B + zlen (received [ev])); [done|].
    destruct ev; cbn [received]; rewrite ?zlen_app, ?Hevs, ?app_nil_r, ?zlen_nil; lia. }
  rewrite Hevs in Hi'. exists st', acts. split; [done|]. split; [done|].
  assert (Hl' : local_closed_ st' = local_closed_ st || is_close ev).
  { rewrite Hl. destruct ev; cbn; by rewrite ?orb_false_r, ?orb_true_r. }
  pose proof (gives_step ev st st' acts E (si_closed _ _ Hi) Hu) as G.
  assert (Hposts : read_posts acts = (rd_step ev (reader_of st)).2) by (by rewrite Hr).
  assert (Hd : delivered acts = bytes_out (read_posts acts)) by done.
  split.
  - done.
  - destruct (local_closed_ st') eqn:Elc.
    + rewrite Hd, Hposts. unfold reader_of. destruct (local_closed_ st) eqn:El.
      * rewrite (si_closed _ _ Hi El). destruct ev; cbn in Hu |- *; try done; by rewrite ?andb_false_r in Hu.
      * destruct ev; try done. cbn. induction (pending_reads_ st) as [|pr prs IH]; [done|exact IH].
    + assert (Ec : ev <> ev_close /\ local_closed_ st = false) by (symmetry in Hl'; apply orb_false_iff in Hl' as [? ?]; split; [by destruct ev|done]).
      destruct Ec as [Hne El]. pose proof (rd_run_bytes [ev] (reader_of st)) as Hb. cbn [rd_run] in Hb. rewrite Hr in Hb.
      cbn [fst snd] in Hb. rewrite app_nil_r in Hb. rewrite Hd. unfold reader_of in Hb. cbn [rd_bytes rd_closed] in Hb. rewrite El, Elc in Hb.
      apply Hb; [by repeat constructor|done].
  - intros Hc. by apply (write_event_safe ev st st' acts E (proj1 (si_window _ _ Hi)) Hu Hc Hf).
  - intros Hc. destruct ev; try done. cbn [step_event] in E. pose proof (closing_safe st) as C. injection E as E. rewrite E in C. by destruct C as (C1 & _ & C3).
  - intros Hg. destruct (over st) eqn:Eo.
    + rewrite Hl'. unfold over in Eo. by destruct (local_closed_ st).
    + rewrite (gp_gives _ _ _ _ G Eo) in Hg. unfold over in Hg. by destruct (local_closed_ st').
  - destruct (is_close ev) eqn:Hc; [|by apply (write_event_safe ev st st' acts E (proj1 (si_window _ _ Hi)) Hu Hc Hf)].
    destruct ev; try done. cbn [step_event] in E. pose proof (closing_safe st) as C. injection E as E. rewrite E in C. by destruct C as (_ & C2 & _).
  - apply failures_posts. rewrite Hposts. apply rd_step_failures.
Qed.

(** ** One direction of the link
    The bytes that have arrived, those on the wire and those not yet sent are,
    in order, the first of those given; all of them while [exact]. *)
Definition size_limit : Z := 2 ^ 64 - 1.
Record arrived (exact : bool) (w r : MuxStream) (fwd : list wire_frame) (given taken : list byte) (dropped : bool) (rv : list byte) : Prop := {
  ar_stream : stream_inv (size_limit - zlen rv) r;
  ar_prefix : rv ++ wire_data fwd ++ unsent w `prefix_of` given;
  ar_exact : exact = true -> rv ++ wire_data fwd ++ unsent w = given;
  ar_taken : if local_closed_ r then taken `prefix_of` rv else rv = taken ++ unread r;
  ar_dropped : dropped = true -> local_closed_ r = true;
  ar_credit : Forall credit_frame fwd
}.
Definition flow_ok (exact : bool) (w r : MuxStream) (fwd : list wire_frame) (given taken : list byte) (dropped : bool) : Prop :=
  exists rv, arrived exact w r fwd given taken dropped rv.
Lemma flow_order exact w r fwd given taken dropped : flow_ok exact w r fwd given taken dropped -> taken `prefix_of` given.
Proof.
  intros (rv & [_ Hp _ Ht _ _]). assert (Hr : rv `prefix_of` given) by (etrans; [|exact Hp]; by eexists).
  destruct (local_closed_ r); [by etrans|]. subst. etrans; [|exact Hr]. by eexists.
Qed.
(** The writing end. *)
Lemma writer_flow ev exact w w' acts r fwd given taken dropped : safe_step ev w w' acts -> flow_ok exact w r fwd given taken dropped ->
  (accepted ev w <> [] -> exact = true) ->
  flow_ok (exact && (negb (is_close ev) || bool_decide (unsent w = []))) w' r (fwd ++ emitted acts) (given ++ accepted ev w) taken dropped.
Proof.
  intros S (rv & [A1 A2 A3 A4 A5 A6]) Hx. destruct S as [S1 _ S3 S4 _ S6 _]. exists rv.
  assert (Hw : wire_data (fwd ++ emitted acts) = wire_data fwd ++ sent_data acts) by (by rewrite wire_data_app, emitted_data).
  destruct (is_close ev) eqn:Ec.
  - destruct (S4 eq_refl) as [Hs Hu]. assert (Ha : accepted ev w = []) by (by destruct ev). rewrite Ha, app_nil_r.
    split; rewrite ?Hw, ?Hs, ?app_nil_r; try done; [| |by apply Forall_app].
    + etrans; [|exact A2]. rewrite !app_assoc. by apply prefix_app.
    + cbn [negb orb]. intros [He Hn]%andb_true_iff. apply bool_decide_eq_true in Hn. rewrite Hn in Hu. apply prefix_nil_inv in Hu. rewrite Hu, <- Hn. by apply A3.
  - cbn [negb orb]. rewrite andb_true_r. specialize (S3 eq_refl).
    assert (E : rv ++ (wire_data fwd ++ sent_data acts) ++ unsent w' = (rv ++ wire_data fwd ++ unsent w) ++ accepted ev w)
      by (rewrite <- !app_assoc; do 2 f_equal; exact S3).
    split; rewrite ?Hw, ?E; try done; [| |by apply Forall_app].
    + destruct (accepted ev w) as [|b l] eqn:Ea; [by rewrite !app_nil_r|]. rewrite A3 by (by apply Hx). done.
    + intros He. by rewrite A3.
Qed.
Lemma stream_inv_less B B' st : B' <= B -> stream_inv B st -> stream_inv B' st.
Proof. intros Hle [H1 H2 H3 H4 H5 H6 H7]. split; try done. lia. Qed.
(** The reading end: [fwd'] is the wire without the frame handled, if any. *)
Lemma reader_flow ev exact w r r' acts fwd fwd' given taken dropped : flow_ok exact w r fwd given taken dropped -> zlen given <= size_limit ->
  wire_data fwd = received [ev] ++ wire_data fwd' -> Forall credit_frame fwd' -> well_used (local_closed_ r) [ev] = true ->
  (forall ec, ev <> ev_send_failed ec) -> step_event true ev r = Some (r', acts) ->
  flow_ok exact w r' fwd' given (taken ++ delivered acts) (dropped || gives_back acts) /\ safe_step ev r r' acts.
Proof.
  intros (rv & [A1 A2 A3 A4 A5 A6]) Hz Hw Hc Hu Hf E.
  assert (Hlen : zlen rv + zlen (received [ev]) <= size_limit).
  { destruct A2 as [k Hk]. rewrite Hk, Hw in Hz. zsize. }
  destruct (safe_event (size_limit - zlen (rv ++ received [ev])) ev r) as (r1 & a1 & E1 & Hi & S); [rewrite zlen_app; lia| |done|done|].
  { eapply stream_inv_less; [|exact A1]. rewrite zlen_app. lia. }
  rewrite E in E1. injection E1 as <- <-. split; [|done]. destruct S as [S1 S2 _ _ S5 _ _]. exists (rv ++ received [ev]).
  assert (Ew : (rv ++ received [ev]) ++ wire_data fwd' ++ unsent w = rv ++ wire_data fwd ++ unsent w) by (by rewrite Hw, <- !app_assoc).
  split; rewrite ?Ew; try done.
  - destruct (local_closed_ r') eqn:Ec.
    + rewrite S2, app_nil_r. apply prefix_app_r. destruct (local_closed_ r); [done|]. subst rv. by eexists.
    + destruct (local_closed_ r); [done|]. by rewrite A4, <- !app_assoc, S2.
  - intros [Hd|Hg]%orb_true_iff; [|by apply S5]. rewrite S1. by rewrite (A5 Hd).
Qed.
(** A frame the session drops. *)
Lemma dropped_flow exact w r f fwd given taken : flow_ok exact w r (f :: fwd) given taken true -> zlen given <= size_limit ->
  flow_ok exact w r fwd given taken true.
Proof.
  intros (rv & [A1 A2 A3 A4 A5 A6]) Hz. set (d := wire_data [f]).
  assert (Ew : (rv ++ d) ++ wire_data fwd ++ unsent w = rv ++ wire_data (f :: fwd) ++ unsent w).
  { change (f :: fwd) with ([f] ++ fwd). by rewrite wire_data_app, <- !app_assoc. }
  exists (rv ++ d). split; rewrite ?Ew; try done; [| |by apply Forall_cons in A6 as [_ ?]].
  - eapply stream_inv_less; [|exact A1]. rewrite zlen_app. pose proof (zlen_nonneg d). lia.
  - rewrite A5 in * by done. by apply prefix_app_r.
Qed.

(** ** Both directions *)
Definition k_flow (q : bool -> bool) (c : Closing) : Prop := let l := t_link (k_tunnel c) in forall x,
  flow_ok (q x) (endpoint l x) (endpoint l (negb x)) (wire l x) (gave l x) (got l (negb x)) (k_given_back c (negb x)).
Definition given_fits (c : Closing) : Prop := forall x, zlen (gave (t_link (k_tunnel c)) x) <= size_limit.
(** The reading of [exact] after an event: closing keeps it if all was sent. *)
Definition exact_after (ev : event) (st : MuxStream) (exact : bool) : bool := exact && (negb (is_close ev) || bool_decide (unsent st = [])).
Lemma after_flow q x ev st acts l fwd lost c : k_flow q c -> given_fits c ->
  endpoint l = endpoint (t_link (k_tunnel c)) -> gave l = gave (t_link (k_tunnel c)) -> got l = got (t_link (k_tunnel c)) ->
  wire l x = wire (t_link (k_tunnel c)) x -> wire l (negb x) = fwd ->
  wire_data (wire (t_link (k_tunnel c)) (negb x)) = received [ev] ++ wire_data fwd -> Forall credit_frame fwd ->
  well_used (local_closed_ (endpoint l x)) [ev] = true -> (forall ec, ev <> ev_send_failed ec) ->
  (accepted ev (endpoint l x) <> [] -> q x = true) -> step_event true ev (endpoint l x) = Some (st, acts) ->
  k_flow (upd x (exact_after ev (endpoint l x) (q x)) q) (k_after x ev st acts l lost c) /\ safe_step ev (endpoint l x) st acts.
Proof.
  intros Hk Hz E1 E2 E3 E4 E5 Hw Hc Hu Hf Hx E. rewrite E1 in *. pose proof (Hk x) as Kx. pose proof (Hk (negb x)) as Ky. rewrite negb_involutive in Ky.
  destruct (reader_flow ev _ _ _ _ _ _ _ _ _ _ Ky (Hz _) Hw Hc Hu Hf E) as [Ry S]. split; [|done].
  pose proof (writer_flow ev _ _ _ _ _ _ _ _ _ S Kx Hx) as Wx. intros y. cbn [k_after k_tunnel set_link t_link after k_given_back endpoint wire gave got]. rewrite E1, E2, E3, E4.
  destruct (Bool.bool_dec y x) as [->|Hy].
  - rewrite !upd_same, !upd_other by (by destruct x). exact Wx.
  - assert (y = negb x) as -> by (by destruct x, y). rewrite negb_involutive, !upd_same, !upd_other by (by destruct x). by rewrite E5.
Qed.
Lemma frame_use f ev closed : frame_events f = [ev] -> credit_frame f ->
  wire_data [f] = received [ev] /\ well_used closed [ev] = true /\ (forall ec, ev <> ev_send_failed ec) /\ is_close ev = false.
Proof.
  unfold frame_events, credit_frame, wire_data. intros E Hc. cbn [map concat]. rewrite app_nil_r. destruct (is_data f.1).
  - destruct (0 <? zlen f.2) eqn:Ez; cbn [app] in E.
    + destruct (has_flag _ _); [done|]. injection E as <-. cbn [received well_used]. by rewrite Ez, app_nil_r.
    + destruct (has_flag _ _); [|done]. injection E as <-. cbn. split; [|done]. apply Z.ltb_ge in Ez. by destruct f.2.
  - destruct (is_update f.1); [|done]. injection E as <-. cbn. split; [done|]. split; [|done]. rewrite andb_true_r. by apply Z.leb_le, Hc.
Qed.
Lemma app_flow q x ev lost c c' : k_flow q c -> given_fits c -> k_app x ev lost c = Some c' -> received [ev] = [] ->
  well_used (local_closed_ (endpoint (t_link (k_tunnel c)) x)) [ev] = true -> (forall ec, ev <> ev_send_failed ec) ->
  (accepted ev (endpoint (t_link (k_tunnel c)) x) <> [] -> q x = true) ->
  k_flow (upd x (exact_after ev (endpoint (t_link (k_tunnel c)) x) (q x)) q) c' /\
  exists st acts, c' = k_after x ev st acts (t_link (k_tunnel c)) lost c /\ safe_step ev (endpoint (t_link (k_tunnel c)) x) st acts.
Proof.
  intros Hk Hz E Hr Hu Hf Hx. unfold k_app in E. destruct (step_event _ _ _) as [[st acts]|] eqn:Es; [|done]. injection E as <-.
  destruct (after_flow q x ev st acts (t_link (k_tunnel c)) (wire (t_link (k_tunnel c)) (negb x)) lost c) as [H1 H2]; try done; [by rewrite Hr| |].
  - destruct (Hk (negb x)) as (rv & A). apply A.
  - split; [exact H1|]. by exists st, acts.
Qed.
Lemma upd_self (q : bool -> bool) x y : upd x (q x) q y = q y.
Proof. apply upd_idem. Qed.
Lemma deliver_flow q x c c' : k_flow q c -> given_fits c -> k_deliver x c = Some c' ->
  k_flow q c' /\ t_bridge (k_tunnel c') = t_bridge (k_tunnel c) /\ t_in (k_tunnel c') = t_in (k_tunnel c) /\
  t_out (k_tunnel c') = t_out (k_tunnel c) /\ (forall y, t_lost (k_tunnel c') y = t_lost (k_tunnel c) y) /\
  (forall y, gave (t_link (k_tunnel c')) y = gave (t_link (k_tunnel c)) y) /\ same_handled (k_tunnel c) (k_tunnel c') /\
  (forall y, local_closed_ (endpoint (t_link (k_tunnel c')) y) = local_closed_ (endpoint (t_link (k_tunnel c)) y)) /\
  (forall y, unsent (endpoint (t_link (k_tunnel c)) y) = [] -> unsent (endpoint (t_link (k_tunnel c')) y) = []).
Proof.
  intros Hk Hz E. unfold k_deliver in E. destruct (wire _ (negb x)) as [|f rest] eqn:Ew; [done|].
  pose proof (Hk (negb x)) as Ky. rewrite negb_involutive, Ew in Ky.
  destruct (k_given_back c x) eqn:Eg.
  - injection E as <-. apply dropped_flow in Ky; [|apply Hz]. split.
    + intros y. cbn [with_tunnel k_tunnel set_link t_link take_frame endpoint wire gave got k_given_back].
      destruct (Bool.bool_dec y x) as [->|Hy]; [rewrite upd_other by (by destruct x); apply Hk|].
      assert (y = negb x) as -> by (by destruct x, y). rewrite negb_involutive, upd_same, Eg. exact Ky.
    + cbn. split_and!; try done; [intros y; by rewrite upd_or, orb_false_r; destruct (Bool.eqb x y)|].
      intros y K H. cbn in *. rewrite H. unfold upd. destruct (Bool.eqb x y) eqn:Ex; [|done]. apply Bool.eqb_prop in Ex as ->. by rewrite app_nil_r.
  - destruct (frame_events f) as [|ev [|]] eqn:Ef; try done. destruct (step_event _ _ _) as [[st acts]|] eqn:Es; [|done]. injection E as <-.
    assert (Hc : Forall credit_frame (f :: rest)) by (destruct Ky as (rv & A); apply A). apply Forall_cons in Hc as [Hf Hrest].
    destruct (frame_use f ev (local_closed_ (endpoint (t_link (k_tunnel c)) x)) Ef Hf) as (Hd & Hu & Hne & Hcl).
    assert (Ha : accepted ev (endpoint (t_link (k_tunnel c)) x) = []) by (by eapply frame_events_accept).
    destruct (after_flow q x ev st acts (take_frame (negb x) rest (t_link (k_tunnel c))) rest false c) as [H1 H2]; try done.
    + cbn. by rewrite upd_other by (by destruct x).
    + cbn. by rewrite upd_same.
    + rewrite Ew, <- Hd. change (f :: rest) with ([f] ++ rest). apply wire_data_app.
    + cbn [endpoint take_frame] in *. unfold exact_after in H1. rewrite Hcl in H1. cbn [negb orb] in H1. rewrite andb_true_r in H1.
      split; [intros y; specialize (H1 y); by rewrite upd_self in H1|].
      destruct H2 as [S1 _ S3 _ _ _ S7]. rewrite Hcl, orb_false_r in S1. specialize (S3 Hcl). rewrite Ha, app_nil_r in S3.
      cbn [k_after k_tunnel set_link t_bridge t_in t_out t_lost t_link after gave take_frame endpoint]. split_and!; try done.
      * intros y. by rewrite upd_or, orb_false_r; destruct (Bool.eqb x y).
      * intros y. rewrite Ha, app_nil_r. apply upd_idem.
      * apply set_link_handled. cbn. by rewrite S7.
      * intros y. unfold upd. destruct (Bool.eqb x y) eqn:Ex; [|done]. by apply Bool.eqb_prop in Ex as ->.
      * intros y Hy. unfold upd. destruct (Bool.eqb x y) eqn:Ex; [|done]. apply Bool.eqb_prop in Ex as ->.
        rewrite Hy in S3. by apply app_eq_nil in S3 as [_ ?].
Qed.

(** ** The requests of a bridge *)
Definition closes (a : bridge_action) : bool := match a with close_both => true | _ => false end.
Definition request_ok (x : bool) (q : bool -> bool) (a : bridge_action) (c : Closing) : Prop :=
  (is_write1 a = true -> q x = true) /\
  (forall all n, requests_read a = Some (all, n) -> 0 <= n /\ local_closed_ (endpoint (t_link (k_tunnel c)) x) = false).
Definition exact_with (x : bool) (a : bridge_action) (c : Closing) (q : bool -> bool) : bool -> bool :=
  upd x (q x && (negb (closes a) || bool_decide (unsent (endpoint (t_link (k_tunnel c)) x) = []))) q.
Record requested (x : bool) (a : bridge_action) (q : bool -> bool) (c c' : Closing) : Prop := {
  rq_flow : k_flow (exact_with x a c q) c';
  rq_effects : effects x [a] (k_tunnel c) (k_tunnel c');
  rq_closed : local_closed_ (endpoint (t_link (k_tunnel c')) x) = local_closed_ (endpoint (t_link (k_tunnel c)) x) || closes a;
  rq_unsent : is_write1 a = false -> unsent (endpoint (t_link (k_tunnel c)) x) = [] -> unsent (endpoint (t_link (k_tunnel c')) x) = []
}.
Lemma exact_same x a c q : closes a = false -> forall y, exact_with x a c q y = q y.
Proof. intros Ha y. unfold exact_with. rewrite Ha. cbn [negb orb]. rewrite andb_true_r. apply upd_idem. Qed.
(** The event of the stream, if the request is for it. *)
Definition asks (a : bridge_action) : option event :=
  match a with
  | write_to D1 p => Some (ev_write [p] 0) | read_exact n => Some (MuxStream.ev_read true n 0)
  | read_some D2 n => Some (MuxStream.ev_read false n 0) | close_both => Some ev_close | _ => None
  end.
Definition refuses (x : bool) (a : bridge_action) (c : Closing) : bool := is_write1 a && refused x (t_link (k_tunnel c)).
Lemma k_perform_asks x a c : k_perform_one x a c =
  match asks a with
  | Some ev => k_app x ev (refuses x a c) c
  | None => Some (match a with write_to D2 p => with_tunnel (put_out x p (k_tunnel c)) c | _ => c end)
  end.
Proof. by destruct a as [[]| | |[]| |]. Qed.
Lemma asks_facts x a ev q c : asks a = Some ev -> request_ok x q a c -> let st := endpoint (t_link (k_tunnel c)) x in
  received [ev] = [] /\ is_close ev = closes a /\ well_used (local_closed_ st) [ev] = true /\
  (forall ec, ev <> ev_send_failed ec) /\ (accepted ev st <> [] -> q x = true) /\ written D2 [a] = [] /\
  (if is_write1 a then accepted ev st = (if refused x (t_link (k_tunnel c)) then [] else concat (written D1 [a]))
   else accepted ev st = [] /\ written D1 [a] = []).
Proof.
  intros Ha [Hw Hr].
  destruct a as [[] n|n| |[] p| |]; try done; injection Ha as <-; cbn [requests_read is_write1] in *;
    try (destruct (Hr _ _ eq_refl) as [Hn ->]; apply Z.leb_le in Hn; cbn; by rewrite Hn).
  - cbn. split_and!; try done. by intros _; apply Hw.
  - cbn. by split_and!.
Qed.
Lemma perform_requested x a q c c' : k_flow q c -> given_fits c -> request_ok x q a c -> k_perform_one x a c = Some c' ->
  requested x a q c c'.
Proof.
  intros Hk Hz Hr E. rewrite k_perform_asks in E. destruct (asks a) as [ev|] eqn:Ea.
  - destruct (asks_facts x a ev q c Ea Hr) as (F1 & F2 & F3 & F4 & F5 & F6 & F7).
    destruct (app_flow q x ev (refuses x a c) c c' Hk Hz E F1 F3 F4 F5) as [G1 (st & acts & -> & [S1 _ S3 S4 _ _ S7])].
    rewrite F2 in *. unfold exact_after in G1. rewrite F2 in G1. split; [exact G1| | |].
    + eapply set_link_effects; [reflexivity|by cbn; rewrite S7|exact F6|]. unfold refuses.
      cbn [k_after k_tunnel set_link t_link after gave t_lost]. unfold writes_at. cbn. rewrite upd_same, upd_same.
      destruct a as [| | |[] p| |]; cbn [is_write1 andb written omap list_omap] in *; try match type of F7 with _ /\ _ => destruct F7 as [-> _]; by rewrite app_nil_r, orb_false_r end.
      rewrite F7. destruct (refused _ _); [right|left]; by rewrite ?orb_true_r, ?orb_false_r, ?app_nil_r.
    + cbn. by rewrite upd_same.
    + intros Hn Hu. cbn. rewrite upd_same. rewrite Hn in F7. destruct F7 as [F7 _]. destruct (closes a) eqn:Ec.
      * destruct (S4 eq_refl) as [_ H4]. rewrite Hu in H4. by apply prefix_nil_inv.
      * specialize (S3 eq_refl). rewrite Hu, F7 in S3. by apply app_eq_nil in S3 as [_ ?].
  - injection E as <-. assert (Hs : closes a = false) by (by destruct a).
    assert (Hsame : endpoint (t_link (k_tunnel (match a with write_to D2 p => with_tunnel (put_out x p (k_tunnel c)) c | _ => c end))) =
      endpoint (t_link (k_tunnel c))) by (by destruct a as [| | |[]| |]).
    split; rewrite ?Hsame, ?Hs, ?orb_false_r; try done.
    + intros y. rewrite exact_same by done. specialize (Hk y). by destruct a as [| | |[]| |].
    + destruct a as [[]| | |[] p| |]; try done; try (by apply effects_nothing). apply effects_put_out.
Qed.

(** ** The invariant
    What is exact, sent and closed at an end, by the phase of its bridge: an
    end that goes on, or whose packet waits for the limiter, has lost nothing,
    and only while it writes is anything unsent. *)
Record end_ok (x exact : bool) (c : Closing) : Prop := {
  eo_exact : stopped_ (t_bridge (k_tunnel c) x) = false \/ (exists p n, phase1 (t_bridge (k_tunnel c) x) = limited p n) -> exact = true;
  eo_sent : phase1 (t_bridge (k_tunnel c) x) <> writing -> phase1 (t_bridge (k_tunnel c) x) <> halted ->
            unsent (endpoint (t_link (k_tunnel c)) x) = [];
  eo_closed : local_closed_ (endpoint (t_link (k_tunnel c)) x) = true -> stopped_ (t_bridge (k_tunnel c) x) = true;
  eo_started : stopped_ (t_bridge (k_tunnel c) x) = true -> phase1 (t_bridge (k_tunnel c) x) = not_started ->
               phase2 (t_bridge (k_tunnel c) x) <> not_started
}.
Definition ends_ok (c : Closing) : Prop := exists q, k_flow q c /\ forall x, end_ok x (q x) c.
Lemma end_same x exact c c' : end_ok x exact c -> t_bridge (k_tunnel c') x = t_bridge (k_tunnel c) x ->
  local_closed_ (endpoint (t_link (k_tunnel c')) x) = local_closed_ (endpoint (t_link (k_tunnel c)) x) ->
  (unsent (endpoint (t_link (k_tunnel c)) x) = [] -> unsent (endpoint (t_link (k_tunnel c')) x) = []) -> end_ok x exact c'.
Proof. intros [H1 H2 H3 H4] E1 E2 E3. split; rewrite ?E1, ?E2; try done. intros; by apply E3, H2. Qed.
(** One request at [e], whose bridge is now [b]. *)
Lemma request_ends e b a q c c1 c' : requested e a q c1 c' -> k_perform_one e a c1 = Some c' -> (forall x, end_ok x (q x) c) ->
  t_link (k_tunnel c1) = t_link (k_tunnel c) -> t_bridge (k_tunnel c1) = upd e b (t_bridge (k_tunnel c)) ->
  (t_bridge (k_tunnel c') e = b -> end_ok e (exact_with e a c1 q e) c') -> ends_ok c'.
Proof.
  intros [R1 _ _ _] E Hends El Eb He. destruct (k_perform_one_other _ _ _ _ E) as (P1 & P2 & _). exists (exact_with e a c1 q).
  split; [done|]. intros x. destruct (Bool.bool_dec x e) as [->|Hx].
  - apply He. by rewrite P1, Eb, upd_same.
  - assert (x = negb e) as -> by (by destruct x, e). unfold exact_with. rewrite upd_other by (by destruct e).
    apply (end_same _ _ c); [done| |by rewrite P2, El..]. rewrite P1, Eb. by rewrite upd_other by (by destruct e).
Qed.
Section Interrupted.
Context `{ZstdLaws}.
Variables (compressed : bool) (level : bool -> Z) (limiter : bool -> bool).
(** A step that stops the bridge ends the direction of the event. *)
Lemma stop_halts lvl lim ev b b' acts : bridge_step compressed lvl lim ev b = Some (b', acts) -> stopped_ b = false -> stopped_ b' = true ->
  phase_of (event_dir ev) b' = halted.
Proof.
  intros E Hs Hs'. assert (Hf : forall d r, r = fail d b -> phase_of d r.1 = halted) by (intros d r ->; by destruct (fail_effects d b)).
  assert (Hg : forall d p n, Some (forward lim d p n b) = Some (b', acts) -> False).
  { intros d p n [= E1]. unfold forward, write_op in E1. destruct lim, d; injection E1 as <- _; cbn in Hs'; congruence. }
  assert (Hr : forall d, Some (DoRead compressed d b) = Some (b', acts) -> False).
  { intros d [= E1]. unfold DoRead in E1. destruct compressed, d; injection E1 as <- _; cbn in Hs'; congruence. }
  assert (Hk : forall d, Some (fail d b) = Some (b', acts) -> phase_of d b' = halted) by (intros d [= E1]; symmetry in E1; by rewrite <- (Hf d _ E1)).
  destruct ev as [d ec data|d|d ec]; cbn [bridge_step event_dir] in *.
  - destruct (negb _); [done|]. unfold on_chunk, on_header, on_body in E.
    destruct d, (phase_of _ b); try done; repeat (case_match; try by eauto); try (by exfalso; eauto).
    injection E as <- _. cbn in Hs'. congruence.
  - destruct (phase_of d b); try done. injection E as <- _. destruct d; cbn in Hs'; congruence.
  - destruct (phase_of d b); try done. unfold on_written in E. case_match; [by exfalso; eauto|eauto].
Qed.
(** An event of a bridge; [c0] is [c] with what the event read recorded. *)
Definition same_flow (c c0 : Closing) : Prop := t_link (k_tunnel c0) = t_link (k_tunnel c) /\ t_bridge (k_tunnel c0) = t_bridge (k_tunnel c) /\
  k_given_back c0 = k_given_back c.
Definition at_bridge (e : bool) (b : Bridge) (c0 : Closing) : Closing := with_tunnel (set_bridge e b (k_tunnel c0)) c0.
Lemma at_flow q e b c c0 : same_flow c c0 -> k_flow q c -> k_flow q (at_bridge e b c0).
Proof. intros (E1 & _ & E3) Hk x. specialize (Hk x). cbn. by rewrite E1, E3. Qed.
Lemma at_fits e b c c0 : same_flow c c0 -> given_fits c -> given_fits (at_bridge e b c0).
Proof. intros (E1 & _) Hz x. specialize (Hz x). cbn. by rewrite E1. Qed.
Lemma at_bridges e b c c0 : same_flow c c0 -> t_bridge (k_tunnel (at_bridge e b c0)) = upd e b (t_bridge (k_tunnel c)).
Proof. intros (_ & E2 & _). cbn. by rewrite E2. Qed.
(** A bridge that goes on makes one request. *)
Lemma going_ends e b a ev q c c0 c' : same_flow c c0 -> k_flow q c -> given_fits c -> (forall x, end_ok x (q x) c) ->
  let b0 := t_bridge (k_tunnel c) e in stopped_ b0 = false -> (exists b1, one_request ev b1 b a /\ stopped_ b1 = stopped_ b0) ->
  (phase1 b <> writing -> phase1 b <> halted -> is_write1 a = false /\ unsent (endpoint (t_link (k_tunnel c)) e) = []) ->
  k_perform_one e a (at_bridge e b c0) = Some c' ->
  ends_ok c' /\ effects e [a] (k_tunnel (at_bridge e b c0)) (k_tunnel c').
Proof.
  intros Hf Hk Hz Hends b0 Hs (b1 & [[O1 O2] O3 O4] & Hs1) Hun E. pose proof (Hends e) as [X1 X2 X3 X4].
  assert (Ha : closes a = false) by (by destruct a). pose proof Hf as (El & _).
  assert (Hreq : request_ok e q a (at_bridge e b c0)).
  { split; [intros _; by apply X1; left|]. intros all n Hr. split; [destruct (event_dir ev); [by destruct O3 as [O3 _]; rewrite O3 in Hr|by apply (proj1 (proj2 O3) all)]|].
    cbn. rewrite El. destruct (local_closed_ _) eqn:Elc; [|done]. specialize (X3 eq_refl). subst b0. congruence. }
  pose proof (perform_requested _ _ _ _ _ (at_flow _ _ _ _ _ Hf Hk) (at_fits _ _ _ _ Hf Hz) Hreq E) as Rq. split; [|apply Rq].
  apply (request_ends e b a q c _ _ Rq E Hends El (at_bridges _ _ _ _ Hf)). intros Hb. destruct Rq as [_ _ R3 R4]. cbn in R3, R4. rewrite El in R3, R4.
  split; rewrite ?Hb.
  - intros _. rewrite exact_same by done. by apply X1; left.
  - intros H1 H2. destruct (Hun H1 H2). by apply R4.
  - intros Hl. rewrite R3, Ha, orb_false_r in Hl. specialize (X3 Hl). subst b0. congruence.
  - subst b0. congruence.
Qed.
(** A bridge that stops closes its end of the stream. *)
Lemma stopping_ends e b ev q c c0 c' : same_flow c c0 -> k_flow q c -> given_fits c -> (forall x, end_ok x (q x) c) ->
  let b0 := t_bridge (k_tunnel c) e in stopped_ b0 = false -> stopped_ b = true -> phase_of (event_dir ev) b = halted ->
  phase_of (other (event_dir ev)) b = phase_of (other (event_dir ev)) b0 ->
  k_perform_one e close_both (at_bridge e b c0) = Some c' ->
  ends_ok c' /\ effects e [close_both] (k_tunnel (at_bridge e b c0)) (k_tunnel c').
Proof.
  intros Hf Hk Hz Hends b0 Hs Hsb Hh Ho E. pose proof (Hends e) as [X1 X2 X3 X4]. pose proof Hf as (El & _).
  assert (Hreq : request_ok e q close_both (at_bridge e b c0)) by (by split).
  pose proof (perform_requested _ _ _ _ _ (at_flow _ _ _ _ _ Hf Hk) (at_fits _ _ _ _ Hf Hz) Hreq E) as Rq. split; [|apply Rq].
  apply (request_ends e b _ q c _ _ Rq E Hends El (at_bridges _ _ _ _ Hf)). intros Hb. destruct Rq as [_ _ R3 R4]. cbn in R3, R4. rewrite El in R3, R4.
  assert (Hph : phase1 b <> halted -> phase1 b = phase1 b0 /\ phase2 b = halted) by (by destruct (event_dir ev)).
  split; rewrite ?Hb.
  - intros [?|(p & n & Hp)]; [congruence|]. destruct Hph as [Hp0 _]; [by rewrite Hp|]. unfold exact_with. rewrite upd_same. cbn. rewrite El.
    rewrite X1 by (left; exact Hs). rewrite X2; [done|by fold b0; rewrite <- Hp0, Hp..].
  - intros H1 H2. apply R4; [done|]. destruct Hph as [Hp0 _]; [done|]. apply X2; fold b0; by rewrite <- Hp0.
  - done.
  - intros _ Hp. destruct Hph as [_ Hp2]; [by rewrite Hp|]. by rewrite Hp2.
Qed.
(** The packet that waited for the limiter when the bridge stopped. *)
Lemma released_ends e b p n q c c0 c' : same_flow c c0 -> k_flow q c -> given_fits c -> (forall x, end_ok x (q x) c) ->
  phase1 (t_bridge (k_tunnel c) e) = limited p n -> stopped_ b = true -> phase1 b = writing ->
  k_perform_one e (write_to D1 p) (at_bridge e b c0) = Some c' ->
  ends_ok c' /\ effects e [write_to D1 p] (k_tunnel (at_bridge e b c0)) (k_tunnel c').
Proof.
  intros Hf Hk Hz Hends Hl Hs Hw E. pose proof (Hends e) as [X1 X2 X3 X4]. pose proof Hf as (El & _).
  assert (Hreq : request_ok e q (write_to D1 p) (at_bridge e b c0)) by (split; [intros _; apply X1; right; eauto|done]).
  pose proof (perform_requested _ _ _ _ _ (at_flow _ _ _ _ _ Hf Hk) (at_fits _ _ _ _ Hf Hz) Hreq E) as Rq. split; [|apply Rq].
  apply (request_ends e b _ q c _ _ Rq E Hends El (at_bridges _ _ _ _ Hf)). intros Hb.
  split; rewrite ?Hb; try done; [|congruence]. intros [?|(p' & n' & Hp)]; congruence.
Qed.
(** Going on without writing, an end has nothing unsent. *)
Lemma sent_before e ev b a q c lvl lim : let b0 := t_bridge (k_tunnel c) e in
  bridge_step compressed lvl lim ev b0 = Some (b, [a]) -> one_request ev b0 b a -> end_ok e (q e) c ->
  (ev = ev_written D1 ec_ok -> unsent (endpoint (t_link (k_tunnel c)) e) = []) ->
  phase1 b <> writing -> phase1 b <> halted -> is_write1 a = false /\ unsent (endpoint (t_link (k_tunnel c)) e) = [].
Proof.
  intros b0 Eb [_ _ O] [_ X _ _] Hw Hp1 Hp2. destruct (event_dir ev) eqn:Hd.
  - split; [destruct (is_write1 a); [by destruct Hp1; apply O|done]|]. pose proof (sender_step _ _ _ _ _ _ _ Eb Hd) as Hm. subst b0.
    inversion Hm; subst; try congruence; try (by apply Hw). apply X; congruence.
  - destruct O as [O ->]. split; [done|]. subst b0. apply X; by rewrite <- O.
Qed.
Lemma at_event e ev c c0 c' : same_flow c c0 -> ends_ok c -> given_fits c -> k_at compressed level limiter e ev c0 = Some c' ->
  (ev = ev_written D1 ec_ok -> unsent (endpoint (t_link (k_tunnel c)) e) = []) ->
  ends_ok c' /\ exists b acts, bridge_step compressed (level e) (limiter e) ev (t_bridge (k_tunnel c) e) = Some (b, acts) /\
    effects e acts (set_bridge e b (k_tunnel c0)) (k_tunnel c').
Proof.
  intros Hf (q & Hk & Hends) Hz E Hw. unfold k_at in E. rewrite (proj1 (proj2 Hf)) in E. set (b0 := t_bridge (k_tunnel c) e) in *.
  destruct (stopped_ b0 && _) eqn:Hst; [done|]. destruct (bridge_step _ _ _ ev b0) as [[b acts]|] eqn:Eb; [|done].
  change (k_perform e acts (at_bridge e b c0) = Some c') in E.
  enough (He : ends_ok c' /\ effects e acts (set_bridge e b (k_tunnel c0)) (k_tunnel c')) by (split; [apply He|exists b, acts; by split; [|apply He]]).
  assert (Hone : forall a, k_perform e [a] (at_bridge e b c0) = Some c' -> k_perform_one e a (at_bridge e b c0) = Some c')
    by (intros a Ea; cbn [k_perform] in Ea; by destruct (k_perform_one e a _)).
  destruct (stopped_ b0) eqn:Hs.
  - destruct ev as [| [] |]; try done. pose proof Eb as Eb'. cbn [bridge_step phase_of] in Eb. destruct (phase1 b0) as [| | | |p n| |] eqn:Hp; try done.
    injection Eb as <- <-. by eapply (released_ends e _ p n q c c0 c'); eauto.
  - destruct (stopped_ b) eqn:Hsb.
    + destruct (bridge_step_requests _ _ _ _ _ _ _ Eb Hs) as [[-> _]|(a & -> & [[O _] _ _])]; [|congruence].
      destruct (step_frame _ _ _ _ _ _ _ Eb) as [Ho _]. pose proof (stop_halts _ _ _ _ _ _ Eb Hs Hsb) as Hh.
      cbn [k_perform] in E. destruct (k_perform_one e close_both _) as [c1|] eqn:E1; [|done]. injection E as <-.
      by eapply (stopping_ends e b ev q c c0 c1).
    + destruct (bridge_step_requests _ _ _ _ _ _ _ Eb Hs) as [[_ ?]|(a & -> & Or)]; [congruence|]. apply Hone in E.
      eapply (going_ends e b a ev q c c0 c'); try done; [by exists b0|]. by eapply sent_before.
Qed.
Lemma started_event e c b acts c' : ends_ok c -> given_fits c -> phase1 (t_bridge (k_tunnel c) e) = not_started ->
  phase2 (t_bridge (k_tunnel c) e) = not_started -> Start compressed (t_bridge (k_tunnel c) e) = (b, acts) ->
  k_perform e acts (with_tunnel (set_bridge e b (k_tunnel c)) c) = Some c' ->
  ends_ok c' /\ effects e acts (set_bridge e b (k_tunnel c)) (k_tunnel c').
Proof.
  intros (q & Hk & Hends) Hz H1 H2 Es E. destruct (start_requests _ _ _ _ Es) as (a & -> & Hsb & Or). cbn [k_perform k_perform_one mbind option_bind] in E.
  destruct (k_perform_one e a _) as [c1|] eqn:E1; [|done]. injection E as <-. pose proof (Hends e) as [X1 X2 X3 X4].
  assert (Hs : stopped_ (t_bridge (k_tunnel c) e) = false) by (destruct (stopped_ (t_bridge _ e)) eqn:Hs; [by destruct (X4 eq_refl H1)|done]).
  destruct (going_ends e b a (ev_written D2 ec_ok) q c c c1) as [G1 G2]; try done; [by eexists|].
  intros _ _. split; [by destruct Or as [_ _ [_ ?]]|]. apply X2; by rewrite H1.
Qed.
(** ** The runs *)
Variable id : Z.
Definition closing_inv (c : Closing) : Prop := ends_ok c /\ dirs_ok compressed level (k_tunnel c).
Lemma ends_order c : ends_ok c -> in_order (t_link (k_tunnel c)).
Proof. intros (q & Hk & _) x. exact (flow_order _ _ _ _ _ _ _ (Hk x)). Qed.
Lemma closing_step_inv ev c c' : closing_inv c -> given_fits c -> closing_step compressed level limiter ev c = Some c' -> closing_inv c'.
Proof.
  intros [He Hd] Hz E. pose proof (ends_order c He) as Ho. pose proof He as (q & Hk & Hends).
  assert (Hat : forall x ev0 c0, same_flow c c0 -> k_at compressed level limiter x ev0 c0 = Some c' ->
    (ev0 = ev_written D1 ec_ok -> unsent (endpoint (t_link (k_tunnel c)) x) = []) ->
    (forall b acts, bridge_step compressed (level x) (limiter x) ev0 (t_bridge (k_tunnel c) x) = Some (b, acts) ->
      effects x acts (set_bridge x b (k_tunnel c0)) (k_tunnel c') -> dirs_ok compressed level (k_tunnel c')) -> closing_inv c').
  { intros x ev0 c0 Hf E0 Hw Hdirs. destruct (at_event x ev0 c c0 c' Hf He Hz E0 Hw) as (He' & b & acts & Eb & Ef). split; [done|by eapply Hdirs]. }
  destruct ev as [x|x ec data|x d|x d ec|x|x ec|x]; cbn [closing_step] in E; [| | | | |done|].
  - destruct (phase1 _) eqn:H1; try done. destruct (phase2 _) eqn:H2; try done. destruct (Start _ _) as [b acts] eqn:Es.
    destruct (started_event x c b acts c' He Hz H1 H2 Es E) as [He' Ef]. split; [done|]. by eapply start_dirs.
  - destruct (decide (ec = ec_ok)) as [->|Hec].
    + destruct (0 <? zlen data) eqn:Ez; [|done]. bool_hyps. refine (Hat x _ _ _ E _ _); [done|done|]. intros b acts Eb Ef.
      apply (sender_dirs _ _ limiter x (ev_read D1 ec_ok data) (k_tunnel c) (took_in x data (k_tunnel c)) b acts); try done;
        [by cbn; rewrite upd_same|by cbn; rewrite upd_other by (by destruct x)|by intros ? [= <-]].
    + eapply (Hat x _ c ltac:(done) E); [by intros [=]|]. intros b acts Eb Ef.
      apply (sender_dirs _ _ limiter x (ev_read D1 ec []) (k_tunnel c) (k_tunnel c) b acts); try done; [by rewrite app_nil_r|by intros ? [= ? <-]].
  - eapply (Hat x _ c ltac:(done) E); [done|]. intros b acts Eb Ef. destruct d.
    + apply (sender_dirs _ _ limiter x (ev_tokens D1) (k_tunnel c) (k_tunnel c) b acts); try done. by rewrite app_nil_r.
    + by apply (receiver_dirs _ _ limiter x (ev_tokens D2) (k_tunnel c) (k_tunnel c) b acts).
  - destruct d.
    + destruct (bool_decide (ec = ec_ok) && _) eqn:El; [done|].
      assert (Hok : ec = ec_ok -> t_lost (k_tunnel c) x = false /\ all_sent x (k_tunnel c) = true).
      { intros ->. rewrite bool_decide_eq_true_2 in El by done. cbn [andb] in El. apply orb_false_iff in El as [? ?%negb_false_iff]. done. }
      eapply (Hat x _ c ltac:(done) E).
      * intros [= ->]. destruct (Hok eq_refl) as [_ Ha]. unfold all_sent in Ha. unfold unsent. by destruct (pending_writes_ _).
      * intros b acts Eb Ef. apply (sender_dirs _ _ limiter x (ev_written D1 ec) (k_tunnel c) (k_tunnel c) b acts); try done; [by rewrite app_nil_r|].
        intros [= ->]. by apply Hok.
    + eapply (Hat x _ c ltac:(done) E); [done|]. intros b acts Eb Ef.
      by apply (receiver_dirs _ _ limiter x (ev_written D2 ec) (k_tunnel c) (k_tunnel c) b acts).
  - destruct (t_inbox (k_tunnel c) x) as [|data rest] eqn:Ei.
    + destruct (k_ends c x) as [|ec rest]; [done|]. refine (Hat x _ _ _ E _ _); [done|done|]. intros b acts Eb Ef.
      by apply (receiver_dirs _ _ limiter x (ev_read D2 ec []) (k_tunnel c) (k_tunnel c) b acts).
    + refine (Hat x _ _ _ E _ _); [done|done|]. intros b acts Eb Ef.
      apply (receiver_dirs _ _ limiter x (ev_read D2 ec_ok data) (k_tunnel c) (set_inbox x rest (k_tunnel c)) b acts); try done;
        [by cbn; rewrite upd_same, Ei|by cbn; rewrite upd_other by (by destruct x)].
  - destruct (deliver_flow q x c c' Hk Hz E) as (Hk' & D1' & D2' & D3 & D4 & D5 & D6 & D7 & D8). split.
    + exists q. split; [done|]. intros y. apply (end_same _ _ c); rewrite ?D1'; try done. apply D8.
    + intros y. destruct (Hd y) as (chunks & handled & Hsend & Hgot & Hrecv). exists chunks, handled. unfold dir_ok.
      rewrite D1', D2', D3, D4, D5. split; [done|]. split; [by apply D6|done].
Qed.
(** What an end has given only grows. *)
Definition grows (c c' : Closing) : Prop := forall x, gave (t_link (k_tunnel c)) x `prefix_of` gave (t_link (k_tunnel c')) x.
#[local] Instance grows_preorder : PreOrder grows.
Proof. split; [by intros c x|]. intros c1 c2 c3 H1 H2 x. etrans; [apply H1|apply H2]. Qed.
Lemma k_after_grows x ev st acts l lost c : gave l = gave (t_link (k_tunnel c)) -> grows c (k_after x ev st acts l lost c).
Proof.
  intros E y. cbn. rewrite E. unfold upd. destruct (Bool.eqb x y) eqn:Ex; [|done]. apply Bool.eqb_prop in Ex as ->. by eexists.
Qed.
Lemma k_perform_grows x acts c c' : k_perform x acts c = Some c' -> grows c c'.
Proof.
  revert c. induction acts as [|a acts IH]; intros c E; cbn [k_perform] in E; [by injection E as <-|].
  destruct (k_perform_one x a c) as [c1|] eqn:E1; [|done]. cbn [mbind option_bind] in E. transitivity c1; [|by apply IH].
  rewrite k_perform_asks in E1. destruct (asks a) as [ev|].
  - unfold k_app in E1. destruct (step_event _ _ _) as [[st ac]|]; [|done]. injection E1 as <-. by apply k_after_grows.
  - injection E1 as <-. intros y. by destruct a as [| | |[]| |].
Qed.
Lemma closing_step_grows ev c c' : closing_step compressed level limiter ev c = Some c' -> grows c c'.
Proof.
  assert (Hat : forall x ev0 c0, k_at compressed level limiter x ev0 c0 = Some c' -> t_link (k_tunnel c0) = t_link (k_tunnel c) -> grows c c').
  { intros x ev0 c0 E El. unfold k_at in E. destruct (_ && _); [done|]. destruct (bridge_step _ _ _ _ _) as [[b acts]|]; [|done].
    cbn [mbind option_bind] in E. apply k_perform_grows in E. intros y. specialize (E y). cbn in E. by rewrite El in E. }
  intros E. destruct ev as [x|x ec data|x d|x d ec|x|x ec|x]; cbn [closing_step] in E; [| | | | |done|].
  - destruct (phase1 _); try done. destruct (phase2 _); try done. destruct (Start _ _) as [b acts]. by apply k_perform_grows in E.
  - destruct (decide _); [destruct (0 <? _); [|done]|]; by eapply Hat.
  - by eapply Hat.
  - destruct d; [destruct (_ && _); [done|]|]; by eapply Hat.
  - destruct (t_inbox _ x), (k_ends c x); try done; by eapply Hat.
  - unfold k_deliver in E. destruct (wire _ _); [done|]. destruct (k_given_back c x); [injection E as <-; by intros y|].
    destruct (frame_events _) as [|ev [|]]; try done. destruct (step_event _ _ _) as [[st acts]|]; [|done]. injection E as <-. by apply k_after_grows.
Qed.
Lemma closing_run_grows evs c c' : closing_run compressed level limiter evs c = Some c' -> grows c c'.
Proof.
  revert c. induction evs as [|ev evs IH]; intros c E; cbn [closing_run] in E; [by injection E as <-|].
  destruct (closing_step _ _ _ ev c) as [c1|] eqn:E1; [|done]. transitivity c1; [by eapply closing_step_grows|by apply IH].
Qed.
Lemma grows_fits c c' : grows c c' -> given_fits c' -> given_fits c.
Proof. intros Hg Hz x. specialize (Hz x). destruct (Hg x) as [k Hk]. rewrite Hk in Hz. zsize. Qed.
Lemma closing_run_inv evs c c' : closing_inv c -> given_fits c' -> closing_run compressed level limiter evs c = Some c' -> closing_inv c'.
Proof.
  revert c. induction evs as [|ev evs IH]; intros c Hi Hz E; cbn [closing_run] in E; [by injection E as <-|].
  destruct (closing_step _ _ _ ev c) as [c1|] eqn:E1; [|done]. apply (IH c1); try done. eapply closing_step_inv; [done| |done].
  eapply grows_fits; [|exact Hz]. transitivity c1; [by eapply closing_step_grows|by eapply closing_run_grows].
Qed.
Lemma still_open_inv : closing_inv (still_open (new_tunnel id)).
Proof.
  split; [|exact (proj2 (new_tunnel_inv compressed level id))]. exists (fun _ => true). split.
  - intros x. exists []. split; cbn; try done. rewrite zlen_nil, Z.sub_0_r. by apply new_stream_inv.
  - intros x. by split.
Qed.
End Interrupted.


(** ** A run
    The service's connection refuses a write while the service's answer is on
    its way and the user's next packet waits for the limiter: the packet is
    sent all the same once the user's end has stopped, and dropped. *)
Definition interrupting : list tunnel_event :=
  [t_start true; t_start false; t_plain true ec_ok demo_data; t_tokens true D1; t_deliver false; t_stream false; t_stream false;
   t_written true D1 ec_ok; t_plain true ec_ok [x64]; t_plain false ec_ok [x63]; t_written false D2 ec_operation_aborted;
   t_deliver true; t_stream true; t_stream true; t_deliver true; t_tokens true D2; t_written true D2 ec_ok; t_stream true;
   t_tokens true D1; t_deliver false; t_deliver false].
Definition interrupted_end : Closing := default (still_open (new_tunnel 7))
  (@closing_run rle_zstd true demo_level demo_limiter interrupting (still_open (new_tunnel 7))).
Lemma interrupted_reached : @closing_run rle_zstd true demo_level demo_limiter interrupting (still_open (new_tunnel 7)) = Some interrupted_end.
Proof. vm_compute. reflexivity. Qed.
(** The packet reached an end that had forgotten the stream. *)
Lemma interrupted_state : k_given_back interrupted_end false = true /\ wire (t_link (k_tunnel interrupted_end)) true = [] /\
  t_in (k_tunnel interrupted_end) true = demo_data ++ [x64] /\ t_out (k_tunnel interrupted_end) true = [x63] /\
  got (t_link (k_tunnel interrupted_end)) false <> gave (t_link (k_tunnel interrupted_end)) true.
Proof. vm_compute. done. Qed.
