(* ===== verification/Draining.v ===== *)
(** * A tunnel runs dry (async_bridge.cpp and mux.cpp together)

    After the end of one connection (Closing.v) the other end needs nothing from
    outside to get to its own end but that its completions are handled: every
    state is left by a step that delivers, handles, releases or completes, and a
    measure of what is still under way falls. *)
From Stdlib Require Import ZArith Lia Strings.Byte.
From stdpp Require Import base tactics list.
From S2P Require Import Prelude Protocol Zstd MuxFrame MuxStream MuxSession MuxFlow StreamEnd Bridge Tunnel TunnelRequests Closing.
Local Open Scope Z_scope.

Section Progress.
Context `{ZstdLaws}.
Hypothesis empty_no_frame : frame_content_size [] = None.
Variables (compressed : bool) (level : bool -> Z) (limiter : bool -> bool) (id : Z).
(** The steps of the direction towards [y]. *)
Definition towards (y : bool) (ev : tunnel_event) : Prop :=
  ev = t_deliver y \/ ev = t_stream y \/ ev = t_tokens y D2 \/ ev = t_written y D2 ec_ok.
Definition work_left (ph : phase) : Z := match ph with limited _ _ => 2 | writing => 1 | _ => 0 end.
Lemma work_left_nonneg ph : 0 <= work_left ph.
Proof. destruct ph; cbn; lia. Qed.
(** What end [y] has handled of the stream. *)
Definition handled_len (y : bool) (t : Tunnel) : Z := zlen (got (t_link t) y) - zlen (concat (t_inbox t y)).
Definition to_do (x : bool) (t : Tunnel) (c : Closing) : Z :=
  4 * (zlen (gave (t_link t) x) - handled_len (negb x) t) + 4 * zlen (wire (t_link (k_tunnel c)) x) +
  work_left (phase2 (t_bridge t (negb x))).
Lemma prefix_zlen {A} (l k : list A) : l `prefix_of` k -> zlen l <= zlen k.
Proof. intros [m ->]. rewrite zlen_app. pose proof (zlen_nonneg m). lia. Qed.
Lemma to_do_nonneg x t c : tunnel_inv compressed level id t -> 0 <= to_do x t c.
Proof.
  intros [Hs _]. unfold to_do, handled_len. pose proof (prefix_zlen _ _ (got_prefix id _ x Hs)).
  pose proof (zlen_nonneg (concat (t_inbox t (negb x)))). pose proof (zlen_nonneg (wire (t_link (k_tunnel c)) x)).
  pose proof (work_left_nonneg (phase2 (t_bridge t (negb x)))). lia.
Qed.
Lemma handled_of y K t : got (t_link t) y = K ++ concat (t_inbox t y) -> handled_len y t = zlen K.
Proof. unfold handled_len. intros ->. rewrite zlen_app. lia. Qed.

(** One request of the other end, on both sides of the comparison. *)
Lemma perform_forward x a b t0 t' K : perform_one (negb x) a (set_bridge (negb x) b t0) = Some t' ->
  got (t_link t0) (negb x) = K ++ concat (t_inbox t0 (negb x)) ->
  gave (t_link t') x = gave (t_link t0) x /\ handled_len (negb x) t' = zlen K /\ phase2 (t_bridge t' (negb x)) = phase2 b.
Proof.
  intros E HK. apply perform_one_spec in E as (P1 & P2 & P3 & P4 & P5 & P6 & P7). cbn [t_bridge t_link set_bridge] in *.
  split; [by apply P6; destruct x|]. split; [|by rewrite P2, upd_same]. apply handled_of, P4. done.
Qed.
Lemma k_perform_wire y a c c' : k_perform_one y a c = Some c' ->
  wire (t_link (k_tunnel c')) (negb y) = wire (t_link (k_tunnel c)) (negb y).
Proof.
  assert (Hl : forall ev lost, k_app y ev lost c = Some c' -> wire (t_link (k_tunnel c')) (negb y) = wire (t_link (k_tunnel c)) (negb y)).
  { intros ev lost. unfold k_app. destruct (step_event _ _ _) as [[st acts]|]; [|done]. intros [= <-]. cbn. by rewrite upd_other. }
  destruct a as [[] n|n|d n|[] p| |]; cbn [k_perform_one]; try (by apply Hl); by intros [= <-].
Qed.
(** A read can always be asked. *)
Lemma read_enabled x all n t c : stream_follows x t c -> star link_step (new_link id) (t_link t) -> 0 <= n ->
  pending_reads_ (endpoint (t_link t) (negb x)) = [] -> is_Some (k_app (negb x) (MuxStream.ev_read all n 0) false c).
Proof.
  intros F Hs Hn Hp. destruct (open_end id (negb x) t Hs) as (Hq & _ & _). unfold k_app.
  set (st := endpoint (t_link (k_tunnel c)) (negb x)).
  assert (Hst : pending_reads_ st = [] /\ queue_ok st).
  { subst st. destruct (sf_link _ _ _ F) as [(-> & _)|(-> & _)]; [done|]. by split. }
  destruct Hst as [Hp' Hq'].
  assert (E : step_event true (MuxStream.ev_read all n 0) st = do_read_from_buffer true (set_pending_reads [mk_read all n] st))
    by (destruct all; cbn [step_event]; unfold async_read, async_read_some; by rewrite Hp').
  destruct (do_read_spec true (set_pending_reads [mk_read all n] st)) as (st' & acts & Ed & _); [done|by constructor|].
  rewrite E, Ed. by eexists.
Qed.
Lemma request_enabled x a t c : stream_follows x t c -> star link_step (new_link id) (t_link t) -> is_write1 a = false -> a <> close_both ->
  (forall all n, requests_read a = Some (all, n) -> 0 <= n /\ pending_reads_ (endpoint (t_link t) (negb x)) = []) ->
  is_Some (k_perform_one (negb x) a c).
Proof.
  intros F Hs Hw Hc Hr. destruct a as [[] n|n|d n|[] p| |]; cbn [k_perform_one] in *; try done; try (by eexists);
    (destruct (Hr _ _ eq_refl)); by eapply read_enabled.
Qed.
(** An event of the direction at the other end, as it goes on: what has been
    handled is [K]. *)
Lemma forward_event x ev tev t t0 c c0 b a K : draining compressed level id x t c -> stream_follows x t0 c0 ->
  t_bridge t0 = t_bridge t -> t_link t0 = t_link t -> t_bridge (k_tunnel c0) = t_bridge (k_tunnel c) ->
  t_link (k_tunnel c0) = t_link (k_tunnel c) -> t_out t0 = t_out t -> t_in t0 x = t_in t x ->
  tunnel_step compressed level limiter tev t = bridge_event_at compressed level limiter (negb x) ev t0 ->
  closing_step compressed level limiter tev c = k_at compressed level limiter (negb x) ev c0 ->
  waits_for (phase2 (t_bridge t (negb x))) = None \/ t_inbox t (negb x) <> [] ->
  bridge_step compressed (level (negb x)) (limiter (negb x)) ev (t_bridge t (negb x)) = Some (b, [a]) ->
  event_dir ev = D2 -> got (t_link t) (negb x) = K ++ concat (t_inbox t0 (negb x)) ->
  exists c' t', closing_step compressed level limiter tev c = Some c' /\ draining compressed level id x t' c' /\
    gave (t_link t') x = gave (t_link t) x /\ handled_len (negb x) t' = zlen K /\
    phase2 (t_bridge t' (negb x)) = phase2 b /\ wire (t_link (k_tunnel c')) x = wire (t_link (k_tunnel c)) x.
Proof.
  intros D F E1 E2 E3 E4 E5 E6 Et Ec Hd Eb Hdir HK. pose proof D as [Hi Hg Hp Ho Hb Hal _ Hrest].
  destruct (bridge_step_requests _ _ _ _ _ _ _ Eb Hal) as [[Hacts _]|(a' & [= <-] & Hreq)]; [done|].
  pose proof (or_going _ _ _ _ Hreq) as [Hst Hnc]. rewrite Hal in Hst.
  pose proof (or_read _ _ _ _ Hreq) as Hr. pose proof (or_write _ _ _ _ Hreq) as Hw. rewrite Hdir in Hr, Hw.
  assert (Hreads : forall all n, requests_read a = Some (all, n) -> 0 <= n /\ pending_reads_ (endpoint (t_link t) (negb x)) = [])
    by (intros all n Har; split; [by eapply Hr|by apply idle_read]).
  set (c1 := with_tunnel (set_bridge (negb x) b (k_tunnel c0)) c0).
  assert (F1 : stream_follows x (set_bridge (negb x) b t0) c1) by (destruct F; by split).
  destruct (request_enabled x a _ c1 F1) as [c' Ea]; [cbn; rewrite E2; apply Hi|apply Hw|done|by cbn; rewrite E2|].
  assert (Ek : k_at compressed level limiter (negb x) ev c0 = Some c').
  { unfold k_at. rewrite E3, Hb, Hal. cbn [andb]. rewrite Eb. cbn [mbind option_bind k_perform]. fold c1. by rewrite Ea. }
  destruct (event_follows empty_no_frame compressed level limiter id x ev tev t t0 c c0 c' D F) as [(t' & Et' & D')|B]; try done.
  { by rewrite E4. }
  - exists c', t'. rewrite Ec, Ek. split; [done|]. split; [done|].
    rewrite Et in Et'. unfold bridge_event_at in Et'. rewrite E1, Hal, Eb in Et'. cbn [mbind option_bind perform] in Et'.
    destruct (perform_one (negb x) a _) as [t1|] eqn:Ep; [|done]. injection Et' as ->.
    destruct (perform_forward x a b t0 t' K Ep) as (P1 & P2 & P3); [by rewrite E2|]. rewrite P1, E2. split; [done|]. split; [done|].
    split; [done|]. pose proof (k_perform_wire _ _ _ _ Ea) as Hwire. rewrite negb_involutive in Hwire. rewrite Hwire. cbn. by rewrite E4.
  - exfalso. destruct B as [B _ _]. destruct (k_perform_one_other _ _ _ _ Ea) as (Q1 & _). specialize (B (negb x)).
    rewrite Q1 in B. cbn in B. rewrite upd_same in B. congruence.
Qed.

(** ** What is received is taken *)
Lemma forward_one lim p n b : exists b' a, forward lim D2 p n b = (b', [a]) /\ work_left (phase2 b') <= 2 /\ phase2 b' <> not_started.
Proof. unfold forward, write_op. destruct lim; (eexists _, _; split; [done|]); (split; [cbn; lia|done]). Qed.
(** The next read of the receiver is a prefix of what is left of the packets. *)
Lemma received_header x t chunks handled d : dir_ok compressed level x t chunks handled -> star link_step (new_link id) (t_link t) ->
  t_inbox t (negb x) = [d] -> phase2 (t_bridge t (negb x)) = reading_header -> zlen d = 4 ->
  Z.land (be_val d) LENGTH_MASK <= read_size.
Proof.
  intros (Hsend & Hgot & Hrecv) Hs Hib Hph Hd. rewrite Hib, Hph in *. cbn [concat] in Hgot. rewrite app_nil_r in Hgot.
  assert (Hpre : handled ++ d `prefix_of` packets compressed (level x) chunks)
    by (eapply handled_prefix; [exact Hs|exact Hsend|exact Hgot|by rewrite app_nil_r]).
  destruct Hsend as (Hc & _). unfold recv_ok in Hrecv. destruct compressed eqn:Hcomp; [|done].
  destruct Hrecv as (dn & rest & -> & -> & _). rewrite packets_of_app in Hpre. apply prefix_app_inv in Hpre.
  destruct rest as [|ch rest]; [apply prefix_nil_inv in Hpre; by subst d|].
  apply Forall_app in Hc as [_ Hc]. apply Forall_cons in Hc as [Hch _].
  destruct (packet_shape true (level x) ch eq_refl Hch) as (h & body & Hp & Hh & Hl & Hm & _).
  change (ch :: rest) with ([ch] ++ rest) in Hpre. rewrite packets_of_app, packets_one, Hp, <- app_assoc in Hpre.
  apply (prefix_take_eq h d _ 4) in Hpre as ->; [|done|done]. lia.
Qed.
Lemma received_body x t chunks handled d len flag : dir_ok compressed level x t chunks handled -> star link_step (new_link id) (t_link t) ->
  t_inbox t (negb x) = [d] -> phase2 (t_bridge t (negb x)) = reading_body len flag -> zlen d = len ->
  exists ch, chunk_ok ch /\ body_holds flag d ch /\ d <> [].
Proof.
  intros (Hsend & Hgot & Hrecv) Hs Hib Hph Hd. rewrite Hib, Hph in *. cbn [concat] in Hgot. rewrite app_nil_r in Hgot.
  assert (Hpre : handled ++ d `prefix_of` packets compressed (level x) chunks)
    by (eapply handled_prefix; [exact Hs|exact Hsend|exact Hgot|by rewrite app_nil_r]).
  destruct Hsend as (Hc & _). unfold recv_ok in Hrecv. destruct compressed eqn:Hcomp; [|done].
  destruct Hrecv as (dn & rest & -> & _ & ch & rest' & h & body & -> & Hp & Hh & Hl & -> & Hb).
  apply Forall_app in Hc as [_ Hc]. apply Forall_cons in Hc as [Hch _].
  rewrite packets_of_app in Hpre. change (ch :: rest') with ([ch] ++ rest') in Hpre.
  rewrite (packets_of_app _ _ [ch]), packets_one, Hp, <- !app_assoc in Hpre. do 2 apply prefix_app_inv in Hpre.
  apply (prefix_take_eq body d _ len) in Hpre as ->; [|done|done]. exists ch. split; [done|]. split; [done|].
  by eapply (packet_body empty_no_frame true (level x) ch h).
Qed.
Lemma received_taken x t d all n : tunnel_inv compressed level id t -> t_inbox t (negb x) = [d] ->
  waits_for (phase2 (t_bridge t (negb x))) = Some (all, n) -> read_len all n d ->
  exists b a, bridge_step compressed (level (negb x)) (limiter (negb x)) (ev_read D2 ec_ok d) (t_bridge t (negb x)) = Some (b, [a]) /\
    work_left (phase2 b) <= 2 /\ phase2 b <> not_started /\ d <> [].
Proof.
  intros [Hs Hdir] Hib Hw Hl. destruct (Hdir x) as (chunks & handled & Hok). set (y := negb x) in *.
  cbn [bridge_step phase_of]. unfold read_fits. rewrite decide_True by done.
  destruct (phase2 (t_bridge t y)) as [| | |len flag| | |] eqn:Hph; try done; injection Hw as <- <-; unfold read_len in Hl.
  - destruct Hl as [Hl Hne]. specialize (Hne ltac:(done)). rewrite (proj2 (Z.leb_le _ _)) by done. cbn [negb].
    destruct Hok as (_ & _ & Hrecv). fold y in Hrecv. rewrite Hph in Hrecv. unfold on_chunk. rewrite decide_True by done.
    unfold recv_ok in Hrecv. destruct compressed; [by destruct Hrecv as (? & ? & _ & [])|].
    destruct (forward_one (limiter y) d (zlen d) (t_bridge t y)) as (b & a & -> & Hwork & Hns). by exists b, a.
  - rewrite Hl. cbn [Z.eqb negb Pos.eqb]. pose proof (received_header x t chunks handled d Hok Hs Hib Hph Hl) as Hlen.
    unfold on_header. rewrite decide_True by done. destruct (MAX_MESSAGE_SIZE <? _) eqn:El; bool_hyps.
    { unfold MAX_MESSAGE_SIZE, read_size in *. lia. }
    eexists _, _. split; [done|]. split; [cbn; lia|]. split; [done|]. intros ->. by cbn in Hl.
  - destruct (received_body x t chunks handled d len flag Hok Hs Hib Hph Hl) as (ch & Hch & Hb & Hne).
    rewrite Hl, Z.eqb_refl. cbn [negb]. unfold on_body. rewrite decide_True by done.
    destruct Hb as [[-> ->]|(-> & Hsz & Hdec)].
    + destruct (forward_one (limiter y) ch (zlen ch) (t_bridge t y)) as (b & a & -> & Hwork & Hns). by exists b, a.
    + rewrite Hsz. destruct (MAX_DECOMPRESSED_SIZE <? zlen ch) eqn:El; bool_hyps.
      { unfold chunk_ok, MAX_DECOMPRESSED_SIZE, read_size in *. lia. }
      rewrite Hdec. destruct (forward_one (limiter y) ch (zlen ch) (t_bridge t y)) as (b & a & -> & Hwork & Hns). by exists b, a.
Qed.

(** ** Delivering *)
Lemma frame_form_one f : frame_form f -> exists ev, frame_events f = [ev].
Proof.
  intros [(i & Hh & Hl)|(i & n & -> & Hn)]; [|by eexists]. unfold frame_events. rewrite Hh. cbn.
  replace (0 <? zlen f.2) with true by (symmetry; apply Z.ltb_lt; lia). by eexists.
Qed.
Lemma k_deliver_wire y c c' : k_deliver y c = Some c' ->
  wire (t_link (k_tunnel c)) (negb y) <> [] /\ wire (t_link (k_tunnel c')) (negb y) = tail (wire (t_link (k_tunnel c)) (negb y)).
Proof.
  unfold k_deliver. destruct (wire _ (negb y)) as [|f rest]; [done|]. intros E. split; [done|]. cbn [tail].
  destruct (k_given_back c y); [injection E as <-; cbn; by rewrite upd_same|].
  destruct (frame_events f) as [|ev [|]]; try done. destruct (step_event _ _ _) as [[st acts]|]; [|done]. injection E as <-.
  cbn. rewrite upd_other by done. by rewrite upd_same.
Qed.
Lemma deliver_enabled x t c : draining compressed level id x t c -> wire (t_link (k_tunnel c)) x <> [] ->
  is_Some (k_deliver (negb x) c).
Proof.
  intros D Hw. pose proof D as [Hi Hg Hp Ho Hb Hal F Hrest]. unfold k_deliver. rewrite (sf_known _ _ _ F), negb_involutive.
  destruct (open_end id (negb x) t) as (Hq & Hrc & Hlc); [apply Hi|].
  pose proof (sf_link _ _ _ F) as Hl. cbn zeta in Hl. destruct Hl as [(E1 & E2 & i & E3)|(_ & E2 & _)]; [|done].
  rewrite E3, E1. destruct (wire (t_link t) x) as [|f rest] eqn:Ew; cbn [app].
  - change (frame_events (fin_frame i)) with [ev_remote_close]. cbn [step_event].
    rewrite (fin_arrives _ _ Hq Hlc eq_refl (fin_ready empty_no_frame compressed level id x t c D Ew)). by eexists.
  - assert (Hinv : link_inv (t_link t)) by (apply (reachable_inv id), Hi). pose proof Ew as Ew'. rewrite <- (negb_involutive x) in Ew'.
    destruct (wire_split _ _ _ _ Hinv Ew') as (Hf & _). destruct (frame_form_one f Hf) as [ev Ef]. rewrite Ef.
    destruct (next_frame _ _ _ _ _ Hinv Ew' Ef) as [[n ->]|(d & -> & Hok & Hz & _)]; cbn [step_event].
    + destruct (handle_window_update _ _ _). by eexists.
    + unfold handle_data. destruct (do_read_spec true _ Hok Hz) as (st' & acts & -> & _). by eexists.
Qed.
Lemma deliver_progress x t c : draining compressed level id x t c -> wire (t_link (k_tunnel c)) x <> [] ->
  exists c' t', closing_step compressed level limiter (t_deliver (negb x)) c = Some c' /\ draining compressed level id x t' c' /\
    to_do x t' c' < to_do x t c /\ phase2 (t_bridge t' (negb x)) = phase2 (t_bridge t (negb x)).
Proof.
  intros D Hw. destruct (deliver_enabled x t c D Hw) as [c' Ek]. cbn [closing_step].
  destruct (deliver_follows empty_no_frame compressed level limiter id x t c c' D Ek) as (t' & Ht & D').
  apply k_deliver_wire in Ek as Hwire. rewrite negb_involutive in Hwire. destruct Hwire as [_ Hwire].
  exists c', t'. split; [done|]. split; [done|].
  assert (Hsame : gave (t_link t') x = gave (t_link t) x /\ handled_len (negb x) t' = handled_len (negb x) t /\
    t_bridge t' = t_bridge t).
  { destruct Ht as [->|Ht]; [done|]. cbn [tunnel_step] in Ht. destruct (link_deliver _ _) as [[l posts]|] eqn:El; [|done]. injection Ht as <-.
    apply link_deliver_spec in El as (_ & Hv & Hgot). split; [apply Hv|]. split; [|done].
    destruct (dr_inv _ _ _ _ _ _ D) as [_ Hdir]. destruct (Hdir x) as (chunks & handled & _ & HK & _).
    rewrite (handled_of _ _ _ HK). apply handled_of. by apply (set_link_handled (negb x) l posts false t). }
  destruct Hsame as (S1 & S2 & S3). rewrite S3. split; [|done]. unfold to_do. rewrite S1, S2, S3, Hwire.
  destruct (wire (t_link (k_tunnel c)) x) as [|f rest]; [done|]. cbn [tail]. unfold zlen. cbn [length]. lia.
Qed.

(** ** To the end *)
Lemma end_progress x t c ec ends : draining compressed level id x t c -> t_inbox t (negb x) = [] -> k_ends c (negb x) = ec :: ends ->
  exists c', closing_step compressed level limiter (t_stream (negb x)) c = Some c' /\ both_ended x c' /\
    t_out (k_tunnel c') (negb x) = t_in (k_tunnel c') x.
Proof.
  intros D Hib He. pose proof D as [Hi Hg Hp Ho Hb Hal F Hrest].
  assert (Hec : ec = ec_eof /\ waits_for (phase2 (t_bridge t (negb x))) <> None).
  { pose proof (sf_link _ _ _ F) as Hl. cbn zeta in Hl. rewrite He in Hl. destruct Hl as [(_ & Hl & _)|(_ & _ & _ & Hl)]; [done|].
    destruct (Hg (negb x) Hal) as [I1 _ _]. unfold outstanding_ok in I1. destruct (pending_reads_ _); [done|].
    injection Hl as -> ->. split; [done|]. intros Hw. rewrite Hw in I1. by destruct I1. }
  destruct Hec as [-> Hw]. cbn [closing_step]. rewrite (sf_inbox _ _ _ F), Hib, He.
  set (c0 := {| k_tunnel := k_tunnel c; k_ends := upd (negb x) ends (k_ends c); k_given_back := k_given_back c |}).
  assert (Eb : bridge_step compressed (level (negb x)) (limiter (negb x)) (ev_read D2 ec_eof []) (t_bridge t (negb x)) =
    Some (fail D2 (t_bridge t (negb x)))).
  { cbn [bridge_step phase_of]. unfold read_fits. rewrite decide_False by done. cbn [negb].
    unfold on_chunk, on_header, on_body. destruct (phase2 _); try done; by rewrite decide_False. }
  destruct (fail D2 (t_bridge t (negb x))) as [b acts] eqn:Ef. apply (f_equal Some) in Ef.
  apply fail_stops in Ef as [Hacts Hst]; [|done]. cbn [fst snd] in Hacts, Hst. subst acts.
  assert (Ek : exists c', k_at compressed level limiter (negb x) (ev_read D2 ec_eof []) c0 = Some c').
  { unfold k_at. cbn [k_tunnel c0]. rewrite Hb, Hal, Eb. cbn [andb mbind option_bind k_perform k_perform_one]. unfold k_app. cbn [step_event].
    destruct (MuxStream.close _ _). by eexists. }
  destruct Ek as [c' Ek]. exists c'. split; [done|].
  pose proof (told_of_end compressed level limiter id x t c c' ec_eof _ D ltac:(rewrite He; by left) Ek) as B. split; [done|].
  pose proof (draining_whole empty_no_frame compressed level id x t c D ltac:(by rewrite He)) as Hall.
  unfold k_at in Ek. cbn [k_tunnel c0] in Ek. rewrite Hb, Hal, Eb in Ek. cbn [andb mbind option_bind] in Ek.
  apply (k_perform_silent (negb x)) in Ek as (_ & -> & ->); [done|right; intros p Hin].
  repeat (apply elem_of_cons in Hin as [?|Hin]; [done|]). by apply elem_of_nil in Hin.
Qed.
Definition advances (x : bool) (t : Tunnel) (c c' : Closing) : Prop :=
  (exists t', draining compressed level id x t' c' /\ phase2 (t_bridge t' (negb x)) <> not_started /\ to_do x t' c' < to_do x t c) \/
  (both_ended x c' /\ t_out (k_tunnel c') (negb x) = t_in (k_tunnel c') x).
Lemma progress x t c : draining compressed level id x t c -> phase2 (t_bridge t (negb x)) <> not_started ->
  exists ev c', towards (negb x) ev /\ closing_step compressed level limiter ev c = Some c' /\ advances x t c c'.
Proof.
  intros D Hst. pose proof D as [Hi Hg Hp Ho Hb Hal F Hrest]. pose proof Hi as [Hs Hdir].
  destruct (Hdir x) as (chunks & handled & _ & HK & _). pose proof (handled_of _ _ _ HK) as Hlen.
  destruct (Hg (negb x) Hal) as [I1 _ I3]. unfold outstanding_ok in I1.
  (* an event that handles nothing more *)
  assert (Hsame : forall ev tev b a, towards (negb x) tev -> event_dir ev = D2 ->
    tunnel_step compressed level limiter tev t = bridge_event_at compressed level limiter (negb x) ev t ->
    closing_step compressed level limiter tev c = k_at compressed level limiter (negb x) ev c ->
    waits_for (phase2 (t_bridge t (negb x))) = None ->
    bridge_step compressed (level (negb x)) (limiter (negb x)) ev (t_bridge t (negb x)) = Some (b, [a]) ->
    phase2 b <> not_started -> work_left (phase2 b) < work_left (phase2 (t_bridge t (negb x))) ->
    exists ev c', towards (negb x) ev /\ closing_step compressed level limiter ev c = Some c' /\ advances x t c c').
  { intros ev tev b a Htow Hd Et Ec Hw Eb Hns Hwork.
    destruct (forward_event x ev tev t t c c b a handled D F) as (c' & t' & E' & D' & G1 & G2 & G3 & G4); try done; [by left|].
    exists tev, c'. split; [done|]. split; [done|]. left. exists t'. split; [done|]. rewrite G3. split; [done|].
    unfold to_do. rewrite G1, G2, G3, G4, Hlen. lia. }
  (* a completed read is handled, a frame is delivered, or the end is learned *)
  assert (Hwait : forall all n, waits_for (phase2 (t_bridge t (negb x))) = Some (all, n) ->
    exists ev c', towards (negb x) ev /\ closing_step compressed level limiter ev c = Some c' /\ advances x t c c').
  { intros all n Hw. rewrite Hw in I1. destruct I1 as [[Hpr Hib]|[Hpr (d & Hib & Hl)]].
    - destruct (wire (t_link (k_tunnel c)) x) as [|f rest] eqn:Ewire.
      + pose proof (sf_link _ _ _ F) as Hlk. cbn zeta in Hlk. rewrite Hpr, Ewire in Hlk.
        destruct Hlk as [(_ & _ & i & Hlk)|(_ & _ & _ & He)]; [by destruct (wire (t_link t) x)|].
        destruct (end_progress x t c _ _ D Hib He) as (c' & E' & B & Hout). exists (t_stream (negb x)), c'.
        split; [right; by left|]. split; [done|by right].
      + destruct (deliver_progress x t c D) as (c' & t' & E' & D' & Hless & Hph); [by rewrite Ewire|].
        exists (t_deliver (negb x)), c'. split; [by left|]. split; [done|]. left. exists t'. by rewrite Hph.
    - destruct (received_taken x t d all n Hi Hib Hw Hl) as (b & a & Eb & Hwork & Hns & Hne).
      destruct (forward_event x (ev_read D2 ec_ok d) (t_stream (negb x)) t (set_inbox (negb x) [] t) c
        (with_tunnel (set_inbox (negb x) [] (k_tunnel c)) c) b a (handled ++ d) D) as (c' & t' & E' & D' & G1 & G2 & G3 & G4); try done.
      + destruct F as [F1 F2 F3 F4 F5 F6]. split; cbn; rewrite ?upd_same; done.
      + cbn [tunnel_step]. by rewrite Hib.
      + cbn [closing_step]. by rewrite (sf_inbox _ _ _ F), Hib.
      + right. by rewrite Hib.
      + rewrite HK, Hib. cbn. by rewrite upd_same, !app_nil_r.
      + exists (t_stream (negb x)), c'. split; [right; by left|]. split; [done|]. left. exists t'. split; [done|].
        rewrite G3. split; [done|]. unfold to_do. rewrite G1, G2, G3, G4, Hlen, zlen_app.
        assert (0 < zlen d) by (destruct d; [done|unfold zlen; cbn; lia]). pose proof (work_left_nonneg (phase2 (t_bridge t (negb x)))). lia. }
  destruct (phase2 (t_bridge t (negb x))) eqn:Hph; try done; try by eapply Hwait.
  - eapply (Hsame (ev_tokens D2) (t_tokens (negb x) D2)); [right; right; by left|done..| | |];
    [cbn [bridge_step phase_of]; by rewrite Hph|done|done].
  - eapply (Hsame (ev_written D2 ec_ok) (t_written (negb x) D2 ec_ok) (DoRead compressed D2 (t_bridge t (negb x))).1
      (if compressed then read_exact 4 else read_some D2 read_size)); try done.
    + do 3 right. done.
    + cbn [bridge_step phase_of]. rewrite Hph. unfold on_written, DoRead. rewrite decide_True by done. by destruct compressed.
    + unfold DoRead. by destruct compressed.
    + unfold DoRead. by destruct compressed.
Qed.
Lemma runs_dry x t c : draining compressed level id x t c -> phase2 (t_bridge t (negb x)) <> not_started ->
  exists evs c', Forall (towards (negb x)) evs /\ closing_run compressed level limiter evs c = Some c' /\ both_ended x c' /\
    t_out (k_tunnel c') (negb x) = t_in (k_tunnel c') x.
Proof.
  remember (Z.to_nat (to_do x t c)) as n eqn:Hn. revert t c Hn. induction (lt_wf n) as [n _ IH]. intros t c -> D Hs.
  destruct (progress x t c D Hs) as (ev & c1 & Ht & E & [(t1 & D1 & Hs1 & Hless)|[B Hout]]).
  - pose proof (to_do_nonneg x t1 c1 (dr_inv _ _ _ _ _ _ D1)).
    destruct (IH (Z.to_nat (to_do x t1 c1)) ltac:(lia) t1 c1 eq_refl D1 Hs1) as (evs & c2 & Hts & E2 & B & Hout).
    exists (ev :: evs), c2. split; [by constructor|]. cbn [closing_run]. by rewrite E.
  - exists [ev], c1. split; [by constructor|]. cbn [closing_run]. by rewrite E.
Qed.
End Progress.

(** C6 The end of a connection does not cut off what was read from it.  When the connection of one end
    is over, that end closes the stream and does nothing more; in every continuation - any interleaving
    of reads, writes, tokens and deliveries, whichever frames cross the FIN - the other end writes out a
    prefix of what had been read, and is not told of the end before all of it has been written out; and
    from wherever such a continuation has come while the other end is up, delivering what is under way
    and completing what the bridge has asked for leads to the point where everything has been written
    and both ends have stopped. *)
Theorem tunnel_drains_after_end `{ZstdLaws} (compressed : bool) (level : bool -> Z) (limiter : bool -> bool) (id : Z) (x : bool)
    (evs evs' : list tunnel_event) (ec : error_code) (t : Tunnel) (c : Closing)
    (Hempty : frame_content_size [] = None)
    (Hrun : tunnel_run compressed level limiter evs (new_tunnel id) = Some t)
    (Hopen : forall y, stopped_ (t_bridge t y) = false) (Hec : ec <> ec_ok)
    (Hend : closing_run compressed level limiter (t_plain x ec [] :: evs') (still_open t) = Some c) :
  let y := negb x in let t' := k_tunnel c in
  t_in t' x = t_in t x /\ t_out t' y `prefix_of` t_in t x /\
  (stopped_ (t_bridge t' y) = false ->
   (k_ends c y <> [] -> t_out t' y = t_in t x) /\
   (phase2 (t_bridge t' y) <> not_started ->
    exists more c', Forall (towards y) more /\ closing_run compressed level limiter more c = Some c' /\
      t_out (k_tunnel c') y = t_in t x /\ forall z, stopped_ (t_bridge (k_tunnel c') z) = true)).
Proof.
  cbn [closing_run] in Hend. destruct (closing_step _ _ _ _ (still_open t)) as [c1|] eqn:E1; [|done]. cbn [mbind option_bind] in Hend.
  pose proof (end_learned _ _ _ _ _ _ _ _ _ Hrun Hopen Hec E1) as Hd. cbn zeta.
  destruct (closing_run_silent _ _ _ x _ _ _ (ar_stopped _ _ (dr_rest _ _ _ _ _ _ Hd)) Hend) as (Hsx & Hin & _).
  rewrite (sf_in _ _ _ (dr_follows _ _ _ _ _ _ Hd)) in Hin. split; [done|]. rewrite <- Hin.
  destruct (draining_run Hempty compressed level limiter id x evs' t c1 c (or_introl Hd) Hend) as [[t1 Hd1]|[B1 _ B3]];
    [|split; [done|by rewrite B1]].
  pose proof (dr_follows _ _ _ _ _ _ Hd1) as F1. split; [|intros _; split; [by eapply draining_whole|]].
  - rewrite (sf_out _ _ _ F1), (sf_in _ _ _ F1). eapply (out_prefix compressed level limiter id), Hd1.
  - rewrite (dr_bridge _ _ _ _ _ _ Hd1). intros Hs.
    destruct (runs_dry Hempty compressed level limiter id x t1 c Hd1 Hs) as (more & c' & Hm & E & [B1 _ _] & Hout).
    exists more, c'. split; [done|]. split; [done|]. rewrite Hout. split; [|done].
    by destruct (closing_run_silent _ _ _ x _ _ _ Hsx E) as (_ & -> & _).
Qed.

(** The run of [user_ends], after which the service's end still holds bytes. *)
Lemma tunnel_drains_after_end_witness : t_out (k_tunnel (ending user_ends)) false = [] /\
  exists more c', closing_run (H := rle_zstd) true demo_level demo_limiter more (ending user_ends) = Some c' /\
    t_out (k_tunnel c') false = demo_data.
Proof.
  assert (Hrun : @tunnel_run rle_zstd true demo_level demo_limiter before_end (new_tunnel 7) = Some before_tunnel) by (vm_compute; reflexivity).
  assert (Hend : @closing_run rle_zstd true demo_level demo_limiter user_ends (still_open before_tunnel) = Some (ending user_ends))
    by (vm_compute; reflexivity).
  assert (Hin : t_in before_tunnel true = demo_data) by (vm_compute; reflexivity).
  split; [vm_compute; reflexivity|]. rewrite <- Hin.
  destruct (proj2 (proj2 (proj2 (@tunnel_drains_after_end rle_zstd rle_laws true demo_level demo_limiter 7 true before_end _ ec_eof before_tunnel _
    ltac:(vm_compute; reflexivity) Hrun ltac:(intros []; vm_compute; reflexivity) ltac:(discriminate) Hend)) ltac:(vm_compute; reflexivity))
    ltac:(vm_compute; discriminate)) as (more & c' & _ & E & Hout & _).
  exists more, c'. split; [exact E|exact Hout].
Defined.
