(* ===== verification/WebSocket.v ===== *)
(** * WebSocket transport (src/common/websocket_stream.cpp, websocket_utils.h)

    Frames, the frame reader, the buffered reads over it, the write queue, and
    the opening handshake.  SHA-1 and Base64 (wolfSSL) and the random masks are
    parameters.  The bytes the underlying stream will deliver are the field
    [ws_input]; an operation that needs more of them than there are waits
    ([None]). *)
From Stdlib Require Import ZArith Lia Strings.Byte String.
From stdpp Require Import base tactics list.
From S2P Require Import Prelude Protocol Text.
Local Open Scope Z_scope.

(** ** Frames *)
Definition mask_byte (mask : list byte) (i : nat) : byte := nth (i mod 4) mask Byte.x00.
Definition xor_byte (a b : byte) : byte := byte_of_Z (Z.lxor (byte_to_Z a) (byte_to_Z b)).
Fixpoint apply_mask_from (i : nat) (mask data : list byte) : list byte :=
  match data with
  | [] => []
  | d :: data' => xor_byte d (mask_byte mask i) :: apply_mask_from (S i) mask data'
  end.
Definition apply_mask (mask data : list byte) : list byte := apply_mask_from 0 mask data.

(** The length part of a header: [mask_bit] is 0x80 or 0. *)
Definition length_bytes (mask_bit len : Z) : list byte :=
  if len <=? 125 then [byte_of_Z (Z.lor mask_bit len)]
  else if len <=? 65535 then byte_of_Z (Z.lor mask_bit 126) :: be_bytes 2 len
  else byte_of_Z (Z.lor mask_bit 127) :: be_bytes 8 len.

(** One frame as [async_write] builds it; [mask] is drawn from [rng_]. *)
Definition data_frame (is_client : bool) (mask : list byte) (buffers : list (list byte)) : list byte :=
  let payload := concat buffers in
  Byte.x82 :: length_bytes (if is_client then 0x80 else 0) (zlen payload) ++
  (if is_client then mask ++ apply_mask mask payload else payload).

(** The frame [SendPong] builds. *)
Definition pong_frame (is_client : bool) (mask payload : list byte) : list byte :=
  Byte.x8a ::
  (if is_client then byte_of_Z (Z.lor (wrap 8 (zlen payload)) 0x80) :: mask ++ apply_mask mask payload
   else byte_of_Z (wrap 8 (zlen payload)) :: payload).

(** ** The reading side *)
Record WsReader : Type := {
  ws_input : list byte;       (* what the underlying stream will deliver *)
  read_buffer_ : list byte;
  read_offset_ : Z;
  read_remaining_ : Z;
  ws_closed : bool;           (* close() was called on the underlying stream *)
  pongs : list (list byte)    (* payloads given to SendPong *)
}.

Definition set_input (i : list byte) (w : WsReader) : WsReader := {|
  ws_input := i; read_buffer_ := read_buffer_ w; read_offset_ := read_offset_ w;
  read_remaining_ := read_remaining_ w; ws_closed := ws_closed w; pongs := pongs w |}.
Definition set_read (buf : list byte) (off rem : Z) (w : WsReader) : WsReader := {|
  ws_input := ws_input w; read_buffer_ := buf; read_offset_ := off; read_remaining_ := rem;
  ws_closed := ws_closed w; pongs := pongs w |}.
Definition close_underlying (w : WsReader) : WsReader := {|
  ws_input := ws_input w; read_buffer_ := read_buffer_ w; read_offset_ := read_offset_ w;
  read_remaining_ := read_remaining_ w; ws_closed := true; pongs := pongs w |}.
Definition SendPong (payload : list byte) (w : WsReader) : WsReader := {|
  ws_input := ws_input w; read_buffer_ := read_buffer_ w; read_offset_ := read_offset_ w;
  read_remaining_ := read_remaining_ w; ws_closed := ws_closed w; pongs := pongs w ++ [payload] |}.

(** [underlying_->async_read] of [n] bytes. *)
Definition take_input (n : Z) (w : WsReader) : option (list byte * WsReader) :=
  if zlen (ws_input w) <? n then None
  else Some (ztake n (ws_input w), set_input (zdrop n (ws_input w)) w).

(** The lambda [next_step] after the length is known; [again] is the recursive
    call of [ReadWsFrame]. *)
Definition next_step (again : WsReader -> option (error_code * Z * WsReader))
    (opcode : Z) (masked : bool) (len : Z) (w : WsReader) : option (error_code * Z * WsReader) :=
  if MAX_MESSAGE_SIZE <? len then Some (ec_no_buffer_space, 0, close_underlying w) else
  let extra := if masked then 4 else 0 in
  '(payload, w1) ← take_input (len + extra) w;
  let data := if masked then apply_mask (ztake 4 payload) (ztake len (zdrop 4 payload))
              else payload in
  let stored := if masked then ztake 4 payload ++ data else payload in
  if opcode =? 0x08 then Some (ec_eof, 0, close_underlying w1)
  else if opcode =? 0x09 then again (SendPong data w1)
  else if opcode =? 0x0A then again w1
  else Some (ec_ok, len, set_read stored (if masked then 4 else 0) len w1).

(** [ReadWsFrame]; [fuel] bounds the control frames it skips. *)
Fixpoint ReadWsFrame (fuel : nat) (w : WsReader) : option (error_code * Z * WsReader) :=
  match fuel with
  | O => None
  | S fuel' =>
    '(header, w1) ← take_input 2 w;
    let b0 := byte_to_Z (nth 0 header Byte.x00) in
    let b1 := byte_to_Z (nth 1 header Byte.x00) in
    let opcode := Z.land b0 0x0F in
    let fin := negb (Z.land b0 0x80 =? 0) in
    let masked := negb (Z.land b1 0x80 =? 0) in
    let payload_len := Z.land b1 0x7F in
    if (0x08 <=? opcode) && (negb fin || (125 <? payload_len))
    then Some (ec_no_buffer_space, 0, close_underlying w1)
    else if payload_len =? 126 then
      '(ext, w2) ← take_input 2 w1; next_step (ReadWsFrame fuel') opcode masked (be_val ext) w2
    else if payload_len =? 127 then
      '(ext, w2) ← take_input 8 w1; next_step (ReadWsFrame fuel') opcode masked (be_val ext) w2
    else next_step (ReadWsFrame fuel') opcode masked payload_len w1
  end.

(** Every frame takes at least two bytes of input. *)
Definition frame_fuel (w : WsReader) : nat := S (length (ws_input w)).

Definition async_read_some (size : Z) (w : WsReader) : option (error_code * list byte * WsReader) :=
  if size =? 0 then Some (ec_ok, [], w) else
  if 0 <? read_remaining_ w then
    let to_copy := Z.min (read_remaining_ w) size in
    let out := ztake to_copy (zdrop (read_offset_ w) (read_buffer_ w)) in
    let rem := read_remaining_ w - to_copy in
    Some (ec_ok, out,
          set_read (if rem =? 0 then [] else read_buffer_ w) (read_offset_ w + to_copy) rem w)
  else
    '(ec, len, w1) ← ReadWsFrame (frame_fuel w) w;
    if decide (ec = ec_ok) then
      let to_copy := Z.min len size in
      let out := ztake to_copy (zdrop (read_offset_ w1) (read_buffer_ w1)) in
      Some (ec_ok, out,
            if to_copy <? len then set_read (read_buffer_ w1) (read_offset_ w1 + to_copy) (len - to_copy) w1
            else set_read [] 0 0 w1)
    else Some (ec, [], w1).

(** [async_read] repeats until the buffer is full; each round but the last
    uses up a frame or the buffered rest. *)
Fixpoint async_read_loop (fuel : nat) (size : Z) (w : WsReader)
  : option (error_code * list byte * WsReader) :=
  match fuel with
  | O => None
  | S fuel' =>
    if size =? 0 then Some (ec_ok, [], w) else
    '(ec, out, w1) ← async_read_some size w;
    if decide (ec = ec_ok) then
      if zlen out <? size then
        '(ec2, out2, w2) ← async_read_loop fuel' (size - zlen out) w1;
        Some (ec2, out ++ out2, w2)
      else Some (ec_ok, out, w1)
    else Some (ec, [], w1)
  end.
Definition async_read (size : Z) (w : WsReader) : option (error_code * list byte * WsReader) :=
  async_read_loop (S (S (length (ws_input w)))) size w.

(** ** The writing side *)
Record WsWriter : Type := { write_queue_ : list (list byte * option (nat * Z)); is_writing_ : bool }.
Inductive ws_action : Type :=
| write_underlying (bytes : list byte)
| call_handler (h : nat) (ec : error_code) (n : Z).

Definition do_write (w : WsWriter) : WsWriter * list ws_action :=
  match write_queue_ w with
  | [] => (w, [])
  | (frame, _) :: _ => ({| write_queue_ := write_queue_ w; is_writing_ := true |}, [write_underlying frame])
  end.

Definition enqueue (frame : list byte) (handler : option (nat * Z)) (w : WsWriter)
  : WsWriter * list ws_action :=
  let w1 := {| write_queue_ := write_queue_ w ++ [(frame, handler)]; is_writing_ := is_writing_ w |} in
  if is_writing_ w then (w1, []) else do_write w1.

Definition async_write (is_client : bool) (mask : list byte) (buffers : list (list byte)) (h : nat)
    (w : WsWriter) : WsWriter * list ws_action :=
  enqueue (data_frame is_client mask buffers) (Some (h, zlen (concat buffers))) w.
Definition send_pong (is_client : bool) (mask payload : list byte) (w : WsWriter)
  : WsWriter * list ws_action :=
  enqueue (pong_frame is_client mask payload) None w.

(** The completion of the underlying write; a data write reports the size of
    its payload whatever the outcome. *)
Definition on_write_done (ec : error_code) (w : WsWriter) : option (WsWriter * list ws_action) :=
  match write_queue_ w with
  | [] => None
  | (_, handler) :: q =>
    let calls := match handler with Some (h, n) => [call_handler h ec n] | None => [] end in
    let w1 := {| write_queue_ := q; is_writing_ := is_writing_ w |} in
    match q with
    | [] => Some ({| write_queue_ := []; is_writing_ := false |}, calls)
    | _ => let '(w2, acts) := do_write w1 in Some (w2, calls ++ acts)
    end
  end.

(** ** Specification: frames on the wire *)
(** A frame with first byte [b0]. *)
Definition raw_frame (b0 : byte) (is_client : bool) (mask payload : list byte) : list byte :=
  b0 :: length_bytes (if is_client then 0x80 else 0) (zlen payload) ++
  (if is_client then mask ++ apply_mask mask payload else payload).

Inductive ws_item : Type :=
| item_data (mask : list byte) (payload : list byte)
| item_ping (mask : list byte) (payload : list byte)
| item_pong (mask : list byte) (payload : list byte).
Definition item_ok (it : ws_item) : Prop :=
  match it with
  | item_data mask p => length mask = 4%nat /\ zlen p <= MAX_MESSAGE_SIZE
  | item_ping mask p | item_pong mask p => length mask = 4%nat /\ zlen p <= 125
  end.
Definition item_bytes (is_client : bool) (it : ws_item) : list byte :=
  match it with
  | item_data mask p => raw_frame Byte.x82 is_client mask p
  | item_ping mask p => raw_frame Byte.x89 is_client mask p
  | item_pong mask p => raw_frame Byte.x8a is_client mask p
  end.
Definition wire (is_client : bool) (items : list ws_item) : list byte :=
  concat (map (item_bytes is_client) items).
Definition payload_of (it : ws_item) : list byte := match it with item_data _ p => p | _ => [] end.
Definition payloads (items : list ws_item) : list byte := concat (map payload_of items).

Definition unread (w : WsReader) : list byte :=
  ztake (read_remaining_ w) (zdrop (read_offset_ w) (read_buffer_ w)).
(** The reader's fields agree: what remains is in the buffer. *)
Definition ws_ok (is_client : bool) (items : list ws_item) (w : WsReader) : Prop :=
  ws_input w = wire is_client items /\ Forall item_ok items /\
  0 <= read_offset_ w /\ 0 <= read_remaining_ w /\
  (read_remaining_ w = 0 \/ read_offset_ w + read_remaining_ w <= zlen (read_buffer_ w)).

(** ** Lemmas: masks *)
Lemma xor_byte_twice a m : xor_byte (xor_byte a m) m = a.
Proof.
  unfold xor_byte. apply byte_to_Z_inj. rewrite !byte_to_of_Z.
  pose proof (byte_to_Z_range a). pose proof (byte_to_Z_range m).
  assert (Hx : 0 <= Z.lxor (byte_to_Z a) (byte_to_Z m) < 256).
  { split; [apply Z.lxor_nonneg; split; intros; lia|]. destruct (Z.eq_dec (Z.lxor (byte_to_Z a) (byte_to_Z m)) 0) as [E|]; [rewrite E; lia|].
    apply Z.log2_lt_cancel. eapply Z.le_lt_trans; [apply Z.log2_lxor; lia|].
    change (Z.log2 256) with 8.
    assert (Hl : forall z, 0 <= z < 256 -> Z.log2 z < 8)
      by (intros z Hz; destruct (Z.eq_dec z 0) as [->|]; [done|]; apply Z.log2_lt_pow2; lia).
    apply Z.max_lub_lt; apply Hl; lia. }
  rewrite (Z.mod_small (Z.lxor (byte_to_Z a) (byte_to_Z m))) by lia.
  rewrite Z.lxor_assoc, Z.lxor_nilpotent, Z.lxor_0_r. apply Z.mod_small. lia.
Qed.

Lemma apply_mask_from_twice i mask data :
  apply_mask_from i mask (apply_mask_from i mask data) = data.
Proof.
  revert i. induction data as [|d data IH]; intros i; cbn [apply_mask_from]; [done|].
  by rewrite xor_byte_twice, IH.
Qed.
Lemma zlen_apply_mask_from i mask data : zlen (apply_mask_from i mask data) = zlen data.
Proof.
  revert i. induction data as [|d data IH]; intros i; cbn [apply_mask_from]; [done|].
  rewrite !zlen_cons, IH. lia.
Qed.
Lemma zlen_apply_mask mask data : zlen (apply_mask mask data) = zlen data.
Proof. apply zlen_apply_mask_from. Qed.
#[export] Hint Rewrite zlen_apply_mask : cfrp.

(** ** Lemmas: headers *)
Lemma second_byte (is_client : bool) v :
  0 <= v < 128 ->
  let b1 := byte_to_Z (byte_of_Z (Z.lor (if is_client then 0x80 else 0) v)) in
  negb (Z.land b1 0x80 =? 0) = is_client /\ Z.land b1 0x7F = v.
Proof.
  intros Hv b1.
  assert (Hb : b1 = if is_client then v + 2 ^ 7 else v).
  { unfold b1. destruct is_client.
    - change 0x80 with (2 ^ 7). rewrite Z.lor_comm, lor_flag_add by lia.
      apply byte_to_of_Z_small. lia.
    - rewrite Z.lor_0_l. apply byte_to_of_Z_small. lia. }
  rewrite Hb. change 0x80 with (2 ^ 7). change 0x7F with (2 ^ 7 - 1).
  rewrite land_flag, land_ones_mod by lia. destruct is_client.
  - rewrite testbit_flag by lia. split; [done|].
    replace (v + 2 ^ 7) with (v + 1 * 2 ^ 7) by lia. rewrite Z.mod_add by lia. apply Z.mod_small. lia.
  - rewrite testbit_small by lia. split; [done|]. apply Z.mod_small. lia.
Qed.

Lemma take_input_app n w xs ys :
  ws_input w = xs ++ ys -> zlen xs = n -> take_input n w = Some (xs, set_input ys w).
Proof.
  intros Hi Hn. unfold take_input. rewrite Hi, zlen_app. pose proof (zlen_nonneg ys).
  replace (zlen xs + zlen ys <? n) with false by (symmetry; apply Z.ltb_ge; lia).
  by rewrite ztake_app_exact, zdrop_app_exact.
Qed.

(** The result of reading one well-formed frame. *)
Definition frame_result (fuel : nat) (b0 : byte) (is_client : bool) (mask payload rest : list byte)
    (w : WsReader) : option (error_code * Z * WsReader) :=
  let opcode := Z.land (byte_to_Z b0) 0x0F in
  if opcode =? 0x08 then Some (ec_eof, 0, close_underlying (set_input rest w))
  else if opcode =? 0x09 then ReadWsFrame fuel (SendPong payload (set_input rest w))
  else if opcode =? 0x0A then ReadWsFrame fuel (set_input rest w)
  else Some (ec_ok, zlen payload,
             set_read (if is_client then mask ++ payload else payload) (if is_client then 4 else 0)
               (zlen payload) (set_input rest w)).

Lemma next_step_frame fuel b0 (is_client : bool) (mask payload rest : list byte) w :
  length mask = 4%nat -> zlen payload <= MAX_MESSAGE_SIZE ->
  ws_input w = (if is_client then mask ++ apply_mask mask payload else payload) ++ rest ->
  next_step (ReadWsFrame fuel) (Z.land (byte_to_Z b0) 0x0F) is_client (zlen payload) w =
    frame_result fuel b0 is_client mask payload rest w.
Proof.
  intros Hmask Hmax Hin. unfold next_step, frame_result.
  assert (Hml : zlen mask = 4) by (unfold zlen; lia).
  replace (MAX_MESSAGE_SIZE <? zlen payload) with false by (symmetry; apply Z.ltb_ge; lia).
  rewrite (take_input_app _ _ _ _ Hin) by (destruct is_client; autorewrite with cfrp; lia).
  cbn [mbind option_bind]. destruct is_client; [|done].
  rewrite (ztake_app_exact 4 mask), (zdrop_app_exact 4 mask) by done.
  rewrite (ztake_ge _ (apply_mask _ _)) by (rewrite zlen_apply_mask; lia).
  assert (Hm : apply_mask mask (apply_mask mask payload) = payload) by apply apply_mask_from_twice.
  by rewrite Hm.
Qed.

Lemma read_raw_frame fuel b0 (is_client : bool) (mask payload rest : list byte) w :
  length mask = 4%nat -> zlen payload <= MAX_MESSAGE_SIZE ->
  (Z.land (byte_to_Z b0) 0x0F < 8 \/ Z.land (byte_to_Z b0) 0x80 <> 0 /\ zlen payload <= 125) ->
  ws_input w = raw_frame b0 is_client mask payload ++ rest ->
  ReadWsFrame (S fuel) w = frame_result fuel b0 is_client mask payload rest w.
Proof.
  intros Hmask Hmax Hctl Hin. pose proof (zlen_nonneg payload) as Hp.
  unfold raw_frame, length_bytes in Hin. cbn [ReadWsFrame].
  assert (Hguard : forall v, (zlen payload <= 125 -> v <= 125) ->
    (0x08 <=? Z.land (byte_to_Z b0) 0x0F) && (negb (negb (Z.land (byte_to_Z b0) 0x80 =? 0)) || (125 <? v)) = false).
  { intros v Hv. destruct Hctl as [Hc|[Hc1 Hc2]].
    - apply andb_false_intro1. apply Z.leb_gt. lia.
    - apply Z.eqb_neq in Hc1. rewrite Hc1. apply andb_false_intro2. apply Z.ltb_ge. lia. }
  assert (Hreset : forall r2 r1, frame_result fuel b0 is_client mask payload rest (set_input r2 (set_input r1 w))
    = frame_result fuel b0 is_client mask payload rest w) by done.
  set (tail := if is_client then mask ++ apply_mask mask payload else payload) in *.
  destruct (zlen payload <=? 125) eqn:E1; bool_hyps; [|destruct (zlen payload <=? 65535) eqn:E2; bool_hyps].
  - destruct (second_byte is_client (zlen payload) ltac:(lia)) as [Hm Hl].
    rewrite (take_input_app 2 w [b0; byte_of_Z (Z.lor (if is_client then 0x80 else 0) (zlen payload))]
      (tail ++ rest)) by done.
    cbn [mbind option_bind nth]. rewrite Hl, Hm, Hguard by lia.
    rewrite (proj2 (Z.eqb_neq _ 126)), (proj2 (Z.eqb_neq _ 127)) by lia.
    by rewrite (next_step_frame fuel b0 is_client mask payload rest).
  - destruct (second_byte is_client 126 ltac:(lia)) as [Hm Hl].
    rewrite (take_input_app 2 w [b0; byte_of_Z (Z.lor (if is_client then 0x80 else 0) 126)]
      (be_bytes 2 (zlen payload) ++ tail ++ rest)) by (rewrite ?Hin; done).
    cbn [mbind option_bind nth]. rewrite Hl, Hm, Hguard by lia. change (126 =? 126) with true.
    rewrite (take_input_app 2 _ (be_bytes 2 (zlen payload)) (tail ++ rest)) by done.
    cbn [mbind option_bind]. rewrite be_val_bytes_small by (cbn; lia).
    by rewrite (next_step_frame fuel b0 is_client mask payload rest).
  - destruct (second_byte is_client 127 ltac:(lia)) as [Hm Hl].
    rewrite (take_input_app 2 w [b0; byte_of_Z (Z.lor (if is_client then 0x80 else 0) 127)]
      (be_bytes 8 (zlen payload) ++ tail ++ rest)) by (rewrite ?Hin; done).
    cbn [mbind option_bind nth]. rewrite Hl, Hm, Hguard by lia.
    change (127 =? 126) with false. change (127 =? 127) with true.
    rewrite (take_input_app 8 _ (be_bytes 8 (zlen payload)) (tail ++ rest)) by done.
    cbn [mbind option_bind]. unfold MAX_MESSAGE_SIZE in Hmax.
    rewrite be_val_bytes_small by (cbn; lia).
    by rewrite (next_step_frame fuel b0 is_client mask payload rest).
Qed.

(** ** Lemmas: reading *)
Lemma wire_cons is_client it items : wire is_client (it :: items) = item_bytes is_client it ++ wire is_client items.
Proof. done. Qed.

Lemma item_bytes_length is_client it : (2 <= length (item_bytes is_client it))%nat.
Proof.
  assert (H : forall b0 mask p, (2 <= length (raw_frame b0 is_client mask p))%nat).
  { intros. unfold raw_frame, length_bytes. cbn [length]. repeat case_match; cbn [length app]; lia. }
  destruct it; apply H.
Qed.

Lemma wire_length is_client items : (2 * length items <= length (wire is_client items))%nat.
Proof.
  induction items as [|it items IH]; [cbn; lia|]. rewrite wire_cons, length_app. cbn [length].
  pose proof (item_bytes_length is_client it). lia.
Qed.

Definition is_data_item (it : ws_item) : bool := match it with item_data _ _ => true | _ => false end.
Definition pings (items : list ws_item) : list (list byte) :=
  omap (fun it => match it with item_ping _ p => Some p | _ => None end) items.
Definition add_pongs (ps : list (list byte)) (w : WsReader) : WsReader := {|
  ws_input := ws_input w; read_buffer_ := read_buffer_ w; read_offset_ := read_offset_ w;
  read_remaining_ := read_remaining_ w; ws_closed := ws_closed w; pongs := pongs w ++ ps |}.

(** Control frames are skipped (pings answered) until a data frame. *)
Lemma read_frame_items fuel is_client ctl mask p items w :
  (length ctl < fuel)%nat -> Forall item_ok ctl -> Forall (fun it => is_data_item it = false) ctl ->
  item_ok (item_data mask p) ->
  ws_input w = wire is_client (ctl ++ item_data mask p :: items) ->
  ReadWsFrame fuel w = Some (ec_ok, zlen p,
    set_read (if is_client then mask ++ p else p) (if is_client then 4 else 0) (zlen p)
      (set_input (wire is_client items) (add_pongs (pings ctl) w))).
Proof.
  revert fuel w. induction ctl as [|it ctl IH]; intros fuel w Hfuel Hok Hctl Hd Hin;
    (destruct fuel as [|fuel]; [cbn in Hfuel; lia|]).
  - destruct Hd as [Hm Hp].
    rewrite (read_raw_frame fuel Byte.x82 is_client mask p (wire is_client items));
      [|done|done|left; vm_compute; done|exact Hin].
    unfold frame_result. cbn. unfold add_pongs. cbn. by rewrite app_nil_r.
  - apply Forall_cons in Hok as [Hit Hok]. apply Forall_cons in Hctl as [Hnd Hctl].
    cbn [app] in Hin. rewrite wire_cons in Hin. cbn [length] in Hfuel.
    destruct it as [m q|m q|m q]; [done| |]; destruct Hit as [Hm Hq].
    + rewrite (read_raw_frame fuel Byte.x89 is_client m q (wire is_client (ctl ++ item_data mask p :: items)));
        [|done|unfold MAX_MESSAGE_SIZE; lia|right; split; [vm_compute; done|done]|exact Hin].
      change (frame_result fuel Byte.x89 is_client m q ?r w) with (ReadWsFrame fuel (SendPong q (set_input r w))).
      rewrite (IH fuel (SendPong q (set_input _ w))) by (done || lia).
      unfold add_pongs, SendPong, set_read, set_input. cbn. by rewrite <- app_assoc.
    + rewrite (read_raw_frame fuel Byte.x8a is_client m q (wire is_client (ctl ++ item_data mask p :: items)));
        [|done|unfold MAX_MESSAGE_SIZE; lia|right; split; [vm_compute; done|done]|exact Hin].
      change (frame_result fuel Byte.x8a is_client m q ?r w) with (ReadWsFrame fuel (set_input r w)).
      rewrite (IH fuel (set_input _ w)) by (done || lia). done.
Qed.

Lemma split_data items :
  existsb is_data_item items = true ->
  exists ctl mask p rest, items = ctl ++ item_data mask p :: rest /\
    Forall (fun it => is_data_item it = false) ctl.
Proof.
  induction items as [|it items IH]; [done|]. cbn [existsb]. destruct (is_data_item it) eqn:E.
  - intros _. destruct it as [m p|m p|m p]; try done. by exists [], m, p, items.
  - intros H. destruct (IH H) as (ctl & mask & p & rest & -> & Hc).
    exists (it :: ctl), mask, p, rest. split; [done|]. by constructor.
Qed.

Lemma payloads_app xs ys : payloads (xs ++ ys) = payloads xs ++ payloads ys.
Proof. unfold payloads. by rewrite map_app, concat_app. Qed.
Lemma payloads_control ctl : Forall (fun it => is_data_item it = false) ctl -> payloads ctl = [].
Proof. induction 1 as [|it ctl H _ IH]; [done|]. unfold payloads in *. cbn. rewrite IH. by destruct it. Qed.
Lemma payloads_no_data items : existsb is_data_item items = false -> payloads items = [].
Proof.
  intros H. apply payloads_control. induction items as [|it items IH]; [constructor|].
  cbn in H. apply orb_false_iff in H as [H1 H2]. constructor; auto.
Qed.

(** The bytes a reader still has to deliver, and how many rounds they take. *)
Definition backlog (items : list ws_item) (w : WsReader) : list byte := unread w ++ payloads items.
Definition rounds (items : list ws_item) (w : WsReader) : nat :=
  (length items + if (read_remaining_ w =? 0)%Z then 0 else 1)%nat.

Lemma zlen_unread is_client items w : ws_ok is_client items w -> zlen (unread w) = read_remaining_ w.
Proof.
  intros (_ & _ & Ho & Hr & Hb). unfold unread. rewrite zlen_ztake, zlen_zdrop by lia.
  pose proof (zlen_nonneg (read_buffer_ w)). lia.
Qed.

(** What one [async_read_some] does when bytes are to come. *)
(** What one read returns and leaves. *)
Definition read_some_post (is_client : bool) (items : list ws_item) (w : WsReader) (size : Z) : Prop :=
  exists out w' items', async_read_some size w = Some (ec_ok, out, w') /\ ws_ok is_client items' w' /\
    out ++ backlog items' w' = backlog items w /\ zlen out <= size /\
    (zlen out < size -> (rounds items' w' < rounds items w)%nat /\ (length items' <= length items)%nat).

(** Bytes of the last frame are left. *)
Lemma read_some_buffered is_client items w size :
  ws_ok is_client items w -> 0 < size -> 0 < read_remaining_ w -> read_some_post is_client items w size.
Proof.
  intros Hok Hsize Er. pose proof (zlen_unread _ _ _ Hok) as Hun.
  destruct Hok as (Hin & Hit & Ho & Hr & Hbuf). unfold read_some_post, async_read_some.
  rewrite (proj2 (Z.eqb_neq size 0)) by lia. unfold backlog, rounds.
  rewrite (proj2 (Z.ltb_lt 0 (read_remaining_ w)) Er).
  set (n := Z.min (read_remaining_ w) size).
  assert (Hout : zlen (ztake n (zdrop (read_offset_ w) (read_buffer_ w))) = n)
    by (rewrite zlen_ztake, zlen_zdrop; lia).
  eexists _, _, items. split; [reflexivity|].
  assert (Hsplit : ztake n (zdrop (read_offset_ w) (read_buffer_ w)) ++
    ztake (read_remaining_ w - n) (zdrop (read_offset_ w + n)
      (if read_remaining_ w - n =? 0 then [] else read_buffer_ w)) = unread w).
  { unfold unread. rewrite <- (zdrop_zdrop n (read_offset_ w)) by lia.
    destruct (read_remaining_ w - n =? 0) eqn:E0; bool_hyps.
    - replace (read_remaining_ w - n) with 0 by lia. rewrite ztake_0, app_nil_r. f_equal. lia.
    - by rewrite ztake_split by lia. }
  split; [|split; [|split]].
  + repeat split; try done; cbn; [lia|lia|]. destruct (read_remaining_ w - n =? 0) eqn:E0; bool_hyps; lia.
  + change (unread (set_read ?b ?o ?r w)) with (ztake r (zdrop o b)). by rewrite app_assoc, Hsplit.
  + lia.
  + rewrite Hout. cbn [read_remaining_ set_read]. intros Hlt.
    replace (read_remaining_ w - n) with 0 by lia. cbn [Z.eqb].
    rewrite (proj2 (Z.eqb_neq (read_remaining_ w) 0)) by lia. lia.
Qed.
(** A frame has to be read. *)
Lemma read_some_frame is_client items w size :
  ws_ok is_client items w -> 0 < size -> read_remaining_ w <= 0 -> existsb is_data_item items = true ->
  read_some_post is_client items w size.
Proof.
  intros Hok Hsize Er Hmore. pose proof (zlen_unread _ _ _ Hok) as Hun.
  destruct Hok as (Hin & Hit & Ho & Hr & Hbuf). unfold read_some_post, async_read_some.
  rewrite (proj2 (Z.eqb_neq size 0)) by lia. unfold backlog, rounds.
  rewrite (proj2 (Z.ltb_ge 0 (read_remaining_ w)) Er).
  destruct (split_data items Hmore) as (ctl & mask & p & rest & -> & Hctl).
  apply Forall_app in Hit as [Hok1 Hok2]. apply Forall_cons in Hok2 as [Hd Hrest].
  pose proof (wire_length is_client (ctl ++ item_data mask p :: rest)) as Hwl. rewrite length_app in Hwl.
  cbn [length] in Hwl. rewrite (read_frame_items _ is_client ctl mask p rest w);
    [|unfold frame_fuel; rewrite Hin; lia|done..].
  cbn [mbind option_bind]. rewrite decide_True by done.
  cbn [read_offset_ read_buffer_ set_read]. set (off := if is_client then 4 else 0).
  set (buf := if is_client then mask ++ p else p).
  assert (Hp : zdrop off buf = p)
    by (unfold off, buf; destruct is_client; [apply zdrop_app_exact; destruct Hd; unfold zlen; lia|done]).
  assert (Hoff : 0 <= off) by (unfold off; by destruct is_client).
  assert (Hbl : zlen buf = off + zlen p)
    by (unfold off, buf; destruct is_client; [rewrite zlen_app; destruct Hd; unfold zlen in *; lia|lia]).
  rewrite Hp. pose proof (zlen_nonneg p). set (n := Z.min (zlen p) size).
  assert (Hn : zlen (ztake n p) = n) by (rewrite zlen_ztake; lia).
  assert (Hu0 : unread w = []) by (apply zlen_0_nil; lia).
  rewrite Hu0, payloads_app, payloads_control by done. cbn [app].
  change (payloads (item_data mask p :: rest)) with (p ++ payloads rest).
  rewrite length_app. cbn [length]. eexists _, _, rest. split; [reflexivity|].
  destruct (n <? zlen p) eqn:Enp; bool_hyps.
  + split; [|split; [|split]].
    * repeat split; try done; cbn; lia.
    * change (unread (set_read ?b ?o ?r ?w0)) with (ztake r (zdrop o b)).
      rewrite <- zdrop_zdrop, Hp by lia. rewrite (ztake_ge _ (zdrop n p)) by (rewrite zlen_zdrop; lia).
      by rewrite app_assoc, ztake_drop.
    * lia.
    * lia.
  + assert (zlen p <= size) by lia. replace n with (zlen p) in * by lia. rewrite ztake_ge by lia. split; [|split; [|split]].
    * repeat split; try done; cbn; lia.
    * done.
    * lia.
    * intros _. cbn. destruct (_ =? 0); lia.
Qed.
Lemma read_some_spec is_client items w size :
  ws_ok is_client items w -> 0 < size -> (0 < read_remaining_ w \/ existsb is_data_item items = true) ->
  read_some_post is_client items w size.
Proof.
  intros Hok Hsize Hmore. destruct (Z_lt_le_dec 0 (read_remaining_ w)) as [Hr|Hr].
  - by apply read_some_buffered.
  - apply read_some_frame; try done. destruct Hmore as [Hmore|Hmore]; [lia|done].
Qed.

Lemma backlog_more items w is_client :
  ws_ok is_client items w -> 0 < zlen (backlog items w) ->
  0 < read_remaining_ w \/ existsb is_data_item items = true.
Proof.
  intros Hok Hlen. pose proof (zlen_unread _ _ _ Hok). destruct Hok as (_ & _ & _ & Hr & _).
  destruct (existsb is_data_item items) eqn:E; [by right|]. left.
  unfold backlog in Hlen. rewrite payloads_no_data, app_nil_r in Hlen by done. lia.
Qed.

Lemma async_read_loop_spec fuel is_client items w size :
  ws_ok is_client items w -> 0 <= size <= zlen (backlog items w) -> (rounds items w < fuel)%nat ->
  exists w' items', async_read_loop fuel size w = Some (ec_ok, ztake size (backlog items w), w') /\
    ws_ok is_client items' w' /\ backlog items' w' = zdrop size (backlog items w).
Proof.
  revert items w size. induction fuel as [|fuel IH]; intros items w size Hok Hsize Hfuel; [lia|].
  cbn [async_read_loop]. destruct (size =? 0) eqn:E0; bool_hyps.
  { subst. exists w, items. by rewrite ztake_0, zdrop_0. }
  destruct (read_some_spec is_client items w size Hok ltac:(lia)) as (out & w1 & items1 & E & Hok1 & Hb & Hl & Hr);
    [eapply backlog_more; [done|lia]|].
  rewrite E. cbn [mbind option_bind]. rewrite decide_True by done. rewrite <- Hb in *.
  rewrite zlen_app in Hsize. destruct (zlen out <? size) eqn:Elt; bool_hyps.
  - destruct (Hr Elt) as [Hr1 _].
    destruct (IH items1 w1 (size - zlen out) Hok1) as (w2 & items2 & E2 & Hok2 & Hb2); [lia|lia|].
    rewrite E2. cbn [mbind option_bind]. exists w2, items2.
    split; [by rewrite ztake_app_ge by lia|]. split; [done|]. by rewrite zdrop_app_ge by lia.
  - exists w1, items1. split; [by rewrite ztake_app_exact by lia|]. split; [done|].
    by rewrite zdrop_app_exact by lia.
Qed.

(** Several reads one after another. *)
Fixpoint read_many (sizes : list Z) (w : WsReader) : option (list (list byte) * WsReader) :=
  match sizes with
  | [] => Some ([], w)
  | n :: sizes' =>
    '(ec, out, w1) ← async_read n w;
    if decide (ec = ec_ok) then '(outs, w2) ← read_many sizes' w1; Some (out :: outs, w2) else None
  end.
Fixpoint cut (sizes : list Z) (bytes : list byte) : list (list byte) :=
  match sizes with [] => [] | n :: sizes' => ztake n bytes :: cut sizes' (zdrop n bytes) end.
Fixpoint sum (sizes : list Z) : Z := match sizes with [] => 0 | n :: sizes' => n + sum sizes' end.

Lemma sum_nonneg sizes : Forall (fun n => 0 <= n) sizes -> 0 <= sum sizes.
Proof. induction 1; cbn; lia. Qed.

Lemma read_many_spec is_client sizes items w :
  ws_ok is_client items w -> Forall (fun n => 0 <= n) sizes -> sum sizes <= zlen (backlog items w) ->
  exists w' items', read_many sizes w = Some (cut sizes (backlog items w), w') /\
    ws_ok is_client items' w' /\ backlog items' w' = zdrop (sum sizes) (backlog items w).
Proof.
  revert items w. induction sizes as [|n sizes IH]; intros items w Hok Hs Hsum.
  { exists w, items. by rewrite zdrop_0. }
  apply Forall_cons in Hs as [Hn Hs]. cbn [sum read_many cut] in *. pose proof (sum_nonneg sizes Hs).
  assert (Hf : (rounds items w < S (S (length (ws_input w))))%nat).
  { pose proof (wire_length is_client items) as Hw. destruct Hok as (Hin & _). rewrite <- Hin in Hw.
    unfold rounds. destruct (_ =? 0); lia. }
  destruct (async_read_loop_spec _ is_client items w n Hok ltac:(lia) Hf) as (w1 & items1 & E & Hok1 & Hb1).
  unfold async_read. rewrite E. cbn [mbind option_bind]. rewrite decide_True by done.
  destruct (IH items1 w1 Hok1) as (w2 & items2 & E2 & Hok2 & Hb2); [done|rewrite Hb1, zlen_zdrop; lia|].
  rewrite E2. cbn [mbind option_bind]. rewrite Hb1 in *. exists w2, items2.
  split; [done|]. split; [done|]. by rewrite Hb2, zdrop_zdrop by lia.
Qed.

(** ** Writing: histories *)
Inductive ws_op : Type :=
| op_write (mask : list byte) (buffers : list (list byte)) (h : nat)
| op_pong (mask payload : list byte)
| op_done (ec : error_code).
Definition ws_step (is_client : bool) (op : ws_op) (w : WsWriter) : option (WsWriter * list ws_action) :=
  match op with
  | op_write mask buffers h => Some (async_write is_client mask buffers h w)
  | op_pong mask p => Some (send_pong is_client mask p w)
  | op_done ec => on_write_done ec w
  end.
Fixpoint ws_run (is_client : bool) (ops : list ws_op) (w : WsWriter) : option (WsWriter * list ws_action) :=
  match ops with
  | [] => Some (w, [])
  | op :: ops' => '(w1, a1) ← ws_step is_client op w; '(w2, a2) ← ws_run is_client ops' w1;
                  mret (w2, a1 ++ a2)
  end.
Definition ws_items (ops : list ws_op) : list ws_item :=
  omap (fun op => match op with
                  | op_write mask bufs _ => Some (item_data mask (concat bufs))
                  | op_pong mask p => Some (item_pong mask p)
                  | op_done _ => None end) ops.
Definition wrote (acts : list ws_action) : list byte :=
  concat (map (fun a => match a with write_underlying b => b | _ => [] end) acts).
Definition queued (w : WsWriter) : list byte := concat (map fst (tail (write_queue_ w))).
Definition pongs_short (ops : list ws_op) : Prop :=
  Forall (fun op => match op with op_pong _ p => zlen p <= 125 | _ => True end) ops.

Lemma data_frame_item is_client mask bufs :
  data_frame is_client mask bufs = item_bytes is_client (item_data mask (concat bufs)).
Proof. done. Qed.

Lemma pong_frame_item is_client mask p :
  zlen p <= 125 -> pong_frame is_client mask p = item_bytes is_client (item_pong mask p).
Proof.
  intros Hp. pose proof (zlen_nonneg p). unfold pong_frame, item_bytes, raw_frame, length_bytes.
  assert (Hw : wrap 8 (zlen p) = zlen p) by (unfold wrap; apply Z.mod_small; lia).
  rewrite (proj2 (Z.leb_le _ _)) by lia. rewrite Hw. destruct is_client; [|by rewrite Z.lor_0_l].
  by rewrite Z.lor_comm.
Qed.

Lemma ws_wrote_app xs ys : wrote (xs ++ ys) = wrote xs ++ wrote ys.
Proof. unfold wrote. by rewrite map_app, concat_app. Qed.

Definition writer_ok (w : WsWriter) : Prop :=
  is_writing_ w = match write_queue_ w with [] => false | _ => true end.

Lemma enqueue_spec frame h w :
  writer_ok w -> writer_ok (enqueue frame h w).1 /\
  wrote (enqueue frame h w).2 ++ queued (enqueue frame h w).1 = queued w ++ frame.
Proof.
  unfold writer_ok, enqueue, do_write, queued. intros Hw.
  destruct (write_queue_ w) as [|[f0 h0] q] eqn:Eq; rewrite Hw; cbn.
  - unfold wrote. cbn. by rewrite !app_nil_r.
  - split; [done|]. rewrite map_app, concat_app. cbn. by rewrite app_nil_r.
Qed.

Lemma ws_step_spec is_client op w w' acts :
  writer_ok w -> (match op with op_pong _ p => zlen p <= 125 | _ => True end) ->
  ws_step is_client op w = Some (w', acts) ->
  writer_ok w' /\ wrote acts ++ queued w' = queued w ++ wire is_client (ws_items [op]).
Proof.
  intros Hw Hop Hstep. destruct op as [mask bufs h|mask p|ec]; cbn [ws_step] in Hstep.
  - injection Hstep as E. unfold async_write in E.
    pose proof (enqueue_spec (data_frame is_client mask bufs) (Some (h, zlen (concat bufs))) w Hw) as Hs.
    rewrite E in Hs. destruct Hs as [H1 H2]. split; [done|]. cbn [fst snd] in H2. rewrite H2.
    unfold wire. cbn. by rewrite app_nil_r.
  - injection Hstep as E. unfold send_pong in E.
    pose proof (enqueue_spec (pong_frame is_client mask p) None w Hw) as Hs.
    rewrite E in Hs. destruct Hs as [H1 H2]. split; [done|]. cbn [fst snd] in H2. rewrite H2.
    rewrite pong_frame_item by done. unfold wire. cbn [ws_items omap list_omap map concat].
    by rewrite app_nil_r.
  - unfold on_write_done in Hstep. destruct (write_queue_ w) as [|[f h] q] eqn:Eq; [done|].
    assert (Hcalls : wrote (match h with Some (h0, n) => [call_handler h0 ec n] | None => [] end) = [])
      by (by destruct h as [[? ?]|]).
    unfold queued. rewrite Eq. cbn [tail]. destruct q as [|[f1 h1] q].
    + injection Hstep as <- <-. by rewrite Hcalls.
    + unfold do_write in Hstep. cbn in Hstep. injection Hstep as <- <-.
      rewrite ws_wrote_app, Hcalls. unfold wrote. cbn. by rewrite !app_nil_r.
Qed.

Lemma ws_run_spec is_client ops w w' acts :
  writer_ok w -> pongs_short ops -> ws_run is_client ops w = Some (w', acts) ->
  writer_ok w' /\ wrote acts ++ queued w' = queued w ++ wire is_client (ws_items ops).
Proof.
  revert w acts. induction ops as [|op ops IH]; intros w acts Hw Hp Hrun.
  { injection Hrun as <- <-. by rewrite app_nil_r. }
  apply Forall_cons in Hp as [Hop Hp]. cbn [ws_run] in Hrun.
  destruct (ws_step is_client op w) as [[w1 a1]|] eqn:E1; [|done]. cbn [mbind option_bind] in Hrun.
  destruct (ws_run is_client ops w1) as [[w2 a2]|] eqn:E2; [|done]. injection Hrun as <- <-.
  apply ws_step_spec in E1 as [H1 W1]; [|done..]. apply IH in E2 as [H2 W2]; [|done..]. split; [done|].
  change (ws_items (op :: ops)) with (ws_items ([op] ++ ops)). unfold ws_items in *. rewrite omap_app.
  unfold wire in *. rewrite map_app, concat_app, ws_wrote_app, <- app_assoc, W2, app_assoc, W1.
  by rewrite <- app_assoc.
Qed.

(** ** The opening handshake *)
(** [Base64Encode] over wolfSSL's encoder, which may end its text with a newline
    and a terminator; the handshake takes the composed function. *)
Definition Base64Encode (encode : list byte -> list byte) (data : list byte) : list byte :=
  trim_back [Byte.x00; Byte.x0a; Byte.x0d] (encode data).
Lemma Base64Encode_stripped encode data text : encode data = text ++ [Byte.x0a; Byte.x00] ->
  (forall c, list.last text = Some c -> c ∉ [Byte.x00; Byte.x0a; Byte.x0d]) -> Base64Encode encode data = text.
Proof.
  intros E Hl. unfold Base64Encode. rewrite E, trim_back_skip; [by apply trim_back_last|].
  by apply (bool_decide_unpack _); vm_compute.
Qed.

Section Handshake.
Variables (sha1 base64 : list byte -> list byte).

Definition GenerateClientKey (nonce : list byte) : list byte := base64 nonce.
Definition GenerateAcceptKey (client_key : list byte) : list byte :=
  base64 (sha1 (client_key ++ bytes_of "258EAFA5-E914-47DA-95CA-C5AB0DC85B11")).
Definition HasValidAcceptHeader (response client_key : list byte) : bool :=
  match find (bytes_of "Sec-WebSocket-Accept: " ++ GenerateAcceptKey client_key) response with
  | Some _ => true | None => false end.

Definition client_request (key : list byte) : list byte :=
  line "GET / HTTP/1.1" ++ line "Host: cfrp" ++ line "Upgrade: websocket" ++
  line "Connection: Upgrade" ++ (bytes_of "Sec-WebSocket-Key: " ++ key ++ crlf) ++
  line "Sec-WebSocket-Version: 13" ++ crlf.

(** The client's check of the first bytes it reads back. *)
Definition on_client_response (key : list byte) (ec : error_code) (resp : list byte) : error_code :=
  if decide (ec = ec_ok) then
    match find (bytes_of "101 Switching Protocols") resp with
    | Some _ => if HasValidAcceptHeader resp key then ec_ok else ec_access_denied
    | None => ec_access_denied
    end
  else ec.

Definition server_response (accept_key : list byte) : list byte :=
  line "HTTP/1.1 101 Switching Protocols" ++ line "Upgrade: websocket" ++ line "Connection: Upgrade" ++
  (bytes_of "Sec-WebSocket-Accept: " ++ accept_key ++ crlf) ++ crlf.

Inductive server_step : Type :=
| server_fails (ec : error_code)
| server_reads (request_buf : list byte)
| server_responds (response : list byte).

(** One completion of [async_read_some] in [DoServerHandshakeRead]. *)
Definition DoServerHandshakeRead (request_buf : list byte) (ec : error_code) (chunk : list byte)
  : server_step :=
  if decide (ec = ec_ok) then
    let req := request_buf ++ chunk in
    match find (crlf ++ crlf) req with
    | Some _ =>
      match find (bytes_of "Sec-WebSocket-Key: ") req with
      | None => server_fails ec_invalid_argument
      | Some key_pos =>
        let rest := drop (key_pos + 19) req in
        let client_key := match find_from key_pos crlf req with
                          | Some key_end => take (key_end - (key_pos + 19)) rest
                          | None => rest end in
        server_responds (server_response (GenerateAcceptKey client_key))
      end
    | None => if 8192 <? zlen req then server_fails ec_message_size else server_reads req
    end
  else server_fails ec.

Fixpoint server_handshake (request_buf : list byte) (chunks : list (list byte)) : server_step :=
  match chunks with
  | [] => server_reads request_buf
  | c :: cs =>
    match DoServerHandshakeRead request_buf ec_ok c with
    | server_reads buf => server_handshake buf cs
    | out => out
    end
  end.

(** The handshake as the code runs it: [async_handshake], the underlying
    stream's own handshake if asked for, and the completions that follow. *)
Inductive hs_phase : Type :=
| hs_underlying
| hs_request_sent (key : list byte)
| hs_response (key : list byte)
| hs_request (request_buf : list byte)
| hs_response_sent
| hs_over.
Record WsHandshake : Type := { hs_at : hs_phase; handshaked_ : bool }.
Inductive hs_action : Type :=
| hs_underlying_handshake
| hs_write (bytes : list byte)
| hs_read_some (size : Z)
| hs_handler (ec : error_code).
Definition hs_to (p : hs_phase) (h : WsHandshake) : WsHandshake := {| hs_at := p; handshaked_ := handshaked_ h |}.
Definition hs_result (ec : error_code) (h : WsHandshake) : WsHandshake * list hs_action :=
  ({| hs_at := hs_over; handshaked_ := if decide (ec = ec_ok) then true else handshaked_ h |}, [hs_handler ec]).
Definition DoClientHandshake (nonce : list byte) (h : WsHandshake) : WsHandshake * list hs_action :=
  let key := GenerateClientKey nonce in (hs_to (hs_request_sent key) h, [hs_write (client_request key)]).
Definition DoServerHandshake (h : WsHandshake) : WsHandshake * list hs_action :=
  (hs_to (hs_request []) h, [hs_read_some 1024]).
Definition own_handshake (is_client : bool) (nonce : list byte) (h : WsHandshake) : WsHandshake * list hs_action :=
  if is_client then DoClientHandshake nonce h else DoServerHandshake h.
Definition async_handshake (perform_underlying is_client : bool) (nonce : list byte) : WsHandshake * list hs_action :=
  let h := {| hs_at := hs_over; handshaked_ := false |} in
  if perform_underlying then (hs_to hs_underlying h, [hs_underlying_handshake]) else own_handshake is_client nonce h.
Inductive hs_event : Type :=
| hev_done (ec : error_code)                       (* the underlying handshake or a write *)
| hev_read (ec : error_code) (data : list byte).
Definition hs_step (is_client : bool) (nonce : list byte) (ev : hs_event) (h : WsHandshake)
  : option (WsHandshake * list hs_action) :=
  match ev, hs_at h with
  | hev_done ec, hs_underlying =>
    Some (if decide (ec = ec_ok) then own_handshake is_client nonce h else hs_result ec h)
  | hev_done ec, hs_request_sent key =>
    Some (if decide (ec = ec_ok) then (hs_to (hs_response key) h, [hs_read_some 1024]) else hs_result ec h)
  | hev_read ec data, hs_response key =>
    if zlen data <=? 1024 then Some (hs_result (on_client_response key ec data) h) else None
  | hev_read ec data, hs_request buf =>
    if zlen data <=? 1024 then
      Some match DoServerHandshakeRead buf ec data with
           | server_fails e => hs_result e h
           | server_reads buf' => (hs_to (hs_request buf') h, [hs_read_some 1024])
           | server_responds r => (hs_to hs_response_sent h, [hs_write r])
           end
    else None
  | hev_done ec, hs_response_sent => Some (hs_result ec h)
  | _, _ => None
  end.
Fixpoint hs_run (is_client : bool) (nonce : list byte) (evs : list hs_event) (h : WsHandshake)
  : option (WsHandshake * list hs_action) :=
  match evs with
  | [] => Some (h, [])
  | ev :: evs' => '(h1, a1) ← hs_step is_client nonce ev h; '(h2, a2) ← hs_run is_client nonce evs' h1; mret (h2, a1 ++ a2)
  end.
Definition hs_handled (a : list hs_action) : list error_code :=
  omap (fun x => match x with hs_handler ec => Some ec | _ => None end) a.

(** A handshake that fails has an error: the server never fails with success. *)
Lemma server_step_error buf ec chunk e : DoServerHandshakeRead buf ec chunk = server_fails e -> e <> ec_ok.
Proof. unfold DoServerHandshakeRead. repeat case_match; naive_solver. Qed.
(** The handler is called once, at the end, with success exactly when the stream
    counts as handshaken. *)
Definition hs_inv (h : WsHandshake) (a : list hs_action) : Prop :=
  match hs_at h with
  | hs_over => exists ec, hs_handled a = [ec] /\ (handshaked_ h = true <-> ec = ec_ok)
  | _ => hs_handled a = [] /\ handshaked_ h = false
  end.
Lemma hs_result_inv ec h a : hs_handled a = [] -> handshaked_ h = false -> hs_inv (hs_result ec h).1 (a ++ (hs_result ec h).2).
Proof.
  intros Ha Hh. unfold hs_inv, hs_result, hs_handled in *. cbn [fst snd hs_at]. exists ec. rewrite omap_app, Ha. split; [done|].
  cbn. case_decide; rewrite ?Hh; naive_solver.
Qed.
Lemma hs_own_inv is_client nonce h a : hs_handled a = [] -> handshaked_ h = false ->
  hs_inv (own_handshake is_client nonce h).1 (a ++ (own_handshake is_client nonce h).2).
Proof.
  intros Ha Hh. unfold own_handshake, hs_inv, hs_handled in *. destruct is_client; cbn; rewrite omap_app, Ha; by split.
Qed.
Lemma hs_step_inv is_client nonce ev h h1 a a1 : hs_inv h a -> hs_step is_client nonce ev h = Some (h1, a1) -> hs_inv h1 (a ++ a1).
Proof.
  intros Hi E. unfold hs_inv in Hi.
  assert (Hmove : forall p x, p <> hs_over -> (forall e, x <> hs_handler e) -> hs_handled a = [] -> handshaked_ h = false ->
    hs_inv (hs_to p h) (a ++ [x])).
  { intros p x Hp Hx Ha Hh. assert (Hn : hs_handled (a ++ [x]) = []).
    { unfold hs_handled in *. rewrite omap_app, Ha. destruct x; try done. by edestruct Hx. }
    unfold hs_inv. rewrite Hn. destruct p; done. }
  destruct ev as [ec|ec data]; cbn [hs_step] in E; destruct (hs_at h) as [|key|key|buf| |]; try done;
    try (destruct (zlen data <=? 1024); [|done]); destruct Hi as [Ha Hh]; apply Some_inj in E.
  - case_decide; [pose proof (hs_own_inv is_client nonce h a Ha Hh) as Hq|pose proof (hs_result_inv ec h a Ha Hh) as Hq]; by rewrite E in Hq.
  - case_decide; [injection E as <- <-; by apply Hmove|pose proof (hs_result_inv ec h a Ha Hh) as Hq; by rewrite E in Hq].
  - pose proof (hs_result_inv ec h a Ha Hh) as Hq. by rewrite E in Hq.
  - pose proof (hs_result_inv (on_client_response key ec data) h a Ha Hh) as Hq. by rewrite E in Hq.
  - destruct (DoServerHandshakeRead buf ec data) as [e|buf'|r].
    + pose proof (hs_result_inv e h a Ha Hh) as Hq. by rewrite E in Hq.
    + injection E as <- <-. by apply Hmove.
    + injection E as <- <-. by apply Hmove.
Qed.
(** The handler of a handshake is called at most once, and the stream counts as
    handshaken exactly when it was called with success. *)
Theorem ws_handshake_handled_once perform is_client nonce evs h a :
  hs_run is_client nonce evs (async_handshake perform is_client nonce).1 = Some (h, a) ->
  hs_inv h ((async_handshake perform is_client nonce).2 ++ a).
Proof.
  assert (H0 : hs_inv (async_handshake perform is_client nonce).1 (async_handshake perform is_client nonce).2)
    by (unfold async_handshake; by destruct perform, is_client).
  revert H0. generalize (async_handshake perform is_client nonce) as s. intros [h0 a0]. cbn [fst snd]. revert h0 a0 a.
  induction evs as [|ev evs IH]; intros h0 a0 a Hi E; cbn [hs_run] in E.
  { injection E as <- <-. by rewrite app_nil_r. }
  destruct (hs_step _ _ ev h0) as [[h1 a1]|] eqn:E1; [|done]. cbn [mbind option_bind] in E.
  destruct (hs_run _ _ evs h1) as [[h2 a2]|] eqn:E2; [|done]. injection E as <- <-.
  rewrite app_assoc. eapply IH; [|exact E2]. by eapply hs_step_inv.
Qed.

(** ** Lemmas: the handshake *)
Definition request_head : list byte :=
  line "GET / HTTP/1.1" ++ line "Host: cfrp" ++ line "Upgrade: websocket" ++
  line "Connection: Upgrade" ++ bytes_of "Sec-WebSocket-Key: ".
Definition request_tail : list byte := crlf ++ line "Sec-WebSocket-Version: 13" ++ crlf.

Lemma client_request_split key : client_request key = request_head ++ key ++ request_tail.
Proof. unfold client_request, request_head, request_tail. by rewrite <- !app_assoc. Qed.

Lemma request_end key :
  Byte.x0d ∉ key ->
  find (crlf ++ crlf) (client_request key) = Some (length (client_request key) - 4)%nat.
Proof.
  intros Hk. rewrite client_request_split, find_past by (vm_compute; done).
  change (crlf ++ crlf) with (Byte.x0d :: [Byte.x0a] ++ crlf) at 1.
  rewrite (find_skip Byte.x0d) by done.
  assert (Ht : find (crlf ++ crlf) request_tail = Some (length request_tail - 4)%nat)
    by (vm_compute; done).
  change (Byte.x0d :: [Byte.x0a] ++ crlf) with (crlf ++ crlf). rewrite Ht. cbn [option_map].
  rewrite !length_app. f_equal. pose proof (eq_refl : length request_tail = 31%nat). lia.
Qed.

(** A proper prefix of the request does not look complete. *)
Lemma request_prefix key xs ys :
  Byte.x0d ∉ key -> client_request key = xs ++ ys -> ys <> [] -> find (crlf ++ crlf) xs = None.
Proof.
  intros Hk Hsplit Hys. destruct (find (crlf ++ crlf) xs) as [k|] eqn:E; [|done].
  apply (find_app _ xs ys) in E as [E1 E2]. rewrite <- Hsplit, request_end in E1 by done.
  assert (Ek : k = (length (client_request key) - 4)%nat) by congruence. clear E1.
  assert (Hl : length (client_request key) = (length xs + length ys)%nat)
    by (by rewrite Hsplit, length_app).
  assert (length ys <> 0%nat) by (by destruct ys). change (length (crlf ++ crlf)) with 4%nat in E2. lia.
Qed.

(** The complete request: the server extracts the client's key. *)
Lemma server_reads_request key buf chunk :
  Byte.x0d ∉ key -> buf ++ chunk = client_request key ->
  DoServerHandshakeRead buf ec_ok chunk = server_responds (server_response (GenerateAcceptKey key)).
Proof.
  intros Hk Hreq. unfold DoServerHandshakeRead. rewrite decide_True, Hreq, request_end by done.
  assert (Hpos : find (bytes_of "Sec-WebSocket-Key: ") (client_request key) = Some (length request_head - 19)%nat).
  { rewrite client_request_split. apply find_app. vm_compute. done. }
  rewrite Hpos. change (length request_head - 19 + 19)%nat with (length request_head).
  rewrite client_request_split, drop_app_length.
  unfold find_from.
  assert (Hdrop : drop (length request_head - 19) (request_head ++ key ++ request_tail) =
    bytes_of "Sec-WebSocket-Key: " ++ key ++ request_tail) by done.
  rewrite Hdrop, find_past by (vm_compute; done).
  change crlf with (Byte.x0d :: [Byte.x0a]). rewrite (find_skip Byte.x0d) by done.
  change (find [Byte.x0d; Byte.x0a] request_tail) with (Some 0%nat). cbn [option_map].
  do 3 f_equal.
  change (length (bytes_of "Sec-WebSocket-Key: ")) with 19%nat.
  replace (length request_head - 19 + (19 + (length key + 0)) - length request_head)%nat with (length key)
    by (change (length request_head) with 88%nat; lia).
  by rewrite take_app_length.
Qed.

Lemma server_handshake_chunks key chunks buf :
  Byte.x0d ∉ key -> zlen (client_request key) <= 8192 ->
  buf ++ concat chunks = client_request key -> Forall (fun c => c <> []) chunks -> chunks <> [] ->
  server_handshake buf chunks = server_responds (server_response (GenerateAcceptKey key)).
Proof.
  intros Hk Hmax. revert buf. induction chunks as [|c chunks IH]; intros buf Hreq Hne Hnil; [done|].
  apply Forall_cons in Hne as [Hc Hne]. cbn [server_handshake concat] in *.
  destruct chunks as [|c' chunks].
  - rewrite (server_reads_request key); [done|done|]. cbn in Hreq. by rewrite app_nil_r in Hreq.
  - assert (Hrest : concat (c' :: chunks) <> []).
    { apply Forall_cons in Hne as [Hc' _]. destruct c'; [done|]. done. }
    rewrite app_assoc in Hreq.
    unfold DoServerHandshakeRead. rewrite decide_True by done.
    rewrite (request_prefix key _ (concat (c' :: chunks)) Hk (eq_sym Hreq) Hrest).
    replace (8192 <? zlen (buf ++ c)) with false.
    + by apply IH.
    + symmetry. apply Z.ltb_ge. rewrite <- Hreq, zlen_app in Hmax.
      pose proof (zlen_nonneg (concat (c' :: chunks))). lia.
Qed.

Lemma client_accepts_response key :
  on_client_response key ec_ok (server_response (GenerateAcceptKey key)) = ec_ok.
Proof.
  unfold on_client_response. rewrite decide_True by done.
  assert (H1 : exists k, find (bytes_of "101 Switching Protocols") (server_response (GenerateAcceptKey key)) = Some k).
  { unfold server_response, line at 1. eexists. apply (find_app _ (bytes_of "HTTP/1.1 101 Switching Protocols")).
    vm_compute. reflexivity. }
  destruct H1 as [k ->]. unfold HasValidAcceptHeader.
  destruct (find_mid (bytes_of "Sec-WebSocket-Accept: " ++ GenerateAcceptKey key)
    (line "HTTP/1.1 101 Switching Protocols" ++ line "Upgrade: websocket" ++ line "Connection: Upgrade")
    (crlf ++ crlf)) as [k' Hk'].
  unfold server_response. revert Hk'. rewrite <- !app_assoc. by intros ->.
Qed.
End Handshake.

(** ** Properties *)

(** Frames written leave in order.  Whatever the interleaving of writes, pongs and
    completions, the bytes given to the underlying stream followed by the frames still queued
    are one well-formed frame per operation, in order, carrying the payloads. *)
Theorem ws_writes_fifo (is_client : bool) (ops : list ws_op) (w : WsWriter) (acts : list ws_action)
    (Hpongs : pongs_short ops)
    (Hrun : ws_run is_client ops {| write_queue_ := []; is_writing_ := false |} = Some (w, acts)) :
  wrote acts ++ queued w = wire is_client (ws_items ops) /\
  (is_writing_ w = false -> wrote acts = wire is_client (ws_items ops)).
Proof.
  apply ws_run_spec in Hrun as [Hok Hw]; [|done..]. cbn in Hw. split; [done|].
  unfold writer_ok, queued in *. intros Hidle. rewrite Hidle in Hok.
  destruct (write_queue_ w); [|done]. by rewrite app_nil_r in Hw.
Qed.


(** C37 The two sides agree on the handshake: for any nonce and any way the client's request is
    cut into reads, the server answers with an acceptance the client accepts (for a Base64 that
    emits no carriage return and a request within the 8 KiB limit). *)
Theorem ws_handshake_agrees (sha1 base64 : list byte -> list byte) (nonce : list byte)
    (chunks : list (list byte))
    (Hbase64 : forall x, Byte.x0d ∉ base64 x)
    (Hlen : zlen (client_request (base64 nonce)) <= 8192)
    (Hchunks : concat chunks = client_request (base64 nonce)) (Hne : Forall (fun c => c <> []) chunks) :
  exists response, server_handshake sha1 base64 [] chunks = server_responds response /\
    on_client_response sha1 base64 (GenerateClientKey base64 nonce) ec_ok response = ec_ok.
Proof.
  eexists. split; [|apply client_accepts_response].
  apply server_handshake_chunks; try done. intros ->. by destruct (base64 nonce).
Qed.

(** ** Concrete instances *)
Definition demo_mask : list byte := [Byte.x01; Byte.xa2; Byte.x73; Byte.xf4].
Definition demo_ws_ops : list ws_op :=
  [op_write demo_mask [bytes_of "hello "; bytes_of "world"] 1; op_pong demo_mask (bytes_of "hb");
   op_done ec_ok; op_write demo_mask [repeat Byte.x78 200] 2; op_done ec_ok; op_done ec_ok].

Lemma ws_writes_fifo_witness :
  exists w acts, ws_run true demo_ws_ops {| write_queue_ := []; is_writing_ := false |} = Some (w, acts) /\
  wrote acts ++ queued w = wire true (ws_items demo_ws_ops) /\
  (is_writing_ w = false -> wrote acts = wire true (ws_items demo_ws_ops)).
Proof.
  eexists _, _. split; [vm_compute; reflexivity|].
  apply (ws_writes_fifo true demo_ws_ops); [repeat constructor; vm_compute; congruence|vm_compute; reflexivity].
Defined.

Definition demo_items : list ws_item :=
  [item_data demo_mask (bytes_of "abcdef"); item_ping demo_mask (bytes_of "p");
   item_data demo_mask (repeat Byte.x79 130); item_pong demo_mask []].

(** A Base64-like function without carriage returns. *)
Definition hex_digit (z : Z) : byte := byte_of_Z (65 + z mod 16).
Definition hex (x : list byte) : list byte :=
  concat (map (fun b => [hex_digit (byte_to_Z b / 16); hex_digit (byte_to_Z b)]) x).
Lemma hex_no_cr x : Byte.x0d ∉ hex x.
Proof.
  assert (Hd : forall z, hex_digit z <> Byte.x0d).
  { intros z Hz. apply (f_equal byte_to_Z) in Hz. unfold hex_digit in Hz.
    pose proof (Z.mod_pos_bound z 16 ltac:(lia)). rewrite byte_to_of_Z_small in Hz by lia.
    change (byte_to_Z Byte.x0d) with 13 in Hz. lia. }
  unfold hex. induction x as [|b x IH]; cbn [map concat app]; [apply not_elem_of_nil|].
  rewrite !not_elem_of_cons. repeat split; try (intros H; symmetry in H; by apply Hd in H). exact IH.
Qed.

Definition demo_nonce : list byte := bytes_of "0123456789abcdef".
Lemma ws_handshake_agrees_witness :
  exists response, server_handshake (fun x => x) hex [] [take 100 (client_request (hex demo_nonce));
      drop 100 (client_request (hex demo_nonce))] = server_responds response /\
    on_client_response (fun x => x) hex (GenerateClientKey hex demo_nonce) ec_ok response = ec_ok.
Proof.
  apply (ws_handshake_agrees (fun x => x) hex demo_nonce).
  - exact hex_no_cr.
  - vm_compute. congruence.
  - vm_compute. reflexivity.
  - repeat constructor; vm_compute; congruence.
Defined.
