(* ===== verification/UdpBridge.v ===== *)
(** * UDP bridges (src/server/server.cpp and src/client/client.cpp, UdpBridge)

    The client's bridge frames each datagram of the local service for the work
    stream with a two-byte header (15 bits of length, one bit for compression);
    the server's bridge, and the client's for the other direction, read frames
    and send each as one datagram.  [on_server] tells the two readers apart:
    they differ in the counter and in what a failed send does. *)
From Stdlib Require Import ZArith Lia Strings.Byte String.
From stdpp Require Import base tactics list.
From S2P Require Import Prelude Protocol Zstd.
Local Open Scope Z_scope.

Section UdpBridge.
Context `{Zstd}.
Variables (on_server has_limiter : bool).

(** ** From the work stream to datagrams *)
Inductive udp_phase : Type :=
| udp_new
| udp_header
| udp_body (len : Z) (compressed : bool)
| udp_limited (datagram : list byte)
| udp_sending
| udp_halted.
Record UdpBridge : Type := { udp_at : udp_phase; bytes_sent_ : Z }.
Definition new_udp_bridge : UdpBridge := {| udp_at := udp_new; bytes_sent_ := 0 |}.
Definition go (p : udp_phase) (b : UdpBridge) : UdpBridge := {| udp_at := p; bytes_sent_ := bytes_sent_ b |}.
Inductive udp_action : Type :=
| stream_read (n : Z)
| stream_close
| wait_tokens (n : Z)
| send_to (datagram : list byte).

(** [read_buf_.size()] *)
Definition read_buf_size : Z := 65535.

Definition DoReadFromStream (b : UdpBridge) : UdpBridge * list udp_action := (go udp_header b, [stream_read 2]).
Definition close_stream (b : UdpBridge) : UdpBridge * list udp_action := (go udp_halted b, [stream_close]).

Definition on_udp_header (ec : error_code) (packet_len : list byte) (b : UdpBridge)
  : UdpBridge * list udp_action :=
  if decide (ec = ec_ok) then
    let header := be_val packet_len in
    let len := Z.land header 0x7FFF in
    let compressed := negb (Z.land header 0x8000 =? 0) in
    if read_buf_size <? len then close_stream b
    else (go (udp_body len compressed) b, [stream_read len])
  else close_stream b.

(** The lambda [send_op]; only the server counts. *)
Definition send_op (datagram : list byte) (b : UdpBridge) : UdpBridge * list udp_action :=
  ({| udp_at := udp_sending;
      bytes_sent_ := if on_server then wrap 64 (bytes_sent_ b + zlen datagram) else bytes_sent_ b |},
   [send_to datagram]).
Definition hand_over (datagram : list byte) (b : UdpBridge) : UdpBridge * list udp_action :=
  if has_limiter then (go (udp_limited datagram) b, [wait_tokens (zlen datagram)]) else send_op datagram b.

Definition on_udp_body (compressed : bool) (ec : error_code) (body : list byte) (b : UdpBridge)
  : UdpBridge * list udp_action :=
  if decide (ec = ec_ok) then
    if compressed then
      match frame_content_size body with
      | None => close_stream b
      | Some decodedSize =>
        if 65535 <? decodedSize then close_stream b else
        match decompress decodedSize body with
        | None => close_stream b
        | Some out => hand_over out b
        end
      end
    else hand_over body b
  else close_stream b.

(** The completion of [async_send_to]; the client's reader just stops. *)
Definition on_sent (ec : error_code) (b : UdpBridge) : UdpBridge * list udp_action :=
  if decide (ec = ec_ok) then DoReadFromStream b
  else if on_server then close_stream b else (go udp_halted b, []).

Inductive udp_event : Type :=
| uev_read (ec : error_code) (data : list byte)
| uev_tokens
| uev_sent (ec : error_code).
Definition udp_step (ev : udp_event) (b : UdpBridge) : option (UdpBridge * list udp_action) :=
  match ev, udp_at b with
  | uev_read ec data, udp_header =>
    if (if decide (ec = ec_ok) then zlen data =? 2 else true) then Some (on_udp_header ec data b) else None
  | uev_read ec data, udp_body len compressed =>
    if (if decide (ec = ec_ok) then zlen data =? len else true)
    then Some (on_udp_body compressed ec data b) else None
  | uev_tokens, udp_limited datagram => Some (send_op datagram b)
  | uev_sent ec, udp_sending => Some (on_sent ec b)
  | _, _ => None
  end.
Fixpoint udp_run (evs : list udp_event) (b : UdpBridge) : option (UdpBridge * list udp_action) :=
  match evs with
  | [] => Some (b, [])
  | ev :: evs' => '(b1, a1) ← udp_step ev b; '(b2, a2) ← udp_run evs' b1; mret (b2, a1 ++ a2)
  end.
Definition sent (acts : list udp_action) : list (list byte) :=
  omap (fun a => match a with send_to d => Some d | _ => None end) acts.

(** The completions that carry one frame through the reader. *)
Definition carry (packet : list byte) : list udp_event :=
  [uev_read ec_ok (ztake 2 packet); uev_read ec_ok (zdrop 2 packet)] ++
  (if has_limiter then [uev_tokens] else []) ++ [uev_sent ec_ok].
End UdpBridge.

(** ** From the local service to the work stream (client only) *)
Section Local.
Context `{Zstd}.
Variables (use_compression : bool) (compression_level : Z) (has_limiter : bool).

(** What [DoReadFromLocal] writes for one datagram: header and payload. *)
Definition udp_choice (datagram : list byte) : Z * list byte :=
  if use_compression then
    match compress compression_level datagram with
    | Some c => if zlen c <? zlen datagram then (Z.lor (wrap 16 (zlen c)) 0x8000, c)
                else (wrap 16 (zlen datagram), datagram)
    | None => (wrap 16 (zlen datagram), datagram)
    end
  else (wrap 16 (zlen datagram), datagram).
Definition udp_frame (datagram : list byte) : list byte :=
  let '(header, data) := udp_choice datagram in be_bytes 2 header ++ data.

Inductive local_phase : Type := local_receiving | local_limited (packet : list byte) | local_writing | local_halted.
Inductive local_action : Type :=
| local_receive
| local_wait (n : Z)
| local_write (packet : list byte)
| local_close.
Inductive local_event : Type :=
| lev_received (ec : error_code) (datagram : list byte)
| lev_tokens
| lev_written (ec : error_code).

Definition DoReadFromLocal : local_phase * list local_action := (local_receiving, [local_receive]).
Definition local_step (ev : local_event) (p : local_phase) : option (local_phase * list local_action) :=
  match ev, p with
  | lev_received ec datagram, local_receiving =>
    Some (if decide (ec = ec_ok) then
            let packet := udp_frame datagram in
            if has_limiter then (local_limited packet, [local_wait (zlen packet)])
            else (local_writing, [local_write packet])
          else (local_halted, [local_close]))
  | lev_tokens, local_limited packet => Some (local_writing, [local_write packet])
  | lev_written ec, local_writing =>
    Some (if decide (ec = ec_ok) then DoReadFromLocal else (local_halted, [local_close]))
  | _, _ => None
  end.
Fixpoint local_run (evs : list local_event) (p : local_phase) : option (local_phase * list local_action) :=
  match evs with
  | [] => Some (p, [])
  | ev :: evs' => '(p1, a1) ← local_step ev p; '(p2, a2) ← local_run evs' p1; mret (p2, a1 ++ a2)
  end.
Definition local_written (acts : list local_action) : list (list byte) :=
  omap (fun a => match a with local_write x => Some x | _ => None end) acts.
(** The completions of one datagram. *)
Definition local_pass (datagram : list byte) : list local_event :=
  lev_received ec_ok datagram :: (if has_limiter then [lev_tokens] else []) ++ [lev_written ec_ok].
End Local.

(** ** The client's bridge: both directions, started together *)
Section ClientBridge.
Context `{Zstd}.
Variables (use_compression : bool) (compression_level : Z) (has_limiter : bool).
Record ClientUdpBridge : Type := { to_local : UdpBridge; to_stream : local_phase }.
Definition client_udp_acts (a : list udp_action) (b : list local_action) : list (udp_action + local_action) :=
  map inl a ++ map inr b.
Definition client_udp_start : ClientUdpBridge * list (udp_action + local_action) :=
  let '(u, a) := DoReadFromStream new_udp_bridge in let '(l, b) := DoReadFromLocal in
  ({| to_local := u; to_stream := l |}, client_udp_acts a b).
Definition client_udp_step (ev : udp_event + local_event) (b : ClientUdpBridge)
  : option (ClientUdpBridge * list (udp_action + local_action)) :=
  match ev with
  | inl e => '(u, a) ← udp_step false has_limiter e (to_local b);
             mret ({| to_local := u; to_stream := to_stream b |}, client_udp_acts a [])
  | inr e => '(l, a) ← local_step use_compression compression_level has_limiter e (to_stream b);
             mret ({| to_local := to_local b; to_stream := l |}, client_udp_acts [] a)
  end.
Fixpoint client_udp_run (evs : list (udp_event + local_event)) (b : ClientUdpBridge)
  : option (ClientUdpBridge * list (udp_action + local_action)) :=
  match evs with
  | [] => Some (b, [])
  | ev :: evs' => '(b1, a1) ← client_udp_step ev b; '(b2, a2) ← client_udp_run evs' b1; mret (b2, a1 ++ a2)
  end.
Definition lefts {A B} (l : list (A + B)) : list A := omap (fun x => match x with inl a => Some a | inr _ => None end) l.
Definition rights {A B} (l : list (A + B)) : list B := omap (fun x => match x with inl _ => None | inr b => Some b end) l.
Lemma lefts_app {A B} (l k : list (A + B)) : lefts (l ++ k) = lefts l ++ lefts k.
Proof. apply omap_app. Qed.
Lemma rights_app {A B} (l k : list (A + B)) : rights (l ++ k) = rights l ++ rights k.
Proof. apply omap_app. Qed.
Lemma client_udp_acts_split a b : lefts (client_udp_acts a b) = a /\ rights (client_udp_acts a b) = b.
Proof.
  unfold client_udp_acts. rewrite lefts_app, rights_app. split.
  - assert (Hl : lefts (map (@inl udp_action local_action) a) = a)
      by (clear; induction a as [|x a IH]; [done|exact (f_equal (cons x) IH)]).
    assert (Hr : lefts (map (@inr udp_action local_action) b) = []) by (clear; induction b as [|x b IH]; [done|exact IH]).
    by rewrite Hl, Hr, app_nil_r.
  - assert (Hl : rights (map (@inl udp_action local_action) a) = []) by (clear; induction a as [|x a IH]; [done|exact IH]).
    assert (Hr : rights (map (@inr udp_action local_action) b) = b)
      by (clear; induction b as [|x b IH]; [done|exact (f_equal (cons x) IH)]).
    by rewrite Hl, Hr.
Qed.
(** The directions do not disturb each other: any interleaving is a run of each. *)
Lemma client_udp_directions evs b b' a : client_udp_run evs b = Some (b', a) ->
  udp_run false has_limiter (lefts evs) (to_local b) = Some (to_local b', lefts a) /\
  local_run use_compression compression_level has_limiter (rights evs) (to_stream b) = Some (to_stream b', rights a).
Proof.
  revert b a. induction evs as [|ev evs IH]; intros b a E; cbn [client_udp_run] in E; [by injection E as <- <-|].
  destruct (client_udp_step ev b) as [[b1 a1]|] eqn:E1; [|done]. cbn [mbind option_bind] in E.
  destruct (client_udp_run evs b1) as [[b2 a2]|] eqn:E2; [|done]. injection E as <- <-.
  apply IH in E2 as [H1 H2]. rewrite lefts_app, rights_app.
  destruct ev as [e|e]; cbn [client_udp_step] in E1.
  - change (lefts (inl e :: evs)) with (e :: lefts evs). change (rights (inl e :: evs)) with (rights evs). cbn [udp_run].
    destruct (udp_step false has_limiter e (to_local b)) as [[u x]|]; [|done]. injection E1 as <- <-.
    cbn [mbind option_bind to_local to_stream] in *. destruct (client_udp_acts_split x []) as [-> ->].
    rewrite H1. done.
  - change (lefts (inr e :: evs)) with (lefts evs). change (rights (inr e :: evs)) with (e :: rights evs). cbn [local_run].
    destruct (local_step _ _ _ e (to_stream b)) as [[l x]|]; [|done]. injection E1 as <- <-.
    cbn [mbind option_bind to_local to_stream] in *. destruct (client_udp_acts_split [] x) as [-> ->].
    rewrite H2. done.
Qed.
End ClientBridge.

(** ** Lemmas *)
Lemma sent_app xs ys : sent (xs ++ ys) = sent xs ++ sent ys.
Proof. apply omap_app. Qed.
Lemma local_written_app xs ys : local_written (xs ++ ys) = local_written xs ++ local_written ys.
Proof. apply omap_app. Qed.

Section Proofs.
Context `{ZstdLaws}.
Variables (on_server sender_limiter receiver_limiter use_compression : bool) (compression_level : Z).

Lemma udp_run_app xs ys b : udp_run on_server receiver_limiter (xs ++ ys) b =
  ('(b1, a1) ← udp_run on_server receiver_limiter xs b;
   '(b2, a2) ← udp_run on_server receiver_limiter ys b1; mret (b2, a1 ++ a2)).
Proof.
  revert b. induction xs as [|ev xs IH]; intros b; cbn [app udp_run].
  - cbn. by destruct (udp_run on_server receiver_limiter ys b) as [[b2 a2]|].
  - destruct (udp_step on_server receiver_limiter ev b) as [[b1 a1]|]; [|done]. cbn [mbind option_bind]. rewrite IH.
    destruct (udp_run on_server receiver_limiter xs b1) as [[b2 a2]|]; cbn [mbind option_bind]; [|done].
    unfold mret, option_ret. cbn [mbind option_bind].
    by destruct (udp_run on_server receiver_limiter ys b2) as [[b3 a3]|]; cbn [mbind option_bind]; [rewrite app_assoc|].
Qed.

(** The two-byte header of a payload that fits 15 bits. *)
Lemma udp_header_fields n (flag : bool) : 0 <= n <= 32767 ->
  let h := be_val (be_bytes 2 (if flag then Z.lor (wrap 16 n) 0x8000 else wrap 16 n)) in
  Z.land h 0x7FFF = n /\ negb (Z.land h 0x8000 =? 0) = flag.
Proof.
  intros Hn h. assert (Hw : wrap 16 n = n) by (unfold wrap; apply Z.mod_small; lia).
  assert (Hv : h = if flag then n + 2 ^ 15 else n).
  { unfold h. rewrite Hw. destruct flag.
    - change 0x8000 with (2 ^ 15). rewrite lor_flag_add by lia. rewrite be_val_bytes_small; [done|]. cbn. lia.
    - rewrite be_val_bytes_small; [done|]. cbn. lia. }
  rewrite Hv. change 0x7FFF with (2 ^ 15 - 1). change 0x8000 with (2 ^ 15).
  rewrite land_ones_mod, land_flag by lia. destruct flag.
  - rewrite testbit_flag by lia. split; [|done]. rewrite <- Z.add_mod_idemp_r, Z.mod_same, Z.add_0_r by lia.
    apply Z.mod_small. lia.
  - rewrite testbit_small by lia. split; [apply Z.mod_small; lia|done].
Qed.

(** Once the frame is read, the limiter and the send bring the reader back. *)
Lemma hand_over_done datagram b : exists b' acts,
  udp_run on_server receiver_limiter ((if receiver_limiter then [uev_tokens] else []) ++ [uev_sent ec_ok])
    (hand_over on_server receiver_limiter datagram b).1 = Some (b', acts) /\
  sent ((hand_over on_server receiver_limiter datagram b).2 ++ acts) = [datagram] /\ udp_at b' = udp_header.
Proof.
  unfold hand_over, send_op. destruct receiver_limiter; cbn [app udp_run udp_step fst go udp_at mbind option_bind];
    unfold send_op, on_sent; cbn [udp_at]; rewrite ?decide_True by done; by eexists _, _.
Qed.

(** The payload fits the 15 bits of the header. *)
Definition udp_fits (datagram : list byte) : Prop :=
  zlen (udp_choice use_compression compression_level datagram).2 <= 32767 /\ zlen datagram <= 65535.
Lemma udp_choice_spec datagram : udp_fits datagram -> exists (flag : bool),
  let '(header, data) := udp_choice use_compression compression_level datagram in
  header = (if flag then Z.lor (wrap 16 (zlen data)) 0x8000 else wrap 16 (zlen data)) /\
  (if flag then compress compression_level datagram = Some data else data = datagram).
Proof.
  intros _. unfold udp_choice. destruct use_compression; [|by exists false].
  destruct (compress compression_level datagram) as [c|] eqn:E; [|by exists false].
  destruct (zlen c <? zlen datagram); [by exists true|by exists false].
Qed.
Lemma frame_carried datagram b : udp_fits datagram -> udp_at b = udp_header ->
  exists b' acts, udp_run on_server receiver_limiter
      (carry receiver_limiter (udp_frame use_compression compression_level datagram)) b = Some (b', acts) /\
    sent acts = [datagram] /\ udp_at b' = udp_header.
Proof.
  intros Hfit Hp. destruct (udp_choice_spec datagram Hfit) as [flag Hch]. destruct Hfit as [Hfit Hd].
  unfold udp_frame. destruct (udp_choice use_compression compression_level datagram) as [header data].
  cbn [snd] in Hfit. destruct Hch as [-> Hdata]. pose proof (zlen_nonneg data) as Hpos.
  destruct (udp_header_fields (zlen data) flag ltac:(lia)) as [Hl Hf].
  unfold carry. rewrite ztake_app_exact, zdrop_app_exact by (by rewrite zlen_be_bytes).
  set (hb := be_bytes 2 _) in *.
  set (b1 := go (udp_body (zlen data) flag) b).
  assert (Hs1 : udp_step on_server receiver_limiter (uev_read ec_ok hb) b = Some (b1, [stream_read (zlen data)])).
  { cbn [udp_step]. rewrite Hp. rewrite decide_True by done.
    replace (zlen hb =? 2) with true by (unfold hb; by rewrite zlen_be_bytes).
    unfold on_udp_header. rewrite decide_True by done. cbv zeta. rewrite Hl, Hf.
    replace (read_buf_size <? zlen data) with false by (symmetry; apply Z.ltb_ge; unfold read_buf_size; lia).
    done. }
  assert (Hs2 : udp_step on_server receiver_limiter (uev_read ec_ok data) b1 =
    Some (hand_over on_server receiver_limiter datagram b1)).
  { cbn [udp_step udp_at b1 go]. rewrite decide_True by done. rewrite Z.eqb_refl. unfold on_udp_body.
    rewrite decide_True by done. destruct flag; [|by subst data].
    rewrite (content_size_compress _ _ _ Hdata).
    replace (65535 <? zlen datagram) with false by (symmetry; apply Z.ltb_ge; lia).
    by rewrite (decompress_compress _ _ _ Hdata). }
  rewrite udp_run_app. cbn [udp_run]. rewrite Hs1. cbn [mbind option_bind]. rewrite Hs2.
  destruct (hand_over_done datagram b1) as (b' & acts & E & Hs & Hb).
  destruct (hand_over on_server receiver_limiter datagram b1) as [b2 a2]. cbn [fst snd] in *.
  unfold mret, option_ret. cbn [mbind option_bind]. rewrite E. cbn [mbind option_bind].
  eexists _, _. split; [done|]. split; [|done]. by rewrite app_nil_r.
Qed.
Lemma local_passes datagram : exists acts,
  local_run use_compression compression_level sender_limiter (local_pass sender_limiter datagram) local_receiving =
    Some (local_receiving, acts) /\ local_written acts = [udp_frame use_compression compression_level datagram].
Proof.
  unfold local_pass. destruct sender_limiter; cbn [app local_run local_step]; rewrite decide_True by done;
    cbn [mbind option_bind local_run local_step]; rewrite ?decide_True by done; eexists; (split; [reflexivity|done]).
Qed.

Lemma local_run_app xs ys p : local_run use_compression compression_level sender_limiter (xs ++ ys) p =
  ('(p1, a1) ← local_run use_compression compression_level sender_limiter xs p;
   '(p2, a2) ← local_run use_compression compression_level sender_limiter ys p1; mret (p2, a1 ++ a2)).
Proof.
  revert p. induction xs as [|ev xs IH]; intros p; cbn [app local_run].
  - cbn. by destruct (local_run use_compression compression_level sender_limiter ys p) as [[p2 a2]|].
  - destruct (local_step use_compression compression_level sender_limiter ev p) as [[p1 a1]|]; [|done].
    cbn [mbind option_bind]. rewrite IH.
    destruct (local_run use_compression compression_level sender_limiter xs p1) as [[p2 a2]|]; [|done].
    cbn [mbind option_bind]. unfold mret, option_ret. cbn [mbind option_bind].
    by destruct (local_run use_compression compression_level sender_limiter ys p2) as [[p3 a3]|];
      cbn [mbind option_bind]; [rewrite app_assoc|].
Qed.

End Proofs.

(** A datagram of 32768 bytes or more is not carried: sent without
    compression, its length overflows into the flag bit, and the reader takes
    its first bytes for a compressed frame that is 32768 bytes shorter (the
    rest of the datagram is then read as the next headers). *)
Theorem udp_large_datagram_misread `{Zstd} (on_server : bool) (level : Z) (datagram : list byte) (b : UdpBridge)
    (Hlen : 32768 <= zlen datagram <= 65535) :
  on_udp_header ec_ok (ztake 2 (udp_frame false level datagram)) b =
    (go (udp_body (zlen datagram - 32768) true) b, [stream_read (zlen datagram - 32768)]).
Proof.
  unfold udp_frame, udp_choice. rewrite ztake_app_exact by (by rewrite zlen_be_bytes).
  assert (Hw : wrap 16 (zlen datagram) = zlen datagram) by (unfold wrap; apply Z.mod_small; lia).
  unfold on_udp_header. rewrite decide_True by done. cbv zeta. rewrite Hw, be_val_bytes_small by (cbn; lia).
  set (n := zlen datagram - 32768). assert (Hn : 0 <= n < 2 ^ 15) by lia.
  replace (zlen datagram) with (n + 2 ^ 15) by lia.
  assert (Hl : Z.land (n + 2 ^ 15) 0x7FFF = n).
  { change 0x7FFF with (2 ^ 15 - 1). rewrite land_ones_mod, <- Z.add_mod_idemp_r, Z.mod_same, Z.add_0_r by lia.
    apply Z.mod_small. lia. }
  assert (Hf : negb (Z.land (n + 2 ^ 15) 0x8000 =? 0) = true).
  { change 0x8000 with (2 ^ 15). by rewrite land_flag, testbit_flag by lia. }
  rewrite Hl, Hf.
  by replace (read_buf_size <? n) with false by (symmetry; apply Z.ltb_ge; unfold read_buf_size; lia).
Qed.

(** ** Concrete instances *)
#[local] Existing Instance rle_zstd.
#[local] Existing Instance rle_laws.
Definition demo_datagrams : list (list byte) := [repeat Byte.x55 1200; bytes_of "query"; []].
Definition demo_large : list byte := repeat Byte.x00 40000.
Lemma udp_large_datagram_misread_witness :
  on_udp_header ec_ok (ztake 2 (udp_frame false 1 demo_large)) new_udp_bridge =
    (go (udp_body (zlen demo_large - 32768) true) new_udp_bridge, [stream_read (zlen demo_large - 32768)]).
Proof. apply (udp_large_datagram_misread true 1 demo_large new_udp_bridge). by vm_compute. Defined.
