(* ===== verification/Pending.v ===== *)
(** * Pending user connections and tickets (src/server/server.cpp)

    The server keeps a user connection, or the endpoint of a UDP user, under a
    ticket until the client opens a work stream that presents the ticket, or
    until it expires.  The state is the part of [Server] under
    [pending_conn_mutex_] with the listeners that feed it; every operation is
    one critical section, so a run is a sequence of operations.  Sockets and
    listeners are numbered; times are [steady_clock] readings in nanoseconds. *)
From Stdlib Require Import ZArith Lia Strings.Byte String Sorting.Sorted.
From stdpp Require Import base tactics list gmap strings sorting pretty.
From S2P Require Import Prelude.
Local Open Scope Z_scope.

(** ** State *)
Definition endpoint : Type := (N * N)%type.

Record ProxyListener : Type := { pl_name : string; active_conns_ : Z; total_conns_ : Z }.
Record UdpProxyListener : Type := {
  ul_name : string;
  ul_bytes_received : Z;
  ul_total_conns : Z;
  endpoint_to_ticket_ : gmap endpoint string
}.

Record TcpSessionInfo : Type := {
  tcp_socket : nat;
  initial_data : list byte;
  tcp_proxy_name : string;
  tcp_created_at : Z
}.
Record UdpSessionInfo : Type := {
  udp_listener : nat;
  udp_endpoint : endpoint;
  udp_proxy_name : string;
  udp_created_at : Z
}.
Record TicketExpiration : Type := { ticket : string; is_udp : bool; expires_at : Z }.

Record Pending : Type := {
  pending_user_conns_ : gmap string TcpSessionInfo;
  pending_udp_sessions_ : gmap string UdpSessionInfo;
  ticket_expiration_queue_ : list TicketExpiration;
  tcp_listeners : gmap nat ProxyListener;
  udp_listeners : gmap nat UdpProxyListener
}.
Definition MAX_PENDING_TICKETS : Z := 512.
(** [std::chrono::seconds(10)] *)
Definition ticket_lifetime : Z := 10 * 1000000000.

(** A user connection as it is handed from one owner to the next. *)
Record user_conn : Type := { uc_ticket : string; uc_socket : nat; uc_proxy : string; uc_data : list byte }.
Definition conn_of (t : string) (i : TcpSessionInfo) : user_conn :=
  {| uc_ticket := t; uc_socket := tcp_socket i; uc_proxy := tcp_proxy_name i; uc_data := initial_data i |}.

Inductive outcome : Type :=
| conn_dropped (c : user_conn)                     (* its socket is destroyed *)
| conn_spliced (c : user_conn)
| udp_spliced (t : string) (i : UdpSessionInfo)
| no_such_ticket (t : string)                      (* the work stream is closed *)
| new_user_conn (proxy t : string).                (* NewUserConn to the control session *)

Definition set_conns (m : gmap string TcpSessionInfo) (p : Pending) : Pending := {|
  pending_user_conns_ := m; pending_udp_sessions_ := pending_udp_sessions_ p;
  ticket_expiration_queue_ := ticket_expiration_queue_ p;
  tcp_listeners := tcp_listeners p; udp_listeners := udp_listeners p |}.
Definition set_udps (m : gmap string UdpSessionInfo) (p : Pending) : Pending := {|
  pending_user_conns_ := pending_user_conns_ p; pending_udp_sessions_ := m;
  ticket_expiration_queue_ := ticket_expiration_queue_ p;
  tcp_listeners := tcp_listeners p; udp_listeners := udp_listeners p |}.
Definition set_queue (q : list TicketExpiration) (p : Pending) : Pending := {|
  pending_user_conns_ := pending_user_conns_ p; pending_udp_sessions_ := pending_udp_sessions_ p;
  ticket_expiration_queue_ := q; tcp_listeners := tcp_listeners p; udp_listeners := udp_listeners p |}.
Definition set_tcp_listeners (m : gmap nat ProxyListener) (p : Pending) : Pending := {|
  pending_user_conns_ := pending_user_conns_ p; pending_udp_sessions_ := pending_udp_sessions_ p;
  ticket_expiration_queue_ := ticket_expiration_queue_ p;
  tcp_listeners := m; udp_listeners := udp_listeners p |}.
Definition set_udp_listeners (m : gmap nat UdpProxyListener) (p : Pending) : Pending := {|
  pending_user_conns_ := pending_user_conns_ p; pending_udp_sessions_ := pending_udp_sessions_ p;
  ticket_expiration_queue_ := ticket_expiration_queue_ p;
  tcp_listeners := tcp_listeners p; udp_listeners := m |}.

Definition empty_pending : Pending := {|
  pending_user_conns_ := ∅; pending_udp_sessions_ := ∅; ticket_expiration_queue_ := [];
  tcp_listeners := ∅; udp_listeners := ∅ |}.
Definition pending_count (p : Pending) : Z :=
  Z.of_nat (size (pending_user_conns_ p) + size (pending_udp_sessions_ p)).

(** ** Operations *)
(** [UdpProxyListener::RemoveEndpoint] *)
Definition forget_endpoint (e : endpoint) (l : UdpProxyListener) : UdpProxyListener := {|
  ul_name := ul_name l; ul_bytes_received := ul_bytes_received l; ul_total_conns := ul_total_conns l;
  endpoint_to_ticket_ := delete e (endpoint_to_ticket_ l) |}.
Definition RemoveEndpoint (l : nat) (e : endpoint) (p : Pending) : Pending :=
  set_udp_listeners (alter (forget_endpoint e) l (udp_listeners p)) p.

(** [erase] of a TCP entry destroys its socket. *)
Definition erase_conn (t : string) (p : Pending) : Pending * list outcome :=
  match pending_user_conns_ p !! t with
  | Some i => (set_conns (delete t (pending_user_conns_ p)) p, [conn_dropped (conn_of t i)])
  | None => (p, [])
  end.

(** [DoLazyCleanup]: one pass of its loop for each entry of the queue. *)
Definition expire_one (x : TicketExpiration) (p : Pending) : Pending * list outcome :=
  if is_udp x then
    match pending_udp_sessions_ p !! ticket x with
    | Some i =>
      (set_udps (delete (ticket x) (pending_udp_sessions_ p))
                (RemoveEndpoint (udp_listener i) (udp_endpoint i) p), [])
    | None => (p, [])
    end
  else erase_conn (ticket x) p.
Fixpoint cleanup_loop (now : Z) (q : list TicketExpiration) (p : Pending) : Pending * list outcome :=
  match q with
  | [] => (set_queue [] p, [])
  | x :: q' =>
    if expires_at x <=? now then
      let '(p1, o1) := expire_one x p in let '(p2, o2) := cleanup_loop now q' p1 in (p2, o1 ++ o2)
    else (set_queue q p, [])
  end.
Definition DoLazyCleanup (now : Z) (p : Pending) : Pending * list outcome :=
  cleanup_loop now (ticket_expiration_queue_ p) p.

(** The clock is read in [DoLazyCleanup] ([t0]) and again afterwards ([t1]);
    [emplace] keeps an entry that is already there, and the new socket is
    destroyed with the temporary. *)
Definition RegisterUserConn (t0 t1 : Z) (c : user_conn) (p : Pending) : Pending * list outcome :=
  let '(p1, o1) := DoLazyCleanup t0 p in
  if MAX_PENDING_TICKETS <=? pending_count p1 then (p1, o1 ++ [conn_dropped c]) else
  let x := {| ticket := uc_ticket c; is_udp := false; expires_at := t1 + ticket_lifetime |} in
  let q := ticket_expiration_queue_ p1 ++ [x] in
  match pending_user_conns_ p1 !! uc_ticket c with
  | Some _ => (set_queue q p1, o1 ++ [conn_dropped c])
  | None =>
    let i := {| tcp_socket := uc_socket c; initial_data := uc_data c; tcp_proxy_name := uc_proxy c;
                tcp_created_at := t1 |} in
    (set_queue q (set_conns (<[uc_ticket c := i]> (pending_user_conns_ p1)) p1), o1)
  end.

Definition RegisterUdpSession (t0 t1 : Z) (t : string) (l : nat) (e : endpoint) (proxy : string)
    (p : Pending) : Pending * list outcome :=
  let '(p1, o1) := DoLazyCleanup t0 p in
  if MAX_PENDING_TICKETS <=? pending_count p1 then (p1, o1) else
  let x := {| ticket := t; is_udp := true; expires_at := t1 + ticket_lifetime |} in
  let q := ticket_expiration_queue_ p1 ++ [x] in
  match pending_udp_sessions_ p1 !! t with
  | Some _ => (set_queue q p1, o1)
  | None =>
    let i := {| udp_listener := l; udp_endpoint := e; udp_proxy_name := proxy; udp_created_at := t1 |} in
    (set_queue q (set_udps (<[t := i]> (pending_udp_sessions_ p1)) p1), o1)
  end.

(** [ClearPendingForProxy] *)
Definition ClearPendingForProxy (proxy : string) (p : Pending) : Pending * list outcome :=
  let hit := filter (fun kv : string * TcpSessionInfo => tcp_proxy_name kv.2 = proxy) (pending_user_conns_ p) in
  (set_udps (filter (fun kv : string * UdpSessionInfo => udp_proxy_name kv.2 <> proxy) (pending_udp_sessions_ p))
     (set_conns (filter (fun kv : string * TcpSessionInfo => tcp_proxy_name kv.2 <> proxy)
                        (pending_user_conns_ p)) p),
   map (fun kv => conn_dropped (conn_of kv.1 kv.2)) (map_to_list hit)).

(** The critical section of [HandleNewMuxStream] that takes the ticket. *)
Definition claim (t : string) (p : Pending) : Pending * list outcome :=
  match pending_user_conns_ p !! t with
  | Some i => (set_conns (delete t (pending_user_conns_ p)) p, [conn_spliced (conn_of t i)])
  | None =>
    match pending_udp_sessions_ p !! t with
    | Some i =>
      (set_udps (delete t (pending_udp_sessions_ p)) (RemoveEndpoint (udp_listener i) (udp_endpoint i) p),
       [udp_spliced t i])
    | None => (p, [no_such_ticket t])
    end
  end.

(** ** The listeners *)
(** [ProxyListener::DoAccept] with a new socket; [alive] tells whether
    [session_.lock()] gives the session. *)
Definition DoAccept (l : nat) (alive : bool) (t0 t1 : Z) (t : string) (socket : nat) (p : Pending)
  : option (Pending * list outcome) :=
  pl ← tcp_listeners p !! l;
  let pl' := {| pl_name := pl_name pl; active_conns_ := wrap 32 (active_conns_ pl + 1);
                total_conns_ := wrap 64 (total_conns_ pl + 1) |} in
  let c := {| uc_ticket := t; uc_socket := socket; uc_proxy := pl_name pl; uc_data := [] |} in
  let '(p1, o1) := RegisterUserConn t0 t1 c (set_tcp_listeners (<[l := pl']> (tcp_listeners p)) p) in
  Some (p1, o1 ++ if alive then [new_user_conn (pl_name pl) t] else []).

(** [ProxyListener::dec_active_conns] *)
Definition dec_active_conns (pl : ProxyListener) : ProxyListener := {|
  pl_name := pl_name pl;
  active_conns_ := if 0 <? active_conns_ pl then active_conns_ pl - 1 else active_conns_ pl;
  total_conns_ := total_conns_ pl |}.

(** [UdpProxyListener::DoReceive] with a datagram of [length] bytes from [e];
    [t] is the ticket it draws when it needs one. *)
Definition DoReceive (l : nat) (alive : bool) (t0 t1 : Z) (t : string) (e : endpoint) (length : Z)
    (p : Pending) : option (Pending * list outcome) :=
  ul ← udp_listeners p !! l;
  let received := wrap 64 (ul_bytes_received ul + length) in
  match endpoint_to_ticket_ ul !! e with
  | Some _ =>
    Some (set_udp_listeners (<[l := {| ul_name := ul_name ul; ul_bytes_received := received;
            ul_total_conns := ul_total_conns ul; endpoint_to_ticket_ := endpoint_to_ticket_ ul |}]>
            (udp_listeners p)) p, [])
  | None =>
    let ul' := {| ul_name := ul_name ul; ul_bytes_received := received;
                  ul_total_conns := wrap 64 (ul_total_conns ul + 1);
                  endpoint_to_ticket_ := <[e := t]> (endpoint_to_ticket_ ul) |} in
    let '(p1, o1) := RegisterUdpSession t0 t1 t l e (ul_name ul)
                       (set_udp_listeners (<[l := ul']> (udp_listeners p)) p) in
    Some (p1, o1 ++ if alive then [new_user_conn (ul_name ul) t] else [])
  end.

Inductive pending_op : Type :=
| op_listen_tcp (l : nat) (name : string)
| op_listen_udp (l : nat) (name : string)
| op_accept (l : nat) (alive : bool) (t0 t1 : Z) (t : string) (socket : nat)
| op_vhost (t0 t1 : Z) (c : user_conn)                 (* RegisterUserConn from DoVhostAccept *)
| op_datagram (l : nat) (alive : bool) (t0 t1 : Z) (t : string) (e : endpoint) (length : Z)
| op_claim (t : string)
| op_clear (proxy : string)
| op_bridge_end (l : nat).                             (* dec_active_conns *)

Definition pending_step (op : pending_op) (p : Pending) : option (Pending * list outcome) :=
  match op with
  | op_listen_tcp l name =>
    match tcp_listeners p !! l with
    | Some _ => None
    | None => Some (set_tcp_listeners (<[l := {| pl_name := name; active_conns_ := 0;
                      total_conns_ := 0 |}]> (tcp_listeners p)) p, [])
    end
  | op_listen_udp l name =>
    match udp_listeners p !! l with
    | Some _ => None
    | None => Some (set_udp_listeners (<[l := {| ul_name := name; ul_bytes_received := 0;
                      ul_total_conns := 0; endpoint_to_ticket_ := ∅ |}]> (udp_listeners p)) p, [])
    end
  | op_accept l alive t0 t1 t s => DoAccept l alive t0 t1 t s p
  | op_vhost t0 t1 c => Some (RegisterUserConn t0 t1 c p)
  | op_datagram l alive t0 t1 t e n => DoReceive l alive t0 t1 t e n p
  | op_claim t => Some (claim t p)
  | op_clear proxy => Some (ClearPendingForProxy proxy p)
  | op_bridge_end l => Some (set_tcp_listeners (alter dec_active_conns l (tcp_listeners p)) p, [])
  end.
Fixpoint pending_run (ops : list pending_op) (p : Pending) : option (Pending * list outcome) :=
  match ops with
  | [] => Some (p, [])
  | op :: ops' =>
    '(p1, o1) ← pending_step op p; '(p2, o2) ← pending_run ops' p1; mret (p2, o1 ++ o2)
  end.

(** ** Where the user connections are *)
Definition pending_conns (p : Pending) : list user_conn :=
  map (fun kv => conn_of kv.1 kv.2) (map_to_list (pending_user_conns_ p)).
Definition resolved (outs : list outcome) : list user_conn :=
  omap (fun o => match o with conn_dropped c | conn_spliced c => Some c | _ => None end) outs.
(** The connection an operation brings in. *)
Definition offered (op : pending_op) (p : Pending) : list user_conn :=
  match op with
  | op_accept l _ _ _ t s =>
    match tcp_listeners p !! l with
    | Some pl => [{| uc_ticket := t; uc_socket := s; uc_proxy := pl_name pl; uc_data := [] |}]
    | None => []
    end
  | op_vhost _ _ c => [c]
  | _ => []
  end.
Fixpoint offered_run (ops : list pending_op) (p : Pending) : list user_conn :=
  match ops with
  | [] => []
  | op :: ops' =>
    match pending_step op p with
    | Some (p1, _) => offered op p ++ offered_run ops' p1
    | None => []
    end
  end.

Lemma resolved_app o1 o2 : resolved (o1 ++ o2) = resolved o1 ++ resolved o2.
Proof. unfold resolved. apply omap_app. Qed.
Lemma resolved_dropped l : resolved (map conn_dropped l) = l.
Proof. induction l as [|c l IH]; [done|]. unfold resolved in *. cbn [map omap list_omap]. by rewrite IH. Qed.

Lemma pending_conns_delete t i p : pending_user_conns_ p !! t = Some i ->
  pending_conns p ≡ₚ
  conn_of t i :: map (fun kv => conn_of kv.1 kv.2) (map_to_list (delete t (pending_user_conns_ p))).
Proof. intros Hi. unfold pending_conns. rewrite <- (map_to_list_delete _ t i Hi). done. Qed.
Lemma map_to_list_partition {A} (P : string * A -> Prop) `{!forall x, Decision (P x)} (m : gmap string A) :
  map_to_list m ≡ₚ map_to_list (filter (fun x => ~ P x) m) ++ map_to_list (filter P m).
Proof.
  apply NoDup_Permutation; [apply NoDup_map_to_list| |].
  - apply NoDup_app. split; [apply NoDup_map_to_list|]. split; [|apply NoDup_map_to_list].
    intros [k x] H1%elem_of_map_to_list H2%elem_of_map_to_list.
    apply map_lookup_filter_Some in H1 as [_ H1]. apply map_lookup_filter_Some in H2 as [_ H2]. done.
  - intros [k x]. rewrite elem_of_app, !elem_of_map_to_list, !map_lookup_filter_Some.
    destruct (decide (P (k, x))); tauto.
Qed.

(** One step moves connections between the owners without losing one. *)
Definition conserves (inp : list user_conn) (p p' : Pending) (outs : list outcome) : Prop :=
  inp ++ pending_conns p ≡ₚ pending_conns p' ++ resolved outs.

Lemma conserves_id p p' o : pending_user_conns_ p' = pending_user_conns_ p -> resolved o = [] ->
  conserves [] p p' o.
Proof. intros H1 H2. unfold conserves, pending_conns. by rewrite H1, H2, app_nil_r. Qed.
Lemma conserves_trans i1 i2 p p1 p2 o1 o2 : conserves i1 p p1 o1 -> conserves i2 p1 p2 o2 ->
  conserves (i1 ++ i2) p p2 (o1 ++ o2).
Proof.
  unfold conserves. rewrite resolved_app. intros H1 H2.
  rewrite (Permutation_app_comm i1), <- app_assoc, H1, app_assoc, H2.
  rewrite <- !app_assoc. f_equiv. apply Permutation_app_comm.
Qed.
Lemma erase_conn_conserves t p : let '(p', o) := erase_conn t p in conserves [] p p' o.
Proof.
  unfold erase_conn. destruct (pending_user_conns_ p !! t) as [i|] eqn:E; [|by apply conserves_id].
  unfold conserves. cbn [app]. rewrite (pending_conns_delete t i) by done.
  unfold pending_conns at 1. cbn. by rewrite <- Permutation_cons_append.
Qed.
Lemma expire_one_conserves x p : let '(p', o) := expire_one x p in conserves [] p p' o.
Proof.
  unfold expire_one. destruct (is_udp x); [|apply erase_conn_conserves].
  destruct (pending_udp_sessions_ p !! ticket x); by apply conserves_id.
Qed.
Lemma cleanup_conserves now q p : let '(p', o) := cleanup_loop now q p in conserves [] p p' o.
Proof.
  revert p. induction q as [|x q IH]; intros p; cbn [cleanup_loop]; [by apply conserves_id|].
  destruct (expires_at x <=? now); [|by apply conserves_id].
  pose proof (expire_one_conserves x p) as H1. destruct (expire_one x p) as [p1 o1].
  specialize (IH p1). destruct (cleanup_loop now q p1) as [p2 o2].
  by apply (conserves_trans [] [] p p1).
Qed.

Lemma register_conn_conserves t0 t1 c p :
  let '(p', o) := RegisterUserConn t0 t1 c p in conserves [c] p p' o.
Proof.
  unfold RegisterUserConn, DoLazyCleanup.
  pose proof (cleanup_conserves t0 (ticket_expiration_queue_ p) p) as H1.
  destruct (cleanup_loop _ _ _) as [p1 o1].
  assert (Hdrop : conserves [c] p p1 (o1 ++ [conn_dropped c])).
  { apply (conserves_trans [] [c] p p1 p1 o1 [conn_dropped c] H1).
    unfold conserves. cbn. apply Permutation_cons_append. }
  destruct (_ <=? _); [done|].
  destruct (pending_user_conns_ p1 !! uc_ticket c) eqn:E; [done|].
  rewrite <- (app_nil_r o1). apply (conserves_trans [] [c] p p1); [done|].
  unfold conserves, pending_conns at 2. cbn. rewrite map_to_list_insert by done.
  cbn. rewrite app_nil_r. by destruct c.
Qed.
Lemma register_udp_conserves t0 t1 t l e proxy p :
  let '(p', o) := RegisterUdpSession t0 t1 t l e proxy p in conserves [] p p' o.
Proof.
  unfold RegisterUdpSession, DoLazyCleanup.
  pose proof (cleanup_conserves t0 (ticket_expiration_queue_ p) p) as H1.
  destruct (cleanup_loop _ _ _) as [p1 o1]. destruct (_ <=? _); [done|].
  by destruct (pending_udp_sessions_ p1 !! t).
Qed.
Lemma clear_conserves proxy p : let '(p', o) := ClearPendingForProxy proxy p in conserves [] p p' o.
Proof.
  unfold ClearPendingForProxy, conserves. cbn [app].
  rewrite <- (map_map (fun kv : string * TcpSessionInfo => conn_of kv.1 kv.2) conn_dropped), resolved_dropped.
  unfold pending_conns. cbn. rewrite <- map_app. apply fmap_Permutation.
  apply (map_to_list_partition (fun kv : string * TcpSessionInfo => tcp_proxy_name kv.2 = proxy)).
Qed.
Lemma claim_conserves t p : let '(p', o) := claim t p in conserves [] p p' o.
Proof.
  unfold claim. destruct (pending_user_conns_ p !! t) as [i|] eqn:E.
  - unfold conserves. cbn [app]. rewrite (pending_conns_delete t i) by done.
    unfold pending_conns at 1. cbn. by rewrite <- Permutation_cons_append.
  - destruct (pending_udp_sessions_ p !! t); by apply conserves_id.
Qed.

Lemma conserves_announce i p p' o (alive : bool) a b : conserves i p p' o ->
  conserves i p p' (o ++ if alive then [new_user_conn a b] else []).
Proof. unfold conserves. rewrite resolved_app. by destruct alive; cbn; rewrite app_nil_r. Qed.

Lemma pending_step_conserves op p p' o : pending_step op p = Some (p', o) ->
  conserves (offered op p) p p' o.
Proof.
  destruct op; cbn [pending_step offered].
  - destruct (tcp_listeners p !! l); [done|]. intros [= <- <-]. by apply conserves_id.
  - destruct (udp_listeners p !! l); [done|]. intros [= <- <-]. by apply conserves_id.
  - unfold DoAccept. destruct (tcp_listeners p !! l) as [pl|]; [|done]. cbn [mbind option_bind].
    match goal with |- context [RegisterUserConn t0 t1 ?c ?q] =>
      pose proof (register_conn_conserves t0 t1 c q) as H; destruct (RegisterUserConn t0 t1 c q) end.
    intros [= <- <-]. by apply conserves_announce.
  - pose proof (register_conn_conserves t0 t1 c p) as H. destruct (RegisterUserConn t0 t1 c p).
    by intros [= <- <-].
  - unfold DoReceive. destruct (udp_listeners p !! l) as [ul|]; [|done]. cbn [mbind option_bind].
    destruct (endpoint_to_ticket_ ul !! e); [by intros [= <- <-]; apply conserves_id|].
    match goal with |- context [RegisterUdpSession t0 t1 ?a ?b ?c ?d ?q] =>
      pose proof (register_udp_conserves t0 t1 a b c d q) as H;
      destruct (RegisterUdpSession t0 t1 a b c d q) end.
    intros [= <- <-]. by apply conserves_announce.
  - pose proof (claim_conserves t p) as H. destruct (claim t p). by intros [= <- <-].
  - pose proof (clear_conserves proxy p) as H. destruct (ClearPendingForProxy proxy p). by intros [= <- <-].
  - intros [= <- <-]. by apply conserves_id.
Qed.
Lemma pending_run_conserves ops p p' o : pending_run ops p = Some (p', o) ->
  conserves (offered_run ops p) p p' o.
Proof.
  revert p p' o. induction ops as [|op ops IH]; intros p p' o; cbn [pending_run offered_run].
  { intros [= <- <-]. by apply conserves_id. }
  destruct (pending_step op p) as [[p1 o1]|] eqn:E1; [|done]. cbn [mbind option_bind].
  destruct (pending_run ops p1) as [[p2 o2]|] eqn:E2; [|done]. intros [= <- <-].
  eapply conserves_trans; [by apply pending_step_conserves|by apply IH].
Qed.

(** ** Expiration *)
Definition in_order (x y : TicketExpiration) : Prop := expires_at x <= expires_at y.
(** The pending entries are covered by the queue entries [q] that are left. *)
Record covered_by (now : Z) (q : list TicketExpiration) (p : Pending) : Prop := {
  inv_count : pending_count p <= MAX_PENDING_TICKETS;
  inv_sorted : StronglySorted in_order q;
  inv_now : Forall (fun x => expires_at x <= now + ticket_lifetime) q;
  inv_conns : forall t i, pending_user_conns_ p !! t = Some i ->
    exists x, x ∈ q /\ ticket x = t /\ is_udp x = false /\ expires_at x = tcp_created_at i + ticket_lifetime;
  inv_udps : forall t i, pending_udp_sessions_ p !! t = Some i ->
    exists x, x ∈ q /\ ticket x = t /\ is_udp x = true /\ expires_at x = udp_created_at i + ticket_lifetime;
  inv_link : forall t i, pending_udp_sessions_ p !! t = Some i ->
    exists ul, udp_listeners p !! udp_listener i = Some ul /\ endpoint_to_ticket_ ul !! udp_endpoint i = Some t
}.
Definition pending_inv (now : Z) (p : Pending) : Prop := covered_by now (ticket_expiration_queue_ p) p.

(** Taking entries away keeps every part but the cover. *)
Lemma size_delete_le {A} t (m : gmap string A) : (size (delete t m) <= size m)%nat.
Proof. rewrite map_size_delete. destruct (m !! t); cbn; lia. Qed.

(** What removing a UDP entry does to the links of the others. *)
Lemma remove_endpoint_link p t i t' i' :
  (forall t i, pending_udp_sessions_ p !! t = Some i ->
    exists ul, udp_listeners p !! udp_listener i = Some ul /\ endpoint_to_ticket_ ul !! udp_endpoint i = Some t) ->
  pending_udp_sessions_ p !! t = Some i -> delete t (pending_udp_sessions_ p) !! t' = Some i' ->
  exists ul, udp_listeners (RemoveEndpoint (udp_listener i) (udp_endpoint i) p) !! udp_listener i' = Some ul /\
    endpoint_to_ticket_ ul !! udp_endpoint i' = Some t'.
Proof.
  intros Hl Hi [Hne Hi']%lookup_delete_Some. destruct (Hl _ _ Hi) as (ul & E & Eu).
  destruct (Hl _ _ Hi') as (ul' & E' & Eu'). unfold RemoveEndpoint. cbn [udp_listeners set_udp_listeners].
  destruct (decide (udp_listener i = udp_listener i')) as [Heq|Hn].
  - rewrite <- Heq, E in E'. injection E' as <-. rewrite <- Heq, lookup_alter_eq, E. eexists; split; [done|].
    cbn. rewrite lookup_delete_ne; [done|]. intros He. rewrite He in Eu. congruence.
  - rewrite lookup_alter_ne by done. by exists ul'.
Qed.

(** Removing the entry of one ticket and kind; used by expiry and by claims. *)
Lemma covered_drop_conn now q p t : covered_by now q p -> covered_by now q (erase_conn t p).1.
Proof.
  intros H. unfold erase_conn. destruct (pending_user_conns_ p !! t) as [i|] eqn:E; [|done].
  destruct H. split; cbn; try done.
  - unfold pending_count in *. cbn. pose proof (size_delete_le t (pending_user_conns_ p)). lia.
  - intros t' i' [_ Hi']%lookup_delete_Some. eauto.
Qed.
Lemma covered_drop_udp now q p t i : covered_by now q p -> pending_udp_sessions_ p !! t = Some i ->
  covered_by now q (set_udps (delete t (pending_udp_sessions_ p))
                      (RemoveEndpoint (udp_listener i) (udp_endpoint i) p)).
Proof.
  intros H E. destruct H as [H1 H2 H3 H4 H5 H6]. split; cbn; try done.
  - unfold pending_count in *. cbn. pose proof (size_delete_le t (pending_udp_sessions_ p)). lia.
  - intros t' i' [_ Hi']%lookup_delete_Some. eauto.
  - intros t' i' Hi'. by apply (remove_endpoint_link p t i t' i').
Qed.

Lemma covered_tail now x q p : covered_by now (x :: q) p ->
  (is_udp x = false -> pending_user_conns_ p !! ticket x = None) ->
  (is_udp x = true -> pending_udp_sessions_ p !! ticket x = None) -> covered_by now q p.
Proof.
  intros H Hf Ht. destruct H as [H1 H2 H3 H4 H5 H6]. apply StronglySorted_inv in H2 as [H2 _].
  apply Forall_cons in H3 as [_ H3]. split; try done.
  - intros t i Hi. destruct (H4 t i Hi) as (y & Hy & Et & Eu & Ee). exists y. split; [|done].
    apply elem_of_cons in Hy as [->|Hy]; [|done]. rewrite <- Et, Hf in Hi; done.
  - intros t i Hi. destruct (H5 t i Hi) as (y & Hy & Et & Eu & Ee). exists y. split; [|done].
    apply elem_of_cons in Hy as [->|Hy]; [|done]. rewrite <- Et, Ht in Hi; done.
Qed.

Lemma erase_conn_lookup t p t' :
  pending_user_conns_ (erase_conn t p).1 !! t' = if decide (t = t') then None else pending_user_conns_ p !! t'.
Proof.
  unfold erase_conn. destruct (pending_user_conns_ p !! t) as [i|] eqn:E; cbn; case_decide; subst; try done.
  - apply lookup_delete_eq.
  - by apply lookup_delete_ne.
Qed.
Lemma erase_conn_udps t p : pending_udp_sessions_ (erase_conn t p).1 = pending_udp_sessions_ p.
Proof. unfold erase_conn. by destruct (pending_user_conns_ p !! t). Qed.

(** What one round of the cleanup leaves. *)
Lemma expire_one_conns x p t : pending_user_conns_ (expire_one x p).1 !! t =
  if decide (is_udp x = false /\ ticket x = t) then None else pending_user_conns_ p !! t.
Proof.
  unfold expire_one. destruct (is_udp x).
  - rewrite decide_False by (intros [? _]; done). by destruct (pending_udp_sessions_ p !! ticket x).
  - rewrite erase_conn_lookup. repeat case_decide; naive_solver.
Qed.
Lemma expire_one_udps x p t : pending_udp_sessions_ (expire_one x p).1 !! t =
  if decide (is_udp x = true /\ ticket x = t) then None else pending_udp_sessions_ p !! t.
Proof.
  unfold expire_one. destruct (is_udp x).
  - destruct (pending_udp_sessions_ p !! ticket x) as [i|] eqn:E; cbn; case_decide as Hd; try done.
    + destruct Hd as [_ <-]. apply lookup_delete_eq.
    + apply lookup_delete_ne. naive_solver.
    + by destruct Hd as [_ <-].
  - rewrite erase_conn_udps, decide_False; [done|naive_solver].
Qed.
Lemma expire_one_covered now x q p : covered_by now (x :: q) p -> covered_by now q (expire_one x p).1.
Proof.
  intros H. apply (covered_tail now x).
  - unfold expire_one. destruct (is_udp x); [|by apply covered_drop_conn].
    destruct (pending_udp_sessions_ p !! ticket x) eqn:E; [|done]. by apply covered_drop_udp.
  - intros Hu. by rewrite expire_one_conns, decide_True.
  - intros Hu. by rewrite expire_one_udps, decide_True.
Qed.

(** An entry is named by an expired queue entry of its kind. *)
Definition named (udp : bool) (now : Z) (t : string) (q : list TicketExpiration) : Prop :=
  Exists (fun x => is_udp x = udp /\ ticket x = t /\ expires_at x <= now) q.
#[export] Instance named_dec udp now t q : Decision (named udp now t q).
Proof. unfold named. apply _. Defined.
Lemma named_nil udp now t : ~ named udp now t [].
Proof. by intros ?%Exists_nil. Qed.
Lemma named_cons udp now t x q : named udp now t (x :: q) <->
  (is_udp x = udp /\ ticket x = t /\ expires_at x <= now) \/ named udp now t q.
Proof. unfold named. by rewrite Exists_cons. Qed.
Lemma not_named_later udp now t x q : StronglySorted in_order (x :: q) -> now < expires_at x ->
  ~ named udp now t (x :: q).
Proof.
  intros [_ Hs]%StronglySorted_inv Hx (y & Hy & _ & _ & He)%Exists_exists.
  apply elem_of_cons in Hy as [->|Hy]; [lia|]. rewrite Forall_forall in Hs. specialize (Hs y Hy).
  unfold in_order in Hs. lia.
Qed.

Record cleaned (now : Z) (q : list TicketExpiration) (p p' : Pending) : Prop := {
  cl_conns : forall t, pending_user_conns_ p' !! t =
    if decide (named false now t q) then None else pending_user_conns_ p !! t;
  cl_udps : forall t, pending_udp_sessions_ p' !! t =
    if decide (named true now t q) then None else pending_udp_sessions_ p !! t;
  cl_later : Forall (fun x => now < expires_at x) (ticket_expiration_queue_ p')
}.
Lemma cleanup_loop_spec last now q p : covered_by last q p ->
  let p' := (cleanup_loop now q p).1 in pending_inv last p' /\ cleaned now q p p'.
Proof.
  revert p. induction q as [|x q IH]; intros p Hc; cbn [cleanup_loop].
  - split; [by destruct Hc|]. split; [| |done]; intros t; cbn; by rewrite decide_False by apply named_nil.
  - destruct (expires_at x <=? now) eqn:Hx; bool_hyps.
    + pose proof (expire_one_covered _ _ _ _ Hc) as Hc1.
      pose proof (expire_one_conns x p) as Ec. pose proof (expire_one_udps x p) as Eu.
      destruct (expire_one x p) as [p1 o1]. cbn [fst] in *. specialize (IH p1 Hc1).
      destruct (cleanup_loop now q p1) as [p2 o2]. cbn [fst] in *.
      destruct IH as [Hi [Cc Cu Cl]]. split; [done|]. split; [| |done]; intros t.
      * rewrite Cc, Ec. repeat case_decide; rewrite ?named_cons in *; naive_solver.
      * rewrite Cu, Eu. repeat case_decide; rewrite ?named_cons in *; naive_solver.
    + pose proof (inv_sorted _ _ _ Hc) as Hs. split; [by destruct Hc|]. split; cbn.
      * intros t. by rewrite decide_False by (by apply not_named_later).
      * intros t. by rewrite decide_False by (by apply not_named_later).
      * constructor; [done|]. apply StronglySorted_inv in Hs as [_ Hs].
        eapply Forall_impl; [exact Hs|]. unfold in_order. cbn. lia.
Qed.
Lemma DoLazyCleanup_spec last now p : pending_inv last p ->
  let p' := (DoLazyCleanup now p).1 in
  pending_inv last p' /\ cleaned now (ticket_expiration_queue_ p) p p'.
Proof. apply cleanup_loop_spec. Qed.

(** After a cleanup nothing is left that is as old as a ticket may get. *)
Lemma cleaned_young last now q p p' : pending_inv last p' -> cleaned now q p p' ->
  (forall t i, pending_user_conns_ p' !! t = Some i -> now < tcp_created_at i + ticket_lifetime) /\
  (forall t i, pending_udp_sessions_ p' !! t = Some i -> now < udp_created_at i + ticket_lifetime).
Proof.
  intros Hi [_ _ Hl]. rewrite Forall_forall in Hl. split; intros t i E.
  - destruct (inv_conns _ _ _ Hi t i E) as (x & Hx & _ & _ & <-). by apply Hl.
  - destruct (inv_udps _ _ _ Hi t i E) as (x & Hx & _ & _ & <-). by apply Hl.
Qed.

(** ** The invariant of a run *)
Definition readings (op : pending_op) : list Z :=
  match op with
  | op_accept _ _ t0 t1 _ _ | op_vhost t0 t1 _ | op_datagram _ _ t0 t1 _ _ _ => [t0; t1]
  | _ => []
  end.
(** [steady_clock] never goes back; [now] is the last reading. *)
Fixpoint clock_ok (now : Z) (ts : list Z) : Prop :=
  match ts with [] => True | t :: ts' => now <= t /\ clock_ok t ts' end.
Definition last_reading (now : Z) (ts : list Z) : Z := foldl (fun _ t => t) now ts.

Lemma clock_ok_app now l1 l2 : clock_ok now (l1 ++ l2) <->
  clock_ok now l1 /\ clock_ok (last_reading now l1) l2.
Proof.
  revert now. induction l1 as [|a l1 IH]; intros now; cbn; [tauto|]. rewrite IH. unfold last_reading. tauto.
Qed.

Lemma covered_later now now' q p : now <= now' -> covered_by now q p -> covered_by now' q p.
Proof.
  intros Hle [H1 H2 H3 H4 H5 H6]. split; try done.
  eapply Forall_impl; [exact H3|]. cbn. lia.
Qed.
Lemma sorted_push now t1 q t u : now <= t1 -> StronglySorted in_order q ->
  Forall (fun x => expires_at x <= now + ticket_lifetime) q ->
  StronglySorted in_order (q ++ [{| ticket := t; is_udp := u; expires_at := t1 + ticket_lifetime |}]) /\
  Forall (fun x => expires_at x <= t1 + ticket_lifetime)
    (q ++ [{| ticket := t; is_udp := u; expires_at := t1 + ticket_lifetime |}]).
Proof.
  intros Hle Hs Hq. assert (Hq' : Forall (fun x => expires_at x <= t1 + ticket_lifetime) q).
  { eapply Forall_impl; [exact Hq|]. cbn. lia. }
  split; [|apply Forall_app; split; [done|]; constructor; [cbn; lia|constructor]].
  clear Hq. induction q as [|x q IH]; [repeat constructor|].
  apply StronglySorted_inv in Hs as [Hs Hx]. apply Forall_cons in Hq' as [Hx' Hq'].
  cbn. constructor; [by apply IH|]. apply Forall_app; split; [done|].
  constructor; [unfold in_order; cbn; lia|constructor].
Qed.

(** Registering needs room for one more entry and a link for a UDP entry. *)
Lemma covered_add_conn now t1 p c : now <= t1 -> pending_inv now p ->
  pending_count p < MAX_PENDING_TICKETS -> pending_user_conns_ p !! uc_ticket c = None ->
  pending_inv t1
    (set_queue (ticket_expiration_queue_ p ++
        [{| ticket := uc_ticket c; is_udp := false; expires_at := t1 + ticket_lifetime |}])
      (set_conns (<[uc_ticket c := {| tcp_socket := uc_socket c; initial_data := uc_data c;
         tcp_proxy_name := uc_proxy c; tcp_created_at := t1 |}]> (pending_user_conns_ p)) p)).
Proof.
  intros Hle [H1 H2 H3 H4 H5 H6] Hn Hf. destruct (sorted_push now t1 _ (uc_ticket c) false Hle H2 H3).
  split; cbn; try done.
  - unfold pending_count in *. cbn. rewrite map_size_insert_None by done. lia.
  - intros t i [[<- <-]|[_ Hi]]%lookup_insert_Some.
    + eexists. rewrite elem_of_app, list_elem_of_singleton. by split; [right|].
    + destruct (H4 t i Hi) as (x & Hx & ?). exists x. rewrite elem_of_app. tauto.
  - intros t i Hi. destruct (H5 t i Hi) as (x & Hx & ?). exists x. rewrite elem_of_app. tauto.
Qed.
Lemma covered_add_udp now t1 p t l e proxy ul : now <= t1 -> pending_inv now p ->
  pending_count p < MAX_PENDING_TICKETS -> pending_udp_sessions_ p !! t = None ->
  udp_listeners p !! l = Some ul -> endpoint_to_ticket_ ul !! e = Some t ->
  pending_inv t1
    (set_queue (ticket_expiration_queue_ p ++
        [{| ticket := t; is_udp := true; expires_at := t1 + ticket_lifetime |}])
      (set_udps (<[t := {| udp_listener := l; udp_endpoint := e; udp_proxy_name := proxy;
         udp_created_at := t1 |}]> (pending_udp_sessions_ p)) p)).
Proof.
  intros Hle [H1 H2 H3 H4 H5 H6] Hn Hf Hl He. destruct (sorted_push now t1 _ t true Hle H2 H3).
  split; cbn; try done.
  - unfold pending_count in *. cbn. rewrite map_size_insert_None by done. lia.
  - intros t' i Hi. destruct (H4 t' i Hi) as (x & Hx & ?). exists x. rewrite elem_of_app. tauto.
  - intros t' i [[<- <-]|[_ Hi]]%lookup_insert_Some.
    + eexists. rewrite elem_of_app, list_elem_of_singleton. by split; [right|].
    + destruct (H5 t' i Hi) as (x & Hx & ?). exists x. rewrite elem_of_app. tauto.
  - intros t' i [[<- <-]|[_ Hi]]%lookup_insert_Some; [by exists ul|by apply H6].
Qed.
Lemma inv_push now t1 p t u : now <= t1 -> pending_inv now p ->
  pending_inv t1 (set_queue (ticket_expiration_queue_ p ++
    [{| ticket := t; is_udp := u; expires_at := t1 + ticket_lifetime |}]) p).
Proof.
  intros Hle [H1 H2 H3 H4 H5 H6]. destruct (sorted_push now t1 _ t u Hle H2 H3). split; cbn; try done.
  - intros t' i Hi. destruct (H4 t' i Hi) as (x & Hx & ?). exists x. rewrite elem_of_app. tauto.
  - intros t' i Hi. destruct (H5 t' i Hi) as (x & Hx & ?). exists x. rewrite elem_of_app. tauto.
Qed.

Lemma register_conn_inv now t0 t1 c p : now <= t0 -> t0 <= t1 -> pending_inv now p ->
  pending_inv t1 (RegisterUserConn t0 t1 c p).1.
Proof.
  intros H0 H1 Hi. unfold RegisterUserConn. destruct (DoLazyCleanup_spec now t0 p Hi) as [Hi1 _].
  destruct (DoLazyCleanup t0 p) as [p1 o1]. cbn [fst] in *.
  destruct (MAX_PENDING_TICKETS <=? pending_count p1) eqn:En; bool_hyps.
  - apply (covered_later now); [lia|done].
  - destruct (pending_user_conns_ p1 !! uc_ticket c) eqn:E.
    + apply (inv_push now); [lia|done].
    + apply (covered_add_conn now); [lia|done..].
Qed.
(** A link that no pending session uses survives the cleanup. *)
Definition linked (l : nat) (e : endpoint) (t : string) (p : Pending) : Prop :=
  exists ul, udp_listeners p !! l = Some ul /\ endpoint_to_ticket_ ul !! e = Some t.
Definition unclaimed (l : nat) (e : endpoint) (p : Pending) : Prop :=
  forall t i, pending_udp_sessions_ p !! t = Some i -> ~ (udp_listener i = l /\ udp_endpoint i = e).
Definition stuck (l : nat) (e : endpoint) (t : string) (p : Pending) : Prop :=
  linked l e t p /\ unclaimed l e p.

Lemma stuck_drop_udp l e t p t' i : stuck l e t p -> pending_udp_sessions_ p !! t' = Some i ->
  stuck l e t (set_udps (delete t' (pending_udp_sessions_ p))
                 (RemoveEndpoint (udp_listener i) (udp_endpoint i) p)).
Proof.
  intros [(ul & El & Ee) Hu] Hi. specialize (Hu t' i Hi) as Hne. split.
  - unfold linked. cbn. destruct (decide (udp_listener i = l)) as [<-|Hn].
    + rewrite lookup_alter_eq, El. eexists; split; [done|]. cbn. rewrite lookup_delete_ne; [done|].
      intros He. by apply Hne.
    + rewrite lookup_alter_ne by done. by exists ul.
  - intros t2 i2 H2. cbn in H2. apply lookup_delete_Some in H2 as [_ H2]. by apply (Hu t2).
Qed.
Lemma stuck_expire l e t x p : stuck l e t p -> stuck l e t (expire_one x p).1.
Proof.
  intros H. unfold expire_one, erase_conn. destruct (is_udp x).
  - destruct (pending_udp_sessions_ p !! ticket x) eqn:E; [|done]. by apply stuck_drop_udp.
  - by destruct (pending_user_conns_ p !! ticket x).
Qed.
Lemma stuck_cleanup l e t now q p : stuck l e t p -> stuck l e t (cleanup_loop now q p).1.
Proof.
  revert p. induction q as [|x q IH]; intros p H; [done|]. cbn [cleanup_loop].
  destruct (expires_at x <=? now); [|done]. pose proof (stuck_expire l e t x p H) as H1.
  destruct (expire_one x p) as [p1 o1]. specialize (IH p1 H1).
  by destruct (cleanup_loop now q p1).
Qed.
Lemma stuck_lazy l e t now p : stuck l e t p -> stuck l e t (DoLazyCleanup now p).1.
Proof. apply stuck_cleanup. Qed.

(** A datagram from an unknown endpoint starts from a stuck state. *)
Lemma new_link_stuck now l e t ul ul' p : pending_inv now p -> udp_listeners p !! l = Some ul ->
  endpoint_to_ticket_ ul !! e = None -> endpoint_to_ticket_ ul' = <[e := t]> (endpoint_to_ticket_ ul) ->
  let p' := set_udp_listeners (<[l := ul']> (udp_listeners p)) p in
  pending_inv now p' /\ stuck l e t p'.
Proof.
  intros [H1 H2 H3 H4 H5 H6] El Ee Eu p'.
  assert (Hne : unclaimed l e p).
  { intros t' i Hi [<- <-]. destruct (H6 t' i Hi) as (ul2 & E2 & E3). congruence. }
  split.
  - split; cbn; try done. intros t' i Hi. destruct (H6 t' i Hi) as (ul2 & E2 & E3).
    destruct (decide (l = udp_listener i)) as [->|Hn].
    + rewrite lookup_insert_eq. eexists; split; [done|]. rewrite E2 in El. injection El as ->.
      rewrite Eu, lookup_insert_ne; [done|]. intros ->. by apply (Hne t' i).
    + rewrite lookup_insert_ne by done. by exists ul2.
  - split; [|done]. exists ul'. cbn. rewrite lookup_insert_eq, Eu, lookup_insert_eq. done.
Qed.
Lemma register_udp_inv now t0 t1 t l e proxy p : now <= t0 -> t0 <= t1 -> pending_inv now p ->
  stuck l e t p -> pending_inv t1 (RegisterUdpSession t0 t1 t l e proxy p).1.
Proof.
  intros H0 H1 Hi Hs. unfold RegisterUdpSession. destruct (DoLazyCleanup_spec now t0 p Hi) as [Hi1 _].
  pose proof (stuck_lazy l e t t0 p Hs) as [(ul & El & Ee) _].
  destruct (DoLazyCleanup t0 p) as [p1 o1]. cbn [fst] in *.
  destruct (MAX_PENDING_TICKETS <=? pending_count p1) eqn:En; bool_hyps.
  - apply (covered_later now); [lia|done].
  - destruct (pending_udp_sessions_ p1 !! t) eqn:E.
    + apply (inv_push now); [lia|done].
    + apply (covered_add_udp now t1 _ _ _ _ _ ul); [lia|done..].
Qed.

Lemma covered_claim now q t p : covered_by now q p -> covered_by now q (claim t p).1.
Proof.
  intros H. unfold claim. pose proof (covered_drop_conn now q p t H) as Hc. unfold erase_conn in Hc.
  destruct (pending_user_conns_ p !! t); [done|].
  destruct (pending_udp_sessions_ p !! t) eqn:E; [|done]. by apply covered_drop_udp.
Qed.
Lemma covered_clear now q proxy p : covered_by now q p -> covered_by now q (ClearPendingForProxy proxy p).1.
Proof.
  intros [H1 H2 H3 H4 H5 H6]. unfold ClearPendingForProxy. split; cbn; try done.
  - unfold pending_count in *. cbn.
    pose proof (map_size_filter (fun kv : string * TcpSessionInfo => tcp_proxy_name kv.2 <> proxy) (pending_user_conns_ p)).
    pose proof (map_size_filter (fun kv : string * UdpSessionInfo => udp_proxy_name kv.2 <> proxy) (pending_udp_sessions_ p)).
    lia.
  - intros t i [Hi _]%map_lookup_filter_Some. by apply H4.
  - intros t i [Hi _]%map_lookup_filter_Some. by apply H5.
  - intros t i [Hi _]%map_lookup_filter_Some. by apply H6.
Qed.
Lemma covered_tcp_listeners now q m p : covered_by now q p -> covered_by now q (set_tcp_listeners m p).
Proof. intros []. by split. Qed.
(** Changing a listener but not its table, or adding a listener. *)
Lemma covered_udp_listener now q l ul' p : covered_by now q p ->
  (forall ul, udp_listeners p !! l = Some ul -> endpoint_to_ticket_ ul' = endpoint_to_ticket_ ul) ->
  covered_by now q (set_udp_listeners (<[l := ul']> (udp_listeners p)) p).
Proof.
  intros [H1 H2 H3 H4 H5 H6] Hl. split; cbn; try done. intros t i Hi.
  destruct (H6 t i Hi) as (ul & El & Ee). destruct (decide (l = udp_listener i)) as [->|Hn].
  - exists ul'. by rewrite lookup_insert_eq, (Hl ul El).
  - exists ul. by rewrite lookup_insert_ne.
Qed.

Lemma pending_step_inv now op p p' o : clock_ok now (readings op) -> pending_inv now p ->
  pending_step op p = Some (p', o) -> pending_inv (last_reading now (readings op)) p'.
Proof.
  intros Hc Hi. destruct op; cbn [pending_step readings] in *.
  - destruct (tcp_listeners p !! l); [done|]. intros [= <- <-]. by apply covered_tcp_listeners.
  - destruct (udp_listeners p !! l) eqn:E; [done|]. intros [= <- <-].
    apply covered_udp_listener; [done|]. congruence.
  - unfold DoAccept. destruct (tcp_listeners p !! l) as [pl|]; [|done]. cbn [mbind option_bind].
    destruct Hc as (H0 & H1 & _).
    match goal with |- context [RegisterUserConn t0 t1 ?c ?q] =>
      pose proof (register_conn_inv now t0 t1 c q H0 H1) as H; destruct (RegisterUserConn t0 t1 c q) end.
    intros [= <- <-]. by apply H, covered_tcp_listeners.
  - destruct Hc as (H0 & H1 & _). pose proof (register_conn_inv now t0 t1 c p H0 H1 Hi) as H.
    destruct (RegisterUserConn t0 t1 c p). by intros [= <- <-].
  - unfold DoReceive. destruct (udp_listeners p !! l) as [ul|] eqn:El; [|done]. cbn [mbind option_bind].
    destruct Hc as (H0 & H1 & _). destruct (endpoint_to_ticket_ ul !! e) eqn:Ee.
    + intros [= <- <-]. apply (covered_later now); [cbn; lia|].
      apply (covered_udp_listener now _ l); [done|]. intros ul2 E2. rewrite El in E2. by injection E2 as <-.
    + match goal with |- context [set_udp_listeners (<[l := ?u]> _) p] =>
        destruct (new_link_stuck now l e t ul u p Hi El Ee eq_refl) as [Hi1 Hs] end.
      pose proof (register_udp_inv now t0 t1 t l e (ul_name ul) _ H0 H1 Hi1 Hs) as H.
      destruct (RegisterUdpSession _ _ _ _ _ _ _). by intros [= <- <-].
  - pose proof (covered_claim now _ t p Hi) as H. unfold claim in *.
    destruct (pending_user_conns_ p !! t); [by intros [= <- <-]|].
    destruct (pending_udp_sessions_ p !! t); by intros [= <- <-].
  - intros [= <- <-]. by apply covered_clear.
  - intros [= <- <-]. by apply covered_tcp_listeners.
Qed.
Lemma pending_run_inv now ops p p' o : clock_ok now (concat (map readings ops)) -> pending_inv now p ->
  pending_run ops p = Some (p', o) -> pending_inv (last_reading now (concat (map readings ops))) p'.
Proof.
  revert now p o. induction ops as [|op ops IH]; intros now p o; cbn [pending_run map concat].
  { by intros _ Hi [= <- <-]. }
  intros [H1 H2]%clock_ok_app Hi. destruct (pending_step op p) as [[p1 o1]|] eqn:E1; [|done].
  cbn [mbind option_bind]. destruct (pending_run ops p1) as [[p2 o2]|] eqn:E2; [|done]. intros [= <- <-].
  pose proof (pending_step_inv now op p p1 o1 H1 Hi E1) as Hi1.
  pose proof (IH _ _ _ H2 Hi1 E2) as H. unfold last_reading in *. by rewrite foldl_app.
Qed.
Lemma empty_inv now : pending_inv now empty_pending.
Proof. split; cbn; try done; try constructor; intros; by simplify_map_eq. Qed.

(** ** A link no session uses stays for ever *)
Lemma stuck_register_conn l e t t0 t1 c p : stuck l e t p -> stuck l e t (RegisterUserConn t0 t1 c p).1.
Proof.
  intros H. unfold RegisterUserConn. pose proof (stuck_lazy l e t t0 p H) as H1.
  destruct (DoLazyCleanup t0 p) as [p1 o1]. destruct (_ <=? _); [done|].
  by destruct (pending_user_conns_ p1 !! uc_ticket c).
Qed.
Lemma stuck_register_udp l e t t0 t1 t' l' e' proxy p : stuck l e t p -> ~ (l' = l /\ e' = e) ->
  stuck l e t (RegisterUdpSession t0 t1 t' l' e' proxy p).1.
Proof.
  intros H Hne. unfold RegisterUdpSession. pose proof (stuck_lazy l e t t0 p H) as H1.
  destruct (DoLazyCleanup t0 p) as [p1 o1]. destruct (_ <=? _); [done|].
  destruct (pending_udp_sessions_ p1 !! t'); [done|]. destruct H1 as [Hl Hu]. split; [done|].
  intros t2 i Hi. cbn in Hi. apply lookup_insert_Some in Hi as [[<- <-]|[_ Hi]]; [done|]. by apply (Hu t2).
Qed.
Lemma stuck_listener l e t l' ul' p : stuck l e t p ->
  (l' = l -> forall ul, udp_listeners p !! l = Some ul -> endpoint_to_ticket_ ul !! e = Some t ->
    endpoint_to_ticket_ ul' !! e = Some t) ->
  stuck l e t (set_udp_listeners (<[l' := ul']> (udp_listeners p)) p).
Proof.
  intros [(ul & El & Ee) Hu] H. split; [|done]. unfold linked. cbn. destruct (decide (l' = l)) as [->|Hn].
  - rewrite lookup_insert_eq. exists ul'. split; [done|]. by apply (H eq_refl ul).
  - rewrite lookup_insert_ne by done. by exists ul.
Qed.
Lemma stuck_datagram l e t alive t0 t1 t' n p : stuck l e t p -> exists p',
  DoReceive l alive t0 t1 t' e n p = Some (p', []) /\ stuck l e t p'.
Proof.
  intros H. destruct (H) as [(ul & El & Ee) _]. unfold DoReceive. rewrite El. cbn [mbind option_bind].
  rewrite Ee. eexists; split; [done|]. apply stuck_listener; [done|]. intros _ ul2 E2 E3.
  rewrite El in E2. by injection E2 as <-.
Qed.
Lemma stuck_step l e t op p p' o : stuck l e t p -> pending_step op p = Some (p', o) -> stuck l e t p'.
Proof.
  intros H. destruct op; cbn [pending_step].
  - destruct (tcp_listeners p !! l0); [done|]. by intros [= <- <-].
  - destruct (udp_listeners p !! l0) eqn:E; [done|]. intros [= <- <-]. apply stuck_listener; [done|].
    intros ->. congruence.
  - unfold DoAccept. destruct (tcp_listeners p !! l0) as [pl|]; [|done]. cbn [mbind option_bind].
    match goal with |- context [RegisterUserConn t0 t1 ?c ?q] =>
      pose proof (stuck_register_conn l e t t0 t1 c q) as H1; destruct (RegisterUserConn t0 t1 c q) end.
    intros [= <- <-]. by apply H1.
  - pose proof (stuck_register_conn l e t t0 t1 c p H) as H1. destruct (RegisterUserConn t0 t1 c p).
    by intros [= <- <-].
  - destruct (decide (l0 = l /\ e0 = e)) as [[-> ->]|Hne].
    { destruct (stuck_datagram l e t alive t0 t1 t2 length p H) as (q & -> & Hq). by intros [= <- <-]. }
    unfold DoReceive. destruct (udp_listeners p !! l0) as [ul|] eqn:El; [|done]. cbn [mbind option_bind].
    destruct (endpoint_to_ticket_ ul !! e0) eqn:Ee.
    + intros [= <- <-]. apply stuck_listener; [done|]. intros -> ul2 E2 E3.
      rewrite El in E2. by injection E2 as <-.
    + match goal with |- context [RegisterUdpSession t0 t1 ?a ?b ?c ?d ?q] =>
        assert (Hq : stuck l e t q); [|pose proof (stuck_register_udp l e t t0 t1 a b c d q Hq Hne) as H1;
        destruct (RegisterUdpSession t0 t1 a b c d q)] end; [|by intros [= <- <-]].
      apply stuck_listener; [done|]. intros -> ul2 E2 E3. rewrite El in E2. injection E2 as <-. cbn.
      rewrite lookup_insert_ne; [done|]. intros ->. by apply Hne.
  - unfold claim. destruct (pending_user_conns_ p !! t0); [by intros [= <- <-]|].
    destruct (pending_udp_sessions_ p !! t0) eqn:E; intros [= <- <-]; [by apply stuck_drop_udp|done].
  - intros [= <- <-]. destruct H as [Hl Hu]. split; [done|].
    intros t2 i Hi. cbn in Hi. apply map_lookup_filter_Some in Hi as [Hi _]. by apply (Hu t2).
  - by intros [= <- <-].
Qed.
Lemma stuck_run l e t ops p p' o : stuck l e t p -> pending_run ops p = Some (p', o) -> stuck l e t p'.
Proof.
  revert p o. induction ops as [|op ops IH]; intros p o H; cbn [pending_run]; [by intros [= <- <-]|].
  destruct (pending_step op p) as [[p1 o1]|] eqn:E1; [|done]. cbn [mbind option_bind].
  destruct (pending_run ops p1) as [[p2 o2]|] eqn:E2; [|done]. intros [= <- <-].
  eapply IH; [|exact E2]. by eapply stuck_step.
Qed.

(** ** The properties *)
Definition demo_ns (k : Z) : Z := k * 1000000000.
Definition demo_pending_ops : list pending_op :=
  [op_listen_tcp 0 "web"; op_listen_udp 1 "dns";
   op_accept 0 true (demo_ns 1) (demo_ns 1) "t1" 10;
   op_datagram 1 true (demo_ns 2) (demo_ns 2) "u1" (167772161%N, 5353%N) 40;
   op_accept 0 true (demo_ns 3) (demo_ns 3) "t2" 11;
   op_claim "t2"; op_claim "u1";
   op_vhost (demo_ns 12) (demo_ns 12)
     {| uc_ticket := "t3"; uc_socket := 12; uc_proxy := "site"; uc_data := [Byte.x47] |};
   op_accept 0 true (demo_ns 13) (demo_ns 13) "t3" 13].

(** C20 No user connection is lost, duplicated or invented by the ticket table:
    after any operations, the connections brought in (by accepts and by the
    vhost listeners) are exactly those still pending, those whose socket was
    destroyed (table full, ticket in use, expired, proxy cleared) and those
    spliced to a work stream - and if the sockets brought in are distinct, no
    socket is spliced twice, or both spliced and dropped. *)
Theorem pending_conns_conserved ops p outs :
  pending_run ops empty_pending = Some (p, outs) ->
  offered_run ops empty_pending ≡ₚ pending_conns p ++ resolved outs /\
  (NoDup (map uc_socket (offered_run ops empty_pending)) ->
   NoDup (map uc_socket (pending_conns p ++ resolved outs))).
Proof.
  intros H%pending_run_conserves. unfold conserves in H. cbn in H. rewrite app_nil_r in H.
  split; [done|]. by rewrite H.
Qed.
Theorem pending_conns_conserved_witness :
  exists p outs, pending_run demo_pending_ops empty_pending = Some (p, outs) /\
    (offered_run demo_pending_ops empty_pending ≡ₚ pending_conns p ++ resolved outs /\
     (NoDup (map uc_socket (offered_run demo_pending_ops empty_pending)) ->
      NoDup (map uc_socket (pending_conns p ++ resolved outs)))) /\
    (map uc_socket (pending_conns p), map uc_socket (resolved outs)) = ([12%nat], [11; 10; 13]%nat).
Proof.
  destruct (pending_run demo_pending_ops empty_pending) as [[p outs]|] eqn:E; [|by vm_compute in E].
  exists p, outs. split; [done|]. split; [by apply pending_conns_conserved|].
  vm_compute in E. by injection E as <- <-.
Defined.


(** A full table, and a first datagram that finds it full. *)
Definition demo_fill (n : nat) : list pending_op :=
  op_listen_udp 1 "dns" :: map (fun k => op_vhost 0 0 {| uc_ticket := pretty k; uc_socket := k;
    uc_proxy := "site"; uc_data := [] |}) (seq 0 n).
Definition demo_full : Pending * list outcome :=
  default (empty_pending, []) (pending_run (demo_fill 512) empty_pending).
Lemma clock_ok_const now ts : Forall (eq now) ts -> clock_ok now ts.
Proof. induction 1 as [|? ? <- ? IH]; [done|]. split; [lia|done]. Qed.

(** A UDP user whose first datagram arrives while 512 tickets are pending
    is never served again: its session is not registered, yet the listener
    keeps the endpoint in its table (and tells the client about the ticket);
    whatever happens afterwards - tickets claimed, expired, cleared, or the
    table emptied - every further datagram from that endpoint is counted and
    dropped without a new session or message. *)
Theorem udp_rejected_endpoint_never_served now ops p outs l e t alive t0 t1 n p1 o1 :
  clock_ok now (concat (map readings ops)) -> pending_run ops empty_pending = Some (p, outs) ->
  MAX_PENDING_TICKETS <= pending_count (DoLazyCleanup t0 p).1 ->
  (exists ul, udp_listeners p !! l = Some ul /\ endpoint_to_ticket_ ul !! e = None) ->
  DoReceive l alive t0 t1 t e n p = Some (p1, o1) ->
  pending_user_conns_ p1 = pending_user_conns_ (DoLazyCleanup t0 p).1 /\
  (forall later p2 o2, pending_run later p1 = Some (p2, o2) ->
   unclaimed l e p2 /\
   forall alive' t0' t1' t' n', exists p3, DoReceive l alive' t0' t1' t' e n' p2 = Some (p3, [])).
Proof.
  intros Hc Hr Hfull (ul & El & Ee) Hd.
  pose proof (pending_run_inv now ops _ _ _ Hc (empty_inv now) Hr) as Hi.
  unfold DoReceive in Hd. rewrite El in Hd. cbn [mbind option_bind] in Hd. rewrite Ee in Hd.
  match type of Hd with context [set_udp_listeners (<[l := ?u]> _) p] =>
    destruct (new_link_stuck _ l e t ul u p Hi El Ee eq_refl) as [Hi1 Hs];
    set (q := set_udp_listeners (<[l := u]> (udp_listeners p)) p) in * end.
  unfold RegisterUdpSession in Hd. pose proof (stuck_lazy l e t t0 q Hs) as Hs1.
  destruct (DoLazyCleanup_spec _ t0 q Hi1) as [_ [Cc Cu _]].
  destruct (DoLazyCleanup_spec _ t0 p Hi) as [_ [Cc' Cu' _]].
  assert (Heq : pending_user_conns_ (DoLazyCleanup t0 q).1 = pending_user_conns_ (DoLazyCleanup t0 p).1).
  { apply map_eq. intros k. by rewrite Cc, Cc'. }
  assert (Heq2 : pending_udp_sessions_ (DoLazyCleanup t0 q).1 = pending_udp_sessions_ (DoLazyCleanup t0 p).1).
  { apply map_eq. intros k. by rewrite Cu, Cu'. }
  unfold pending_count in *. rewrite <- Heq, <- Heq2 in Hfull.
  destruct (DoLazyCleanup t0 q) as [q1 o']. cbn [fst] in *.
  rewrite (proj2 (Z.leb_le _ _) Hfull) in Hd. injection Hd as <- <-. split; [done|].
  intros later p2 o2 Hl. pose proof (stuck_run l e t later q1 p2 o2 Hs1 Hl) as Hs2.
  split; [apply Hs2|]. intros alive' t0' t1' t' n'.
  destruct (stuck_datagram l e t alive' t0' t1' t' n' p2 Hs2) as (p3 & H3 & _). by exists p3.
Qed.
Theorem udp_rejected_endpoint_never_served_witness :
  exists p outs p1 o1, pending_run (demo_fill 512) empty_pending = Some (p, outs) /\
    DoReceive 1 true 0 0 "u9" (1%N, 53%N) 40 p = Some (p1, o1) /\
    o1 = [new_user_conn "dns" "u9"] /\
    pending_user_conns_ p1 = pending_user_conns_ (DoLazyCleanup 0 p).1 /\
    (forall later p2 o2, pending_run later p1 = Some (p2, o2) ->
     unclaimed 1 (1%N, 53%N) p2 /\
     forall alive' t0' t1' t' n', exists p3, DoReceive 1 alive' t0' t1' t' (1%N, 53%N) n' p2 = Some (p3, [])).
Proof.
  assert (Hr : pending_run (demo_fill 512) empty_pending = Some (demo_full.1, demo_full.2)).
  { unfold demo_full.
    assert (Hs : match pending_run (demo_fill 512) empty_pending with Some _ => true | None => false end = true)
      by (vm_compute; reflexivity).
    destruct (pending_run (demo_fill 512) empty_pending) as [[q o]|]; [reflexivity|discriminate Hs]. }
  assert (Ho : snd <$> DoReceive 1 true 0 0 "u9" (1%N, 53%N) 40 demo_full.1 = Some [new_user_conn "dns" "u9"])
    by (vm_compute; reflexivity).
  exists demo_full.1, demo_full.2.
  destruct (DoReceive 1 true 0 0 "u9" (1%N, 53%N) 40 demo_full.1) as [[p1 o1]|] eqn:E1; [|discriminate Ho].
  exists p1, o1. split; [exact Hr|]. split; [reflexivity|]. split; [by injection Ho|].
  apply (udp_rejected_endpoint_never_served 0 (demo_fill 512) demo_full.1 demo_full.2 1 (1%N, 53%N) "u9"
           true 0 0 40 p1 o1); [|exact Hr| | |exact E1].
  - apply clock_ok_const, Forall_forall.
    assert (Hz : forallb (Z.eqb 0) (concat (map readings (demo_fill 512))) = true) by (vm_compute; reflexivity).
    rewrite forallb_forall in Hz. intros x Hx%list_elem_of_In. apply Z.eqb_eq, Hz, Hx.
  - apply Z.leb_le. vm_compute. reflexivity.
  - exists {| ul_name := "dns"; ul_bytes_received := 0; ul_total_conns := 0; endpoint_to_ticket_ := ∅ |}.
    split; vm_compute; reflexivity.
Defined.
