(* ===== verification/Registry.v ===== *)
(** * The server's registries (src/server/server.cpp)

    Client names and their sessions, vhost routes, rate limiters, the control
    session of each mux session, and the two allow lists.  Sessions are
    numbered; a rate limiter is kept as its configured rate (its behaviour is
    in RateLimiter.v). *)
From Stdlib Require Import ZArith Lia String.
From stdpp Require Import base tactics list gmap strings pretty.
From S2P Require Import Prelude.
Local Open Scope Z_scope.

Record PortRange : Type := { range_start : Z; range_end : Z }.
Record VhostRoute : Type := { route_session : nat; route_proxy : string; route_type : string }.

Record Registry : Type := {
  active_client_names_ : gset string;
  sessions_ : gmap string nat;
  vhost_routes_ : gmap string VhostRoute;
  proxy_rate_limiters_ : gmap string Z;
  mux_to_control_ : gmap nat nat
}.
Definition empty_registry : Registry := {|
  active_client_names_ := ∅; sessions_ := ∅; vhost_routes_ := ∅; proxy_rate_limiters_ := ∅;
  mux_to_control_ := ∅ |}.

Definition set_names (names : gset string) (ss : gmap string nat) (r : Registry) : Registry := {|
  active_client_names_ := names; sessions_ := ss; vhost_routes_ := vhost_routes_ r;
  proxy_rate_limiters_ := proxy_rate_limiters_ r; mux_to_control_ := mux_to_control_ r |}.
Definition set_routes (m : gmap string VhostRoute) (r : Registry) : Registry := {|
  active_client_names_ := active_client_names_ r; sessions_ := sessions_ r; vhost_routes_ := m;
  proxy_rate_limiters_ := proxy_rate_limiters_ r; mux_to_control_ := mux_to_control_ r |}.
Definition set_limiters (m : gmap string Z) (r : Registry) : Registry := {|
  active_client_names_ := active_client_names_ r; sessions_ := sessions_ r;
  vhost_routes_ := vhost_routes_ r; proxy_rate_limiters_ := m; mux_to_control_ := mux_to_control_ r |}.
Definition set_mux_to_control (m : gmap nat nat) (r : Registry) : Registry := {|
  active_client_names_ := active_client_names_ r; sessions_ := sessions_ r;
  vhost_routes_ := vhost_routes_ r; proxy_rate_limiters_ := proxy_rate_limiters_ r; mux_to_control_ := m |}.

(** ** Client names *)
(** [name + "_" + std::to_string(suffix)] *)
Definition suffixed (name : string) (suffix : Z) : string := name +:+ "_" +:+ pretty suffix.
(** The loop of [AllocateClientName]: [None] only when the fuel is too small. *)
Fixpoint allocate_loop (fuel : nat) (active : gset string) (name final_name : string) (suffix : Z)
  : option string :=
  match fuel with
  | O => None
  | S fuel' =>
    if decide (final_name ∈ active)
    then allocate_loop fuel' active name (suffixed name suffix) (suffix + 1)
    else Some final_name
  end.
Definition base_name (requested_name : string) : string :=
  if decide (requested_name = "") then "client" else requested_name.
Definition AllocateClientName (requested_name : string) (session : nat) (r : Registry)
  : option (string * Registry) :=
  let name := base_name requested_name in
  final_name ← allocate_loop (S (size (active_client_names_ r))) (active_client_names_ r) name name 1;
  Some (final_name, set_names ({[final_name]} ∪ active_client_names_ r)
                              (<[final_name := session]> (sessions_ r)) r).
Definition ReleaseClientName (name : string) (r : Registry) : Registry :=
  set_names (active_client_names_ r ∖ {[name]}) (delete name (sessions_ r)) r.

(** ** Routes, limiters, mux sessions *)
Definition AddVhostRoute (domain : string) (session : nat) (proxy_name type : string) (r : Registry) : Registry :=
  set_routes (<[domain := {| route_session := session; route_proxy := proxy_name; route_type := type |}]>
                (vhost_routes_ r)) r.
Definition RemoveVhostRoute (domain : string) (r : Registry) : Registry :=
  set_routes (delete domain (vhost_routes_ r)) r.

Definition GetRateLimiter (proxy_name : string) (r : Registry) : option Z :=
  proxy_rate_limiters_ r !! proxy_name.
(** A new limiter, or [set_rate] on the one there is. *)
Definition CreateRateLimiter (proxy_name : string) (bytes_per_sec : Z) (r : Registry) : Registry :=
  set_limiters (<[proxy_name := bytes_per_sec]> (proxy_rate_limiters_ r)) r.
Definition RemoveRateLimiter (proxy_name : string) (r : Registry) : Registry :=
  set_limiters (delete proxy_name (proxy_rate_limiters_ r)) r.

Definition RemoveMuxControl (mux : nat) (r : Registry) : Registry :=
  set_mux_to_control (delete mux (mux_to_control_ r)) r.
Definition AddMuxControl (mux session : nat) (r : Registry) : Registry :=
  set_mux_to_control (<[mux := session]> (mux_to_control_ r)) r.

(** ** Allow lists *)
Definition IsPortAllowed (allowed_ports : list PortRange) (port : Z) : bool :=
  match allowed_ports with
  | [] => true
  | _ => existsb (fun range => (range_start range <=? port) && (port <=? range_end range)) allowed_ports
  end.
Definition IsClientAllowed (allowed_clients : list string) (name : string) : bool :=
  match allowed_clients with [] => true | _ => bool_decide (name ∈ allowed_clients) end.

(** ** Allocation finds a free name *)
Lemma suffixed_inj name k1 k2 : suffixed name k1 = suffixed name k2 -> k1 = k2.
Proof. unfold suffixed. intros H. by apply String.app_inj, String.app_inj, (inj pretty) in H. Qed.
Lemma string_length_app s1 s2 : String.length (s1 +:+ s2) = (String.length s1 + String.length s2)%nat.
Proof. induction s1 as [|c s1 IH]; [done|]. exact (f_equal S IH). Qed.
Lemma suffixed_neq name k : suffixed name k <> name.
Proof.
  intros H. apply (f_equal String.length) in H. unfold suffixed in H.
  rewrite !string_length_app in H. change (String.length "_") with 1%nat in H. lia.
Qed.

(** The names the loop tries, in order. *)
Definition candidate (name : string) (k : nat) : string :=
  match k with O => name | S _ => suffixed name (Z.of_nat k) end.
Lemma candidate_inj name k1 k2 : candidate name k1 = candidate name k2 -> k1 = k2.
Proof.
  destruct k1 as [|k1], k2 as [|k2]; cbn [candidate]; intros H; try done.
  - by apply eq_sym, suffixed_neq in H.
  - by apply suffixed_neq in H.
  - apply suffixed_inj in H. lia.
Qed.
(** There are no more used candidates than active names. *)
Lemma candidates_bounded (active : gset string) name k :
  (forall j, (j < k)%nat -> candidate name j ∈ active) -> (k <= size active)%nat.
Proof.
  intros Hall. set (l := map (candidate name) (seq 0 k)).
  assert (Hn : NoDup l) by (apply NoDup_fmap_2; [intros a b; apply candidate_inj|apply NoDup_seq]).
  assert (Hsub : (list_to_set l : gset string) ⊆ active).
  { intros x. rewrite elem_of_list_to_set. unfold l. intros (j & -> & Hj)%list_elem_of_fmap.
    apply Hall. apply elem_of_seq in Hj. lia. }
  apply subseteq_size in Hsub. rewrite (size_list_to_set l Hn) in Hsub. unfold l in Hsub.
  by rewrite length_map, length_seq in Hsub.
Qed.
Lemma allocate_loop_spec fuel active name k :
  (forall j, (j < k)%nat -> candidate name j ∈ active) -> (size active < k + fuel)%nat ->
  exists n, allocate_loop fuel active name (candidate name k) (Z.of_nat (S k)) = Some (candidate name n) /\
    (candidate name n ∉ active) /\ (forall j, (j < n)%nat -> candidate name j ∈ active).
Proof.
  revert k. induction fuel as [|fuel IH]; intros k Hall Hs.
  - apply candidates_bounded in Hall. lia.
  - cbn [allocate_loop]. case_decide as Hin.
    + specialize (IH (S k)). cbn [candidate] in IH.
      replace (Z.of_nat (S (S k))) with (Z.of_nat (S k) + 1) in IH by lia. apply IH; [|lia].
      intros j Hj. destruct (decide (j = k)) as [->|]; [done|]. apply Hall. lia.
    + by exists k.
Qed.

(** [AllocateClientName] always returns: the loop ends after at most as
    many rounds as there are active names.  The name it returns is not in use
    and is the first free one of the requested name (or "client"), that name
    with "_1", with "_2", and so on; exactly it is added to the active names
    and mapped to the session. *)
Theorem client_name_allocated requested session r : exists n r',
  let name := candidate (base_name requested) n in
  AllocateClientName requested session r = Some (name, r') /\
  (n <= size (active_client_names_ r))%nat /\
  (name ∉ active_client_names_ r) /\
  (forall j, (j < n)%nat -> candidate (base_name requested) j ∈ active_client_names_ r) /\
  active_client_names_ r' = {[name]} ∪ active_client_names_ r /\
  sessions_ r' = <[name := session]> (sessions_ r) /\
  ReleaseClientName name r' = set_names (active_client_names_ r) (delete name (sessions_ r)) r.
Proof.
  destruct (allocate_loop_spec (S (size (active_client_names_ r))) (active_client_names_ r)
              (base_name requested) 0) as (n & E & Hn & Hall); [lia..|].
  unfold AllocateClientName. cbn [candidate] in E. change (Z.of_nat 1) with 1 in E. rewrite E.
  cbn [mbind option_bind]. exists n. eexists. split; [done|]. split.
  - by apply (candidates_bounded _ (base_name requested)).
  - split; [done|]. split; [done|]. cbn. split; [done|]. split; [done|].
    unfold ReleaseClientName, set_names. cbn. f_equal; [set_solver|].
    by rewrite delete_insert_eq.
Qed.
