(* ===== verification/Vhost.v ===== *)
(** * Virtual hosts (src/server/server.cpp, DoVhostAccept)

    How the first bytes of a connection on a vhost port select a route: the
    [Host] header of an HTTP request, or the server name of a TLS ClientHello.
    The SNI parser reads its buffer through [rd], which is [None] outside the
    buffer, so a parse that is not [None] made no such read. *)
From Stdlib Require Import ZArith Lia Strings.Byte String.
From stdpp Require Import base tactics list gmap strings.
From S2P Require Import Prelude Text Registry.
Local Open Scope Z_scope.

(** ** HTTP *)
Definition blanks : list byte := bytes_of " " ++ [Byte.x09; Byte.x0d; Byte.x0a].
Definition http_host (data : list byte) : list byte :=
  match find (bytes_of "Host: ") data with
  | None => []
  | Some pos =>
    match find_from pos crlf data with
    | None => []
    | Some e =>
      let domain := take (e - (pos + 6)) (drop (pos + 6) data) in
      let domain := match find (bytes_of ":") domain with Some colon => take colon domain | None => domain end in
      trim_back blanks (trim_front blanks domain)
    end
  end.

(** ** TLS: the SNI parser *)
Definition rd (data : list byte) (pos : Z) : option Z :=
  if (0 <=? pos) && (pos <? zlen data) then Some (byte_to_Z (nth (Z.to_nat pos) data Byte.x00)) else None.
(** [(data[pos] << 8) | data[pos+1]] *)
Definition rd16 (data : list byte) (pos : Z) : option Z :=
  a ← rd data pos; b ← rd data (pos + 1); Some (Z.lor (Z.shiftl a 8) b).
(** [std::string(data + pos, len)]; the caller has checked the range. *)
Definition slice (data : list byte) (pos len : Z) : option (list byte) :=
  if (0 <=? pos) && (0 <=? len) && (pos + len <=? zlen data) then Some (ztake len (zdrop pos data)) else None.

(** The body of the extension of type 0. *)
Definition server_name_at (data : list byte) (pos : Z) : option (list byte) :=
  let size := zlen data in
  if pos + 2 <=? size then
    _ ← rd16 data pos;                       (* list_len *)
    let pos := pos + 2 in
    if pos + 3 <=? size then
      name_type ← rd data pos;
      if name_type =? 0 then
        name_len ← rd16 data (pos + 1);
        let pos := pos + 3 in
        if pos + name_len <=? size then slice data pos name_len else Some []
      else Some []
    else Some []
  else Some [].
(** The loop over the extensions. *)
Fixpoint extensions_loop (fuel : nat) (data : list byte) (pos end_ext : Z) : option (list byte) :=
  match fuel with
  | O => None
  | S fuel' =>
    if (pos + 4 <=? zlen data) && (pos + 4 <=? end_ext) then
      etype ← rd16 data pos;
      elen ← rd16 data (pos + 2);
      let pos := pos + 4 in
      if etype =? 0 then server_name_at data pos
      else extensions_loop fuel' data (pos + elen) end_ext
    else Some []
  end.
(** Each round moves at least four bytes on, within the buffer. *)
Definition extensions_fuel (data : list byte) : nat := S (length data).

(** From the session id on: past the record and handshake headers, the version
    and the random. *)
Definition sni_after_random (data : list byte) : option (list byte) :=
  let size := zlen data in
  let pos := 5 + 4 + 2 + 32 in
  if pos <? size then
    sess_id_len ← rd data pos;
    let pos := pos + (1 + sess_id_len) in
    if pos + 2 <=? size then
      cipher_len ← rd16 data pos;
      let pos := pos + (2 + cipher_len) in
      if pos + 1 <=? size then
        comp_len ← rd data pos;
        let pos := pos + (1 + comp_len) in
        if pos + 2 <=? size then
          ext_len ← rd16 data pos;
          let pos := pos + 2 in
          extensions_loop (extensions_fuel data) data pos (pos + ext_len)
        else Some []
      else Some []
    else Some []
  else Some [].
Definition https_sni (data : list byte) : option (list byte) :=
  let size := zlen data in
  if 5 <? size then
    handshake ← rd data 0;
    if handshake =? 0x16 then
      len ← rd16 data 3;
      if len + 5 <=? size then
        hello ← rd data 5;
        if hello =? 0x01 then sni_after_random data else Some []
      else Some []
    else Some []
  else Some [].

(** ** Routing *)
Inductive vhost_type : Type := vhost_http | vhost_https.
Definition vhost_domain (type : vhost_type) (data : list byte) : option (list byte) :=
  match type with vhost_http => Some (http_host data) | vhost_https => https_sni data end.
(** The route the connection takes: the session, if it is alive, and the proxy;
    [None] inside drops the connection.  The route's own type is not consulted. *)
Definition vhost_route (type : vhost_type) (data : list byte) (alive : nat -> bool) (r : Registry)
  : option (option (nat * string)) :=
  domain ← vhost_domain type data;
  Some match vhost_routes_ r !! string_of domain with
       | Some route => if alive (route_session route) then Some (route_session route, route_proxy route) else None
       | None => None
       end.

(** ** One connection, and the accept loop *)
Inductive vhost_act : Type :=
| vh_arm_timer
| vh_read (n : Z)
| vh_cancel_timer
| vh_close
| vh_register (session : nat) (proxy : string) (data : list byte).   (* RegisterUserConn, NewUserConn *)
(** Reading, and whether the ten seconds have passed; or handed on or dropped. *)
Inductive vhost_conn : Type := vh_reading (timed_out : bool) | vh_done.
Definition vhost_accepted : vhost_conn * list vhost_act := (vh_reading false, [vh_arm_timer; vh_read 4096]).
Inductive vhost_event : Type :=
| vev_timeout
| vev_read (ec : error_code) (data : list byte) (alive : nat -> bool) (r : Registry).
Definition vhost_conn_step (type : vhost_type) (ev : vhost_event) (st : vhost_conn) : option (vhost_conn * list vhost_act) :=
  match ev, st with
  | vev_timeout, vh_reading false => Some (vh_reading true, [vh_close])
  | vev_read ec data alive r, vh_reading _ =>
    if decide (ec = ec_ok) then
      if zlen data <=? 4096 then
        route ← vhost_route type data alive r;
        Some (vh_done, vh_cancel_timer :: match route with Some (s, p) => [vh_register s p data] | None => [] end)
      else None
    else Some (vh_done, [vh_cancel_timer])
  | _, _ => None
  end.
Fixpoint vhost_conn_run (type : vhost_type) (evs : list vhost_event) (st : vhost_conn) : option (vhost_conn * list vhost_act) :=
  match evs with
  | [] => Some (st, [])
  | ev :: evs' => '(s1, a1) ← vhost_conn_step type ev st; '(s2, a2) ← vhost_conn_run type evs' s1; mret (s2, a1 ++ a2)
  end.
(** Whether the loop accepts again: at once, after 100 ms, or no more. *)
Definition on_vhost_accept (ec : error_code) : option Z :=
  match ec with ec_ok => Some 0 | ec_operation_aborted => None | _ => Some 100 end.

(** However the read and the timer fall, the connection is registered at most
    once, with all the bytes that were read, and for the session and proxy of
    the route. *)
Definition vhost_registered (a : list vhost_act) : list (nat * string * list byte) :=
  omap (fun x => match x with vh_register s p d => Some (s, p, d) | _ => None end) a.
Lemma vhost_registers_once type evs st a : vhost_conn_run type evs vhost_accepted.1 = Some (st, a) ->
  (vhost_registered a = [] \/ exists data alive r s p, vev_read ec_ok data alive r ∈ evs /\
     vhost_registered a = [(s, p, data)] /\ vhost_route type data alive r = Some (Some (s, p))) /\
  (st = vh_done <-> vh_cancel_timer ∈ a).
Proof.
  cbn [fst vhost_accepted]. generalize false. revert a.
  assert (Hdone : forall evs st a, vhost_conn_run type evs vh_done = Some (st, a) -> st = vh_done /\ a = []).
  { intros [|ev evs'] st' a; cbn [vhost_conn_run]; [by intros [= <- <-]|]. by destruct ev. }
  induction evs as [|ev evs IH]; intros a late E; cbn [vhost_conn_run] in E.
  { injection E as <- <-. split; [by left|]. split; [done|]. intros Hx. by apply not_elem_of_nil in Hx. }
  destruct (vhost_conn_step type ev (vh_reading late)) as [[s1 a1]|] eqn:E1; [|done]. cbn [mbind option_bind] in E.
  destruct (vhost_conn_run type evs s1) as [[s2 a2]|] eqn:E2; [|done]. injection E as <- <-.
  destruct ev as [|ec data alive r]; cbn [vhost_conn_step] in E1.
  - destruct late; [done|]. injection E1 as <- <-. apply IH in E2 as [H1 H2]. split.
    + destruct H1 as [H1|(data & alive & r & s & p & Hin & H1 & H3)]; [by left|right].
      exists data, alive, r, s, p. split; [by right|done].
    + rewrite H2. change ([vh_close] ++ a2) with (vh_close :: a2). rewrite elem_of_cons. naive_solver.
  - assert (Hs1 : s1 = vh_done /\ exists rest, a1 = vh_cancel_timer :: rest).
    { destruct (decide (ec = ec_ok)); [|injection E1 as <- <-; by split; [|eexists]].
      destruct (zlen data <=? 4096); [|done]. destruct (vhost_route _ _ _ _) as [o|]; [|done]. injection E1 as <- <-.
      by split; [|eexists]. }
    destruct Hs1 as [-> (rest & Ha1)]. apply Hdone in E2 as [-> ->]. rewrite app_nil_r. split; [|split; [intros _|done]; rewrite Ha1; by left].
    destruct (decide (ec = ec_ok)) as [->|]; [|injection E1 as <-; by left].
    destruct (zlen data <=? 4096); [|done]. destruct (vhost_route type data alive r) as [o|] eqn:Er; [|done]. injection E1 as <-.
    destruct o as [[s p]|]; [right|by left]. exists data, alive, r, s, p. split; [by left|done].
Qed.

(** ** Specification: requests and ClientHellos *)
Record client_hello : Type := {
  ch_record_version : list byte;
  ch_version : list byte;
  ch_random : list byte;
  ch_session_id : list byte;
  ch_cipher_suites : list byte;
  ch_compression : list byte;
  ch_extensions : list (Z * list byte)
}.
Definition extension_bytes (e : Z * list byte) : list byte :=
  be_bytes 2 e.1 ++ be_bytes 2 (zlen e.2) ++ e.2.
Definition extensions_bytes (es : list (Z * list byte)) : list byte := concat (map extension_bytes es).
Definition hello_body (h : client_hello) : list byte :=
  ch_version h ++ ch_random h ++
  byte_of_Z (zlen (ch_session_id h)) :: ch_session_id h ++
  be_bytes 2 (zlen (ch_cipher_suites h)) ++ ch_cipher_suites h ++
  byte_of_Z (zlen (ch_compression h)) :: ch_compression h ++
  be_bytes 2 (zlen (extensions_bytes (ch_extensions h))) ++ extensions_bytes (ch_extensions h).
(** The record: content type, version, length; then the handshake header. *)
Definition hello_record (h : client_hello) : list byte :=
  Byte.x16 :: ch_record_version h ++ be_bytes 2 (4 + zlen (hello_body h)) ++
  Byte.x01 :: be_bytes 3 (zlen (hello_body h)) ++ hello_body h.
Definition server_name_body (name more : list byte) : list byte :=
  be_bytes 2 (3 + zlen name + zlen more) ++ Byte.x00 :: be_bytes 2 (zlen name) ++ name ++ more.

Definition hello_ok (h : client_hello) : Prop :=
  zlen (ch_record_version h) = 2 /\ zlen (ch_version h) = 2 /\ zlen (ch_random h) = 32 /\ zlen (ch_session_id h) < 256 /\
  zlen (ch_cipher_suites h) < 65536 /\ zlen (ch_compression h) < 256 /\
  4 + zlen (hello_body h) < 65536 /\
  Forall (fun e => 0 <= e.1 < 65536 /\ zlen e.2 < 65536) (ch_extensions h).
(** The name the extensions carry, or none. *)
Inductive names_host : list (Z * list byte) -> list byte -> Prop :=
| no_server_name es : Forall (fun e => e.1 <> 0) es -> names_host es []
| has_server_name pre name more post : Forall (fun e => e.1 <> 0) pre -> zlen name < 65536 ->
    names_host (pre ++ (0, server_name_body name more) :: post) name.

(** ** The parser stays inside its buffer and ends *)
Lemma rd_ok data pos : 0 <= pos < zlen data -> exists b, rd data pos = Some b /\ 0 <= b < 256.
Proof.
  intros H. unfold rd. destruct ((0 <=? pos) && (pos <? zlen data)) eqn:E.
  - eexists. split; [done|]. apply byte_to_Z_range.
  - apply andb_false_iff in E as [E|E]; bool_hyps; lia.
Qed.
Lemma rd16_ok data pos : 0 <= pos -> pos + 2 <= zlen data ->
  exists v, rd16 data pos = Some v /\ 0 <= v < 65536.
Proof.
  intros H1 H2. unfold rd16. destruct (rd_ok data pos) as (a & -> & Ha); [lia|].
  destruct (rd_ok data (pos + 1)) as (b & -> & Hb); [lia|]. cbn [mbind option_bind].
  eexists. split; [done|]. rewrite lor_shiftl_add by lia. lia.
Qed.
Lemma slice_ok data pos len : 0 <= pos -> 0 <= len -> pos + len <= zlen data -> is_Some (slice data pos len).
Proof.
  intros H1 H2 H3. unfold slice. destruct (_ && _) eqn:E; [by eexists|].
  apply andb_false_iff in E as [E|E]; [apply andb_false_iff in E as [E|E]|]; bool_hyps; lia.
Qed.

(** Steps one read of the parser that the test before it allows. *)
Ltac read_ok :=
  match goal with
  | |- is_Some (mbind _ (rd16 ?d ?p)) =>
    let v := fresh "v" in let E := fresh "E" in let H := fresh "H" in
    destruct (rd16_ok d p) as (v & E & H); [lia..|rewrite E; cbn [mbind option_bind]; cbv zeta]
  | |- is_Some (mbind _ (rd ?d ?p)) =>
    let v := fresh "v" in let E := fresh "E" in let H := fresh "H" in
    destruct (rd_ok d p) as (v & E & H); [lia..|rewrite E; cbn [mbind option_bind]; cbv zeta]
  end.
Ltac test_ok :=
  match goal with
  | |- is_Some (if ?b then _ else Some []) => destruct b eqn:?; bool_hyps; [|by eexists]; cbv zeta
  end.

Lemma server_name_at_safe data pos : 0 <= pos -> is_Some (server_name_at data pos).
Proof.
  intros H0. unfold server_name_at. cbv zeta. test_ok. read_ok. test_ok. read_ok.
  test_ok. read_ok. test_ok.
  apply slice_ok; lia.
Qed.
Lemma extensions_loop_safe fuel data pos end_ext : 0 <= pos ->
  Z.max 0 (zlen data - pos) < Z.of_nat fuel -> is_Some (extensions_loop fuel data pos end_ext).
Proof.
  revert pos. induction fuel as [|fuel IH]; intros pos H0 Hf; [lia|]. cbn [extensions_loop].
  test_ok. read_ok. read_ok. destruct (v =? 0); [apply server_name_at_safe; lia|].
  apply IH; lia.
Qed.
Lemma sni_after_random_safe data : is_Some (sni_after_random data).
Proof.
  unfold sni_after_random. cbv zeta. test_ok. read_ok. test_ok. read_ok. test_ok. read_ok. test_ok. read_ok.
  apply extensions_loop_safe; unfold extensions_fuel; unfold zlen in *; lia.
Qed.
Lemma https_sni_safe data : is_Some (https_sni data).
Proof.
  unfold https_sni. cbv zeta. test_ok. read_ok. test_ok. read_ok. test_ok. read_ok. test_ok.
  apply sni_after_random_safe.
Qed.

(** ** Cursors: what is left of the buffer at a position *)
Definition cursor (data : list byte) (pos : Z) (rest : list byte) : Prop :=
  exists pre, data = pre ++ rest /\ pos = zlen pre.
Lemma cursor_start data : cursor data 0 data.
Proof. by exists []. Qed.
Lemma cursor_size data pos rest : cursor data pos rest -> 0 <= pos /\ zlen data = pos + zlen rest.
Proof. intros (pre & -> & ->). split; [apply zlen_nonneg|apply zlen_app]. Qed.
Lemma cursor_advance data pos xs rest n : cursor data pos (xs ++ rest) -> n = zlen xs ->
  cursor data (pos + n) rest.
Proof. intros (pre & -> & ->) ->. exists (pre ++ xs). by rewrite <- app_assoc, zlen_app. Qed.
Lemma cursor_cons data pos x rest : cursor data pos (x :: rest) -> cursor data (pos + 1) rest.
Proof. intros H. by apply (cursor_advance data pos [x]). Qed.
Lemma cursor_rd data pos x rest : cursor data pos (x :: rest) -> rd data pos = Some (byte_to_Z x).
Proof.
  intros H. destruct (cursor_size _ _ _ H) as [H0 Hs]. pose proof (zlen_nonneg rest).
  rewrite zlen_cons in Hs. destruct H as (pre & -> & ->). unfold rd.
  rewrite (proj2 (Z.leb_le _ _)), (proj2 (Z.ltb_lt _ _)) by lia. cbn [andb].
  unfold zlen at 1. rewrite Nat2Z.id, app_nth2, Nat.sub_diag by lia. done.
Qed.
Lemma cursor_rd16 data pos v rest : cursor data pos (be_bytes 2 v ++ rest) -> 0 <= v < 65536 ->
  rd16 data pos = Some v.
Proof.
  intros H Hv. pose proof (be_val_bytes_small 2 v) as Hb. cbn [be_bytes app] in *.
  unfold rd16. rewrite (cursor_rd _ _ _ _ H). apply cursor_cons in H. rewrite (cursor_rd _ _ _ _ H).
  cbn [mbind option_bind]. f_equal. rewrite lor_shiftl_add by (try lia; apply byte_to_Z_range).
  unfold be_val in Hb. cbn [be_val_acc] in Hb. lia.
Qed.
Lemma cursor_slice data pos xs rest : cursor data pos (xs ++ rest) -> slice data pos (zlen xs) = Some xs.
Proof.
  intros H. destruct (cursor_size _ _ _ H) as [H0 Hs]. rewrite zlen_app in Hs. pose proof (zlen_nonneg rest).
  pose proof (zlen_nonneg xs). unfold slice.
  rewrite !(proj2 (Z.leb_le _ _)) by lia. cbn [andb]. destruct H as (pre & -> & ->).
  rewrite zdrop_app_exact, ztake_app_exact by done. done.
Qed.

(** ** The parser finds the name of a well-formed ClientHello *)
Lemma server_name_at_spec data pos name more rest :
  cursor data pos (server_name_body name more ++ rest) -> zlen name < 65536 ->
  server_name_at data pos = Some name.
Proof.
  intros Hc Hn. unfold server_name_body in Hc. rewrite <- !app_assoc in Hc.
  destruct (cursor_size _ _ _ Hc) as [H0 Hs]. rewrite !zlen_app, zlen_be_bytes in Hs.
  apply (cursor_advance _ _ _ _ 2) in Hc; [|by rewrite zlen_be_bytes].
  cbn [app] in Hc. rewrite <- !app_assoc in Hc. pose proof (zlen_nonneg name).
  pose proof (zlen_nonneg more). pose proof (zlen_nonneg rest).
  pose proof (cursor_rd _ _ _ _ Hc) as Ht. pose proof (cursor_cons _ _ _ _ Hc) as Hc1.
  pose proof (cursor_rd16 _ _ _ _ Hc1) as Hl.
  apply (cursor_advance _ _ _ _ 2) in Hc1; [|by rewrite zlen_be_bytes].
  rewrite zlen_cons, !zlen_app, zlen_be_bytes in Hs.
  unfold server_name_at. cbv zeta. rewrite (proj2 (Z.leb_le _ _)) by lia.
  destruct (rd16_ok data pos) as (v & -> & _); [lia..|]. cbn [mbind option_bind].
  rewrite (proj2 (Z.leb_le _ _)) by lia. rewrite Ht. cbn [mbind option_bind].
  change (byte_to_Z Byte.x00 =? 0) with true. cbv iota. rewrite Hl by lia. cbn [mbind option_bind].
  rewrite (proj2 (Z.leb_le _ _)) by lia.
  replace (pos + 2 + 3) with (pos + 2 + 1 + 2) by lia. by apply (cursor_slice _ _ _ (more ++ rest)).
Qed.

Lemma zlen_extension e : zlen (extension_bytes e) = 4 + zlen e.2.
Proof. unfold extension_bytes. rewrite !zlen_app, !zlen_be_bytes. lia. Qed.
Lemma names_host_cons e es name : names_host (e :: es) name ->
  (e.1 <> 0 /\ names_host es name) \/
  (exists more, e = (0, server_name_body name more) /\ zlen name < 65536).
Proof.
  inversion 1 as [es' He|pre nm more post Hp Hn Heq]; subst.
  - apply Forall_cons in He as [He Hes]. left. split; [done|]. by constructor.
  - destruct pre as [|e' pre]; cbn in Heq; injection Heq as <- <-.
    + right. by exists more.
    + apply Forall_cons in Hp as [He Hp]. left. split; [done|]. by constructor.
Qed.

Lemma extensions_loop_spec data es name rest fuel pos :
  names_host es name -> Forall (fun e => 0 <= e.1 < 65536 /\ zlen e.2 < 65536) es ->
  cursor data pos (extensions_bytes es ++ rest) -> (length es < fuel)%nat ->
  extensions_loop fuel data pos (pos + zlen (extensions_bytes es)) = Some name.
Proof.
  revert fuel pos. induction es as [|[t body] es IH]; intros fuel pos Hn Hok Hc Hf.
  - assert (name = []) as ->.
    { inversion Hn as [|pre ? ? ? ? ? Heq]; [done|]. by destruct pre. }
    destruct fuel as [|fuel]; [cbn in Hf; lia|]. cbn [extensions_loop].
    replace (pos + 4 <=? pos + zlen (extensions_bytes [])) with false; [by rewrite andb_false_r|].
    symmetry. apply Z.leb_gt. change (zlen (extensions_bytes [])) with 0. lia.
  - destruct fuel as [|fuel]; [cbn in Hf; lia|]. apply Forall_cons in Hok as [[Ht Hb] Hok]. cbn [fst snd] in Ht, Hb.
    change (extensions_bytes ((t, body) :: es)) with (extension_bytes (t, body) ++ extensions_bytes es) in *.
    rewrite <- app_assoc in Hc. destruct (cursor_size _ _ _ Hc) as [H0 Hs].
    rewrite zlen_app, !zlen_app, zlen_extension in *. cbn [snd] in *.
    pose proof (zlen_nonneg body). pose proof (zlen_nonneg rest). pose proof (zlen_nonneg (extensions_bytes es)).
    cbn [extensions_loop].
    rewrite !(proj2 (Z.leb_le _ _)) by lia. cbn [andb].
    unfold extension_bytes in Hc. cbn [fst snd] in Hc. rewrite <- !app_assoc in Hc.
    rewrite (cursor_rd16 _ _ _ _ Hc) by lia. cbn [mbind option_bind].
    apply (cursor_advance _ _ _ _ 2) in Hc; [|by rewrite zlen_be_bytes].
    rewrite (cursor_rd16 _ _ _ _ Hc) by lia. cbn [mbind option_bind].
    apply (cursor_advance _ _ _ _ 2) in Hc; [|by rewrite zlen_be_bytes].
    replace (pos + 2 + 2) with (pos + 4) in Hc by lia. cbv zeta.
    apply names_host_cons in Hn as [[Hne Hn]|(more & [= -> ->] & Hlen)].
    + cbn [fst] in Hne. rewrite (proj2 (Z.eqb_neq _ _) Hne).
      apply (cursor_advance _ _ _ _ (zlen body)) in Hc; [|done].
      replace (pos + (4 + zlen body + zlen (extensions_bytes es)))
        with (pos + 4 + zlen body + zlen (extensions_bytes es)) by lia.
      apply IH; [done..|cbn in Hf; lia].
    + cbn. by apply (server_name_at_spec _ _ _ more (extensions_bytes es ++ rest)).
Qed.
Lemma length_extensions es : (length es <= length (extensions_bytes es))%nat.
Proof.
  unfold extensions_bytes. induction es as [|e es IH]; [done|]. cbn [map concat]. rewrite length_app.
  pose proof (zlen_extension e) as He. pose proof (zlen_nonneg e.2). unfold zlen in *. cbn [length]. lia.
Qed.

Lemma byte_cursor data pos n xs rest : cursor data pos (byte_of_Z (zlen xs) :: xs ++ rest) ->
  zlen xs < 256 -> n = zlen xs -> rd data pos = Some n /\ cursor data (pos + (1 + n)) rest.
Proof.
  intros Hc Hx ->. pose proof (zlen_nonneg xs). split.
  - rewrite (cursor_rd _ _ _ _ Hc). by rewrite byte_to_of_Z_small by lia.
  - apply cursor_cons in Hc. apply (cursor_advance _ _ _ _ (zlen xs)) in Hc; [|done].
    by rewrite Z.add_assoc.
Qed.
Lemma word_cursor data pos n xs rest : cursor data pos (be_bytes 2 (zlen xs) ++ xs ++ rest) ->
  zlen xs < 65536 -> n = zlen xs -> rd16 data pos = Some n /\ cursor data (pos + (2 + n)) rest.
Proof.
  intros Hc Hx ->. pose proof (zlen_nonneg xs). split; [by apply (cursor_rd16 _ _ _ _ Hc)|].
  apply (cursor_advance _ _ _ _ 2) in Hc; [|by rewrite zlen_be_bytes].
  apply (cursor_advance _ _ _ _ (zlen xs)) in Hc; [|done]. by rewrite Z.add_assoc.
Qed.
Lemma sni_after_random_spec data sid cs cm es name rest :
  cursor data (5 + 4 + 2 + 32)
    (byte_of_Z (zlen sid) :: sid ++ be_bytes 2 (zlen cs) ++ cs ++ byte_of_Z (zlen cm) :: cm ++
     be_bytes 2 (zlen (extensions_bytes es)) ++ extensions_bytes es ++ rest) ->
  zlen sid < 256 -> zlen cs < 65536 -> zlen cm < 256 -> zlen (extensions_bytes es) < 65536 ->
  Forall (fun e => 0 <= e.1 < 65536 /\ zlen e.2 < 65536) es -> names_host es name ->
  sni_after_random data = Some name.
Proof.
  intros Hc H1 H2 H3 H4 Hok Hn.
  pose proof (zlen_nonneg sid). pose proof (zlen_nonneg cs). pose proof (zlen_nonneg cm).
  pose proof (zlen_nonneg rest). pose proof (zlen_nonneg (extensions_bytes es)).
  destruct (cursor_size _ _ _ Hc) as [_ Hs]. revert Hs.
  repeat (rewrite zlen_app || rewrite zlen_cons || rewrite zlen_be_bytes). intros Hs.
  unfold sni_after_random. cbv zeta. rewrite (proj2 (Z.ltb_lt _ _)) by lia.
  destruct (byte_cursor _ _ _ _ _ Hc H1 eq_refl) as [-> Hc1]. cbn [mbind option_bind].
  rewrite (proj2 (Z.leb_le _ _)) by lia.
  destruct (word_cursor _ _ _ _ _ Hc1 H2 eq_refl) as [-> Hc2]. cbn [mbind option_bind].
  rewrite (proj2 (Z.leb_le _ _)) by lia.
  destruct (byte_cursor _ _ _ _ _ Hc2 H3 eq_refl) as [-> Hc3]. cbn [mbind option_bind].
  rewrite (proj2 (Z.leb_le _ _)) by lia.
  rewrite (cursor_rd16 _ _ _ _ Hc3) by lia. cbn [mbind option_bind].
  apply (cursor_advance _ _ _ _ 2) in Hc3; [|by rewrite zlen_be_bytes].
  apply (extensions_loop_spec data es name rest); [done..|].
  unfold extensions_fuel. pose proof (length_extensions es). unfold zlen in *. lia.
Qed.

Lemma https_sni_hello h name rest : hello_ok h -> names_host (ch_extensions h) name ->
  https_sni (hello_record h ++ rest) = Some name.
Proof.
  intros (Hrv & Hv & Hr & Hsid & Hcs & Hcm & Hlen & Hext) Hn. set (data := hello_record h ++ rest).
  pose proof (cursor_start data) as Hc. unfold data at 2 in Hc. unfold hello_record in Hc.
  rewrite <- app_comm_cons, <- !app_assoc in Hc. rewrite <- app_comm_cons, <- !app_assoc in Hc.
  assert (Hsz : zlen data = 9 + zlen (hello_body h) + zlen rest).
  { unfold data, hello_record. repeat (rewrite zlen_app || rewrite zlen_cons || rewrite zlen_be_bytes). lia. }
  pose proof (zlen_nonneg (hello_body h)). pose proof (zlen_nonneg rest).
  unfold https_sni. cbv zeta. rewrite (proj2 (Z.ltb_lt _ _)) by lia.
  rewrite (cursor_rd _ _ _ _ Hc). cbn [mbind option_bind]. change (byte_to_Z Byte.x16 =? 22) with true. cbv iota.
  apply cursor_cons in Hc. apply (cursor_advance _ _ _ _ 2) in Hc; [|done].
  change (0 + 1 + 2) with 3 in Hc. rewrite (cursor_rd16 _ _ _ _ Hc) by lia. cbn [mbind option_bind].
  apply (cursor_advance _ _ _ _ 2) in Hc; [|by rewrite zlen_be_bytes]. change (3 + 2) with 5 in Hc.
  rewrite (proj2 (Z.leb_le _ _)) by lia. rewrite (cursor_rd _ _ _ _ Hc). cbn [mbind option_bind].
  change (byte_to_Z Byte.x01 =? 1) with true. cbv iota. apply cursor_cons in Hc.
  apply (cursor_advance _ _ _ _ 3) in Hc; [|by rewrite zlen_be_bytes].
  unfold hello_body in Hc, Hlen. rewrite <- !app_assoc in Hc.
  apply (cursor_advance _ _ _ _ 2) in Hc; [|done]. apply (cursor_advance _ _ _ _ 32) in Hc; [|done].
  change (5 + 1 + 3 + 2 + 32) with (5 + 4 + 2 + 32) in Hc.
  rewrite <- app_comm_cons, <- !app_assoc in Hc. rewrite <- app_comm_cons, <- !app_assoc in Hc.
  apply (sni_after_random_spec data _ _ _ _ name rest Hc); try done.
  revert Hlen. repeat (rewrite zlen_app || rewrite zlen_cons || rewrite zlen_be_bytes).
  pose proof (zlen_nonneg (ch_session_id h)). pose proof (zlen_nonneg (ch_cipher_suites h)).
  pose proof (zlen_nonneg (ch_compression h)). lia.
Qed.

(** A record cut short by the end of the read. *)
Lemma https_sni_truncated h k : hello_ok h -> 0 <= k < zlen (hello_record h) ->
  https_sni (ztake k (hello_record h)) = Some [].
Proof.
  intros (Hrv & _ & _ & _ & _ & _ & Hlen & _) Hk.
  pose proof (zlen_nonneg (hello_body h)).
  assert (Hsz : zlen (hello_record h) = 9 + zlen (hello_body h)).
  { unfold hello_record. repeat (rewrite zlen_app || rewrite zlen_cons || rewrite zlen_be_bytes). lia. }
  assert (Hz : zlen (ztake k (hello_record h)) = k) by (rewrite zlen_ztake; lia).
  unfold https_sni. cbv zeta. rewrite Hz. destruct (5 <? k) eqn:H5; bool_hyps; [|done].
  set (hd := Byte.x16 :: ch_record_version h ++ be_bytes 2 (4 + zlen (hello_body h))).
  assert (Hhd : zlen hd = 5) by (unfold hd; rewrite zlen_cons, zlen_app, zlen_be_bytes; lia).
  assert (Hsplit : hello_record h = hd ++ Byte.x01 :: be_bytes 3 (zlen (hello_body h)) ++ hello_body h)
    by (unfold hello_record, hd; by rewrite <- app_comm_cons, <- !app_assoc).
  rewrite Hsplit, ztake_app_ge by lia. set (tl := ztake _ _). pose proof (cursor_start (hd ++ tl)) as Hc.
  unfold hd at 2 in Hc. rewrite <- app_comm_cons, <- !app_assoc in Hc.
  rewrite (cursor_rd _ _ _ _ Hc). cbn [mbind option_bind]. change (byte_to_Z Byte.x16 =? 22) with true. cbv iota.
  apply cursor_cons in Hc. apply (cursor_advance _ _ _ _ 2) in Hc; [|done].
  change (0 + 1 + 2) with 3 in Hc. rewrite (cursor_rd16 _ _ _ _ Hc) by lia. cbn [mbind option_bind].
  by rewrite (proj2 (Z.leb_gt _ _)) by lia.
Qed.

(** ** HTTP requests *)
(** What may follow the domain in the header: blanks, or a colon and a port. *)
Definition domain_end (s : list byte) : Prop :=
  Forall (fun c => c ∈ blanks) s \/ exists port, s = bytes_of ":" ++ port.
Record host_header (value domain : list byte) : Prop := {
  hh_parts : exists ws s, value = ws ++ domain ++ s /\ Forall (fun c => c ∈ blanks) ws /\ domain_end s;
  hh_no_cr : Byte.x0d ∉ value;
  hh_no_colon : Byte.x3a ∉ domain;
  hh_first : forall c, head domain = Some c -> c ∉ blanks;
  hh_last : forall c, list.last domain = Some c -> c ∉ blanks
}.
Lemma http_host_spec pre value domain rest : find (bytes_of "Host: ") pre = None -> host_header value domain ->
  http_host (pre ++ bytes_of "Host: " ++ value ++ crlf ++ rest) = domain.
Proof.
  intros Hpre [(ws & s & Hv & Hws & Hs) Hcr Hcol Hf Hl]. unfold http_host.
  change (bytes_of "Host: ") with (Byte.x48 :: bytes_of "ost: ") in *.
  rewrite (find_first Byte.x48 (bytes_of "ost: ")); [|by apply (bool_decide_unpack _)|done].
  unfold find_from. rewrite drop_app_length.
  change (Byte.x48 :: bytes_of "ost: ") with (bytes_of "Host: ").
  rewrite app_assoc. change crlf with (Byte.x0d :: [Byte.x0a]) at 1. rewrite (find_skip Byte.x0d).
  2: { rewrite not_elem_of_app. split; [by apply (bool_decide_unpack _)|done]. }
  change (Byte.x0d :: [Byte.x0a]) with crlf. pose proof (is_prefix_self crlf rest) as Hp.
  assert (Hc0 : find crlf (crlf ++ rest) = Some 0%nat) by done. rewrite Hc0. cbn [option_map].
  rewrite length_app. change (length (bytes_of "Host: ")) with 6%nat.
  assert (Hd : drop (length pre + 6) (pre ++ (bytes_of "Host: " ++ value) ++ crlf ++ rest) = value ++ crlf ++ rest).
  { rewrite <- drop_drop, drop_app_length. rewrite <- app_assoc. by rewrite drop_app_length'. }
  rewrite Hd. replace (length pre + (6 + length value + 0) - (length pre + 6))%nat with (length value) by lia.
  rewrite take_app_length. cbv zeta.
  assert (Hblank : forall l, Forall (fun c => c ∈ blanks) l -> Byte.x3a ∉ l).
  { intros l Hl' Hin. rewrite Forall_forall in Hl'. apply Hl' in Hin. revert Hin. by apply (bool_decide_unpack _). }
  destruct Hs as [Hs|(port & ->)].
  - change (bytes_of ":") with [Byte.x3a]. rewrite find_none.
    + rewrite Hv. by apply trim_both.
    + rewrite Hv, !not_elem_of_app. auto.
  - rewrite Hv, app_assoc. change (bytes_of ":") with [Byte.x3a].
    rewrite (find_skip Byte.x3a) by (rewrite not_elem_of_app; auto).
    change (find [Byte.x3a] ([Byte.x3a] ++ port)) with (Some 0%nat). cbn [option_map].
    rewrite Nat.add_0_r, take_app_length, <- (app_nil_r (ws ++ domain)), <- app_assoc.
    by apply trim_both.
Qed.

(** ** Properties *)
(** C38 The server name of a TLS connection.  On any bytes at all the SNI parser
    reads only inside its buffer and ends.  On a record that holds a whole
    ClientHello it returns the host name of the server_name extension, wherever
    that extension stands, and the empty name if there is none; a record that is
    not complete in the first read gives the empty name, whatever it carries. *)
Theorem sni_parser_correct (h : client_hello) (name rest : list byte) (k : Z)
    (Hok : hello_ok h) (Hname : names_host (ch_extensions h) name) (Hk : 0 <= k < zlen (hello_record h)) :
  (forall data, is_Some (https_sni data)) /\
  https_sni (hello_record h ++ rest) = Some name /\
  https_sni (ztake k (hello_record h)) = Some [].
Proof.
  split; [apply https_sni_safe|]. split; [by apply https_sni_hello|by apply https_sni_truncated].
Qed.

(** An HTTP request reaches the proxy registered for its host.  With a route
    added for a domain, a request whose first [Host] header is that domain -
    with blanks around it or a port behind it - is routed to the session and
    proxy of the route as long as the session is alive; once the route is
    removed the connection is dropped. *)
Theorem http_request_routed (r : Registry) (domain pre value rest : list byte) (session : nat)
    (proxy type : string) (alive : nat -> bool)
    (Hpre : find (bytes_of "Host: ") pre = None) (Hvalue : host_header value domain) :
  let data := pre ++ bytes_of "Host: " ++ value ++ crlf ++ rest in
  vhost_route vhost_http data alive (AddVhostRoute (string_of domain) session proxy type r) =
    Some (if alive session then Some (session, proxy) else None) /\
  vhost_route vhost_http data alive
    (RemoveVhostRoute (string_of domain) (AddVhostRoute (string_of domain) session proxy type r)) = Some None.
Proof.
  intros data. unfold vhost_route, vhost_domain, data. rewrite (http_host_spec pre value domain rest) by done.
  cbn [mbind option_bind]. split.
  - cbn. by rewrite lookup_insert_eq.
  - cbn. by rewrite lookup_delete_eq.
Qed.

(** ** Concrete instances *)
Definition demo_hello : client_hello := {|
  ch_record_version := [Byte.x03; Byte.x01]; ch_version := [Byte.x03; Byte.x03];
  ch_random := repeat Byte.x2a 32; ch_session_id := repeat Byte.x07 32;
  ch_cipher_suites := [Byte.x13; Byte.x01; Byte.x13; Byte.x02]; ch_compression := [Byte.x00];
  ch_extensions := [(10, [Byte.x00; Byte.x02; Byte.x00; Byte.x1d]);
                    (0, server_name_body (bytes_of "app.example.com") []);
                    (43, [Byte.x02; Byte.x03; Byte.x04])] |}.
Lemma sni_parser_correct_witness :
  (forall data, is_Some (https_sni data)) /\
  https_sni (hello_record demo_hello ++ bytes_of "more") = Some (bytes_of "app.example.com") /\
  https_sni (ztake 100 (hello_record demo_hello)) = Some [].
Proof.
  apply (sni_parser_correct demo_hello (bytes_of "app.example.com") (bytes_of "more") 100).
  - repeat split; try (by vm_compute). repeat (apply Forall_cons_2; [split; [split|]; by vm_compute|]).
    apply Forall_nil_2.
  - apply (has_server_name [_] _ [] [_]); [|by vm_compute].
    apply Forall_cons_2; [discriminate|apply Forall_nil_2].
  - split; by vm_compute.
Defined.

Definition demo_value : list byte := bytes_of " site.example.org:8080".
Lemma http_request_routed_witness :
  let data := line "GET /x HTTP/1.1" ++ bytes_of "Host: " ++ demo_value ++ crlf ++ line "Accept: */*" ++ crlf in
  vhost_route vhost_http data (fun s => Nat.eqb s 7)
    (AddVhostRoute (string_of (bytes_of "site.example.org")) 7 "web" "http" empty_registry) = Some (Some (7%nat, "web")) /\
  vhost_route vhost_http data (fun s => Nat.eqb s 7)
    (RemoveVhostRoute (string_of (bytes_of "site.example.org"))
      (AddVhostRoute (string_of (bytes_of "site.example.org")) 7 "web" "http" empty_registry)) = Some None.
Proof.
  apply (http_request_routed empty_registry (bytes_of "site.example.org") (line "GET /x HTTP/1.1") demo_value
           (line "Accept: */*" ++ crlf) 7 "web" "http" (fun s => Nat.eqb s 7)); [by vm_compute|]. split.
  - exists (bytes_of " "), (bytes_of ":8080"). split; [done|]. split.
    + apply Forall_cons_2; [by apply (bool_decide_unpack _); vm_compute|apply Forall_nil_2].
    + right. by exists (bytes_of "8080").
  - apply (bool_decide_unpack _). by vm_compute.
  - apply (bool_decide_unpack _). by vm_compute.
  - intros c [= <-]. apply (bool_decide_unpack _). by vm_compute.
  - intros c [= <-]. apply (bool_decide_unpack _). by vm_compute.
Defined.
