(* ===== verification/ControlFrame.v ===== *)
(** * Framing of control messages (src/server/server.cpp, src/client/client.cpp)

    Both ends write a control message as a four-byte header - length, with the
    top bit for compression - and the encoded, possibly compressed, message;
    both read the header, refuse lengths above 4 MiB, read the body, and undo
    the compression within 16 MiB.  [ControlSession] and [Client] differ only
    in when they compress and in what they do with a body that cannot be
    decoded. *)
From Stdlib Require Import ZArith Lia Strings.Byte String.
From stdpp Require Import base tactics list strings.
From S2P Require Import Prelude Protocol Zstd.
Local Open Scope Z_scope.

Section Frame.
Context `{Zstd}.

(** What [SendMessage] writes; [level] is the compression level when
    compression is on.  A message is compressed even when that makes it longer. *)
Definition control_frame (level : option Z) (msg : Message) : list byte :=
  let encoded := Encode msg in
  let plain := be_bytes 4 (wrap 32 (zlen encoded)) ++ encoded in
  match level with
  | Some l =>
    match compress l encoded with
    | Some c => be_bytes 4 (Z.lor (wrap 32 (zlen c)) COMPRESSION_FLAG) ++ c
    | None => plain
    end
  | None => plain
  end.

(** [DoReadHeader]: the header in host order, and the length of the body. *)
Definition frame_length (h : Z) : Z := Z.land h LENGTH_MASK.
Definition frame_compressed (h : Z) : bool := negb (Z.land h COMPRESSION_FLAG =? 0).
Definition length_accepted (h : Z) : bool := negb (MAX_CONTROL_MESSAGE_SIZE <? frame_length h).

(** [DoReadBody]: the ways a body decodes. *)
Inductive decoded : Type :=
| bad_size                   (* no usable content size *)
| bad_data                   (* ZSTD_isError *)
| decode_throws (e : exn)
| decoded_message (msg : Message).
Definition decode_body (is_compressed : bool) (data : list byte) : decoded :=
  let parse d := match Decode d with Ok msg => decoded_message msg | Err e => decode_throws e end in
  if is_compressed then
    match frame_content_size data with
    | None => bad_size
    | Some decodedSize =>
      if MAX_DECOMPRESSED_SIZE <? decodedSize then bad_size else
      match decompress decodedSize data with None => bad_data | Some d => parse d end
    end
  else parse data.
End Frame.

(** ** Round trip *)
Section RoundTrip.
Context `{ZstdLaws}.

(** The message is within the limits of the two ends. *)
Definition frame_fits (level : option Z) (msg : Message) : Prop :=
  match msg_type msg with OtherType n => 8 <= n < 256 | _ => True end /\
  zlen (Encode msg) <= MAX_DECOMPRESSED_SIZE /\ zlen (control_frame level msg) <= 4 + MAX_CONTROL_MESSAGE_SIZE.

Lemma header_fields n (flag : bool) : 0 <= n <= MAX_CONTROL_MESSAGE_SIZE ->
  let h := be_val (be_bytes 4 (if flag then Z.lor (wrap 32 n) COMPRESSION_FLAG else wrap 32 n)) in
  frame_length h = n /\ frame_compressed h = flag.
Proof.
  intros Hn h. unfold MAX_CONTROL_MESSAGE_SIZE in Hn.
  assert (Hw : wrap 32 n = n) by (unfold wrap; apply Z.mod_small; lia).
  assert (Hv : h = if flag then n + 2 ^ 31 else n).
  { unfold h. rewrite Hw. destruct flag.
    - change COMPRESSION_FLAG with (2 ^ 31). rewrite lor_flag_add by lia. rewrite be_val_bytes_small; [done|]. cbn. lia.
    - rewrite be_val_bytes_small; [done|]. cbn. lia. }
  unfold frame_length, frame_compressed. rewrite Hv.
  change LENGTH_MASK with (2 ^ 31 - 1). change COMPRESSION_FLAG with (2 ^ 31).
  rewrite land_ones_mod, land_flag by lia. destruct flag.
  - rewrite testbit_flag by lia. split; [|done]. rewrite <- Z.add_mod_idemp_r, Z.mod_same, Z.add_0_r by lia.
    apply Z.mod_small. lia.
  - rewrite testbit_small by lia. split; [apply Z.mod_small; lia|done].
Qed.

(** A control message arrives as it was sent.  For a message within the
    limits, compressed or not, the receiver accepts the header, asks for exactly
    the rest of the frame, and decodes the body to the message. *)
Theorem control_frame_roundtrip (level : option Z) (msg : Message) (Hfits : frame_fits level msg) :
  let packet := control_frame level msg in
  let h := be_val (ztake 4 packet) in
  length_accepted h = true /\ frame_length h = zlen packet - 4 /\
  decode_body (frame_compressed h) (zdrop 4 packet) = decoded_message msg.
Proof.
  destruct Hfits as (Ht & Hmax & Hlen). intros packet h. pose proof (decode_encode msg Ht) as Hd.
  assert (Hp : exists (flag : bool) data, packet =
      be_bytes 4 (if flag then Z.lor (wrap 32 (zlen data)) COMPRESSION_FLAG else wrap 32 (zlen data)) ++ data /\
      if flag then exists l, compress l (Encode msg) = Some data else data = Encode msg).
  { unfold packet, control_frame. destruct level as [l|]; [|by exists false, (Encode msg)].
    destruct (compress l (Encode msg)) as [c|] eqn:E; [|by exists false, (Encode msg)].
    exists true, c. split; [done|by exists l]. }
  destruct Hp as (flag & data & Hp & Hdata). fold packet in Hlen. unfold h. rewrite Hp in *.
  rewrite ztake_app_exact, zdrop_app_exact by (by rewrite zlen_be_bytes).
  rewrite zlen_app, zlen_be_bytes in *. pose proof (zlen_nonneg data) as H0'.
  destruct (header_fields (zlen data) flag ltac:(lia)) as [Hl Hc].
  unfold length_accepted. rewrite Hl, Hc. split.
  { apply negb_true_iff, Z.ltb_ge. lia. }
  split; [lia|]. unfold decode_body. destruct flag; [|by rewrite Hdata, Hd].
  destruct Hdata as [l Hdata]. rewrite (content_size_compress _ _ _ Hdata).
  replace (MAX_DECOMPRESSED_SIZE <? zlen (Encode msg)) with false by (symmetry; by apply Z.ltb_ge).
  rewrite (decompress_compress _ _ _ Hdata). by rewrite Hd.
Qed.
End RoundTrip.

(** ** Concrete instances *)
#[local] Existing Instance rle_zstd.
#[local] Existing Instance rle_laws.
(** A message the run-length compressor does compress. *)
Definition demo_message : Message := {| msg_type := OtherType 9; msg_body := repeat Byte.x09 100 |}.
Lemma control_frame_roundtrip_witness :
  let packet := control_frame (Some 1) demo_message in
  let h := be_val (ztake 4 packet) in
  length_accepted h = true /\ frame_length h = zlen packet - 4 /\
  decode_body (frame_compressed h) (zdrop 4 packet) = decoded_message demo_message.
Proof. apply (control_frame_roundtrip (Some 1) demo_message). repeat split; by vm_compute. Defined.
