(* ===== verification/Control.v ===== *)
(** * Control sessions (src/server/server.cpp, ControlSession)

    The server's side of a control stream: reading frames, login, registering
    and unregistering proxies, and the clean-up.  A handler takes the session
    and what it shares with the rest of the server - the registries, the
    pending tickets, the count of listeners - and returns them with the actions
    it took.  Every handler runs on the session's strand, so a run is a
    sequence of handlers of any sessions.  Whether a listener's port can be
    bound is an argument: [bind_error] is the text of the exception. *)
From Stdlib Require Import ZArith Lia Strings.Byte String.
From stdpp Require Import base tactics list gmap strings.
From S2P Require Import Prelude Protocol Zstd Pending Registry ControlFrame.
Local Open Scope Z_scope.

(** ** State *)
Inductive read_phase : Type :=
| no_read
| at_header
| at_body (length : Z) (is_compressed : bool).

Record ControlSession : Type := {
  mux_session_ : option nat;
  client_name_ : string;
  proxies_ : list (nat * string);         (* listener and proxy name *)
  udp_proxies_ : list (nat * string);
  registered_domains_ : gset string;
  authenticated_ : bool;
  compression_enabled_ : bool;
  reading : read_phase
}.
Definition new_control (mux : option nat) : ControlSession := {|
  mux_session_ := mux; client_name_ := ""; proxies_ := []; udp_proxies_ := []; registered_domains_ := ∅;
  authenticated_ := false; compression_enabled_ := false; reading := no_read |}.

Record Shared : Type := { registry : Registry; pending : Pending; next_listener : nat }.

Inductive control_action : Type :=
| write_control (bytes : list byte)
| read_control (n : Z)
| close_control
| stop_mux (mux : nat)
| start_listener (l : nat) (port : Z)
| start_udp_listener (l : nat) (port : Z)
| stop_listener (l : nat)
| stop_udp_listener (l : nat)
| drop_conns (outs : list outcome).

Definition set_reading (r : read_phase) (c : ControlSession) : ControlSession := {|
  mux_session_ := mux_session_ c; client_name_ := client_name_ c; proxies_ := proxies_ c;
  udp_proxies_ := udp_proxies_ c; registered_domains_ := registered_domains_ c;
  authenticated_ := authenticated_ c; compression_enabled_ := compression_enabled_ c; reading := r |}.
Definition set_compression (b : bool) (c : ControlSession) : ControlSession := {|
  mux_session_ := mux_session_ c; client_name_ := client_name_ c; proxies_ := proxies_ c;
  udp_proxies_ := udp_proxies_ c; registered_domains_ := registered_domains_ c;
  authenticated_ := authenticated_ c; compression_enabled_ := b; reading := reading c |}.
Definition set_owned (ps ups : list (nat * string)) (ds : gset string) (c : ControlSession) : ControlSession := {|
  mux_session_ := mux_session_ c; client_name_ := client_name_ c; proxies_ := ps; udp_proxies_ := ups;
  registered_domains_ := ds; authenticated_ := authenticated_ c;
  compression_enabled_ := compression_enabled_ c; reading := reading c |}.
Definition set_authenticated (name : string) (c : ControlSession) : ControlSession := {|
  mux_session_ := mux_session_ c; client_name_ := name; proxies_ := proxies_ c; udp_proxies_ := udp_proxies_ c;
  registered_domains_ := registered_domains_ c; authenticated_ := true;
  compression_enabled_ := compression_enabled_ c; reading := reading c |}.

Definition set_registry (r : Registry) (sh : Shared) : Shared :=
  {| registry := r; pending := pending sh; next_listener := next_listener sh |}.
Definition set_pending (p : Pending) (sh : Shared) : Shared :=
  {| registry := registry sh; pending := p; next_listener := next_listener sh |}.
Definition add_listener (p : Pending) (sh : Shared) : Shared :=
  {| registry := registry sh; pending := p; next_listener := S (next_listener sh) |}.

Section Control.
Context `{Zstd}.
Variables (token : string) (allowed_ports : list PortRange) (allowed_clients : list string).

Definition handled : Type := (ControlSession * Shared * list control_action)%type.

(** [FindProxy], [FindUdpProxy]: the first listener of that name. *)
Definition find_name (name : string) (ps : list (nat * string)) : option nat :=
  fst <$> List.find (fun p => String.eqb p.2 name) ps.
Definition FindProxy (name : string) (c : ControlSession) : option nat := find_name name (proxies_ c).
Definition FindUdpProxy (name : string) (c : ControlSession) : option nat := find_name name (udp_proxies_ c).

(** [SendMessage]: compressed (at level 1) once the client has compressed. *)
Definition SendMessage (type : MessageType) (body : list byte) (c : ControlSession) : list control_action :=
  [write_control (control_frame (if compression_enabled_ c then Some 1 else None)
                                {| msg_type := type; msg_body := body |})].

(** ** Stop *)
(** The clean-up of one listener. *)
Definition clean_proxy (stop : nat -> control_action) (p : nat * string) (sh : Shared)
  : Shared * list control_action :=
  let '(pend, outs) := ClearPendingForProxy p.2 (pending sh) in
  (set_registry (RemoveRateLimiter p.2 (registry sh)) (set_pending pend sh), [drop_conns outs; stop p.1]).
Fixpoint clean_proxies (stop : nat -> control_action) (ps : list (nat * string)) (sh : Shared)
  : Shared * list control_action :=
  match ps with
  | [] => (sh, [])
  | p :: ps' =>
    let '(sh1, a1) := clean_proxy stop p sh in
    let '(sh2, a2) := clean_proxies stop ps' sh1 in (sh2, a1 ++ a2)
  end.

Definition Stop (c : ControlSession) (sh : Shared) : handled :=
  let r0 := registry sh in
  let r1 := if authenticated_ c then ReleaseClientName (client_name_ c) r0 else r0 in
  let '(r2, a0) := match mux_session_ c with
                   | Some m => (RemoveMuxControl m r1, [stop_mux m])
                   | None => (r1, [])
                   end in
  let '(sh1, a1) := clean_proxies stop_listener (proxies_ c) (set_registry r2 sh) in
  let '(sh2, a2) := clean_proxies stop_udp_listener (udp_proxies_ c) sh1 in
  let sh3 := set_registry (foldr RemoveVhostRoute (registry sh2) (elements (registered_domains_ c))) sh2 in
  (set_owned [] [] ∅ c, sh3, a0 ++ a1 ++ a2 ++ [close_control]).

(** ** Messages *)
Definition refuse_login (message : string) (c : ControlSession) (sh : Shared) : handled :=
  let a := SendMessage LoginResp (LoginRespMessage_Serialize
             {| lresp_status := "error"; lresp_name := ""; lresp_message := message |}) c in
  let '(c', sh', a') := Stop c sh in (c', sh', a ++ a').

Definition HandleLogin (s : nat) (body : list byte) (c : ControlSession) (sh : Shared) : result exn handled :=
  m ← LoginMessage_Deserialize body;
  Ok (if negb (String.eqb (login_token m) token) then refuse_login "Invalid token" c sh
      else if negb (IsClientAllowed allowed_clients (login_name m))
      then refuse_login "client name not allowed" c sh
      else
        match AllocateClientName (login_name m) s (registry sh) with
        | Some (name, r) =>
          let c1 := set_authenticated name c in
          (c1, set_registry r sh,
           SendMessage LoginResp (LoginRespMessage_Serialize
             {| lresp_status := "ok"; lresp_name := name; lresp_message := "" |}) c1)
        | None => (c, sh, [])           (* AllocateClientName always returns *)
        end).

Definition register_response (status name message : string) (c : ControlSession) : list control_action :=
  SendMessage RegisterProxyResp (RegisterProxyRespMessage_Serialize
    {| rresp_status := status; rresp_name := name; rresp_message := message |}) c.

(** The handler of [RegisterProxy]. *)
Definition HandleRegisterProxy (s : nat) (body : list byte) (bind_error : option string)
    (c : ControlSession) (sh : Shared) : result exn handled :=
  m ← RegisterProxyMessage_Deserialize body;
  let name := rp_name m in
  let remote_port := rp_remote_port m in
  let type := if String.eqb (rp_type m) "" then "tcp" else rp_type m in
  let sh1 := if 0 <? rp_bandwidth_limit m
             then set_registry (CreateRateLimiter name (rp_bandwidth_limit m) (registry sh)) sh else sh in
  let http := String.eqb type "http" || String.eqb type "https" in
  Ok (if negb http && negb (IsPortAllowed allowed_ports remote_port)
      then (c, sh1, register_response "error" name "port not allowed" c)
      else if http then
        let r := foldl (fun r d => AddVhostRoute d s name type r) (registry sh1) (rp_custom_domains m) in
        let c1 := set_owned (proxies_ c) (udp_proxies_ c)
                    (list_to_set (rp_custom_domains m) ∪ registered_domains_ c) c in
        (c1, set_registry r sh1, register_response "ok" name "" c1)
      else
        match bind_error with
        | Some what => (c, sh1, register_response "error" name what c)
        | None =>
          let l := next_listener sh1 in
          if String.eqb type "udp" then
            let p := pending sh1 in
            let ul := {| ul_name := name; ul_bytes_received := 0; ul_total_conns := 0;
                         endpoint_to_ticket_ := ∅ |} in
            let c1 := set_owned (proxies_ c) (udp_proxies_ c ++ [(l, name)]) (registered_domains_ c) c in
            (c1, add_listener (set_udp_listeners (<[l := ul]> (udp_listeners p)) p) sh1,
             start_udp_listener l remote_port :: register_response "ok" name "" c1)
          else
            let p := pending sh1 in
            let pl := {| pl_name := name; active_conns_ := 0; total_conns_ := 0 |} in
            let c1 := set_owned (proxies_ c ++ [(l, name)]) (udp_proxies_ c) (registered_domains_ c) c in
            (c1, add_listener (set_tcp_listeners (<[l := pl]> (tcp_listeners p)) p) sh1,
             start_listener l remote_port :: register_response "ok" name "" c1)
        end).

(** [erase(it)] of the first listener of that name. *)
Fixpoint remove_first (name : string) (ps : list (nat * string)) : option (nat * list (nat * string)) :=
  match ps with
  | [] => None
  | p :: ps' =>
    if String.eqb p.2 name then Some (p.1, ps')
    else match remove_first name ps' with Some (l, rest) => Some (l, p :: rest) | None => None end
  end.
Definition HandleUnregisterProxy (body : list byte) (c : ControlSession) (sh : Shared) : result exn handled :=
  m ← UnregisterProxyMessage_Deserialize body;
  Ok match remove_first (up_name m) (proxies_ c) with
     | Some (l, ps) => (set_owned ps (udp_proxies_ c) (registered_domains_ c) c, sh, [stop_listener l])
     | None =>
       match remove_first (up_name m) (udp_proxies_ c) with
       | Some (l, ps) => (set_owned (proxies_ c) ps (registered_domains_ c) c, sh, [stop_udp_listener l])
       | None => (c, sh, [])
       end
     end.

Definition HandleMessage (s : nat) (msg : Message) (bind_error : option string)
    (c : ControlSession) (sh : Shared) : result exn handled :=
  match msg_type msg with
  | Login => HandleLogin s (msg_body msg) c sh
  | t =>
    if negb (authenticated_ c) then Ok (Stop c sh)
    else match t with
         | RegisterProxy => HandleRegisterProxy s (msg_body msg) bind_error c sh
         | UnregisterProxy => HandleUnregisterProxy (msg_body msg) c sh
         | _ => Ok (c, sh, [])
         end
  end.

(** ** The read loop *)
Definition DoReadHeader (c : ControlSession) (sh : Shared) : handled :=
  (set_reading at_header c, sh, [read_control 4]).
Definition stop_reading (c : ControlSession) (sh : Shared) : handled := Stop (set_reading no_read c) sh.

(** The completion of the header, with [DoReadBody] up to its read. *)
Definition on_control_header (ec : error_code) (header : list byte) (c : ControlSession) (sh : Shared) : handled :=
  if decide (ec = ec_ok) then
    let h := be_val header in
    if length_accepted h then
      let is_compressed := frame_compressed h in
      let c1 := if is_compressed then set_compression true c else c in
      (set_reading (at_body (frame_length h) is_compressed) c1, sh, [read_control (frame_length h)])
    else stop_reading c sh
  else stop_reading c sh.

(** The completion of the body; the next header is read after any message that
    did not throw. *)
Definition on_control_body (s : nat) (is_compressed : bool) (ec : error_code) (data : list byte)
    (bind_error : option string) (c : ControlSession) (sh : Shared) : handled :=
  if decide (ec = ec_ok) then
    match decode_body is_compressed data with
    | decoded_message msg =>
      match HandleMessage s msg bind_error c sh with
      | Ok (c1, sh1, a1) => let '(c2, sh2, a2) := DoReadHeader c1 sh1 in (c2, sh2, a1 ++ a2)
      | Err _ => stop_reading c sh
      end
    | _ => stop_reading c sh
    end
  else stop_reading c sh.

(** The ten-second timer of [HandleNewMuxStream]. *)
Definition on_auth_timer (c : ControlSession) (sh : Shared) : handled :=
  if authenticated_ c then (c, sh, []) else Stop c sh.

(** ** Runs of all sessions *)
Record Server : Type := { shared : Shared; controls : gmap nat ControlSession }.
Definition new_server : Server :=
  {| shared := {| registry := empty_registry; pending := empty_pending; next_listener := 0 |}; controls := ∅ |}.

Inductive control_event : Type :=
| cev_open (mux : nat)                                     (* the control stream of a mux session *)
| cev_header (ec : error_code) (header : list byte)
| cev_body (ec : error_code) (data : list byte) (bind_error : option string)
| cev_auth_timer
| cev_notify (proxy t : string)                             (* NewUserConn from a listener *)
| cev_write_failed.

Definition control_step (s : nat) (ev : control_event) (sv : Server)
  : option (Server * list control_action) :=
  let finish '(c, sh, a) := Some ({| shared := sh; controls := <[s := c]> (controls sv) |}, a) in
  match ev, controls sv !! s with
  | cev_open mux, None =>
    let sh := set_registry (AddMuxControl mux s (registry (shared sv))) (shared sv) in
    finish (DoReadHeader (new_control (Some mux)) sh)
  | cev_header ec header, Some c =>
    match reading c with
    | at_header =>
      if (if decide (ec = ec_ok) then zlen header =? 4 else true)
      then finish (on_control_header ec header c (shared sv)) else None
    | _ => None
    end
  | cev_body ec data bind_error, Some c =>
    match reading c with
    | at_body len is_compressed =>
      if (if decide (ec = ec_ok) then zlen data =? len else true)
      then finish (on_control_body s is_compressed ec data bind_error c (shared sv)) else None
    | _ => None
    end
  | cev_auth_timer, Some c => finish (on_auth_timer c (shared sv))
  | cev_notify proxy t, Some c =>
    finish (c, shared sv, SendMessage NewUserConn (NewUserConnMessage_Serialize
              {| nuc_proxy_name := proxy; nuc_ticket := t |}) c)
  | cev_write_failed, Some c => finish (Stop c (shared sv))
  | _, _ => None
  end.
Fixpoint control_run (evs : list (nat * control_event)) (sv : Server)
  : option (Server * list (nat * control_action)) :=
  match evs with
  | [] => Some (sv, [])
  | (s, ev) :: evs' =>
    '(sv1, a1) ← control_step s ev sv;
    '(sv2, a2) ← control_run evs' sv1;
    mret (sv2, map (pair s) a1 ++ a2)
  end.

(** ** What the clean-up does *)
Definition names (ps : list (nat * string)) : list string := map snd ps.
Record cleaned_of (ns : list string) (sh sh' : Shared) : Prop := {
  co_names : active_client_names_ (registry sh') = active_client_names_ (registry sh);
  co_sessions : sessions_ (registry sh') = sessions_ (registry sh);
  co_routes : vhost_routes_ (registry sh') = vhost_routes_ (registry sh);
  co_mux : mux_to_control_ (registry sh') = mux_to_control_ (registry sh);
  co_limiters : forall n, proxy_rate_limiters_ (registry sh') !! n =
    if decide (n ∈ ns) then None else proxy_rate_limiters_ (registry sh) !! n;
  co_conns : forall t i, pending_user_conns_ (pending sh') !! t = Some i <->
    pending_user_conns_ (pending sh) !! t = Some i /\ tcp_proxy_name i ∉ ns;
  co_udps : forall t i, pending_udp_sessions_ (pending sh') !! t = Some i <->
    pending_udp_sessions_ (pending sh) !! t = Some i /\ udp_proxy_name i ∉ ns
}.
Lemma cleaned_of_nil sh : cleaned_of [] sh sh.
Proof.
  split; try done; try (intros n; rewrite decide_False; [done|apply not_elem_of_nil]);
    intros t i; split; [|by intros []| |by intros []]; intros Hi; (split; [done|apply not_elem_of_nil]).
Qed.
Lemma cleaned_of_app ns1 ns2 sh sh1 sh2 : cleaned_of ns1 sh sh1 -> cleaned_of ns2 sh1 sh2 ->
  cleaned_of (ns1 ++ ns2) sh sh2.
Proof.
  intros [A1 A2 A3 A4 A5 A6 A7] [B1 B2 B3 B4 B5 B6 B7]. split; try congruence.
  - intros n. rewrite B5, A5. repeat case_decide; rewrite elem_of_app in *; tauto.
  - intros t i. rewrite B6, A6, elem_of_app. tauto.
  - intros t i. rewrite B7, A7, elem_of_app. tauto.
Qed.
Lemma clean_proxy_spec stop p sh : cleaned_of [p.2] sh (clean_proxy stop p sh).1.
Proof.
  unfold clean_proxy, ClearPendingForProxy. cbn. split; cbn; try done.
  - intros n. case_decide as Hn; rewrite list_elem_of_singleton in Hn.
    + subst. apply lookup_delete_eq.
    + by apply lookup_delete_ne.
  - intros t i. rewrite map_lookup_filter_Some, list_elem_of_singleton. done.
  - intros t i. rewrite map_lookup_filter_Some, list_elem_of_singleton. done.
Qed.
Lemma clean_proxies_spec stop ps sh : cleaned_of (names ps) sh (clean_proxies stop ps sh).1.
Proof.
  revert sh. induction ps as [|p ps IH]; intros sh; [apply cleaned_of_nil|]. cbn [clean_proxies].
  pose proof (clean_proxy_spec stop p sh) as H1. destruct (clean_proxy stop p sh) as [sh1 a1].
  specialize (IH sh1). destruct (clean_proxies stop ps sh1) as [sh2 a2].
  by apply (cleaned_of_app [p.2] (names ps) sh sh1).
Qed.
(** The listeners a clean-up closes, in order. *)
Lemma clean_proxies_stops (stop : nat -> control_action) (pick : control_action -> option nat) ps sh :
  (forall l, pick (stop l) = Some l) -> (forall o, pick (drop_conns o) = None) ->
  omap pick (clean_proxies stop ps sh).2 = map fst ps.
Proof.
  intros H1 H2. revert sh. induction ps as [|p ps IH]; intros sh; [done|]. cbn [clean_proxies].
  unfold clean_proxy. destruct (ClearPendingForProxy p.2 (pending sh)) as [pend outs].
  match goal with |- context [clean_proxies stop ps ?q] => specialize (IH q);
    destruct (clean_proxies stop ps q) as [sh2 a2] end.
  cbn [snd app] in *. change (omap pick (drop_conns outs :: stop p.1 :: a2)) with
    (match pick (drop_conns outs) with Some y => y :: omap pick (stop p.1 :: a2) | None => omap pick (stop p.1 :: a2) end).
  rewrite H2. change (omap pick (stop p.1 :: a2)) with
    (match pick (stop p.1) with Some y => y :: omap pick a2 | None => omap pick a2 end).
  by rewrite H1, IH.
Qed.

Lemma remove_routes_lookup ds r d : vhost_routes_ (foldr RemoveVhostRoute r ds) !! d =
  if decide (d ∈ ds) then None else vhost_routes_ r !! d.
Proof.
  induction ds as [|x ds IH]; cbn; [by rewrite decide_False by apply not_elem_of_nil|].
  destruct (decide (x = d)) as [->|Hn].
  - rewrite lookup_delete_eq, decide_True; [done|by left].
  - rewrite lookup_delete_ne, IH by done. repeat case_decide; rewrite elem_of_cons in *; naive_solver.
Qed.
Lemma remove_routes_other ds r :
  active_client_names_ (foldr RemoveVhostRoute r ds) = active_client_names_ r /\
  sessions_ (foldr RemoveVhostRoute r ds) = sessions_ r /\
  proxy_rate_limiters_ (foldr RemoveVhostRoute r ds) = proxy_rate_limiters_ r /\
  mux_to_control_ (foldr RemoveVhostRoute r ds) = mux_to_control_ r.
Proof. induction ds as [|x ds (H1 & H2 & H3 & H4)]; [done|]. cbn. by rewrite H1, H2, H3, H4. Qed.

Definition owned_names (c : ControlSession) : list string := names (proxies_ c) ++ names (udp_proxies_ c).
(** Everything a stopped session leaves. *)
Record stop_result (c : ControlSession) (sh : Shared) (c' : ControlSession) (sh' : Shared) : Prop := {
  sr_session : c' = set_owned [] [] ∅ c;
  sr_names : active_client_names_ (registry sh') =
    if authenticated_ c then active_client_names_ (registry sh) ∖ {[client_name_ c]}
    else active_client_names_ (registry sh);
  sr_sessions : sessions_ (registry sh') =
    if authenticated_ c then delete (client_name_ c) (sessions_ (registry sh)) else sessions_ (registry sh);
  sr_mux : mux_to_control_ (registry sh') =
    match mux_session_ c with
    | Some m => delete m (mux_to_control_ (registry sh)) | None => mux_to_control_ (registry sh) end;
  sr_routes : forall d, vhost_routes_ (registry sh') !! d =
    if decide (d ∈ registered_domains_ c) then None else vhost_routes_ (registry sh) !! d;
  sr_limiters : forall n, proxy_rate_limiters_ (registry sh') !! n =
    if decide (n ∈ owned_names c) then None else proxy_rate_limiters_ (registry sh) !! n;
  sr_conns : forall t i, pending_user_conns_ (pending sh') !! t = Some i <->
    pending_user_conns_ (pending sh) !! t = Some i /\ tcp_proxy_name i ∉ owned_names c;
  sr_udps : forall t i, pending_udp_sessions_ (pending sh') !! t = Some i <->
    pending_udp_sessions_ (pending sh) !! t = Some i /\ udp_proxy_name i ∉ owned_names c
}.
Definition closed_listeners (a : list control_action) : list nat :=
  omap (fun x => match x with stop_listener l | stop_udp_listener l => Some l | _ => None end) a.
Lemma closed_listeners_app a1 a2 : closed_listeners (a1 ++ a2) = closed_listeners a1 ++ closed_listeners a2.
Proof. apply omap_app. Qed.

Lemma stop_spec c sh : let '(c', sh', a) := Stop c sh in
  stop_result c sh c' sh' /\
  closed_listeners a = map fst (proxies_ c) ++ map fst (udp_proxies_ c) /\ list.last a = Some close_control.
Proof.
  unfold Stop. set (r1 := if authenticated_ c then ReleaseClientName (client_name_ c) (registry sh) else registry sh).
  set (r2a := match mux_session_ c with Some m => (RemoveMuxControl m r1, [stop_mux m]) | None => (r1, []) end).
  assert (Hr2 : active_client_names_ r2a.1 = active_client_names_ r1 /\ sessions_ r2a.1 = sessions_ r1 /\
    vhost_routes_ r2a.1 = vhost_routes_ r1 /\ proxy_rate_limiters_ r2a.1 = proxy_rate_limiters_ r1 /\
    mux_to_control_ r2a.1 = match mux_session_ c with Some m => delete m (mux_to_control_ r1) | None => mux_to_control_ r1 end /\
    closed_listeners r2a.2 = []).
  { unfold r2a. by destruct (mux_session_ c). }
  assert (Hr1 : active_client_names_ r1 = (if authenticated_ c then active_client_names_ (registry sh) ∖ {[client_name_ c]}
      else active_client_names_ (registry sh)) /\
    sessions_ r1 = (if authenticated_ c then delete (client_name_ c) (sessions_ (registry sh)) else sessions_ (registry sh)) /\
    vhost_routes_ r1 = vhost_routes_ (registry sh) /\ proxy_rate_limiters_ r1 = proxy_rate_limiters_ (registry sh) /\
    mux_to_control_ r1 = mux_to_control_ (registry sh)).
  { unfold r1. by destruct (authenticated_ c). }
  destruct r2a as [r2 a0]. cbn [fst snd] in Hr2. clearbody r1.
  destruct Hr2 as (B1 & B2 & B3 & B4 & B5 & B6). destruct Hr1 as (C1 & C2 & C3 & C4 & C5).
  pose proof (clean_proxies_spec stop_listener (proxies_ c) (set_registry r2 sh)) as H1.
  pose proof (clean_proxies_stops stop_listener (fun x => match x with stop_listener l | stop_udp_listener l => Some l | _ => None end)
    (proxies_ c) (set_registry r2 sh) (fun l => eq_refl) (fun o => eq_refl)) as L1.
  destruct (clean_proxies stop_listener (proxies_ c) (set_registry r2 sh)) as [sh1 a1].
  pose proof (clean_proxies_spec stop_udp_listener (udp_proxies_ c) sh1) as H2.
  pose proof (clean_proxies_stops stop_udp_listener (fun x => match x with stop_listener l | stop_udp_listener l => Some l | _ => None end)
    (udp_proxies_ c) sh1 (fun l => eq_refl) (fun o => eq_refl)) as L2.
  destruct (clean_proxies stop_udp_listener (udp_proxies_ c) sh1) as [sh2 a2]. cbn [fst snd] in *.
  destruct (cleaned_of_app _ _ _ _ _ H1 H2) as [D1 D2 D3 D4 D5 D6 D7].
  destruct (remove_routes_other (elements (registered_domains_ c)) (registry sh2)) as (E1 & E2 & E3 & E4).
  cbn [registry pending set_registry] in *. split; [|split].
  - split; cbn [registry pending set_registry]; try done; try congruence.
    + by rewrite E4, D4, B5, C5.
    + intros d. rewrite remove_routes_lookup, D3, B3, C3. by repeat case_decide; rewrite elem_of_elements in *.
    + intros n. by rewrite E3, D5, B4, C4.
  - rewrite !closed_listeners_app, B6. unfold closed_listeners at 1 2. rewrite L1, L2. cbn. by rewrite app_nil_r.
  - by rewrite !app_assoc, last_snoc.
Qed.

(** ** What sessions own *)
Record owned_inv (m : gmap nat ControlSession) (r : Registry) : Prop := {
  oi_empty : forall s c, m !! s = Some c -> authenticated_ c = false ->
    proxies_ c = [] /\ udp_proxies_ c = [] /\ registered_domains_ c = ∅;
  oi_routes : forall d x, vhost_routes_ r !! d = Some x ->
    exists c, m !! route_session x = Some c /\ authenticated_ c = true /\ d ∈ registered_domains_ c;
  oi_sessions : forall n s, sessions_ r !! n = Some s ->
    exists c, m !! s = Some c /\ authenticated_ c = true
}.
(** One session changes, and with it only its own routes and names. *)
Lemma owned_update m r s c c' r' : owned_inv m r -> m !! s = Some c ->
  (authenticated_ c = true -> authenticated_ c' = true) ->
  (authenticated_ c' = false -> proxies_ c' = [] /\ udp_proxies_ c' = [] /\ registered_domains_ c' = ∅) ->
  (forall d x, vhost_routes_ r' !! d = Some x ->
     (vhost_routes_ r !! d = Some x \/ route_session x = s /\ authenticated_ c' = true) /\
     (route_session x = s -> d ∈ registered_domains_ c')) ->
  (forall n x, sessions_ r' !! n = Some x -> sessions_ r !! n = Some x \/ x = s /\ authenticated_ c' = true) ->
  owned_inv (<[s := c']> m) r'.
Proof.
  intros [H1 H2 H3] Hc Ha He Hr Hn. split.
  - intros s' c2 [[<- <-]|[_ Hc2]]%lookup_insert_Some; [done|by eapply H1].
  - intros d x Hd. destruct (Hr d x Hd) as [Hor Hin]. destruct (decide (route_session x = s)) as [Hs|Hs].
    + exists c'. rewrite Hs, lookup_insert_eq. split; [done|]. split; [|by apply Hin].
      destruct Hor as [Ho|[_ Ho]]; [|done]. destruct (H2 d x Ho) as (c2 & E & Hau & _).
      rewrite Hs, Hc in E. injection E as <-. by apply Ha.
    + destruct Hor as [Ho|[Ho _]]; [|done]. destruct (H2 d x Ho) as (c2 & E & Hau & Hd2).
      exists c2. by rewrite lookup_insert_ne.
  - intros n x Hx. destruct (decide (x = s)) as [->|Hne].
    + exists c'. rewrite lookup_insert_eq. split; [done|]. destruct (Hn n s Hx) as [Ho|[_ Ho]]; [|done].
      destruct (H3 n s Ho) as (c2 & E & Hau). rewrite Hc in E. injection E as <-. by apply Ha.
    + destruct (Hn n x Hx) as [Ho|[Ho _]]; [|done]. destruct (H3 n x Ho) as (c2 & E & Hau).
      exists c2. by rewrite lookup_insert_ne.
Qed.
(** A change of the reading phase, the compression or the actions only. *)
Lemma owned_same m r s c c' : owned_inv m r -> m !! s = Some c ->
  authenticated_ c' = authenticated_ c -> proxies_ c' = proxies_ c -> udp_proxies_ c' = udp_proxies_ c ->
  registered_domains_ c' = registered_domains_ c -> owned_inv (<[s := c']> m) r.
Proof.
  intros Hi Hc E1 E2 E3 E4. apply (owned_update m r s c); try done.
  - by rewrite E1.
  - rewrite E1, E2, E3, E4. by apply (oi_empty _ _ Hi s c).
  - intros d x Hd. split; [by left|]. intros Hs. rewrite E4.
    destruct (oi_routes _ _ Hi d x Hd) as (c2 & E & _ & Hd2). rewrite Hs, Hc in E. by injection E as <-.
  - intros n x Hx. by left.
Qed.
Lemma owned_stop m sh s c : owned_inv m (registry sh) -> m !! s = Some c ->
  owned_inv (<[s := (Stop c sh).1.1]> m) (registry (Stop c sh).1.2).
Proof.
  intros Hi Hc. pose proof (stop_spec c sh) as Hs. destruct (Stop c sh) as [[c' sh'] a].
  destruct Hs as [[-> _ Hss _ Hr _ _ _] _]. cbn [fst snd].
  apply (owned_update m (registry sh) s c); try done.
  - intros d x Hd. rewrite Hr in Hd. case_decide as Hin; [done|]. split; [by left|]. intros Hsx.
    destruct (oi_routes _ _ Hi d x Hd) as (c2 & E & _ & Hd2). rewrite Hsx, Hc in E. injection E as <-. done.
  - intros n x. rewrite Hss. destruct (authenticated_ c); [|by left].
    intros [_ Hx]%lookup_delete_Some. by left.
Qed.

(** What a handler may do to the session it runs for. *)
Definition keeps_inv (s : nat) (c : ControlSession) (sh : Shared) (h : handled) : Prop :=
  forall m, owned_inv m (registry sh) -> m !! s = Some c ->
    owned_inv (<[s := h.1.1]> m) (registry h.1.2).
Lemma keeps_stop s c sh : keeps_inv s c sh (Stop c sh).
Proof. intros m Hi Hc. by apply owned_stop. Qed.
Lemma keeps_same s c sh c' a : authenticated_ c' = authenticated_ c -> proxies_ c' = proxies_ c ->
  udp_proxies_ c' = udp_proxies_ c -> registered_domains_ c' = registered_domains_ c ->
  keeps_inv s c sh (c', sh, a).
Proof. intros E1 E2 E3 E4 m Hi Hc. by apply (owned_same m _ s c). Qed.
(** A handler after a harmless change of the session. *)
Lemma keeps_after s c sh c0 h : authenticated_ c0 = authenticated_ c -> proxies_ c0 = proxies_ c ->
  udp_proxies_ c0 = udp_proxies_ c -> registered_domains_ c0 = registered_domains_ c ->
  keeps_inv s c0 sh h -> keeps_inv s c sh h.
Proof.
  intros E1 E2 E3 E4 Hk m Hi Hc. specialize (Hk (<[s := c0]> m)).
  rewrite lookup_insert_eq, insert_insert_eq in Hk. apply Hk; [|done]. by apply (owned_same m _ s c).
Qed.
Lemma keeps_then_reading s c sh c1 sh1 a1 : keeps_inv s c sh (c1, sh1, a1) ->
  keeps_inv s c sh (let '(c2, sh2, a2) := DoReadHeader c1 sh1 in (c2, sh2, a1 ++ a2)).
Proof.
  intros Hk m Hi Hc. cbn. specialize (Hk m Hi Hc). cbn in Hk.
  assert (E : <[s := set_reading at_header c1]> m = <[s := set_reading at_header c1]> (<[s := c1]> m))
    by (by rewrite insert_insert_eq).
  rewrite E. apply (owned_same _ _ s c1); try done. by rewrite lookup_insert_eq.
Qed.

Lemma keeps_login s body c sh h : HandleLogin s body c sh = Ok h -> keeps_inv s c sh h.
Proof.
  unfold HandleLogin. intros (m & Hm & Hh)%result_bind_ok. injection Hh as <-.
  assert (Hrefuse : forall text, keeps_inv s c sh (refuse_login text c sh)).
  { intros text mm Hi Hc. unfold refuse_login. pose proof (owned_stop mm sh s c Hi Hc) as H1.
    by destruct (Stop c sh) as [[c' sh'] a']. }
  destruct (negb (String.eqb (login_token m) token)); [apply Hrefuse|].
  destruct (negb (IsClientAllowed allowed_clients (login_name m))); [apply Hrefuse|].
  destruct (client_name_allocated (login_name m) s (registry sh)) as (n & r' & E & _ & _ & _ & _ & Hs & _).
  rewrite E. intros mm Hi Hc. cbn [fst snd].
  assert (Hr : vhost_routes_ r' = vhost_routes_ (registry sh)).
  { unfold AllocateClientName in E.
    destruct (allocate_loop _ _ _ _ _); [|done]. cbn in E. by injection E as _ <-. }
  apply (owned_update mm (registry sh) s c); try done.
  - intros d x Hd. cbn in Hd. rewrite Hr in Hd. split; [by left|]. intros Hsx.
    destruct (oi_routes _ _ Hi d x Hd) as (c2 & E2 & _ & Hd2). rewrite Hsx, Hc in E2. by injection E2 as <-.
  - intros k x. cbn. rewrite Hs. intros [[_ <-]|[_ Hx]]%lookup_insert_Some; [by right|by left].
Qed.

(** Adding the routes of a message. *)
Lemma add_routes_lookup ds s name type r d x :
  vhost_routes_ (foldl (fun r d => AddVhostRoute d s name type r) r ds) !! d = Some x ->
  vhost_routes_ r !! d = Some x /\ d ∉ ds \/ route_session x = s /\ d ∈ ds.
Proof.
  revert r. induction ds as [|d' ds IH]; intros r; cbn [foldl].
  { intros Hx. left. split; [done|apply not_elem_of_nil]. }
  intros [[Hx Hn]|[Hx Hin]]%IH; [|right; by split; [|right]]. cbn in Hx.
  apply lookup_insert_Some in Hx as [[<- <-]|[Hne Hx]]; [right; by split; [|left]|].
  left. split; [done|]. apply not_elem_of_cons. done.
Qed.
Lemma add_routes_sessions ds s name type r :
  sessions_ (foldl (fun r d => AddVhostRoute d s name type r) r ds) = sessions_ r.
Proof. revert r. induction ds as [|d ds IH]; intros r; [done|]. cbn [foldl]. by rewrite IH. Qed.

Lemma keeps_register s body be c sh h : authenticated_ c = true ->
  HandleRegisterProxy s body be c sh = Ok h -> keeps_inv s c sh h.
Proof.
  intros Hau. unfold HandleRegisterProxy. intros (m & Hm & Hh)%result_bind_ok. cbv zeta in Hh.
  set (type := if String.eqb (rp_type m) "" then "tcp" else rp_type m) in Hh.
  set (sh1 := if 0 <? rp_bandwidth_limit m then _ else sh) in Hh.
  assert (Hsh : vhost_routes_ (registry sh1) = vhost_routes_ (registry sh) /\
                sessions_ (registry sh1) = sessions_ (registry sh)).
  { unfold sh1. by destruct (0 <? rp_bandwidth_limit m). }
  destruct Hsh as [Hr Hs]. clearbody sh1 type.
  assert (Hown : forall mm c1 r', owned_inv mm (registry sh) -> mm !! s = Some c -> authenticated_ c1 = true ->
    (registered_domains_ c ⊆ registered_domains_ c1) -> sessions_ r' = sessions_ (registry sh) ->
    (forall d x, vhost_routes_ r' !! d = Some x -> vhost_routes_ (registry sh) !! d = Some x \/
       route_session x = s /\ d ∈ registered_domains_ c1) -> owned_inv (<[s := c1]> mm) r').
  { intros mm c1 r' Hi Hc Ha1 Hsub Hs' Hr'. apply (owned_update mm (registry sh) s c); try done.
    - by rewrite Ha1.
    - intros d x Hd. destruct (Hr' d x Hd) as [Ho|[Ho Hin]]; [|by split; [right|]].
      split; [by left|]. intros Hsx. apply Hsub.
      destruct (oi_routes _ _ Hi d x Ho) as (c2 & E2 & _ & Hd2). rewrite Hsx, Hc in E2. by injection E2 as <-.
    - intros n x. rewrite Hs'. by left. }
  intros mm Hi Hc. injection Hh as <-.
  destruct (negb _ && negb _).
  { apply (Hown mm); try done. intros d x. cbn. rewrite Hr. by left. }
  destruct (String.eqb type "http" || String.eqb type "https").
  { apply (Hown mm); try done; cbn.
    - set_solver.
    - by rewrite add_routes_sessions.
    - intros d x [[Hd _]|[Hx Hd]]%add_routes_lookup; [left; by rewrite <- Hr|right].
      split; [done|]. set_solver. }
  destruct be as [what|].
  { apply (Hown mm); try done. intros d x. cbn. rewrite Hr. by left. }
  destruct (String.eqb type "udp"); apply (Hown mm); try done; intros d x; cbn; rewrite Hr; by left.
Qed.
Lemma keeps_unregister s body c sh h : authenticated_ c = true ->
  HandleUnregisterProxy body c sh = Ok h -> keeps_inv s c sh h.
Proof.
  intros Hau. unfold HandleUnregisterProxy. intros (m & Hm & Hh)%result_bind_ok. injection Hh as <-.
  intros mm Hi Hc.
  assert (Hown : forall c1, authenticated_ c1 = true -> registered_domains_ c1 = registered_domains_ c ->
    owned_inv (<[s := c1]> mm) (registry sh)).
  { intros c1 Ha1 Hd1. apply (owned_update mm (registry sh) s c); try done.
    - by rewrite Ha1.
    - intros d x Hd. split; [by left|]. intros Hsx. rewrite Hd1.
      destruct (oi_routes _ _ Hi d x Hd) as (c2 & E2 & _ & Hd2). rewrite Hsx, Hc in E2. by injection E2 as <-.
    - intros n x Hx. by left. }
  destruct (remove_first (up_name m) (proxies_ c)) as [[l ps]|]; [by apply Hown|].
  destruct (remove_first (up_name m) (udp_proxies_ c)) as [[l ps]|]; by apply Hown.
Qed.
Lemma keeps_message s msg be c sh h : HandleMessage s msg be c sh = Ok h -> keeps_inv s c sh h.
Proof.
  unfold HandleMessage. destruct (msg_type msg); try apply keeps_login;
    destruct (authenticated_ c) eqn:Ha; cbn [negb];
    try (intros [= <-]; apply keeps_stop); try (intros [= <-]; by apply keeps_same).
  - by apply keeps_register.
  - by apply keeps_unregister.
Qed.
Lemma keeps_stop_reading s c sh : keeps_inv s c sh (stop_reading c sh).
Proof. apply (keeps_after s c sh (set_reading no_read c)); try done. apply keeps_stop. Qed.

Lemma keeps_header s ec header c sh : keeps_inv s c sh (on_control_header ec header c sh).
Proof.
  unfold on_control_header. case_decide; [|apply keeps_stop_reading].
  destruct (length_accepted _); [|apply keeps_stop_reading].
  destruct (frame_compressed _); by apply keeps_same.
Qed.
Lemma keeps_body s k ec data be c sh : keeps_inv s c sh (on_control_body s k ec data be c sh).
Proof.
  unfold on_control_body. case_decide; [|apply keeps_stop_reading].
  destruct (decode_body k data) as [| | |msg]; try apply keeps_stop_reading.
  destruct (HandleMessage s msg be c sh) as [[[c1 sh1] a1]|] eqn:E; [|apply keeps_stop_reading].
  apply keeps_then_reading. by apply (keeps_message s msg be).
Qed.
Lemma control_step_inv s ev sv sv' a : owned_inv (controls sv) (registry (shared sv)) ->
  control_step s ev sv = Some (sv', a) -> owned_inv (controls sv') (registry (shared sv')).
Proof.
  intros Hi. unfold control_step. destruct (controls sv !! s) as [c|] eqn:Hc.
  - assert (Hfin : forall h : handled, keeps_inv s c (shared sv) h ->
      (let '(c', sh, a0) := h in Some ({| shared := sh; controls := <[s := c']> (controls sv) |}, a0)) = Some (sv', a) ->
      owned_inv (controls sv') (registry (shared sv'))).
    { intros [[c' sh] a0] Hk [= <- _]. by apply (Hk (controls sv)). }
    destruct ev; try done.
    + destruct (reading c); try done. destruct (if decide _ then _ else _); [|done]. apply Hfin, keeps_header.
    + destruct (reading c); try done. destruct (if decide _ then _ else _); [|done]. apply Hfin, keeps_body.
    + apply Hfin. unfold on_auth_timer. destruct (authenticated_ c); [by apply keeps_same|apply keeps_stop].
    + intros [= <- _]. cbn. by apply (owned_same (controls sv) _ s c).
    + apply Hfin, keeps_stop.
  - destruct ev; try done. cbn. intros [= <- _]. cbn. destruct Hi as [H1 H2 H3]. split.
    + intros s' c' [[<- <-]|[_ Hc']]%lookup_insert_Some; [done|by eapply H1].
    + intros d x Hd. destruct (H2 d x Hd) as (c2 & E & Hrest). exists c2.
      rewrite lookup_insert_ne; [done|]. intros ?. congruence.
    + intros n x Hx. destruct (H3 n x Hx) as (c2 & E & Hrest). exists c2.
      rewrite lookup_insert_ne; [done|]. intros <-. congruence.
Qed.
Lemma control_run_inv evs sv sv' a : owned_inv (controls sv) (registry (shared sv)) ->
  control_run evs sv = Some (sv', a) -> owned_inv (controls sv') (registry (shared sv')).
Proof.
  revert sv a. induction evs as [|[s ev] evs IH]; intros sv a Hi; cbn [control_run]; [by intros [= <- _]|].
  destruct (control_step s ev sv) as [[sv1 a1]|] eqn:E1; [|done]. cbn [mbind option_bind].
  destruct (control_run evs sv1) as [[sv2 a2]|] eqn:E2; [|done]. intros [= <- _].
  eapply IH; [|done]. by eapply control_step_inv.
Qed.
Lemma new_server_inv : owned_inv (controls new_server) (registry (shared new_server)).
Proof. split; intros *; cbn; by rewrite lookup_empty. Qed.

(** ** Only a login authenticates *)
Definition valid_login (is_compressed : bool) (data : list byte) : Prop :=
  exists msg m, decode_body is_compressed data = decoded_message msg /\ msg_type msg = Login /\
    LoginMessage_Deserialize (msg_body msg) = Ok m /\ login_token m = token /\
    IsClientAllowed allowed_clients (login_name m) = true.
Lemma stop_auth c sh : authenticated_ (Stop c sh).1.1 = authenticated_ c.
Proof. pose proof (stop_spec c sh) as H1. destruct (Stop c sh) as [[c' sh'] a]. by destruct H1 as [[-> _ _ _ _ _ _ _] _]. Qed.
Lemma login_auth s body c sh h : HandleLogin s body c sh = Ok h ->
  authenticated_ h.1.1 = authenticated_ c \/
  exists m, LoginMessage_Deserialize body = Ok m /\ login_token m = token /\
    IsClientAllowed allowed_clients (login_name m) = true.
Proof.
  unfold HandleLogin. intros (m & Hm & Hh)%result_bind_ok. injection Hh as <-.
  assert (Hrefuse : forall text, authenticated_ (refuse_login text c sh).1.1 = authenticated_ c).
  { intros text. unfold refuse_login. pose proof (stop_auth c sh) as H1. by destruct (Stop c sh) as [[c' sh'] a']. }
  destruct (String.eqb_spec (login_token m) token); cbn [negb]; [|by left].
  destruct (IsClientAllowed allowed_clients (login_name m)) eqn:Ha; cbn [negb]; [|by left].
  right. by exists m.
Qed.
Lemma register_auth s body be c sh h : HandleRegisterProxy s body be c sh = Ok h ->
  authenticated_ h.1.1 = authenticated_ c.
Proof.
  unfold HandleRegisterProxy. intros (m & Hm & Hh)%result_bind_ok. injection Hh as <-.
  destruct (negb _ && negb _); [done|]. destruct (String.eqb _ "http" || _); [done|].
  destruct be; [done|]. by destruct (String.eqb _ "udp").
Qed.
Lemma unregister_auth body c sh h : HandleUnregisterProxy body c sh = Ok h -> authenticated_ h.1.1 = authenticated_ c.
Proof.
  unfold HandleUnregisterProxy. intros (m & Hm & Hh)%result_bind_ok. injection Hh as <-.
  destruct (remove_first (up_name m) (proxies_ c)) as [[l ps]|]; [done|].
  by destruct (remove_first (up_name m) (udp_proxies_ c)) as [[l ps]|].
Qed.
Lemma message_auth s msg be c sh h : HandleMessage s msg be c sh = Ok h ->
  authenticated_ h.1.1 = authenticated_ c \/
  msg_type msg = Login /\ exists m, LoginMessage_Deserialize (msg_body msg) = Ok m /\ login_token m = token /\
    IsClientAllowed allowed_clients (login_name m) = true.
Proof.
  unfold HandleMessage. destruct (msg_type msg) eqn:Et;
    try (intros [E|E]%login_auth; [by left|by right]);
    (destruct (negb (authenticated_ c)); [intros [= <-]; left; apply stop_auth|]);
    try (intros [= <-]; by left); intros E; left.
  - by apply register_auth in E.
  - by apply unregister_auth in E.
Qed.
Lemma body_auth s k ec data be c sh :
  authenticated_ (on_control_body s k ec data be c sh).1.1 = authenticated_ c \/ ec = ec_ok /\ valid_login k data.
Proof.
  unfold on_control_body, stop_reading. case_decide as Hec; [|left; by rewrite stop_auth].
  destruct (decode_body k data) as [| | |msg] eqn:Ed; try (left; by rewrite stop_auth).
  destruct (HandleMessage s msg be c sh) as [[[c1 sh1] a1]|] eqn:E; [|left; by rewrite stop_auth].
  apply message_auth in E as [E|(Et & m & Hm)]; [by left|]. right. split; [done|]. by exists msg, m.
Qed.
Lemma header_auth ec header c sh : authenticated_ (on_control_header ec header c sh).1.1 = authenticated_ c.
Proof.
  unfold on_control_header, stop_reading. case_decide; [|by rewrite stop_auth].
  destruct (length_accepted _); [|by rewrite stop_auth]. by destruct (frame_compressed _).
Qed.

Lemma step_auth s ev sv sv' a s' c' : control_step s ev sv = Some (sv', a) ->
  controls sv' !! s' = Some c' -> authenticated_ c' = true ->
  (exists c, controls sv !! s' = Some c /\ authenticated_ c = true) \/
  s' = s /\ exists data be k, ev = cev_body ec_ok data be /\ valid_login k data.
Proof.
  unfold control_step. destruct (controls sv !! s) as [c|] eqn:Hc.
  - assert (Hfin : forall h : handled,
      (authenticated_ h.1.1 = authenticated_ c \/ exists data be k, ev = cev_body ec_ok data be /\ valid_login k data) ->
      (let '(c1, sh, a0) := h in Some ({| shared := sh; controls := <[s := c1]> (controls sv) |}, a0)) = Some (sv', a) ->
      controls sv' !! s' = Some c' -> authenticated_ c' = true ->
      (exists c, controls sv !! s' = Some c /\ authenticated_ c = true) \/
      s' = s /\ exists data be k, ev = cev_body ec_ok data be /\ valid_login k data).
    { intros [[c1 sh] a0] Hh [= <- _] Hl Ha. cbn in Hl, Hh.
      apply lookup_insert_Some in Hl as [[<- <-]|[Hne Hl]]; [|left; by exists c'].
      destruct Hh as [E|Hv]; [left|by right]. exists c. split; [done|]. by rewrite <- E. }
    destruct ev; try done.
    + destruct (reading c); try done. destruct (if decide _ then _ else _); [|done].
      apply Hfin. left. apply header_auth.
    + destruct (reading c); try done. destruct (if decide _ then _ else _); [|done].
      apply Hfin. destruct (body_auth s is_compressed ec data bind_error c (shared sv)) as [E|[-> Hv]]; [by left|].
      right. by exists data, bind_error, is_compressed.
    + apply Hfin. left. unfold on_auth_timer. destruct (authenticated_ c) eqn:E; [done|]. by rewrite stop_auth.
    + apply (Hfin (c, shared sv, _)). by left.
    + apply Hfin. left. apply stop_auth.
  - destruct ev; try done. cbn. intros [= <- _]. cbn.
    intros [[<- <-]|[Hne Hl]]%lookup_insert_Some Ha; [done|]. left. by exists c'.
Qed.
Lemma run_auth evs sv sv' a s c' : control_run evs sv = Some (sv', a) ->
  controls sv' !! s = Some c' -> authenticated_ c' = true ->
  (exists c, controls sv !! s = Some c /\ authenticated_ c = true) \/
  exists data be k, (s, cev_body ec_ok data be) ∈ evs /\ valid_login k data.
Proof.
  revert sv a. induction evs as [|[s1 ev] evs IH]; intros sv a; cbn [control_run].
  { intros [= <- _] Hl Ha. left. by exists c'. }
  destruct (control_step s1 ev sv) as [[sv1 a1]|] eqn:E1; [|done]. cbn [mbind option_bind].
  destruct (control_run evs sv1) as [[sv2 a2]|] eqn:E2; [|done]. intros [= <- _] Hl Ha.
  destruct (IH sv1 a2 E2 Hl Ha) as [(c & Hc & Hca)|(data & be & k & Hin & Hv)].
  - destruct (step_auth s1 ev sv sv1 a1 s c E1 Hc Hca) as [H1|(-> & data & be & k & -> & Hv)]; [by left|].
    right. exists data, be, k. split; [by left|done].
  - right. exists data, be, k. split; [by right|done].
Qed.

(** ** Properties *)

(** C4 Nothing without the token.  A session that was never sent a login with
    the server's token and an allowed name is not authenticated, has no
    listener and no domain, and no vhost route and no client name leads to it,
    whatever else was received on it or on any other session. *)
Theorem control_needs_token evs sv acts s (Hrun : control_run evs new_server = Some (sv, acts))
    (Hno : forall data be k, (s, cev_body ec_ok data be) ∈ evs -> ~ valid_login k data) :
  (forall c, controls sv !! s = Some c -> authenticated_ c = false /\
     proxies_ c = [] /\ udp_proxies_ c = [] /\ registered_domains_ c = ∅) /\
  (forall d x, vhost_routes_ (registry (shared sv)) !! d = Some x -> route_session x <> s) /\
  (forall n, sessions_ (registry (shared sv)) !! n <> Some s).
Proof.
  pose proof (control_run_inv evs new_server sv acts new_server_inv Hrun) as [H1 H2 H3].
  assert (Hna : forall c, controls sv !! s = Some c -> authenticated_ c = true -> False).
  { intros c Hc Ha. destruct (run_auth evs new_server sv acts s c Hrun Hc Ha) as [(c0 & Hc0 & _)|(data & be & k & Hin & Hv)].
    - cbn in Hc0. by rewrite lookup_empty in Hc0.
    - by apply (Hno data be k). }
  split; [|split].
  - intros c Hc. destruct (authenticated_ c) eqn:Ha; [by exfalso; apply (Hna c)|]. split; [done|]. by apply (H1 s).
  - intros d x Hd Hs. destruct (H2 d x Hd) as (c & Hc & Ha & _). rewrite Hs in Hc. by apply (Hna c).
  - intros n Hn. destruct (H3 n s Hn) as (c & Hc & Ha). by apply (Hna c).
Qed.


(** A second login leaks the first name.  A session that logs in again gets
    another name, and the name it had stays among the active names for ever:
    stopping the session releases only the newer one. *)
Theorem control_relogin_leaks_name s body m c sh (Hm : LoginMessage_Deserialize body = Ok m)
    (Htok : login_token m = token) (Hok : IsClientAllowed allowed_clients (login_name m) = true)
    (Hact : client_name_ c ∈ active_client_names_ (registry sh)) :
  exists c1 sh1 a1, HandleLogin s body c sh = Ok (c1, sh1, a1) /\ client_name_ c1 <> client_name_ c /\
    client_name_ c ∈ active_client_names_ (registry (Stop c1 sh1).1.2).
Proof.
  destruct (client_name_allocated (login_name m) s (registry sh)) as (n & r' & E & _ & Hfresh & _ & Hnames & _).
  unfold HandleLogin. rewrite Hm. cbn [mbind result_mbind result_bind]. rewrite Htok, String.eqb_refl, Hok. cbn [negb].
  rewrite E. eexists _, _, _. split; [done|]. cbn [client_name_ set_authenticated].
  assert (Hne : candidate (base_name (login_name m)) n <> client_name_ c) by congruence. split; [done|].
  match goal with |- context [Stop ?c1 ?sh1] => pose proof (stop_spec c1 sh1) as Hs;
    destruct (Stop c1 sh1) as [[c' sh'] a'] end.
  destruct Hs as [[_ Hn _ _ _ _ _ _] _]. cbn [fst snd] in *. rewrite Hn. cbn. rewrite Hnames. set_solver.
Qed.
End Control.

(** ** Concrete instances *)
#[local] Existing Instance rle_zstd.
Definition demo_say (s : nat) (msg : Message) : list (nat * control_event) :=
  let f := control_frame None msg in
  [(s, cev_header ec_ok (ztake 4 f)); (s, cev_body ec_ok (zdrop 4 f) None)].
Definition demo_login (name : string) : Message :=
  {| msg_type := Login; msg_body := LoginMessage_Serialize {| login_token := "secret"; login_name := name |} |}.
Definition demo_register (name type : string) (port : Z) (domains : list string) (limit : Z) : Message :=
  {| msg_type := RegisterProxy; msg_body := RegisterProxyMessage_Serialize
       {| rp_name := name; rp_type := type; rp_remote_port := port; rp_custom_domains := domains;
          rp_bandwidth_limit := limit |} |}.
(** Session 0 logs in and registers three proxies; session 1 only tries to. *)
Definition demo_control_events : list (nat * control_event) :=
  [(0%nat, cev_open 100)] ++ demo_say 0 (demo_login "edge") ++
  [(1%nat, cev_open 101)] ++ demo_say 1 (demo_register "evil" "http" 0 ["a.example.com"] 0) ++
  demo_say 0 (demo_register "ssh" "" 2222 [] 100000) ++ demo_say 0 (demo_register "dns" "udp" 5353 [] 0) ++
  demo_say 0 (demo_register "web" "http" 0 ["a.example.com"; "b.example.com"] 0).
Definition demo_control : Server * list (nat * control_action) :=
  default (new_server, []) (control_run "secret" [] [] demo_control_events new_server).
Lemma demo_control_runs : control_run "secret" [] [] demo_control_events new_server = Some (demo_control.1, demo_control.2).
Proof. vm_compute. reflexivity. Qed.

Lemma control_needs_token_witness :
  (forall c, controls demo_control.1 !! 1%nat = Some c -> authenticated_ c = false /\
     proxies_ c = [] /\ udp_proxies_ c = [] /\ registered_domains_ c = ∅) /\
  (forall d x, vhost_routes_ (registry (shared demo_control.1)) !! d = Some x -> route_session x <> 1%nat) /\
  (forall n, sessions_ (registry (shared demo_control.1)) !! n <> Some 1%nat).
Proof.
  apply (control_needs_token "secret" [] [] demo_control_events demo_control.1 demo_control.2 1 demo_control_runs).
  intros data be k Hin (msg & m & Hd & Ht & _).
  assert (Hdata : data = zdrop 4 (control_frame None (demo_register "evil" "http" 0 ["a.example.com"] 0))).
  { unfold demo_control_events, demo_say in Hin. cbn [app] in Hin.
    repeat (apply elem_of_cons in Hin as [Hin|Hin]; [first [discriminate Hin|injection Hin as -> _; reflexivity]|]).
    by apply not_elem_of_nil in Hin. }
  subst data. destruct k; vm_compute in Hd; [discriminate Hd|]. injection Hd as <-. discriminate Ht.
Defined.

Definition demo_edge : ControlSession := default (new_control None) (controls demo_control.1 !! 0%nat).

Definition demo_relogin : LoginMessage := {| login_token := "secret"; login_name := "edge" |}.
Lemma control_relogin_leaks_name_witness :
  exists c1 sh1 a1,
    HandleLogin "secret" [] 0 (LoginMessage_Serialize demo_relogin) demo_edge (shared demo_control.1) =
      Ok (c1, sh1, a1) /\ client_name_ c1 <> client_name_ demo_edge /\
    client_name_ demo_edge ∈ active_client_names_ (registry (Stop c1 sh1).1.2).
Proof.
  apply (control_relogin_leaks_name "secret" [] 0 (LoginMessage_Serialize demo_relogin) demo_relogin);
    [by vm_compute..|]. apply (bool_decide_unpack _). by vm_compute.
Defined.
