(* ===== verification/WorkStream.v ===== *)
(** * Work streams (src/server/server.cpp, HandleNewMuxStream; src/client/client.cpp)

    A client answers NewUserConn by opening a mux stream and writing 65 bytes
    on it: whether it compresses, and the ticket padded with blanks.  The server
    takes the pending connection of that ticket and bridges the two streams,
    first sending the bytes the vhost listener had read.  The bytes of an
    uninitialised [uint32_t] are a parameter. *)
From Stdlib Require Import ZArith Lia Strings.Byte String.
From stdpp Require Import base tactics list gmap strings.
From S2P Require Import Prelude Protocol Zstd Text Pending Registry Bridge Control.
Local Open Scope Z_scope.

Definition ticket_size : Z := 65.
(** The client's [ticket_buf]: [resize(65, ' ')] pads, or cuts. *)
Definition ticket_buf (compression : bool) (t : string) : list byte :=
  let b := (if compression then Byte.x01 else Byte.x00) :: bytes_of t in
  ztake ticket_size b ++ repeat Byte.x20 (Z.to_nat (ticket_size - zlen b)).

(** The server's side of it. *)
Definition ticket_blanks : list byte := [Byte.x20; Byte.x0a; Byte.x0d; Byte.x09].
Definition read_ticket (buf : list byte) : bool * string :=
  (byte_to_Z (nth 0 buf Byte.x00) =? 0x01, string_of (trim_back ticket_blanks (ztake 64 (zdrop 1 buf)))).

Section Server.
Context `{Zstd}.

(** The packet that carries the initial data; [garbage] is what [final_header]
    holds when it is not assigned. *)
Definition initial_packet (use_compression : bool) (garbage data : list byte) : list byte :=
  let plain := be_bytes 4 (wrap 32 (zlen data)) in
  if use_compression then
    match compress 1 data with
    | Some c => if zlen c <? zlen data then be_bytes 4 (Z.lor (wrap 32 (zlen c)) COMPRESSION_FLAG) ++ c
                else plain ++ data
    | None => plain ++ data
    end
  else garbage ++ data.

(** What becomes of the stream. *)
Inductive work_result : Type :=
| work_closed                               (* no such ticket *)
| work_tcp (conn : user_conn) (use_compression : bool) (limiter : option Z) (stats : option nat)
           (first : option (list byte))     (* bridged; [first] is written before it starts *)
| work_udp (session : UdpSessionInfo) (use_compression : bool) (limiter : option Z) (stats : option nat).

(** The completion of the read of the ticket on a stream of mux session [mux].
    [stats] is the listener of that mux session's own control session, for
    the counters. *)
Definition HandleWorkStream (mux : nat) (garbage buf : list byte) (controls : gmap nat ControlSession)
    (r : Registry) (p : Pending) : Pending * work_result :=
  let '(use_compression, t) := read_ticket buf in
  let control := s ← mux_to_control_ r !! mux; controls !! s in
  let '(p1, outs) := claim t p in
  (p1, match outs with
       | [conn_spliced c] =>
         work_tcp c use_compression (GetRateLimiter (uc_proxy c) r) (ctl ← control; FindProxy (uc_proxy c) ctl)
           (match uc_data c with [] => None | d => Some (initial_packet use_compression garbage d) end)
       | [udp_spliced _ i] =>
         work_udp i use_compression (GetRateLimiter (udp_proxy_name i) r)
           (ctl ← control; FindUdpProxy (udp_proxy_name i) ctl)
       | _ => work_closed
       end).
End Server.

(** ** The ticket *)
(** The tickets the server makes: at most 64 characters, the last one a digit. *)
Definition ticket_ok (t : string) : Prop :=
  zlen (bytes_of t) <= 64 /\ forall c, list.last (bytes_of t) = Some c -> c ∉ ticket_blanks.
Lemma ticket_buf_size compression t : zlen (ticket_buf compression t) = ticket_size.
Proof.
  unfold ticket_buf. set (b := _ :: bytes_of t). pose proof (zlen_nonneg b). rewrite zlen_app, zlen_ztake by done.
  unfold zlen at 2. rewrite repeat_length. unfold ticket_size. lia.
Qed.
Lemma read_ticket_buf compression t : ticket_ok t -> read_ticket (ticket_buf compression t) = (compression, t).
Proof.
  intros [Hlen Hlast]. unfold ticket_buf. set (b0 := if compression then Byte.x01 else Byte.x00).
  pose proof (zlen_nonneg (bytes_of t)) as H0.
  assert (Hsz : zlen (b0 :: bytes_of t) = 1 + zlen (bytes_of t)) by apply zlen_cons.
  rewrite ztake_ge by (rewrite Hsz; unfold ticket_size; lia). rewrite Hsz.
  unfold read_ticket. cbn [app nth]. f_equal; [by destruct compression|].
  change (zdrop 1 (b0 :: ?l)) with l. rewrite ztake_ge.
  - rewrite trim_back_skip.
    + rewrite trim_back_last by done. apply string_of_bytes_of.
    + apply Forall_forall. intros c Hc. apply list_elem_of_In, repeat_spec in Hc as ->. by left.
  - rewrite zlen_app. unfold zlen at 2. rewrite repeat_length. unfold ticket_size. lia.
Qed.

(** ** The first packet is a frame of the bridge *)
Lemma initial_packet_frame `{Zstd} garbage data : initial_packet true garbage data = frame 1 data.
Proof. done. Qed.
Lemma claim_conn t i p : pending_user_conns_ p !! t = Some i ->
  claim t p = (set_conns (delete t (pending_user_conns_ p)) p, [conn_spliced (conn_of t i)]).
Proof. intros E. unfold claim. by rewrite E. Qed.

(** A ticket connects its user.  The 65 bytes a client writes for a ticket
    are read back as its compression setting and the ticket, and the server
    splices exactly the connection pending under it, with the rate limiter of
    its proxy - on whichever mux session the ticket arrives, authenticated or
    not.  A second presentation of the ticket is refused.  With compression, the
    bytes a vhost listener had read reach the local service first, whole. *)
Theorem work_stream_takes_connection `{ZstdLaws} (level : Z) (limit : bool) (mux : nat) (garbage : list byte)
    (compression : bool) (t : string) (i : TcpSessionInfo) (controls : gmap nat ControlSession) (r : Registry)
    (p : Pending) (Hok : ticket_ok t) (Hconn : pending_user_conns_ p !! t = Some i)
    (Hudp : pending_udp_sessions_ p !! t = None) :
  exists p' stats first,
    HandleWorkStream mux garbage (ticket_buf compression t) controls r p =
      (p', work_tcp (conn_of t i) compression (GetRateLimiter (tcp_proxy_name i) r) stats first) /\
    pending_user_conns_ p' = delete t (pending_user_conns_ p) /\
    (forall mux2 garbage2 compression2 controls2 r2,
       (HandleWorkStream mux2 garbage2 (ticket_buf compression2 t) controls2 r2 p').2 = work_closed) /\
    (compression = true -> chunk_ok (initial_data i) -> exists packet b acts, first = Some packet /\
       bridge_run true level limit (pass limit D2 (frame_reads packet)) (Start true new_bridge).1 = Some (b, acts) /\
       written D2 acts = [initial_data i]).
Proof.
  unfold HandleWorkStream. rewrite read_ticket_buf by done. rewrite (claim_conn t i p) by done. cbv zeta.
  eexists _, _, _. split; [reflexivity|]. split; [done|]. split.
  - intros mux2 g2 comp2 cs2 r2. rewrite read_ticket_buf by done. unfold claim.
    cbn [pending_user_conns_ pending_udp_sessions_ set_conns]. by rewrite lookup_delete_eq, Hudp.
  - intros -> Hd. cbn [conn_of uc_data].
    destruct (frame_passes 1 level limit (initial_data i) (Start true new_bridge).1 Hd eq_refl)
      as (b & acts & E & Hw & _).
    exists (frame 1 (initial_data i)), b, acts. split; [|done].
    rewrite <- (initial_packet_frame garbage). destruct (initial_data i) as [|c l] eqn:El; [|done].
    by destruct Hd.
Qed.

(** Without compression the first bytes of a vhost connection arrive with
    four bytes of garbage in front: the packet starts with the header variable
    although nothing was assigned to it, and the client's bridge, which expects
    no header, hands all of it to the local service. *)
Theorem vhost_initial_data_garbled `{Zstd} (level : Z) (limit : bool) (mux : nat) (garbage : list byte)
    (t : string) (i : TcpSessionInfo) (controls : gmap nat ControlSession) (r : Registry) (p : Pending)
    (Hok : ticket_ok t) (Hconn : pending_user_conns_ p !! t = Some i) (Hgarbage : zlen garbage = 4)
    (Hdata : initial_data i <> []) (Hsize : zlen (initial_data i) <= read_size - 4) :
  exists p' stats packet b acts,
    HandleWorkStream mux garbage (ticket_buf false t) controls r p =
      (p', work_tcp (conn_of t i) false (GetRateLimiter (tcp_proxy_name i) r) stats (Some packet)) /\
    bridge_run false level limit (pass limit D2 [packet]) (Start false new_bridge).1 = Some (b, acts) /\
    written D2 acts = [garbage ++ initial_data i] /\ garbage ++ initial_data i <> initial_data i.
Proof.
  unfold HandleWorkStream. rewrite read_ticket_buf by done. rewrite (claim_conn t i p) by done. cbv zeta.
  destruct (chunk_passes false level limit D2 (garbage ++ initial_data i) (Start false new_bridge).1)
    as (b & acts & E & Hw & _); [by left|done|rewrite zlen_app; lia|].
  eexists _, _, (garbage ++ initial_data i), b, acts. split; [|split; [done|split; [done|]]].
  - cbn [conn_of uc_data uc_proxy]. by destruct (initial_data i).
  - intros Heq. apply (f_equal zlen) in Heq. rewrite zlen_app in Heq. lia.
Qed.

(** ** Concrete instances *)
#[local] Existing Instance rle_zstd.
#[local] Existing Instance rle_laws.
Definition demo_site : user_conn :=
  {| uc_ticket := "17592_vhost_83"; uc_socket := 4; uc_proxy := "site"; uc_data := repeat Byte.x47 40 |}.
Definition demo_work_pending : Pending := (RegisterUserConn 5 5 demo_site empty_pending).1.
Definition demo_info : TcpSessionInfo :=
  {| tcp_socket := 4; initial_data := repeat Byte.x47 40; tcp_proxy_name := "site"; tcp_created_at := 5 |}.
Definition demo_registry : Registry := CreateRateLimiter "site" 65536 empty_registry.
Lemma demo_ticket_ok : ticket_ok "17592_vhost_83".
Proof. split; [by vm_compute|]. intros c [= <-]. apply (bool_decide_unpack _). by vm_compute. Qed.
Lemma work_stream_takes_connection_witness : exists p' stats first,
  HandleWorkStream 7 [] (ticket_buf true "17592_vhost_83") ∅ demo_registry demo_work_pending =
    (p', work_tcp (conn_of "17592_vhost_83" demo_info) true (GetRateLimiter "site" demo_registry) stats first) /\
  pending_user_conns_ p' = delete "17592_vhost_83" (pending_user_conns_ demo_work_pending) /\
  (forall mux2 garbage2 compression2 controls2 r2,
     (HandleWorkStream mux2 garbage2 (ticket_buf compression2 "17592_vhost_83") controls2 r2 p').2 = work_closed) /\
  (true = true -> chunk_ok (initial_data demo_info) -> exists packet b acts, first = Some packet /\
     bridge_run true 3 false (pass false D2 (frame_reads packet)) (Start true new_bridge).1 = Some (b, acts) /\
     written D2 acts = [initial_data demo_info]).
Proof.
  apply (work_stream_takes_connection 3 false 7 [] true "17592_vhost_83" demo_info ∅ demo_registry
           demo_work_pending demo_ticket_ok); by vm_compute.
Defined.
Definition demo_garbage : list byte := [Byte.x00; Byte.x7f; Byte.xa0; Byte.x31].
Lemma vhost_initial_data_garbled_witness : exists p' stats packet b acts,
  HandleWorkStream 7 demo_garbage (ticket_buf false "17592_vhost_83") ∅ demo_registry demo_work_pending =
    (p', work_tcp (conn_of "17592_vhost_83" demo_info) false (GetRateLimiter "site" demo_registry) stats (Some packet)) /\
  bridge_run false 3 true (pass true D2 [packet]) (Start false new_bridge).1 = Some (b, acts) /\
  written D2 acts = [demo_garbage ++ initial_data demo_info] /\
  demo_garbage ++ initial_data demo_info <> initial_data demo_info.
Proof.
  apply (vhost_initial_data_garbled 3 true 7 demo_garbage "17592_vhost_83" demo_info ∅ demo_registry
           demo_work_pending demo_ticket_ok); by vm_compute.
Defined.
