(* ===== verification/Accept.v ===== *)
(** * The server's front door (src/server/server.cpp: Server::Run, DoAccept,
    DoUdpRead, Stop; src/common/stream.h: BufferedStream)

    [BufferedStream] gives back bytes that were read to recognise a protocol.
    An accepted connection goes through the peek at its first byte, the
    handshake, the protocol's first byte and the WebSocket handshake, with a
    timer of three seconds over all of them; each callback that may be
    outstanding is an event.  The two accept loops and the table of QUIC
    sessions are small state machines of their own; sessions are numbered. *)
From Stdlib Require Import ZArith Lia Strings.Byte String.
From stdpp Require Import base tactics list gmap.
From S2P Require Import Prelude Text Pending.
Local Open Scope Z_scope.

(** ** BufferedStream *)
Record BufferedStream : Type := { buffer_ : list byte; buffer_offset_ : Z }.
Definition new_buffered (initial_data : list byte) : BufferedStream :=
  {| buffer_ := initial_data; buffer_offset_ := 0 |}.
(** What a read does: complete with bytes of the buffer, or ask the stream
    underneath and put its answer behind the bytes [prefix]. *)
Inductive buffered_read : Type :=
| read_posted (bytes : list byte)
| read_forwarded (prefix : list byte) (size : Z).

(** The bytes copied out and what is left. *)
Definition take_buffered (size : Z) (b : BufferedStream) : list byte * BufferedStream :=
  let available := zlen (buffer_ b) - buffer_offset_ b in
  let to_copy := Z.min available size in
  let off := buffer_offset_ b + to_copy in
  (ztake to_copy (zdrop (buffer_offset_ b) (buffer_ b)),
   if off =? zlen (buffer_ b) then {| buffer_ := []; buffer_offset_ := 0 |}
   else {| buffer_ := buffer_ b; buffer_offset_ := off |}).
Definition buffered_read_some (size : Z) (b : BufferedStream) : buffered_read * BufferedStream :=
  if buffer_offset_ b <? zlen (buffer_ b) then
    let '(bytes, b') := take_buffered size b in (read_posted bytes, b')
  else (read_forwarded [] size, b).
Definition buffered_read_all (size : Z) (b : BufferedStream) : buffered_read * BufferedStream :=
  if buffer_offset_ b <? zlen (buffer_ b) then
    let '(bytes, b') := take_buffered size b in
    if zlen bytes <? size then (read_forwarded bytes (size - zlen bytes), b') else (read_posted bytes, b')
  else (read_forwarded [] size, b).

(** A stream underneath: the bytes it will deliver before it ends with [ec];
    [chunk] bounds what one [async_read_some] gets. *)
Record source : Type := { src_bytes : list byte; src_end : error_code }.
Record read_op : Type := { ro_all : bool; ro_size : Z; ro_chunk : Z }.
Definition source_read (op : read_op) (size : Z) (s : source) : list byte * error_code * source :=
  let n := if ro_all op then size else Z.min size (Z.max 1 (ro_chunk op)) in
  let got := ztake n (src_bytes s) in
  let rest := {| src_bytes := zdrop n (src_bytes s); src_end := src_end s |} in
  if ro_all op then (got, if zlen got <? size then src_end s else ec_ok, rest)
  else match src_bytes s with [] => ([], src_end s, rest) | _ => (got, ec_ok, rest) end.
(** A read through the buffer: what its handler is given. *)
Definition buffered_op (op : read_op) (b : BufferedStream) (s : source)
  : list byte * error_code * (BufferedStream * source) :=
  let '(r, b') := if ro_all op then buffered_read_all (ro_size op) b else buffered_read_some (ro_size op) b in
  match r with
  | read_posted bytes => (bytes, ec_ok, (b', s))
  | read_forwarded prefix size =>
    let '(got, ec, s') := source_read op size s in (prefix ++ got, ec, (b', s'))
  end.
Fixpoint buffered_run (ops : list read_op) (b : BufferedStream) (s : source) : list (list byte * error_code) :=
  match ops with
  | [] => []
  | op :: ops' => let '(got, ec, (b', s')) := buffered_op op b s in (got, ec) :: buffered_run ops' b' s'
  end.
Fixpoint source_run (ops : list read_op) (s : source) : list (list byte * error_code) :=
  match ops with
  | [] => []
  | op :: ops' => let '(got, ec, s') := source_read op (ro_size op) s in (got, ec) :: source_run ops' s'
  end.
(** What the buffer and the stream underneath are together. *)
Definition behind (b : BufferedStream) (s : source) : source :=
  {| src_bytes := zdrop (buffer_offset_ b) (buffer_ b) ++ src_bytes s; src_end := src_end s |}.

(** ** An accepted connection *)
Record accept_config : Type := { cfg_protocol : string; cfg_ssl : bool }.
Inductive conn_phase : Type :=
| peeking
| handshaking
| reading_first_byte
| ws_handshaking (first : byte)
| muxed (websocket : bool)
| dropped.
(** [ConnectionState] and the timer. *)
Record Conn : Type := { conn_phase_ : conn_phase; has_stream : bool; conn_closed : bool; timer_armed : bool }.
Inductive conn_act : Type :=
| peek_byte
| make_tls
| make_tcp
| wrap_websocket
| begin_handshake
| read_first_byte
| begin_ws_handshake (initial : list byte)
| start_mux (websocket : bool) (initial : list byte)
| close_conn
| cancel_timer.
Inductive conn_event : Type :=
| peeked (ec : error_code) (bytes : list byte)
| handshaken (ec : error_code)
| got_first_byte (ec : error_code) (b : byte)
| ws_handshaken (ec : error_code)
| timer_fired.

Definition in_phase (p : conn_phase) (c : Conn) : Conn := {|
  conn_phase_ := p; has_stream := has_stream c; conn_closed := conn_closed c; timer_armed := timer_armed c |}.
Definition disarm (c : Conn) : Conn := {|
  conn_phase_ := conn_phase_ c; has_stream := has_stream c; conn_closed := conn_closed c; timer_armed := false |}.
(** [ConnectionState::Close] *)
Definition Close (c : Conn) : Conn * list conn_act :=
  if conn_closed c then (c, [])
  else ({| conn_phase_ := conn_phase_ c; has_stream := has_stream c; conn_closed := true; timer_armed := timer_armed c |},
        [close_conn]).
Definition with_stream (c : Conn) : Conn := {|
  conn_phase_ := conn_phase_ c; has_stream := true; conn_closed := conn_closed c; timer_armed := timer_armed c |}.

Definition start_handshake (cfg : accept_config) (c : Conn) : Conn * list conn_act :=
  (in_phase handshaking c,
   (if String.eqb (cfg_protocol cfg) "websocket" then [wrap_websocket] else []) ++ [begin_handshake]).
(** The accept handler up to its first wait. *)
Definition accepted (cfg : accept_config) : Conn * list conn_act :=
  let c := {| conn_phase_ := peeking; has_stream := false; conn_closed := false; timer_armed := true |} in
  if cfg_ssl cfg then (c, [peek_byte])
  else let '(c1, a) := start_handshake cfg (with_stream c) in (c1, make_tcp :: a).

Definition on_peek (cfg : accept_config) (ec : error_code) (bytes : list byte) (c : Conn) : Conn * list conn_act :=
  let refuse := let '(c1, a) := Close c in (disarm (in_phase dropped c1), a ++ [cancel_timer]) in
  match ec, bytes with
  | ec_ok, [b] =>
    if negb (byte_to_Z b =? 22) then refuse else
    if conn_closed c then (in_phase dropped c, [])
    else let '(c1, a) := start_handshake cfg (with_stream c) in (c1, make_tls :: a)
  | _, _ => refuse
  end.
(** [stream->close()] after a failed wait. *)
Definition give_up_conn (c : Conn) : Conn * list conn_act := (disarm (in_phase dropped c), [cancel_timer; close_conn]).
Definition mux_started (websocket : bool) (initial : list byte) (c : Conn) : Conn * list conn_act :=
  (disarm (in_phase (muxed websocket) c), [cancel_timer; start_mux websocket initial]).
Definition on_handshake (cfg : accept_config) (ec : error_code) (c : Conn) : Conn * list conn_act :=
  match ec with
  | ec_ok =>
    if String.eqb (cfg_protocol cfg) "auto" then (in_phase reading_first_byte c, [read_first_byte])
    else mux_started (String.eqb (cfg_protocol cfg) "websocket") [] c
  | _ => give_up_conn c
  end.
Definition on_first_byte (ec : error_code) (b : byte) (c : Conn) : Conn * list conn_act :=
  match ec with
  | ec_ok =>
    if byte_to_Z b =? 71 then (in_phase (ws_handshaking b) c, [begin_ws_handshake [b]])      (* 'G' *)
    else mux_started false [b] c
  | _ => give_up_conn c
  end.
Definition on_ws_handshake (ec : error_code) (b : byte) (c : Conn) : Conn * list conn_act :=
  match ec with ec_ok => mux_started true [b] c | _ => give_up_conn c end.

(** The callbacks that may be outstanding; the timer's finds the state gone
    once the connection is handed over or dropped. *)
Definition conn_step (cfg : accept_config) (ev : conn_event) (c : Conn) : option (Conn * list conn_act) :=
  match ev, conn_phase_ c with
  | peeked ec bytes, peeking => Some (on_peek cfg ec bytes c)
  | handshaken ec, handshaking => Some (on_handshake cfg ec c)
  | got_first_byte ec b, reading_first_byte => Some (on_first_byte ec b c)
  | ws_handshaken ec, ws_handshaking b => Some (on_ws_handshake ec b c)
  | timer_fired, _ => if timer_armed c then Some (Close (disarm c)) else None
  | _, _ => None
  end.
Fixpoint conn_run (cfg : accept_config) (evs : list conn_event) (c : Conn) : option (Conn * list conn_act) :=
  match evs with
  | [] => Some (c, [])
  | ev :: evs' =>
    '(c1, a1) ← conn_step cfg ev c; '(c2, a2) ← conn_run cfg evs' c1; mret (c2, a1 ++ a2)
  end.
(** From the accept on. *)
Definition connection (cfg : accept_config) (evs : list conn_event) : option (Conn * list conn_act) :=
  let '(c0, a0) := accepted cfg in '(c, a) ← conn_run cfg evs c0; mret (c, a0 ++ a).

(** ** The accept loop *)
Inductive accept_loop : Type := accepting | backing_off | accept_ended.
(** What [async_accept] ends with; the result tells whether a connection was
    made and whether a timer of 100 ms was armed. *)
Definition on_accept (ec : error_code) : accept_loop :=
  match ec with ec_ok => accepting | ec_operation_aborted => accept_ended | _ => backing_off end.

(** ** QUIC datagrams *)
Record UdpServer : Type := {
  quic_sessions_ : gmap endpoint nat;
  next_quic_session : nat;
  udp_open : bool;
  udp_loop : accept_loop
}.
Inductive udp_act : Type :=
| new_quic (session : nat) (e : endpoint) (cids : list byte * list byte)   (* made and [init]ed *)
| packet_to (session : nat) (data : list byte)                            (* [handle_packet] posted *)
| close_quic (session : nat)                                              (* [close_session], callback unset *)
| no_local_endpoint.                                                      (* [local_endpoint] throws *)
Definition new_udp_server : UdpServer :=
  {| quic_sessions_ := ∅; next_quic_session := 0; udp_open := true; udp_loop := accepting |}.
Definition udp_rearm (l : accept_loop) (u : UdpServer) : UdpServer := {|
  quic_sessions_ := quic_sessions_ u; next_quic_session := next_quic_session u; udp_open := udp_open u;
  udp_loop := if udp_open u then l else accept_ended |}.

Section UdpRead.
(** [ngtcp2_pkt_decode_version_cid]: the connection identifiers of a long header. *)
Context (decode_version_cid : list byte -> option (list byte * list byte)).

(** A datagram, at the end of [async_receive_from]; the exception of a session
    made on a closed socket leaves the handler. *)
Definition on_datagram (e : endpoint) (data : list byte) (u : UdpServer) : UdpServer * list udp_act :=
  match quic_sessions_ u !! e with
  | Some n => (udp_rearm accepting u, [packet_to n data])
  | None =>
    match decode_version_cid data with
    | None => (udp_rearm accepting u, [])
    | Some cids =>
      if negb (udp_open u) then
        ({| quic_sessions_ := quic_sessions_ u; next_quic_session := next_quic_session u; udp_open := false;
            udp_loop := accept_ended |}, [no_local_endpoint])
      else
      let n := next_quic_session u in
      (udp_rearm accepting {| quic_sessions_ := <[e := n]> (quic_sessions_ u); next_quic_session := S n;
                              udp_open := udp_open u; udp_loop := udp_loop u |},
       [new_quic n e cids; packet_to n data])
    end
  end.
Definition on_udp_error (ec : error_code) (u : UdpServer) : UdpServer :=
  match ec with
  | ec_operation_aborted => {| quic_sessions_ := quic_sessions_ u; next_quic_session := next_quic_session u;
                               udp_open := udp_open u; udp_loop := accept_ended |}
  | _ => udp_rearm backing_off u
  end.
(** [on_closed] of a session: its endpoint is forgotten. *)
Definition quic_closed (e : endpoint) (u : UdpServer) : UdpServer := {|
  quic_sessions_ := delete e (quic_sessions_ u); next_quic_session := next_quic_session u;
  udp_open := udp_open u; udp_loop := udp_loop u |}.
(** [Server::Stop] as far as QUIC goes; the acceptors are closed as well. *)
Definition stop_quic (u : UdpServer) : UdpServer * list udp_act :=
  ({| quic_sessions_ := ∅; next_quic_session := next_quic_session u; udp_open := false; udp_loop := udp_loop u |},
   map (fun p => close_quic p.2) (map_to_list (quic_sessions_ u))).

Inductive udp_event : Type :=
| datagram (e : endpoint) (data : list byte)
| udp_error (ec : error_code)
| udp_retry                                 (* the timer of 100 ms *)
| session_closed (e : endpoint)
| server_stop.
Definition udp_server_step (ev : udp_event) (u : UdpServer) : option (UdpServer * list udp_act) :=
  match ev, udp_loop u with
  | datagram e d, accepting => Some (on_datagram e d u)
  | udp_error ec, accepting => Some (on_udp_error ec u, [])
  | udp_retry, backing_off => Some (udp_rearm accepting u, [])
  | session_closed e, _ => Some (quic_closed e u, [])
  | server_stop, _ => Some (stop_quic u)
  | _, _ => None
  end.
Fixpoint udp_server_run (evs : list udp_event) (u : UdpServer) : option (UdpServer * list udp_act) :=
  match evs with
  | [] => Some (u, [])
  | ev :: evs' =>
    '(u1, a1) ← udp_server_step ev u; '(u2, a2) ← udp_server_run evs' u1; mret (u2, a1 ++ a2)
  end.
End UdpRead.

(** ** Server: construction and Run *)
(** [ca_key_file]: the first ".crt" of the name becomes ".key"; without one
    [replace] throws. *)
Definition ca_key_file (ca_file : list byte) : option (list byte) :=
  option_map (fun k => take k ca_file ++ bytes_of ".key" ++ drop (k + 4) ca_file) (find (bytes_of ".crt") ca_file).
Definition needs_tls (protocol : string) (ssl_enable : bool) : bool :=
  ssl_enable || String.eqb protocol "quic" || String.eqb protocol "auto".
(** The loops [Run] starts; [bind p] tells whether the vhost port can be bound. *)
Inductive server_loop : Type := loop_accept | loop_udp | loop_vhost_http | loop_vhost_https.
Definition Run (protocol : string) (http_port https_port : Z) (bind : Z -> bool) : list server_loop :=
  [loop_accept] ++
  (if String.eqb protocol "quic" || String.eqb protocol "auto" then [loop_udp] else []) ++
  (if (0 <? http_port) && bind http_port then [loop_vhost_http] else []) ++
  (if (0 <? https_port) && bind https_port then [loop_vhost_https] else []).

(** ** BufferedStream is transparent *)
Definition offset_ok (b : BufferedStream) : Prop := 0 <= buffer_offset_ b <= zlen (buffer_ b).

Lemma take_buffered_spec size b : offset_ok b -> 0 <= size -> buffer_offset_ b < zlen (buffer_ b) ->
  let '(bytes, b') := take_buffered size b in
  let left := zdrop (buffer_offset_ b) (buffer_ b) in
  bytes = ztake size left /\ offset_ok b' /\ zdrop (buffer_offset_ b') (buffer_ b') = zdrop size left /\
  zlen bytes = Z.min size (zlen left) /\ left <> [].
Proof.
  intros [H1 H2] Hs Hlt. unfold take_buffered. set (n := Z.min _ _). set (left := zdrop (buffer_offset_ b) (buffer_ b)).
  assert (Hleft : zlen left = zlen (buffer_ b) - buffer_offset_ b) by (unfold left; rewrite zlen_zdrop by lia; lia).
  assert (Hmin : n = Z.min (zlen left) size) by (unfold n; lia). clearbody n.
  assert (Hn : ztake n left = ztake size left).
  { destruct (Z.le_gt_cases size (zlen left)); [f_equal; lia|]. rewrite !ztake_ge by lia. done. }
  assert (Hne : left <> []) by (intros E; apply (f_equal zlen) in E; rewrite Hleft, zlen_nil in E; lia).
  split; [done|]. rewrite Hn, zlen_ztake by done.
  split; [|split; [|by split]]; destruct (_ =? _) eqn:E; bool_hyps; cbn [buffer_ buffer_offset_].
  - by split.
  - split; cbn [buffer_ buffer_offset_]; lia.
  - rewrite (zdrop_ge size) by lia. done.
  - unfold left. rewrite zdrop_zdrop by lia. f_equal. lia.
Qed.

Lemma zdrop_app_both {A} n (xs ys : list A) : 0 <= n -> zdrop n (xs ++ ys) = zdrop n xs ++ zdrop (n - zlen xs) ys.
Proof.
  intros Hn. destruct (Z.le_gt_cases n (zlen xs)).
  - rewrite zdrop_app_le by done. f_equal. unfold zdrop. by rewrite Z2Nat.nonpos by lia.
  - rewrite zdrop_app_ge, (zdrop_ge n xs) by lia. done.
Qed.
Lemma behind_empty b s : (buffer_offset_ b <? zlen (buffer_ b)) = false -> offset_ok b -> behind b s = s.
Proof.
  intros H [H1 H2]. bool_hyps. unfold behind. rewrite zdrop_ge by lia. by destruct s.
Qed.
Definition same_request (op op' : read_op) : Prop := ro_all op = ro_all op' /\ ro_size op = ro_size op'.

(** One read through the buffer is a read of the whole, perhaps cut elsewhere. *)
Lemma buffered_op_transparent op b s : offset_ok b -> 0 <= ro_size op -> exists op',
  same_request op op' /\ (ro_all op = true -> op' = op) /\
  let '(got, ec, (b', s')) := buffered_op op b s in
  offset_ok b' /\ source_read op' (ro_size op') (behind b s) = (got, ec, behind b' s').
Proof.
  intros Hok Hs. unfold buffered_op, buffered_read_all, buffered_read_some.
  destruct (buffer_offset_ b <? zlen (buffer_ b)) eqn:E.
  2: { exists op. split; [done|]. split; [done|]. rewrite (behind_empty b s E Hok).
       destruct (ro_all op); destruct (source_read op (ro_size op) s) as [[got ec] s'];
         (split; [done|]); cbn [app]; by rewrite (behind_empty b s' E Hok). }
  bool_hyps. pose proof (take_buffered_spec (ro_size op) b Hok Hs E) as T.
  destruct (take_buffered (ro_size op) b) as [bytes b']. set (left := zdrop (buffer_offset_ b) (buffer_ b)) in *.
  destruct T as (T1 & T2 & T3 & T4 & T5).
  assert (Hb : behind b s = {| src_bytes := left ++ src_bytes s; src_end := src_end s |}) by done.
  destruct (ro_all op) eqn:Ea.
  - exists op. split; [done|]. split; [done|]. unfold source_read. rewrite Ea, Hb. cbn [src_bytes src_end].
    pose proof (zlen_nonneg left). destruct (zlen bytes <? ro_size op) eqn:El; bool_hyps.
    + split; [done|]. assert (Hb1 : bytes = left) by (rewrite T1; apply ztake_ge; lia).
      rewrite (ztake_app_ge _ left), zlen_app, zlen_ztake by lia. clear T1. clearbody left. subst bytes.
      unfold behind. cbn [src_bytes src_end]. rewrite T3, zdrop_app_both, (zdrop_ge (ro_size op)), zlen_ztake by lia.
      match goal with |- (_, if ?x then _ else _, _) = (_, if ?y then _ else _, _) =>
        replace x with y; [done|] end.
      apply eq_true_iff_eq. rewrite !Z.ltb_lt. lia.
    + split; [done|]. rewrite ztake_app_le by lia. rewrite <- T1. rewrite (proj2 (Z.ltb_ge _ _)) by lia.
      unfold behind. cbn [src_bytes src_end]. by rewrite T3, zdrop_app_le by lia.
  - exists {| ro_all := false; ro_size := ro_size op; ro_chunk := zlen left |}. split; [done|]. split; [done|].
    split; [done|]. unfold source_read. rewrite Hb. cbn [src_bytes src_end ro_all ro_size ro_chunk].
    assert (Hl : 0 < zlen left) by (destruct left; [done|]; zsize).
    rewrite Z.max_r by lia. rewrite ztake_app_le, zdrop_app_le by lia.
    assert (Ht : ztake (Z.min (ro_size op) (zlen left)) left = bytes).
    { rewrite T1. destruct (Z.le_gt_cases (ro_size op) (zlen left)); [f_equal; lia|]. rewrite !ztake_ge by lia. done. }
    rewrite Ht. unfold behind. rewrite T3.
    assert (Hd : zdrop (Z.min (ro_size op) (zlen left)) left = zdrop (ro_size op) left).
    { destruct (Z.le_gt_cases (ro_size op) (zlen left)); [f_equal; lia|]. rewrite !zdrop_ge by lia. done. }
    rewrite Hd. by destruct left.
Qed.

(** C26 Reading a connection whose first bytes were taken to recognise the
    protocol is reading the connection: whatever reads are issued through
    [BufferedStream], each handler is given exactly the bytes and the error
    that the same requests give on a stream which still had those bytes in
    front (a short read may be cut at another place, reads of a whole buffer
    are the same). *)
Theorem buffered_reads_transparent (initial : list byte) (s : source) (ops : list read_op) :
  Forall (fun op => 0 <= ro_size op) ops ->
  exists ops', Forall2 same_request ops ops' /\ (Forall (fun op => ro_all op = true) ops -> ops' = ops) /\
    buffered_run ops (new_buffered initial) s =
    source_run ops' {| src_bytes := initial ++ src_bytes s; src_end := src_end s |}.
Proof.
  intros Hs. change {| src_bytes := _ |} with (behind (new_buffered initial) s).
  assert (Hok : offset_ok (new_buffered initial)) by (split; cbn; [done|apply zlen_nonneg]).
  revert Hok s. generalize (new_buffered initial). induction ops as [|op ops IH]; intros b Hok s; [by exists []|].
  apply Forall_cons in Hs as [H1 Hs]. destruct (buffered_op_transparent op b s Hok H1) as (op' & R1 & R2 & R3).
  cbn [buffered_run]. destruct (buffered_op op b s) as [[got ec] [b' s']]. destruct R3 as [R3 R4].
  destruct (IH Hs b' R3 s') as (ops' & J1 & J2 & J3). exists (op' :: ops'). split_and!.
  - by constructor.
  - intros [E1 E2]%Forall_cons. by rewrite R2, J2.
  - cbn [source_run]. by rewrite R4, J3.
Qed.

(** ** A connection is handed over once, or closed *)
Definition mux_starts (a : list conn_act) : list (bool * list byte) :=
  omap (fun x => match x with start_mux w i => Some (w, i) | _ => None end) a.
(** The stream a mux session may be given: recognised by its first byte in
    [auto], whose bytes are then in front of it. *)
Definition handed_over (cfg : accept_config) (w : bool) (initial : list byte) : Prop :=
  if String.eqb (cfg_protocol cfg) "auto" then exists b, initial = [b] /\ w = (byte_to_Z b =? 71)
  else initial = [] /\ w = String.eqb (cfg_protocol cfg) "websocket".
(** What has been done when the connection is in its present phase. *)
Record conn_inv (cfg : accept_config) (c : Conn) (a : list conn_act) : Prop := {
  ci_mux : match conn_phase_ c with
           | muxed w => exists i, mux_starts a = [(w, i)] /\ handed_over cfg w i
           | _ => mux_starts a = []
           end;
  ci_timer : match conn_phase_ c with
             | muxed _ | dropped => timer_armed c = false
             | _ => timer_armed c = true \/ conn_closed c = true
             end;
  ci_closed : conn_closed c = true -> close_conn ∈ a;
  ci_dropped : conn_phase_ c = dropped -> close_conn ∈ a;
  ci_timed : conn_closed c = true -> timer_armed c = false;
  ci_first : match conn_phase_ c with
             | reading_first_byte => cfg_protocol cfg = "auto"%string
             | ws_handshaking b => cfg_protocol cfg = "auto"%string /\ byte_to_Z b = 71
             | _ => True
             end;
  ci_tls : cfg_ssl cfg = true -> (has_stream c = false -> begin_handshake ∉ a) /\
    match conn_phase_ c with
    | peeking => has_stream c = false
    | handshaking | reading_first_byte | ws_handshaking _ | muxed _ => has_stream c = true
    | dropped => True
    end
}.
Lemma mux_starts_app xs ys : mux_starts (xs ++ ys) = mux_starts xs ++ mux_starts ys.
Proof. apply omap_app. Qed.

Definition waiting_phase (c : Conn) : Prop := match conn_phase_ c with muxed _ | dropped => False | _ => True end.
Lemma conn_inv_waiting cfg c a : conn_inv cfg c a -> waiting_phase c -> mux_starts a = [].
Proof. intros [I _ _ _ _ _ _] H. revert I H. unfold waiting_phase. by destruct (conn_phase_ c). Qed.

(** Leaving the waits: dropped with the connection closed, or handed over. *)
Lemma conn_inv_dropped cfg c a b : conn_inv cfg c a -> waiting_phase c -> mux_starts b = [] -> begin_handshake ∉ b ->
  close_conn ∈ a ++ b -> conn_phase_ c = peeking \/ has_stream c = true ->
  forall cl, conn_inv cfg {| conn_phase_ := dropped; has_stream := has_stream c; conn_closed := cl; timer_armed := false |}
    (a ++ b).
Proof.
  intros Hi Hw Hb Hh Hc Hp cl. pose proof (conn_inv_waiting _ _ _ Hi Hw) as Hm. destruct Hi as [_ _ _ _ _ _ I7].
  split; cbn; try done; [by rewrite mux_starts_app, Hm, Hb|]. intros Hs. specialize (I7 Hs) as [I7 _].
  split; [|done]. intros Hn. specialize (I7 Hn). set_solver.
Qed.
Lemma conn_inv_muxed cfg c a w i : conn_inv cfg c a -> waiting_phase c -> (cfg_ssl cfg = true -> has_stream c = true) ->
  handed_over cfg w i -> conn_inv cfg (mux_started w i c).1 (a ++ (mux_started w i c).2).
Proof.
  intros Hi Hw Hs Hh. pose proof (conn_inv_waiting _ _ _ Hi Hw) as Hm. destruct Hi as [_ _ I3 _ _ _ I7].
  split; cbn; try done.
  - exists i. by rewrite mux_starts_app, Hm.
  - intros Hc. specialize (I3 Hc). set_solver.
  - intros Hc. split; [|by apply Hs]. rewrite (Hs Hc). done.
Qed.
Lemma conn_inv_timer cfg c a : conn_inv cfg c a -> timer_armed c = true ->
  conn_inv cfg (Close (disarm c)).1 (a ++ (Close (disarm c)).2).
Proof.
  intros [I1 I2 I3 I4 I5 I6 I7] Ht. unfold Close. cbn [disarm conn_closed]. destruct (conn_closed c) eqn:Ec.
  - by rewrite I5 in Ht.
  - cbn [fst snd disarm]. split; cbn; try done.
    + rewrite mux_starts_app, app_nil_r. done.
    + destruct (conn_phase_ c); try done; by right.
    + set_solver.
    + intros. set_solver.
    + intros Hs. destruct (I7 Hs) as [J1 J2]. split; [|done]. intros Hn. specialize (J1 Hn). set_solver.
Qed.
Lemma conn_inv_peek cfg ec bytes c a : conn_inv cfg c a -> conn_phase_ c = peeking -> cfg_ssl cfg = true ->
  conn_inv cfg (on_peek cfg ec bytes c).1 (a ++ (on_peek cfg ec bytes c).2).
Proof.
  intros Hi Hp Hs. assert (Hw : waiting_phase c) by (unfold waiting_phase; by rewrite Hp).
  assert (Hm := conn_inv_waiting _ _ _ Hi Hw). unfold on_peek.
  set (refuse := let '(c1, b) := Close c in (disarm (in_phase dropped c1), b ++ [cancel_timer])).
  assert (R : conn_inv cfg refuse.1 (a ++ refuse.2)).
  { unfold refuse, Close. destruct (conn_closed c) eqn:Ec; cbn [fst snd app disarm in_phase conn_phase_ has_stream conn_closed].
    - apply (conn_inv_dropped cfg c); try done; [set_solver| |by left]. destruct Hi as [_ _ I3 _ _ _ _]. specialize (I3 Ec). set_solver.
    - apply (conn_inv_dropped cfg c); try done; [set_solver|set_solver|by left]. }
  destruct ec; try done. destruct bytes as [|b [|]]; try done. destruct (negb _); [done|].
  destruct (conn_closed c) eqn:Ec; cbn [fst snd].
  - pose proof Hi as [_ _ I3 _ I5 _ _]. specialize (I5 Ec). specialize (I3 Ec).
    pose proof (conn_inv_dropped cfg c a [] Hi Hw eq_refl) as D. rewrite app_nil_r in *.
    specialize (D ltac:(set_solver) I3 (or_introl Hp) true). destruct c as [ph hs cl ar]. cbn in *. by subst.
  - destruct Hi as [_ I2 I3 _ I5 _ I7]. unfold start_handshake, with_stream, in_phase.
    split; cbn [fst snd conn_phase_ has_stream conn_closed timer_armed]; rewrite ?Hp in *; try done.
    + rewrite mux_starts_app, Hm. by destruct (String.eqb _ _).
    + by rewrite Ec.
Qed.
(** The peek is only made with TLS on. *)
Definition conn_ok (cfg : accept_config) (c : Conn) (a : list conn_act) : Prop :=
  conn_inv cfg c a /\ (conn_phase_ c = peeking -> cfg_ssl cfg = true).

Lemma conn_give_up cfg c a : conn_ok cfg c a -> waiting_phase c -> conn_phase_ c <> peeking ->
  (cfg_ssl cfg = true -> has_stream c = true) -> conn_ok cfg (give_up_conn c).1 (a ++ (give_up_conn c).2).
Proof.
  intros [Hi _] Hw Hp Hs. split; [|done]. unfold give_up_conn. cbn [fst snd disarm in_phase has_stream conn_closed].
  destruct Hi as [I1 I2 I3 I4 I5 I6 I7]. pose proof (conn_inv_waiting cfg c a ltac:(by split) Hw) as Hm.
  split; cbn; try done; [by rewrite mux_starts_app, Hm|set_solver|set_solver|].
  intros Hc. split; [|done]. by rewrite (Hs Hc).
Qed.
Lemma conn_step_ok cfg ev c c' a b : conn_ok cfg c a -> conn_step cfg ev c = Some (c', b) -> conn_ok cfg c' (a ++ b).
Proof.
  intros Hok H. pose proof Hok as [Hi Hp]. pose proof Hi as [I1 I2 I3 I4 I5 I6 I7].
  destruct ev as [ec bytes|ec|ec b0|ec|]; cbn [conn_step] in H.
  5: { destruct (timer_armed c) eqn:Ht; [|by destruct (conn_phase_ c)]. destruct (Close (disarm c)) as [c1 b1] eqn:Ec.
       pose proof (conn_inv_timer cfg c a Hi Ht) as J. rewrite Ec in J.
       assert (conn_phase_ c1 = conn_phase_ c) as Ep by (revert Ec; unfold Close; case_goal; by intros [= <- _]).
       destruct (conn_phase_ c) eqn:Eph; injection H as <- <-; (split; [done|]); rewrite Ep; try done; auto. }
  all: destruct (conn_phase_ c) as [| | |b1|w|] eqn:Eph; try discriminate.
  all: assert (Hw : waiting_phase c) by (unfold waiting_phase; by rewrite Eph).
  all: assert (Hst : conn_phase_ c <> peeking -> cfg_ssl cfg = true -> has_stream c = true) by
    (rewrite Eph; intros Hne Hs; by destruct (I7 Hs)).
  all: assert (Hgive : conn_phase_ c <> peeking -> conn_ok cfg (give_up_conn c).1 (a ++ (give_up_conn c).2)) by
    (intros Hne; by apply conn_give_up; auto).
  all: assert (Hmux : forall w i, conn_phase_ c <> peeking -> handed_over cfg w i ->
         conn_ok cfg (mux_started w i c).1 (a ++ (mux_started w i c).2)) by
    (intros w i Hne Hh; split; [by apply conn_inv_muxed; auto|done]).
  all: rewrite Eph in Hgive, Hmux; try specialize (Hgive ltac:(done)).
  - injection H as H. pose proof (conn_inv_peek cfg ec bytes c a Hi Eph (Hp eq_refl)) as J. rewrite H in J.
    split; [done|]. intros _. by apply Hp.
  - injection H as H. unfold on_handshake in H. destruct ec; try (rewrite H in Hgive; exact Hgive).
    destruct (String.eqb _ "auto") eqn:Ea.
    + injection H as <- <-. split; [|done]. apply String.eqb_eq in Ea.
      split; cbn; rewrite ?Eph in *; try done; [by rewrite mux_starts_app, I1|set_solver|].
      intros Hs. destruct (I7 Hs) as [_ J2]. split; [|done]. by rewrite J2.
    + specialize (Hmux (String.eqb (cfg_protocol cfg) "websocket") [] ltac:(done)). rewrite H in Hmux. apply Hmux.
      unfold handed_over. by rewrite Ea.
  - injection H as H. unfold on_first_byte in H. destruct ec; try (rewrite H in Hgive; exact Hgive).
    destruct (byte_to_Z b0 =? 71) eqn:Eb.
    + injection H as <- <-. split; [|done]. apply Z.eqb_eq in Eb.
      split; cbn; rewrite ?Eph in *; try done; [by rewrite mux_starts_app, I1|set_solver|].
      intros Hs. destruct (I7 Hs) as [_ J2]. split; [|done]. by rewrite J2.
    + specialize (Hmux false [b0] ltac:(done)). rewrite H in Hmux. apply Hmux.
      unfold handed_over. rewrite I6. cbn. exists b0. by rewrite Eb.
  - injection H as H. unfold on_ws_handshake in H. destruct ec; try (rewrite H in Hgive; exact Hgive).
    specialize (Hmux true [b1] ltac:(done)). rewrite H in Hmux. apply Hmux. destruct I6 as [I6 E71].
    unfold handed_over. rewrite I6. cbn. exists b1. by rewrite E71.
Qed.
Lemma conn_run_ok cfg evs c c' a b : conn_ok cfg c a -> conn_run cfg evs c = Some (c', b) -> conn_ok cfg c' (a ++ b).
Proof.
  revert c a b. induction evs as [|ev evs IH]; intros c a b Hc; cbn [conn_run].
  { intros [= <- <-]. by rewrite app_nil_r. }
  destruct (conn_step cfg ev c) as [[c1 a1]|] eqn:E1; [|done]. cbn [mbind option_bind].
  destruct (conn_run cfg evs c1) as [[c2 a2]|] eqn:E2; [|done]. intros [= <- <-]. rewrite app_assoc.
  eapply IH; [|done]. by eapply conn_step_ok.
Qed.
Lemma accepted_ok cfg : conn_ok cfg (accepted cfg).1 (accepted cfg).2.
Proof.
  unfold accepted, start_handshake. destruct (cfg_ssl cfg) eqn:Es; cbn.
  - split; [|done]. split; cbn; try done; [by left|]. intros _. split; [|done]. set_solver.
  - split; [|done]. split; cbn; try done; try by left.
    by destruct (String.eqb _ _).
Qed.

Lemma handshake_needs_tls cfg ev c c' a : conn_step cfg ev c = Some (c', a) -> begin_handshake ∈ a ->
  exists b, ev = peeked ec_ok [b] /\ byte_to_Z b = 22.
Proof.
  assert (Hclose : forall c1 l, begin_handshake ∈ (Close c1).2 ++ l -> begin_handshake ∈ l).
  { intros c1 l. unfold Close. destruct (conn_closed c1); set_solver. }
  intros H Hin. destruct ev as [ec bytes|ec|ec b0|ec|]; cbn [conn_step] in H; destruct (conn_phase_ c); try discriminate.
  all: try (destruct (timer_armed c); [|discriminate]; injection H as H; specialize (Hclose (disarm c) []);
    rewrite H, app_nil_r in Hclose; specialize (Hclose Hin); set_solver).
  all: injection H as H; unfold on_peek, on_handshake, on_first_byte, on_ws_handshake in H.
  - destruct ec, bytes as [|b [|]]; try (destruct (Close c) as [c1 l1] eqn:Ec; injection H as <- <-;
      specialize (Hclose c [cancel_timer]); rewrite Ec in Hclose; specialize (Hclose Hin); set_solver).
    destruct (byte_to_Z b =? 22) eqn:Eb; [apply Z.eqb_eq in Eb; by exists b|]. cbn [negb] in H.
    destruct (Close c) as [c1 l1] eqn:Ec. injection H as <- <-.
    specialize (Hclose c [cancel_timer]). rewrite Ec in Hclose. specialize (Hclose Hin). set_solver.
  - destruct ec; try destruct (String.eqb _ "auto"); injection H as <- <-; set_solver.
  - destruct ec; try destruct (_ =? 71); injection H as <- <-; set_solver.
  - destruct ec; injection H as <- <-; set_solver.
Qed.
Lemma handshake_run_tls cfg evs c c' a : conn_run cfg evs c = Some (c', a) -> begin_handshake ∈ a ->
  exists b, peeked ec_ok [b] ∈ evs /\ byte_to_Z b = 22.
Proof.
  revert c a. induction evs as [|ev evs IH]; intros c a; cbn [conn_run]; [intros [= <- <-]; set_solver|].
  destruct (conn_step cfg ev c) as [[c1 a1]|] eqn:E1; [|done]. cbn [mbind option_bind].
  destruct (conn_run cfg evs c1) as [[c2 a2]|] eqn:E2; [|done]. intros [= <- <-] [Hin|Hin]%elem_of_app.
  - destruct (handshake_needs_tls _ _ _ _ _ E1 Hin) as (b & -> & Hb). exists b. split; [left|done].
  - destruct (IH _ _ E2 Hin) as (b & Hb1 & Hb2). exists b. split; [by right|done].
Qed.

(** C27 An accepted connection is handed to a mux session once or closed: in
    every interleaving of its callbacks with its timer, at most one mux session
    is started, exactly when the connection has left its last wait; it is the
    WebSocket session or not that the protocol demands, in [auto] by the first
    byte, which is then in front of the stream; while it waits the timer is
    armed or has closed it, and afterwards no timer is left; and a connection
    dropped is closed.  With TLS on, no handshake begins on a connection that
    does not open with a TLS record. *)
Theorem connection_handed_over_once cfg evs c a : connection cfg evs = Some (c, a) ->
  match conn_phase_ c with
  | muxed w => (exists i, mux_starts a = [(w, i)] /\ handed_over cfg w i) /\ timer_armed c = false
  | dropped => mux_starts a = [] /\ close_conn ∈ a /\ timer_armed c = false
  | _ => mux_starts a = [] /\ (timer_armed c = true \/ close_conn ∈ a)
  end /\
  (cfg_ssl cfg = true -> begin_handshake ∈ a ->
     exists b, peeked ec_ok [b] ∈ evs /\ byte_to_Z b = 22).
Proof.
  intros H. unfold connection in H. pose proof (accepted_ok cfg) as H0. destruct (accepted cfg) as [c0 a0] eqn:E0.
  destruct (conn_run cfg evs c0) as [[c1 a1]|] eqn:E1; [|done]. injection H as <- <-. cbn [fst snd] in H0.
  split.
  - destruct (conn_run_ok _ _ _ _ _ _ H0 E1) as [[I1 I2 I3 I4 _ _ _] _]. destruct (conn_phase_ c1); try (by split_and!; auto);
      (split; [done|]); destruct I2; auto.
  - intros Hs. unfold accepted in E0. rewrite Hs in E0. injection E0 as <- <-.
    intros [Hin|Hin]%elem_of_app; [set_solver|]. by eapply handshake_run_tls.
Qed.

(** ** Datagrams find their session *)
Definition created (a : list udp_act) : list (nat * endpoint) :=
  omap (fun x => match x with new_quic n e _ => Some (n, e) | _ => None end) a.
Definition packets (n : nat) (a : list udp_act) : list (list byte) :=
  omap (fun x => match x with packet_to m d => if (m =? n)%nat then Some d else None | _ => None end) a.
Definition datagrams_from (e : endpoint) (evs : list udp_event) : list (list byte) :=
  omap (fun ev => match ev with datagram e' d => if decide (e' = e) then Some d else None | _ => None end) evs.
(** [cr]: the sessions made so far. *)
Record udp_inv (u : UdpServer) (cr : list (nat * endpoint)) : Prop := {
  ui_known e n : quic_sessions_ u !! e = Some n -> (n, e) ∈ cr;
  ui_fresh n e : (n, e) ∈ cr -> (n < next_quic_session u)%nat;
  ui_distinct : NoDup (map fst cr)
}.
Lemma created_app xs ys : created (xs ++ ys) = created xs ++ created ys.
Proof. apply omap_app. Qed.
Lemma packets_app n xs ys : packets n (xs ++ ys) = packets n xs ++ packets n ys.
Proof. apply omap_app. Qed.
Lemma created_unique {A} (cr : list (nat * A)) n e e' : NoDup (map fst cr) -> (n, e) ∈ cr -> (n, e') ∈ cr -> e = e'.
Proof.
  induction cr as [|[m f] cr IH]; cbn; [set_solver|]. intros [Hn Hd]%NoDup_cons [E|H]%elem_of_cons [E'|H']%elem_of_cons.
  - congruence.
  - injection E as -> ->. destruct Hn. apply list_elem_of_fmap. by exists (m, e').
  - injection E' as -> ->. destruct Hn. apply list_elem_of_fmap. by exists (m, e).
  - by apply IH.
Qed.

Section Routing.
Context (decode_version_cid : list byte -> option (list byte * list byte)).

(** One event: new sessions are fresh, a packet goes to the session of its
    sender. *)
Record udp_step_post (ev : udp_event) (u' : UdpServer) (cr : list (nat * endpoint)) (a : list udp_act) : Prop := {
  up_inv : udp_inv u' (cr ++ created a);
  up_packets : (forall n, packets n a = []) \/
    exists e d m, ev = datagram e d /\ (m, e) ∈ cr ++ created a /\ forall n, packets n a = if (m =? n)%nat then [d] else []
}.
Lemma udp_inv_same u u' cr : udp_inv u cr -> (forall e n, quic_sessions_ u' !! e = Some n -> quic_sessions_ u !! e = Some n) ->
  next_quic_session u' = next_quic_session u -> udp_inv u' (cr ++ []).
Proof. intros [H1 H2 H3] Hs Hn. rewrite app_nil_r. split; [by eauto| |done]. intros n e. rewrite Hn. apply H2. Qed.
Lemma on_datagram_post e d u cr : udp_inv u cr ->
  udp_step_post (datagram e d) (on_datagram decode_version_cid e d u).1 cr (on_datagram decode_version_cid e d u).2.
Proof.
  intros Hi. pose proof Hi as [H1 H2 H3]. unfold on_datagram. destruct (quic_sessions_ u !! e) as [m|] eqn:Em.
  { split; [by apply (udp_inv_same u)|]. right. exists e, d, m. split; [done|]. cbn. rewrite app_nil_r.
    split; [auto|]. intros n. by destruct (m =? n)%nat. }
  destruct (decode_version_cid d) as [cids|]; [|split; [by apply (udp_inv_same u)|by left]].
  destruct (udp_open u); cbn [negb]; [|split; [by apply (udp_inv_same u)|by left]].
  set (m := next_quic_session u). split; cbn [fst snd created omap list_omap option_bind].
  - split; cbn [udp_rearm quic_sessions_ next_quic_session].
    + intros e' n. destruct (decide (e = e')) as [<-|Hne].
      * rewrite lookup_insert_eq. intros [= <-]. apply elem_of_app. right. by left.
      * rewrite lookup_insert_ne by done. intros H%H1. apply elem_of_app. by left.
    + intros n e' [H%H2|H]%elem_of_app; [lia|]. apply list_elem_of_singleton in H. injection H as -> _. fold m. lia.
    + rewrite map_app. apply NoDup_app. split; [done|]. split; [|apply NoDup_singleton].
      intros n Hn%list_elem_of_fmap Hm. apply list_elem_of_singleton in Hm. destruct Hn as ([n' e'] & -> & Hn%H2).
      cbn in Hm. fold m in Hn. lia.
  - right. exists e, d, m. split; [done|]. split; [apply elem_of_app; right; by left|].
    intros n. cbn. by destruct (m =? n)%nat.
Qed.
Lemma udp_server_step_post ev u u' cr a : udp_inv u cr -> udp_server_step decode_version_cid ev u = Some (u', a) -> udp_step_post ev u' cr a.
Proof.
  intros Hi H.  destruct ev as [e d|ec| |e|]; cbn [udp_server_step] in H.
  - destruct (udp_loop u); try discriminate. injection H as H. pose proof (on_datagram_post e d u cr Hi) as P.
    by rewrite H in P.
  - destruct (udp_loop u); try discriminate. injection H as <- <-. split; [|by left].
    apply (udp_inv_same u); [done| |by destruct ec]. intros e n. by destruct ec.
  - destruct (udp_loop u); try discriminate. injection H as <- <-. split; [by apply (udp_inv_same u)|by left].
  - destruct (udp_loop u); injection H as <- <-; (split; [|by left]); apply (udp_inv_same u); try done;
      intros e' n; cbn; intros Hl; by apply lookup_delete_Some in Hl as [_ Hl].
  - assert (Hc : forall ms : list (endpoint * nat), created (map (fun p => close_quic p.2) ms) = [] /\
      forall n, packets n (map (fun p => close_quic p.2) ms) = []) by (induction ms; done).
    destruct (Hc (map_to_list (quic_sessions_ u))) as [Hc1 Hc2].
    destruct (udp_loop u); injection H as <- <-; (split; [rewrite Hc1; by apply (udp_inv_same u)|by left]).
Qed.
Lemma udp_server_run_post evs u u' cr a : udp_inv u cr ->
  udp_server_run decode_version_cid evs u = Some (u', a) ->
  udp_inv u' (cr ++ created a) /\
  (forall n e, (n, e) ∈ cr ++ created a -> packets n a `sublist_of` datagrams_from e evs) /\
  (forall n, packets n a <> [] -> exists e, (n, e) ∈ cr ++ created a).
Proof.
  revert u cr a. induction evs as [|ev evs IH]; intros u cr a Hi; cbn [udp_server_run].
  { intros [= <- <-]. cbn. rewrite app_nil_r. split_and!; [done| |done]. intros. apply sublist_nil_l. }
  destruct (udp_server_step _ ev u) as [[u1 a1]|] eqn:E1; [|done]. cbn [mbind option_bind].
  destruct (udp_server_run _ evs u1) as [[u2 a2]|] eqn:E2; [|done]. intros [= <- <-].
  destruct (udp_server_step_post _ _ _ _ _ Hi E1) as [P1 P2]. destruct (IH _ _ _ P1 E2) as (J1 & J2 & J3).
  rewrite created_app, app_assoc. split; [done|]. split.
  - intros n e Hin. specialize (J2 n e Hin). rewrite packets_app. destruct P2 as [P2|(e0 & d & m & -> & Hm & P2)].
    + rewrite P2. cbn [app]. destruct ev; try exact J2. unfold datagrams_from. cbn [omap list_omap].
      destruct (decide _); [by apply sublist_cons|exact J2].
    + rewrite P2. unfold datagrams_from. cbn [omap list_omap].
      destruct (m =? n)%nat eqn:En.
      * apply Nat.eqb_eq in En as ->. assert (e0 = e) as -> by
          (eapply created_unique; [apply J1| |exact Hin]; apply elem_of_app; by left).
        rewrite decide_True by done. by apply sublist_skip.
      * cbn [app]. destruct (decide (e0 = e)); [by apply sublist_cons|exact J2].
  - intros n. rewrite packets_app. intros Hne. destruct (packets n a2) as [|x l] eqn:En; [|apply J3; by rewrite En].
    destruct P2 as [P2|(e0 & d & m & -> & Hm & P2)]; rewrite P2 in Hne; [done|].
    destruct (m =? n)%nat eqn:Emn; [|done]. apply Nat.eqb_eq in Emn as ->. exists e0. apply elem_of_app. by left.
Qed.
End Routing.

(** Datagrams reach the session of their sender: whatever datagrams, errors,
    retries, closings and stops the UDP socket sees, a session is made for one
    endpoint, no two sessions have the same identity, the packets a session is
    given are packets of its endpoint, in the order they came, and the table
    always leads an endpoint to a session made for it. *)
Theorem quic_datagrams_routed (decode : list byte -> option (list byte * list byte)) evs u a :
  udp_server_run decode evs new_udp_server = Some (u, a) ->
  NoDup (map fst (created a)) /\
  (forall n e, (n, e) ∈ created a -> packets n a `sublist_of` datagrams_from e evs) /\
  (forall n, packets n a <> [] -> exists e, (n, e) ∈ created a) /\
  (forall e n, quic_sessions_ u !! e = Some n -> (n, e) ∈ created a).
Proof.
  intros H. assert (Hi : udp_inv new_udp_server []) by (split; cbn; [done|set_solver|constructor]).
  destruct (udp_server_run_post decode evs _ _ [] _ Hi H) as ([J1 _ J2] & J3 & J4). by split_and!.
Qed.

(** ** The name of the authority's key *)
Lemma ca_key_file_extension stem : find (bytes_of ".crt") (stem ++ bytes_of ".crt") = Some (length stem) ->
  ca_key_file (stem ++ bytes_of ".crt") = Some (stem ++ bytes_of ".key").
Proof.
  intros H. unfold ca_key_file. rewrite H. cbn [option_map]. f_equal. rewrite take_app_length.
  change 4%nat with (length (bytes_of ".crt")). rewrite <- length_app, drop_all, app_nil_r. done.
Qed.
Lemma ca_key_file_throws ca : find (bytes_of ".crt") ca = None -> ca_key_file ca = None.
Proof. intros H. unfold ca_key_file. by rewrite H. Qed.
(** A directory whose name has the extension takes the replacement instead. *)
Lemma ca_key_file_directory :
  ca_key_file (bytes_of "my.crts/ca.crt") = Some (bytes_of "my.keys/ca.crt").
Proof. reflexivity. Qed.

(** ** Witnesses *)
Definition sample_source : source := {| src_bytes := [x62; x63; x64]; src_end := ec_eof |}.
Definition sample_reads : list read_op :=
  [{| ro_all := false; ro_size := 2; ro_chunk := 2 |}; {| ro_all := true; ro_size := 2; ro_chunk := 1 |};
   {| ro_all := true; ro_size := 2; ro_chunk := 1 |}].
Lemma sample_reads_sized : Forall (fun op => 0 <= ro_size op) sample_reads.
Proof. repeat constructor; cbn; lia. Qed.
Lemma buffered_reads_transparent_witness :
  buffered_run sample_reads (new_buffered [x61]) sample_source =
    [([x61], ec_ok); ([x62; x63], ec_ok); ([x64], ec_eof)] /\
  exists ops', Forall2 same_request sample_reads ops' /\
    (Forall (fun op => ro_all op = true) sample_reads -> ops' = sample_reads) /\
    buffered_run sample_reads (new_buffered [x61]) sample_source =
    source_run ops' {| src_bytes := [x61] ++ src_bytes sample_source; src_end := src_end sample_source |}.
Proof.
  split; [reflexivity|]. exact (buffered_reads_transparent [x61] sample_source sample_reads sample_reads_sized).
Defined.
Definition sample_config : accept_config := {| cfg_protocol := "auto"; cfg_ssl := true |}.
Definition sample_conn_events : list conn_event :=
  [peeked ec_ok [x16]; handshaken ec_ok; got_first_byte ec_ok x47; ws_handshaken ec_ok].
Definition sample_conn : Conn :=
  {| conn_phase_ := muxed true; has_stream := true; conn_closed := false; timer_armed := false |}.
Definition sample_conn_acts : list conn_act :=
  [peek_byte; make_tls; begin_handshake; read_first_byte; begin_ws_handshake [x47]; cancel_timer; start_mux true [x47]].
Lemma sample_connection : connection sample_config sample_conn_events = Some (sample_conn, sample_conn_acts).
Proof. reflexivity. Qed.
Lemma connection_handed_over_once_witness :
  ((exists i, mux_starts sample_conn_acts = [(true, i)] /\ handed_over sample_config true i) /\
   timer_armed sample_conn = false) /\
  (cfg_ssl sample_config = true -> begin_handshake ∈ sample_conn_acts ->
     exists b, peeked ec_ok [b] ∈ sample_conn_events /\ byte_to_Z b = 22).
Proof.
  exact (connection_handed_over_once sample_config sample_conn_events sample_conn sample_conn_acts sample_connection).
Defined.
Definition sample_decode (d : list byte) : option (list byte * list byte) :=
  match d with [] => None | b :: _ => if byte_to_Z b <? 192 then None else Some ([b], []) end.
Definition sample_udp_events : list udp_event :=
  [datagram (1, 5)%N [xc0]; datagram (2, 5)%N [x00]; datagram (1, 5)%N [x01]; udp_error (ec_other 1); udp_retry;
   datagram (2, 5)%N [xc1]; session_closed (1, 5)%N; datagram (1, 5)%N [xc2]; server_stop].
Definition sample_udp_acts : list udp_act :=
  [new_quic 0 (1, 5)%N ([xc0], []); packet_to 0 [xc0]; packet_to 0 [x01]; new_quic 1 (2, 5)%N ([xc1], []);
   packet_to 1 [xc1]; new_quic 2 (1, 5)%N ([xc2], []); packet_to 2 [xc2]; close_quic 1; close_quic 2].
Definition sample_udp : UdpServer :=
  {| quic_sessions_ := ∅; next_quic_session := 3; udp_open := false; udp_loop := accepting |}.
Lemma sample_udp_run : udp_server_run sample_decode sample_udp_events new_udp_server = Some (sample_udp, sample_udp_acts).
Proof. vm_compute. reflexivity. Qed.
Lemma quic_datagrams_routed_witness :
  NoDup (map fst (created sample_udp_acts)) /\
  (forall n e, (n, e) ∈ created sample_udp_acts -> packets n sample_udp_acts `sublist_of` datagrams_from e sample_udp_events) /\
  (forall n, packets n sample_udp_acts <> [] -> exists e, (n, e) ∈ created sample_udp_acts) /\
  (forall e n, quic_sessions_ sample_udp !! e = Some n -> (n, e) ∈ created sample_udp_acts).
Proof. exact (quic_datagrams_routed sample_decode sample_udp_events sample_udp sample_udp_acts sample_udp_run). Defined.
