(* ===== verification/Client.v ===== *)
(** * The client (src/client/client.cpp)

    Connecting with failover between protocols, the control stream, the
    proxies it registers, and the answers to NewUserConn.  Every handler runs
    on the client's strand; a run is a sequence of completions, timers and
    posted calls.  Name resolution, sockets, QUIC, the configuration files and
    the local services are outside: their results are arguments of the events.
    The mux session and the streams are present or absent here; what they do
    is in MuxSession.v and MuxStream.v. *)
From Stdlib Require Import ZArith Lia Strings.Byte String.
From stdpp Require Import base tactics list gmap strings.
From S2P Require Import Prelude Protocol Zstd ControlFrame WorkStream.
Local Open Scope Z_scope.

Record ProxyConfig : Type := {
  pc_name : string;
  pc_type : string;
  local_ip : string;
  local_port : Z;
  remote_port : Z;
  custom_domains : list string;
  bandwidth_limit : Z
}.

(** ** State *)
Inductive client_read : Type :=
| no_control_read
| control_header (conn_id : Z)
| control_body (conn_id : Z) (length : Z) (is_compressed : bool).
(** Calls posted to a strand and not yet run. *)
Inductive posted_call : Type :=
| posted_connect
| posted_quic_closed (conn_id : Z).

Record connection : Type := {
  connection_id_ : Z;
  current_protocol_ : string;
  reconnect_delay_sec_ : Z;
  stopping_ : bool;
  mux_session_ : bool;
  control_stream_ : bool;
  quic_session_ : option (Z * bool);    (* the connection it was made for; whether it has been closed *)
  quic_endpoints_ : list Z;             (* endpoints by number *)
  quic_endpoint_index_ : nat;
  handshake_armed : option Z;           (* the connection the timer belongs to *)
  reconnect_armed : option Z;           (* seconds *)
  control_read : client_read;
  posted : list posted_call
}.
Record Client : Type := {
  conn : connection;
  name_ : string;
  proxies_ : list ProxyConfig;
  dynamic_proxies_ : gmap string ProxyConfig;
  proxy_rate_limiters_ : gmap string Z;
  conf_armed : bool
}.
Definition set_conn (k : connection) (c : Client) : Client := {|
  conn := k; name_ := name_ c; proxies_ := proxies_ c; dynamic_proxies_ := dynamic_proxies_ c;
  proxy_rate_limiters_ := proxy_rate_limiters_ c; conf_armed := conf_armed c |}.

Inductive client_action : Type :=
| resolve (conn_id : Z)
| connect_tcp (conn_id : Z) (websocket : bool)
| quic_connect (conn_id : Z) (endpoint : Z)              (* and a receive on the UDP socket *)
| quic_packet (data : list byte)                         (* handle_packet, on the session's strand *)
| udp_receive
| send_control (msg : Message) (frame : list byte)
| read_control (n : Z)
| stop_mux
| arm_reconnect (seconds : Z)
| arm_conf_timer
| connect_local (pc : ProxyConfig) (ticket : string)
| open_work_stream (pc : ProxyConfig) (ticket_bytes : list byte).

Section Client.
Context `{Zstd}.
(** The configuration: [protocol_], [token_], the compression level when
    [compression_] is on, and whether [conf_d_path_] is set. *)
Variables (protocol_ token_ : string) (compression : option Z) (conf_d : bool).

(** The constructor. *)
Definition new_client (name : string) : Client := {|
  conn := {| connection_id_ := 0;
             current_protocol_ := if String.eqb protocol_ "auto" then "quic" else protocol_;
             reconnect_delay_sec_ := 0; stopping_ := false; mux_session_ := false;
             control_stream_ := false; quic_session_ := None; quic_endpoints_ := [];
             quic_endpoint_index_ := 0; handshake_armed := None; reconnect_armed := None;
             control_read := no_control_read; posted := [] |};
  name_ := name; proxies_ := []; dynamic_proxies_ := ∅; proxy_rate_limiters_ := ∅; conf_armed := false |}.
Definition AddProxy (proxy : ProxyConfig) (c : Client) : Client := {|
  conn := conn c; name_ := name_ c; proxies_ := proxies_ c ++ [proxy];
  dynamic_proxies_ := dynamic_proxies_ c; proxy_rate_limiters_ := proxy_rate_limiters_ c;
  conf_armed := conf_armed c |}.

(** ** Connecting *)
(** [DoConnect]: a new connection number. *)
Definition DoConnect (k : connection) : connection * list client_action :=
  let id := connection_id_ k + 1 in
  ({| connection_id_ := id; current_protocol_ := current_protocol_ k;
      reconnect_delay_sec_ := reconnect_delay_sec_ k; stopping_ := stopping_ k;
      mux_session_ := mux_session_ k; control_stream_ := control_stream_ k;
      quic_session_ := quic_session_ k; quic_endpoints_ := quic_endpoints_ k;
      quic_endpoint_index_ := quic_endpoint_index_ k; handshake_armed := handshake_armed k;
      reconnect_armed := reconnect_armed k; control_read := control_read k; posted := posted k |},
   [resolve id]).

(** [ScheduleReconnect] *)
Definition ScheduleReconnect (k : connection) : connection * list client_action :=
  if stopping_ k then (k, []) else
  let delay := reconnect_delay_sec_ k in
  ({| connection_id_ := connection_id_ k; current_protocol_ := current_protocol_ k;
      reconnect_delay_sec_ := if delay <? 600 then delay + 10 else delay;
      stopping_ := stopping_ k; mux_session_ := mux_session_ k; control_stream_ := control_stream_ k;
      quic_session_ := quic_session_ k; quic_endpoints_ := quic_endpoints_ k;
      quic_endpoint_index_ := quic_endpoint_index_ k; handshake_armed := handshake_armed k;
      reconnect_armed := Some delay; control_read := control_read k; posted := posted k |},
   [arm_reconnect delay]).

(** [close_session] of the current QUIC session: the callback it posts carries
    the connection number the session was made for. *)
Definition close_quic (k : connection) : list posted_call :=
  match quic_session_ k with Some (id, false) => posted k ++ [posted_quic_closed id] | _ => posted k end.

(** [HandleDisconnect] *)
Definition HandleDisconnect (k : connection) : connection * list client_action :=
  let stop := if mux_session_ k then [stop_mux] else [] in
  let auto := String.eqb protocol_ "auto" in
  let protocol := current_protocol_ k in
  let next := if String.eqb protocol "quic" then "tcp"
              else if String.eqb protocol "tcp" then "websocket" else "quic" in
  let failover := auto && (String.eqb protocol "quic" || String.eqb protocol "tcp") in
  let calls := close_quic k in
  let k1 := {| connection_id_ := connection_id_ k + 1;
               current_protocol_ := if stopping_ k then protocol else if auto then next else protocol;
               reconnect_delay_sec_ := reconnect_delay_sec_ k; stopping_ := stopping_ k;
               mux_session_ := false; control_stream_ := false; quic_session_ := None;
               quic_endpoints_ := quic_endpoints_ k; quic_endpoint_index_ := quic_endpoint_index_ k;
               handshake_armed := handshake_armed k; reconnect_armed := reconnect_armed k;
               control_read := control_read k;
               posted := if negb (stopping_ k) && failover then calls ++ [posted_connect] else calls |} in
  if stopping_ k then (k1, stop)
  else if failover then (k1, stop)
  else let '(k2, a) := ScheduleReconnect k1 in (k2, stop ++ a).

(** [Stop]: the timers stay armed. *)
Definition Stop (k : connection) : connection * list client_action :=
  HandleDisconnect {| connection_id_ := connection_id_ k; current_protocol_ := current_protocol_ k;
    reconnect_delay_sec_ := reconnect_delay_sec_ k; stopping_ := true; mux_session_ := mux_session_ k;
    control_stream_ := control_stream_ k; quic_session_ := quic_session_ k;
    quic_endpoints_ := quic_endpoints_ k; quic_endpoint_index_ := quic_endpoint_index_ k;
    handshake_armed := handshake_armed k; reconnect_armed := reconnect_armed k;
    control_read := control_read k; posted := posted k |}.

(** The loop of [TryNextQuicEndpoint]: the first endpoint from [index] on
    that the UDP socket can be bound and connected to. *)
Fixpoint next_endpoint (rebind : Z -> bool) (eps : list Z) (index : nat) : option (Z * nat) :=
  match eps with
  | [] => None
  | e :: eps' => if rebind e then Some (e, S index) else next_endpoint rebind eps' (S index)
  end.
(** [TryNextQuicEndpoint] with [DoQuicConnect]; the boolean is its result. *)
Definition TryNextQuicEndpoint (conn_id : Z) (rebind : Z -> bool) (k : connection)
  : connection * list client_action * bool :=
  if negb (conn_id =? connection_id_ k) then (k, [], false) else
  let calls := close_quic k in
  let index := quic_endpoint_index_ k in
  let found := next_endpoint rebind (drop index (quic_endpoints_ k)) index in
  let k1 := {| connection_id_ := connection_id_ k; current_protocol_ := current_protocol_ k;
               reconnect_delay_sec_ := reconnect_delay_sec_ k; stopping_ := stopping_ k;
               mux_session_ := mux_session_ k; control_stream_ := control_stream_ k;
               quic_session_ := match found with Some _ => Some (conn_id, false) | None => None end;
               quic_endpoints_ := quic_endpoints_ k;
               quic_endpoint_index_ := match found with Some (_, i) => i | None => length (quic_endpoints_ k) end;
               handshake_armed := match found with Some _ => Some conn_id | None => None end;
               reconnect_armed := reconnect_armed k; control_read := control_read k; posted := calls |} in
  match found with
  | Some (e, _) => (k1, [quic_connect conn_id e], true)
  | None => (k1, [], false)
  end.

(** The resolver's completion; the endpoints are deduplicated in order. *)
Fixpoint dedup (eps seen : list Z) : list Z :=
  match eps with
  | [] => []
  | e :: eps' => if decide (e ∈ seen) then dedup eps' seen else e :: dedup eps' (seen ++ [e])
  end.
Definition on_resolved (conn_id : Z) (ec : error_code) (eps : list Z) (rebind : Z -> bool) (k : connection)
  : connection * list client_action :=
  if negb (conn_id =? connection_id_ k) then (k, []) else
  if decide (ec = ec_ok) then
    if String.eqb (current_protocol_ k) "quic" then
      let k1 := {| connection_id_ := connection_id_ k; current_protocol_ := current_protocol_ k;
                   reconnect_delay_sec_ := reconnect_delay_sec_ k; stopping_ := stopping_ k;
                   mux_session_ := mux_session_ k; control_stream_ := control_stream_ k;
                   quic_session_ := quic_session_ k; quic_endpoints_ := dedup eps [];
                   quic_endpoint_index_ := 0; handshake_armed := handshake_armed k;
                   reconnect_armed := reconnect_armed k; control_read := control_read k; posted := posted k |} in
      let '(k2, a, ok) := TryNextQuicEndpoint conn_id rebind k1 in
      if ok : bool then (k2, a) else let '(k3, a') := HandleDisconnect k2 in (k3, a ++ a')
    else (k, [connect_tcp conn_id (String.eqb (current_protocol_ k) "websocket")])
  else HandleDisconnect k.

(** The handshake timer of [DoQuicConnect]. *)
Definition on_handshake_timer (conn_id : Z) (rebind : Z -> bool) (k : connection)
  : connection * list client_action :=
  if negb (conn_id =? connection_id_ k) then (k, []) else
  if negb (String.eqb (current_protocol_ k) "quic") then (k, []) else
  if String.eqb protocol_ "auto" then
    let '(k1, a, ok) := TryNextQuicEndpoint conn_id rebind k in
    if ok : bool then (k1, a) else let '(k2, a') := HandleDisconnect k1 in (k2, a ++ a')
  else HandleDisconnect k.
(** The [on_closed] callback of a QUIC session. *)
Definition on_quic_closed (conn_id : Z) (rebind : Z -> bool) (k : connection)
  : connection * list client_action :=
  if negb (conn_id =? connection_id_ k) then (k, []) else
  let '(k1, a, ok) := TryNextQuicEndpoint conn_id rebind k in
  if ok : bool then (k1, a) else let '(k2, a') := HandleDisconnect k1 in (k2, a ++ a').

(** The QUIC session is closed by the peer: it notifies itself. *)
Definition on_quic_peer_close (k : connection) : connection :=
  {| connection_id_ := connection_id_ k; current_protocol_ := current_protocol_ k;
     reconnect_delay_sec_ := reconnect_delay_sec_ k; stopping_ := stopping_ k;
     mux_session_ := mux_session_ k; control_stream_ := control_stream_ k;
     quic_session_ := match quic_session_ k with Some (id, _) => Some (id, true) | None => None end;
     quic_endpoints_ := quic_endpoints_ k; quic_endpoint_index_ := quic_endpoint_index_ k;
     handshake_armed := handshake_armed k; reconnect_armed := reconnect_armed k;
     control_read := control_read k; posted := close_quic k |}.

(** ** The control stream *)
Definition SendMessage (type : MessageType) (body : list byte) (c : Client) : list client_action :=
  if control_stream_ (conn c) then
    let msg := {| msg_type := type; msg_body := body |} in
    [send_control msg (control_frame compression msg)]
  else [].
Definition DoLogin (c : Client) : list client_action :=
  SendMessage Login (LoginMessage_Serialize {| login_token := token_; login_name := name_ c |}) c.

Definition set_read (r : client_read) (k : connection) : connection :=
  {| connection_id_ := connection_id_ k; current_protocol_ := current_protocol_ k;
     reconnect_delay_sec_ := reconnect_delay_sec_ k; stopping_ := stopping_ k;
     mux_session_ := mux_session_ k; control_stream_ := control_stream_ k;
     quic_session_ := quic_session_ k; quic_endpoints_ := quic_endpoints_ k;
     quic_endpoint_index_ := quic_endpoint_index_ k; handshake_armed := handshake_armed k;
     reconnect_armed := reconnect_armed k; control_read := r; posted := posted k |}.
Definition set_timers (h r : option Z) (q : list posted_call) (k : connection) : connection :=
  {| connection_id_ := connection_id_ k; current_protocol_ := current_protocol_ k;
     reconnect_delay_sec_ := reconnect_delay_sec_ k; stopping_ := stopping_ k;
     mux_session_ := mux_session_ k; control_stream_ := control_stream_ k;
     quic_session_ := quic_session_ k; quic_endpoints_ := quic_endpoints_ k;
     quic_endpoint_index_ := quic_endpoint_index_ k; handshake_armed := h;
     reconnect_armed := r; control_read := control_read k; posted := q |}.
(** [OnConnect] cancels the handshake timer; with success: a mux session, its first stream, a login, a read. *)
Definition OnConnect (ec : error_code) (c : Client) : Client * list client_action :=
  let k := conn c in
  if decide (ec = ec_ok) then
    let c1 := set_conn {| connection_id_ := connection_id_ k; current_protocol_ := current_protocol_ k;
                          reconnect_delay_sec_ := 0; stopping_ := stopping_ k; mux_session_ := true;
                          control_stream_ := true; quic_session_ := quic_session_ k;
                          quic_endpoints_ := quic_endpoints_ k; quic_endpoint_index_ := quic_endpoint_index_ k;
                          handshake_armed := None; reconnect_armed := reconnect_armed k;
                          control_read := control_header (connection_id_ k); posted := posted k |} c in
    (c1, DoLogin c1 ++ [read_control 4])
  else let '(k1, a) := HandleDisconnect (set_timers None (reconnect_armed k) (posted k) k) in (set_conn k1 c, a).
Definition disconnect (c : Client) : Client * list client_action :=
  let '(k1, a) := HandleDisconnect (conn c) in (set_conn k1 c, a).

(** The completion of [DoUdpRead]. *)
Definition on_udp_read (ec : error_code) (data : list byte) (udp_open : bool) (c : Client) : Client * list client_action :=
  match ec with
  | ec_ok => (c, match quic_session_ (conn c) with Some _ => [quic_packet data] | None => [] end ++ [udp_receive])
  | ec_operation_aborted => (c, [])
  | ec_connection_refused | ec_connection_reset => disconnect c
  | _ => (c, if udp_open then [udp_receive] else [])
  end.

(** ** Proxies *)
Definition RegisterProxy (pc : ProxyConfig) (c : Client) : Client * list client_action :=
  let msg := {| rp_name := pc_name pc; rp_type := pc_type pc; rp_remote_port := remote_port pc;
                rp_custom_domains := custom_domains pc; rp_bandwidth_limit := bandwidth_limit pc |} in
  ({| conn := conn c; name_ := name_ c; proxies_ := proxies_ c; dynamic_proxies_ := dynamic_proxies_ c;
      proxy_rate_limiters_ := if 0 <? bandwidth_limit pc
        then <[pc_name pc := bandwidth_limit pc]> (proxy_rate_limiters_ c) else proxy_rate_limiters_ c;
      conf_armed := conf_armed c |},
   SendMessage RegisterProxy (RegisterProxyMessage_Serialize msg) c).
Definition UnregisterProxy (name : string) (c : Client) : Client * list client_action :=
  (c, SendMessage UnregisterProxy (UnregisterProxyMessage_Serialize {| up_name := name |}) c).
(** Steps one after the other. *)
Fixpoint each {A} (f : A -> Client -> Client * list client_action) (l : list A) (c : Client)
  : Client * list client_action :=
  match l with
  | [] => (c, [])
  | x :: l' => let '(c1, a1) := f x c in let '(c2, a2) := each f l' c1 in (c2, a1 ++ a2)
  end.

(** [changed] in [PollConfDirectory]: the bandwidth limit is not compared. *)
Definition proxy_changed (old new : ProxyConfig) : bool :=
  negb (String.eqb (pc_type old) (pc_type new)) || negb (String.eqb (local_ip old) (local_ip new)) ||
  negb (local_port old =? local_port new) || negb (remote_port old =? remote_port new) ||
  negb (bool_decide (custom_domains old = custom_domains new)).
(** The diff of [PollConfDirectory]: removals, then additions and updates; the
    two maps are walked in an order of their own. *)
Definition poll_one (kv : string * ProxyConfig) (c : Client) : Client * list client_action :=
  match dynamic_proxies_ c !! kv.1 with
  | None => RegisterProxy kv.2 c
  | Some old =>
    if proxy_changed old kv.2 then
      let '(c1, a1) := UnregisterProxy kv.1 c in
      let '(c2, a2) := RegisterProxy kv.2 c1 in (c2, a1 ++ a2)
    else (c, [])
  end.
Definition PollConfDirectory (new_proxies : gmap string ProxyConfig) (c : Client) : Client * list client_action :=
  let removed := filter (fun n => new_proxies !! n = None) (map fst (map_to_list (dynamic_proxies_ c))) in
  let '(c1, a1) := each UnregisterProxy removed c in
  let '(c2, a2) := each poll_one (map_to_list new_proxies) c1 in
  ({| conn := conn c2; name_ := name_ c2; proxies_ := proxies_ c2; dynamic_proxies_ := new_proxies;
      proxy_rate_limiters_ := proxy_rate_limiters_ c2; conf_armed := true |},
   a1 ++ a2 ++ [arm_conf_timer]).
(** [conf] is what the configuration directory holds when it is read. *)
Definition RegisterProxies (conf : gmap string ProxyConfig) (c : Client) : Client * list client_action :=
  let '(c1, a1) := each RegisterProxy (proxies_ c) c in
  if conf_d then let '(c2, a2) := PollConfDirectory conf c1 in (c2, a1 ++ a2) else (c1, a1).

(** [HandleNewUserConn]: static proxies first. *)
Definition find_proxy (name : string) (c : Client) : option ProxyConfig :=
  match List.find (fun pc => String.eqb (pc_name pc) name) (proxies_ c) with
  | Some pc => Some pc
  | None => dynamic_proxies_ c !! name
  end.
Definition HandleNewUdpUserConn (pc : ProxyConfig) (ticket : string) (c : Client) : list client_action :=
  if mux_session_ (conn c)
  then [open_work_stream pc (ticket_buf (match compression with Some _ => true | None => false end) ticket)]
  else [].
Definition HandleNewUserConn (proxy_name ticket : string) (c : Client) : list client_action :=
  match find_proxy proxy_name c with
  | None => []
  | Some pc => if String.eqb (pc_type pc) "udp" then HandleNewUdpUserConn pc ticket c
               else [connect_local pc ticket]
  end.
(** The local service is connected. *)
Definition on_local_connected (pc : ProxyConfig) (ticket : string) (ec : error_code) (c : Client)
  : list client_action :=
  if decide (ec = ec_ok) then
    if mux_session_ (conn c)
    then [open_work_stream pc (ticket_buf (match compression with Some _ => true | None => false end) ticket)]
    else []
  else [].

(** ** Messages *)
Definition set_name (n : string) (c : Client) : Client := {|
  conn := conn c; name_ := n; proxies_ := proxies_ c; dynamic_proxies_ := dynamic_proxies_ c;
  proxy_rate_limiters_ := proxy_rate_limiters_ c; conf_armed := conf_armed c |}.
Definition HandleMessage (msg : Message) (conf : gmap string ProxyConfig) (c : Client)
  : result exn (Client * list client_action) :=
  match msg_type msg with
  | LoginResp =>
    resp ← LoginRespMessage_Deserialize (msg_body msg);
    Ok (if String.eqb (lresp_status resp) "ok" then
          RegisterProxies conf (if String.eqb (lresp_name resp) "" then c else set_name (lresp_name resp) c)
        else (c, []))
  | RegisterProxyResp =>
    _ ← RegisterProxyRespMessage_Deserialize (msg_body msg); Ok (c, [])
  | NewUserConn =>
    m ← NewUserConnMessage_Deserialize (msg_body msg);
    Ok (c, HandleNewUserConn (nuc_proxy_name m) (nuc_ticket m) c)
  | _ => Ok (c, [])
  end.

Definition on_client_header (conn_id : Z) (ec : error_code) (header : list byte) (c : Client)
  : Client * list client_action :=
  if negb (conn_id =? connection_id_ (conn c)) then (c, []) else
  if decide (ec = ec_ok) then
    let h := be_val header in
    if length_accepted h then
      (set_conn (set_read (control_body conn_id (frame_length h) (frame_compressed h)) (conn c)) c,
       [read_control (frame_length h)])
    else disconnect c
  else disconnect c.
(** A body that cannot be decoded is skipped, unless its size is not usable. *)
Definition on_client_body (conn_id : Z) (is_compressed : bool) (ec : error_code) (data : list byte)
    (conf : gmap string ProxyConfig) (c : Client) : Client * list client_action :=
  if negb (conn_id =? connection_id_ (conn c)) then (c, []) else
  if decide (ec = ec_ok) then
    let next (r : Client * list client_action) :=
      (set_conn (set_read (control_header conn_id) (conn r.1)) r.1, r.2 ++ [read_control 4]) in
    match decode_body is_compressed data with
    | bad_size | bad_data => disconnect c
    | decode_throws _ => next (c, [])
    | decoded_message msg =>
      match HandleMessage msg conf c with Ok r => next r | Err _ => next (c, []) end
    end
  else disconnect c.

(** ** Events *)
Inductive client_event : Type :=
| ev_resolved (conn_id : Z) (ec : error_code) (eps : list Z) (rebind : Z -> bool)
| ev_connect_failed (conn_id : Z)                        (* async_connect *)
| ev_handshaken (conn_id : Z) (ec : error_code)          (* of the TCP, TLS or WebSocket stream *)
| ev_handshake_timer (rebind : Z -> bool)
| ev_quic_connected (conn_id : Z) (stream : bool)        (* whether open_stream gave a stream *)
| ev_quic_peer_close
| ev_udp_read (ec : error_code) (data : list byte) (udp_open : bool)
| ev_posted (i : nat) (rebind : Z -> bool)               (* any posted call may run next *)
| ev_reconnect_timer
| ev_write_failed (conn_id : Z)
| ev_header (ec : error_code) (header : list byte)
| ev_body (ec : error_code) (data : list byte) (conf : gmap string ProxyConfig)
| ev_conf_timer (conf : gmap string ProxyConfig)
| ev_stop.

Definition on_conn (f : connection -> connection * list client_action) (c : Client) : Client * list client_action :=
  let '(k, a) := f (conn c) in (set_conn k c, a).
Definition run_posted (call : posted_call) (rebind : Z -> bool) (k : connection) : connection * list client_action :=
  match call with
  | posted_connect => if stopping_ k then (k, []) else DoConnect k
  | posted_quic_closed id => on_quic_closed id rebind k
  end.

(** The handshake is complete: the control stream is opened. *)
Definition on_quic_connected (conn_id : Z) (stream : bool) (c : Client) : Client * list client_action :=
  if negb (conn_id =? connection_id_ (conn c)) then (c, []) else
  let k := conn c in
  let c1 := set_conn (set_timers None (reconnect_armed k) (posted k) k) c in
  if stream then OnConnect ec_ok c1 else disconnect c1.

Definition client_step (ev : client_event) (c : Client) : option (Client * list client_action) :=
  let k := conn c in
  match ev with
  | ev_resolved id ec eps rebind => Some (on_conn (on_resolved id ec eps rebind) c)
  | ev_connect_failed id => Some (if negb (id =? connection_id_ k) then (c, []) else disconnect c)
  | ev_handshaken id ec => Some (if negb (id =? connection_id_ k) then (c, []) else OnConnect ec c)
  | ev_handshake_timer rebind =>
    match handshake_armed k with
    | Some id => Some (on_conn (on_handshake_timer id rebind)
                         (set_conn (set_timers None (reconnect_armed k) (posted k) k) c))
    | None => None
    end
  | ev_quic_connected id stream => Some (on_quic_connected id stream c)
  | ev_quic_peer_close => Some (set_conn (on_quic_peer_close k) c, [])
  | ev_udp_read ec data udp_open => Some (on_udp_read ec data udp_open c)
  | ev_posted i rebind =>
    match posted k !! i with
    | Some call => Some (on_conn (run_posted call rebind)
        (set_conn (set_timers (handshake_armed k) (reconnect_armed k) (delete i (posted k)) k) c))
    | None => None
    end
  | ev_reconnect_timer =>
    match reconnect_armed k with
    | Some _ => Some (on_conn DoConnect (set_conn (set_timers (handshake_armed k) None (posted k) k) c))
    | None => None
    end
  | ev_write_failed id => Some (if negb (id =? connection_id_ k) then (c, []) else disconnect c)
  | ev_header ec header =>
    match control_read k with
    | control_header id =>
      if (if decide (ec = ec_ok) then zlen header =? 4 else true)
      then Some (on_client_header id ec header c) else None
    | _ => None
    end
  | ev_body ec data conf =>
    match control_read k with
    | control_body id len is_compressed =>
      if (if decide (ec = ec_ok) then zlen data =? len else true)
      then Some (on_client_body id is_compressed ec data conf c) else None
    | _ => None
    end
  | ev_conf_timer conf => if conf_armed c then Some (PollConfDirectory conf c) else None
  | ev_stop => Some (on_conn Stop c)
  end.
Fixpoint client_run (evs : list client_event) (c : Client) : option (Client * list client_action) :=
  match evs with
  | [] => Some (c, [])
  | ev :: evs' => '(c1, a1) ← client_step ev c; '(c2, a2) ← client_run evs' c1; mret (c2, a1 ++ a2)
  end.

(** ** Failover and back-off *)
Definition Run (c : Client) : Client * list client_action := on_conn DoConnect c.
Definition all_usable : Z -> bool := fun _ => true.
(** Whether a failed attempt is followed at once by the next protocol. *)
Definition fails_over (protocol : string) : bool :=
  String.eqb protocol_ "auto" && (String.eqb protocol "quic" || String.eqb protocol "tcp").
(** The pending attempt fails to resolve the server, and the next one begins
    by the call or the timer the failure left behind. *)
Definition round (k : connection) : list client_event :=
  [ev_resolved (connection_id_ k) ec_eof [] all_usable;
   if fails_over (current_protocol_ k) then ev_posted 0 all_usable else ev_reconnect_timer].
Fixpoint rounds (n : nat) (c : Client) : option (Client * list client_action) :=
  match n with
  | O => Some (c, [])
  | S n' => '(c1, a1) ← rounds n' c; '(c2, a2) ← client_run (round (conn c1)) c1; mret (c2, a1 ++ a2)
  end.
Definition delays (a : list client_action) : list Z :=
  omap (fun x => match x with arm_reconnect d => Some d | _ => None end) a.
Lemma delays_app a1 a2 : delays (a1 ++ a2) = delays a1 ++ delays a2.
Proof. apply omap_app. Qed.
(** The back-off before the [j]-th scheduled reconnection. *)
Definition backoff (j : nat) : Z := Z.min (10 * Z.of_nat j) 600.
Definition protocol_cycle (n : nat) : string :=
  match (n mod 3)%nat with O => "quic" | S O => "tcp" | _ => "websocket" end.
Definition next_protocol (p : string) : string :=
  if String.eqb p "quic" then "tcp" else if String.eqb p "tcp" then "websocket" else "quic".
Lemma backoff_bounded j : 0 <= backoff j <= 600.
Proof. unfold backoff. lia. Qed.

(** An attempt is pending; [j] reconnections were scheduled so far. *)
Record pending_attempt (j : nat) (k : connection) : Prop := {
  pa_stop : stopping_ k = false;
  pa_mux : mux_session_ k = false;
  pa_quic : quic_session_ k = None;
  pa_posted : posted k = [];
  pa_delay : reconnect_delay_sec_ k = backoff j
}.
Lemma backoff_next j : (if backoff j <? 600 then backoff j + 10 else backoff j) = backoff (S j).
Proof. unfold backoff. destruct (_ <? _) eqn:E; bool_hyps; lia. Qed.

Lemma round_spec j c : pending_attempt j (conn c) ->
  exists c' a, client_run (round (conn c)) c = Some (c', a) /\
  let over := fails_over (current_protocol_ (conn c)) in
  pending_attempt (if over then j else S j) (conn c') /\
  current_protocol_ (conn c') = (if String.eqb protocol_ "auto" then next_protocol (current_protocol_ (conn c))
                                 else current_protocol_ (conn c)) /\
  delays a = (if over then [] else [backoff j]) /\ last a = Some (resolve (connection_id_ (conn c'))).
Proof.
  intros [Hs Hm Hq Hp Hd]. unfold round, fails_over.
  cbn [client_run client_step]. unfold on_conn, on_resolved. rewrite Z.eqb_refl. cbn [negb].
  rewrite decide_False by done. unfold HandleDisconnect, ScheduleReconnect, close_quic, next_protocol.
  cbn -[String.eqb Z.ltb Z.add backoff]. rewrite Hs, Hm, Hq, Hp.
  destruct (String.eqb protocol_ "auto"); cbn -[String.eqb Z.ltb Z.add backoff].
  - destruct (String.eqb (current_protocol_ (conn c)) "quic"); cbn -[String.eqb Z.ltb Z.add backoff];
      [|destruct (String.eqb (current_protocol_ (conn c)) "tcp"); cbn -[String.eqb Z.ltb Z.add backoff]];
      rewrite ?Hs; eexists _, _; (split; [done|]); cbn -[String.eqb Z.ltb Z.add backoff];
      rewrite ?Hd, ?backoff_next; by repeat split.
  - eexists _, _; (split; [done|]); cbn -[String.eqb Z.ltb Z.add backoff];
      rewrite ?Hd, ?backoff_next; by repeat split.
Qed.

Lemma rounds_fixed n c : protocol_ <> "auto" -> pending_attempt 0 (conn c) ->
  exists c' a, rounds n c = Some (c', a) /\ pending_attempt n (conn c') /\
  current_protocol_ (conn c') = current_protocol_ (conn c) /\ delays a = map backoff (seq 0 n) /\
  (n = 0%nat \/ last a = Some (resolve (connection_id_ (conn c')))).
Proof.
  intros Hp Hc. apply String.eqb_neq in Hp. induction n as [|n IH]; cbn [rounds].
  { exists c, []. repeat split; try apply Hc. by left. }
  destruct IH as (c1 & a1 & -> & H1 & H2 & H3 & _). cbn [mbind option_bind].
  destruct (round_spec n c1 H1) as (c2 & a2 & -> & J). unfold fails_over in J. rewrite Hp in J. cbn [andb] in J.
  destruct J as (J1 & J2 & J3 & J4). exists c2, (a1 ++ a2). split; [done|]. split; [done|].
  split; [congruence|]. rewrite delays_app, H3, J3, seq_S, map_app. split; [done|]. right.
  by rewrite last_app, J4.
Qed.
Lemma rounds_auto n c : protocol_ = "auto" -> pending_attempt 0 (conn c) -> current_protocol_ (conn c) = "quic" ->
  exists q r c' a, n = (3 * q + r)%nat /\ (r < 3)%nat /\ rounds n c = Some (c', a) /\
  pending_attempt q (conn c') /\ current_protocol_ (conn c') = protocol_cycle r /\
  delays a = map backoff (seq 0 q) /\ (n = 0%nat \/ last a = Some (resolve (connection_id_ (conn c')))).
Proof.
  intros Hp Hc Hq. induction n as [|n (q & r & c1 & a1 & Hn & Hr & IH)]; cbn [rounds].
  { exists 0%nat, 0%nat, c, []. repeat split; try apply Hc; try done; [lia|by left]. }
  destruct IH as (-> & H1 & H2 & H3 & _). cbn [mbind option_bind].
  destruct (round_spec q c1 H1) as (c2 & a2 & -> & J). unfold fails_over, next_protocol in J.
  rewrite Hp, H2 in J.
  destruct r as [|[|[|r]]]; [..|lia]; cbn -[seq backoff] in J; destruct J as (J1 & J2 & J3 & J4);
    [exists q, 1%nat|exists q, 2%nat|exists (S q), 0%nat];
    exists c2, (a1 ++ a2); rewrite delays_app, H3, last_app, J3, J4, ?app_nil_r, ?seq_S, ?map_app.
  all: do 6 (split; [done || lia|]); by right.
Qed.


(** ** Trying QUIC endpoints *)
(** A connection attempt over QUIC: [index] endpoints of [eps] were taken, the
    session of the last one is open. *)
Record attempt : Type := {
  at_id : Z; at_delay : Z; at_reconnect : option Z; at_read : client_read; at_eps : list Z
}.
Definition trying (t : attempt) (index : nat) (h : option Z) (q : list posted_call) : connection :=
  {| connection_id_ := at_id t; current_protocol_ := "quic"; reconnect_delay_sec_ := at_delay t;
     stopping_ := false; mux_session_ := false; control_stream_ := false;
     quic_session_ := Some (at_id t, false); quic_endpoints_ := at_eps t; quic_endpoint_index_ := index;
     handshake_armed := h; reconnect_armed := at_reconnect t; control_read := at_read t; posted := q |}.
(** The attempt is given up for TCP. *)
Definition given_up (t : attempt) (q : list posted_call) : connection :=
  {| connection_id_ := at_id t + 1; current_protocol_ := "tcp"; reconnect_delay_sec_ := at_delay t;
     stopping_ := false; mux_session_ := false; control_stream_ := false; quic_session_ := None;
     quic_endpoints_ := at_eps t; quic_endpoint_index_ := length (at_eps t); handshake_armed := None;
     reconnect_armed := at_reconnect t; control_read := at_read t; posted := q |}.
Lemma try_next_more t index h q e rest : drop index (at_eps t) = e :: rest ->
  TryNextQuicEndpoint (at_id t) all_usable (trying t index h q) =
    (trying t (S index) (Some (at_id t)) (q ++ [posted_quic_closed (at_id t)]), [quic_connect (at_id t) e], true).
Proof.
  intros Hd. unfold TryNextQuicEndpoint. cbn [connection_id_ trying]. rewrite Z.eqb_refl. cbn [negb].
  cbn [quic_endpoint_index_ quic_endpoints_ trying]. by rewrite Hd.
Qed.
Lemma try_next_none t index h q : drop index (at_eps t) = [] -> protocol_ = "auto" ->
  on_quic_closed (at_id t) all_usable (trying t index h q) =
    (given_up t ((q ++ [posted_quic_closed (at_id t)]) ++ [posted_connect]), []).
Proof.
  intros Hd Hp. unfold on_quic_closed, TryNextQuicEndpoint. cbn [connection_id_ trying]. rewrite Z.eqb_refl. cbn [negb].
  cbn [quic_endpoint_index_ quic_endpoints_ trying]. rewrite Hd. cbn [next_endpoint].
  unfold HandleDisconnect. by rewrite Hp.
Qed.
Lemma on_closed_more t index h q e rest : drop index (at_eps t) = e :: rest ->
  on_quic_closed (at_id t) all_usable (trying t index h q) =
    (trying t (S index) (Some (at_id t)) (q ++ [posted_quic_closed (at_id t)]), [quic_connect (at_id t) e]).
Proof.
  intros Hd. unfold on_quic_closed. cbn [connection_id_ trying]. rewrite Z.eqb_refl. cbn [negb].
  by rewrite (try_next_more t index h q e rest).
Qed.

Lemma drop_next {A} i (l : list A) e rest : drop i l = e :: rest -> drop (S i) l = rest.
Proof. revert i. induction l as [|x l IH]; intros [|i] Hd; try done; cbn in *; [by injection Hd|by apply IH]. Qed.
(** Each notification closes the endpoint just begun and begins the next. *)
Lemma closed_cascade t index h c rest : protocol_ = "auto" -> drop index (at_eps t) = rest ->
  client_run (repeat (ev_posted 0 all_usable) (S (length rest)))
    (set_conn (trying t index h [posted_quic_closed (at_id t)]) c) =
    Some (set_conn (given_up t [posted_quic_closed (at_id t); posted_connect]) c, map (quic_connect (at_id t)) rest).
Proof.
  intros Hp. revert index h. induction rest as [|e rest IH]; intros index h Hd.
  - cbn [length repeat client_run client_step conn set_conn posted trying]. cbn [lookup list_lookup].
    unfold on_conn. cbn [run_posted conn set_conn delete list_delete].
    change (set_timers _ _ _ (trying t index h _)) with (trying t index h []).
    rewrite try_next_none by done. done.
  - change (repeat (ev_posted 0 all_usable) (S (length (e :: rest)))) with
      (ev_posted 0 all_usable :: repeat (ev_posted 0 all_usable) (S (length rest))).
    cbn [client_run client_step conn set_conn posted trying]. cbn [lookup list_lookup].
    unfold on_conn. cbn [run_posted conn set_conn delete list_delete].
    change (set_timers _ _ _ (trying t index h _)) with (trying t index h []).
    rewrite (on_closed_more t index h [] e rest Hd). cbn [mbind option_bind app].
    change (set_conn (trying t (S index) ?x ?y) _) with (set_conn (trying t (S index) x y) c).
    rewrite (IH (S index) (Some (at_id t))) by (by eapply drop_next). done.
Qed.

Lemma dedup_id eps seen : NoDup eps -> (forall e, e ∈ eps -> e ∉ seen) -> dedup eps seen = eps.
Proof.
  revert seen. induction eps as [|e eps IH]; intros seen Hnd Hs; [done|]. cbn [dedup].
  apply NoDup_cons in Hnd as [He Hnd]. rewrite decide_False by (apply Hs; by left). f_equal. apply IH; [done|].
  intros x Hx [Hin|Hin%list_elem_of_singleton]%elem_of_app; [by apply (Hs x); [right|]|by subst].
Qed.
(** The first attempt of a client whose server resolves to [e0 :: eps]. *)
Lemma resolved_quic name e0 eps : protocol_ = "auto" -> NoDup (e0 :: eps) -> exists c,
  client_step (ev_resolved 1 ec_ok (e0 :: eps) all_usable) (Run (new_client name)).1 =
    Some (set_conn (trying {| at_id := 1; at_delay := 0; at_reconnect := None; at_read := no_control_read;
                              at_eps := e0 :: eps |} 1 (Some 1) []) c, [quic_connect 1 e0]).
Proof.
  intros Hp Hnd. exists (Run (new_client name)).1. cbn [client_step]. unfold on_conn, on_resolved, Run, on_conn, new_client.
  cbn [DoConnect conn set_conn connection_id_ fst]. cbn [Z.add Z.eqb Pos.eqb negb]. rewrite decide_True by done.
  rewrite Hp. cbn [String.eqb current_protocol_ Ascii.eqb Bool.eqb]. rewrite (dedup_id (e0 :: eps) []) by (done || set_solver).
  done.
Qed.
(** The remaining QUIC endpoints are abandoned unanswered: with the
    protocol setting auto, when the handshake timer of the first endpoint
    fires, the client begins the second, and the notification that the first
    session was closed, which carries the number of the connection still being
    tried, makes it close that one and begin the next; with nothing but its own
    posted notifications every endpoint the server resolved to is begun and
    dropped, and the client moves to TCP. *)
Theorem client_quic_endpoints_abandoned name e0 e1 eps : protocol_ = "auto" -> NoDup (e0 :: e1 :: eps) ->
  exists c, client_run (ev_resolved 1 ec_ok (e0 :: e1 :: eps) all_usable :: ev_handshake_timer all_usable ::
                        repeat (ev_posted 0 all_usable) (S (length eps))) (Run (new_client name)).1 =
      Some (c, map (quic_connect 1) (e0 :: e1 :: eps)) /\
    current_protocol_ (conn c) = "tcp" /\ quic_session_ (conn c) = None /\ posted_connect ∈ posted (conn c).
Proof.
  intros Hp Hnd. destruct (resolved_quic name e0 (e1 :: eps) Hp Hnd) as [c Hc].
  set (t := Build_attempt _ _ _ _ _) in Hc.
  exists (set_conn (given_up t [posted_quic_closed 1; posted_connect]) c). split; [|by repeat constructor].
  cbn [client_run]. rewrite Hc. cbn [mbind option_bind client_step handshake_armed conn set_conn trying].
  unfold on_conn, on_handshake_timer. change (set_timers _ _ _ (trying t 1 _ _)) with (trying t 1 None []).
  cbn [conn set_conn]. rewrite Hp. cbn [String.eqb Ascii.eqb Bool.eqb negb connection_id_ current_protocol_ trying].
  change (at_id t) with 1. cbn [Z.eqb Pos.eqb negb].
  pose proof (try_next_more t 1 None [] e1 eps eq_refl) as Hn. change (at_id t) with 1 in Hn. rewrite Hn.
  cbn [mbind option_bind app]. change (set_conn (trying t 2 ?h ?q) _) with (set_conn (trying t 2 h q) c).
  pose proof (closed_cascade t 2 (Some 1) c eps Hp eq_refl) as Hcl. change (at_id t) with 1 in Hcl. by rewrite Hcl.
Qed.

(** ** What the server has been told *)
(** The registrations a server holds that has handled the messages so far. *)
Record registration : Type := { reg_type : string; reg_port : Z; reg_domains : list string }.
Definition registration_of (pc : ProxyConfig) : registration :=
  {| reg_type := pc_type pc; reg_port := remote_port pc; reg_domains := custom_domains pc |}.
Definition told (view : gmap string registration) (a : client_action) : gmap string registration :=
  match a with
  | send_control msg _ =>
    match msg_type msg with
    | Protocol.RegisterProxy =>
      match RegisterProxyMessage_Deserialize (msg_body msg) with
      | Ok m => <[rp_name m := {| reg_type := rp_type m; reg_port := rp_remote_port m;
                                  reg_domains := rp_custom_domains m |}]> view
      | Err _ => view
      end
    | Protocol.UnregisterProxy =>
      match UnregisterProxyMessage_Deserialize (msg_body msg) with
      | Ok m => delete (up_name m) view
      | Err _ => view
      end
    | _ => view
    end
  | _ => view
  end.
Definition told_all (view : gmap string registration) (a : list client_action) : gmap string registration :=
  foldl told view a.
Definition pc_fits (pc : ProxyConfig) : Prop :=
  str_fits (pc_name pc) /\ str_fits (pc_type pc) /\ uint16_fits (remote_port pc) /\
  vec_fits (custom_domains pc) /\ int64_fits (bandwidth_limit pc).

Lemma told_all_app view a1 a2 : told_all view (a1 ++ a2) = told_all (told_all view a1) a2.
Proof. apply foldl_app. Qed.
Lemma told_register pc c view : control_stream_ (conn c) = true -> pc_fits pc ->
  told_all view (RegisterProxy pc c).2 = <[pc_name pc := registration_of pc]> view.
Proof.
  intros Hc Hf. unfold RegisterProxy, SendMessage. rewrite Hc. cbn [snd told_all foldl told msg_type msg_body].
  match goal with |- context [RegisterProxyMessage_Serialize ?m] =>
    pose proof (deserialize_serialize (A := RegisterProxyMessage) m Hf) as Hd end.
  cbn [Serialize Deserialize RegisterProxyMessage_wire] in Hd. by rewrite Hd.
Qed.
Lemma told_unregister n c view : control_stream_ (conn c) = true -> str_fits n ->
  told_all view (UnregisterProxy n c).2 = delete n view.
Proof.
  intros Hc Hf. unfold UnregisterProxy, SendMessage. rewrite Hc. cbn [snd told_all foldl told msg_type msg_body].
  pose proof (deserialize_serialize (A := UnregisterProxyMessage) {| up_name := n |} Hf) as Hd.
  cbn [Serialize Deserialize UnregisterProxyMessage_wire] in Hd. by rewrite Hd.
Qed.
(** Registering and unregistering touch neither the connection nor the map. *)
Lemma register_keeps pc c : conn (RegisterProxy pc c).1 = conn c /\
  dynamic_proxies_ (RegisterProxy pc c).1 = dynamic_proxies_ c.
Proof. done. Qed.

Lemma each_unregister ns c view : control_stream_ (conn c) = true -> Forall str_fits ns ->
  (each UnregisterProxy ns c).1 = c /\
  forall n, told_all view (each UnregisterProxy ns c).2 !! n = if decide (n ∈ ns) then None else view !! n.
Proof.
  intros Hc. revert view. induction ns as [|m ns IH]; intros view Hf.
  - split; [done|]. intros n. by rewrite decide_False by apply not_elem_of_nil.
  - apply Forall_cons in Hf as [Hm Hf]. cbn [each].
    pose proof (told_unregister m c view Hc Hm) as Ht. cbn [UnregisterProxy fst snd] in *.
    specialize (IH (told_all view (SendMessage Protocol.UnregisterProxy
      (UnregisterProxyMessage_Serialize {| up_name := m |}) c)) Hf).
    destruct (each UnregisterProxy ns c) as [c2 a2]. cbn [fst snd] in *. destruct IH as [-> IH].
    split; [done|]. intros n. rewrite told_all_app, IH, Ht.
    destruct (decide (n = m)) as [->|Hn].
    + rewrite (decide_True (P := m ∈ m :: ns)) by (by left). case_decide; [done|]. apply lookup_delete_eq.
    + rewrite lookup_delete_ne by done. repeat case_decide; rewrite elem_of_cons in *; naive_solver.
Qed.

(** One entry of the new map. *)
Lemma told_poll_one n pc c view : control_stream_ (conn c) = true -> pc_fits pc -> pc_name pc = n ->
  (forall old, dynamic_proxies_ c !! n = Some old -> view !! n = Some (registration_of old)) ->
  let '(c', a) := poll_one (n, pc) c in
  conn c' = conn c /\ dynamic_proxies_ c' = dynamic_proxies_ c /\
  told_all view a !! n = Some (registration_of pc) /\ (forall m, m <> n -> told_all view a !! m = view !! m).
Proof.
  intros Hc Hf Hn Hv. unfold poll_one. cbn [fst snd].
  pose proof (told_register pc c view Hc Hf) as Hr. rewrite Hn in Hr.
  destruct (dynamic_proxies_ c !! n) as [old|] eqn:E.
  - destruct (proxy_changed old pc) eqn:Hch.
    + cbn [UnregisterProxy]. destruct (register_keeps pc c) as [K1 K2].
      pose proof (told_unregister n c view Hc ltac:(rewrite <- Hn; apply Hf)) as Hu. cbn [UnregisterProxy snd] in Hu.
      pose proof (told_register pc c (delete n view) Hc Hf) as Hr2. rewrite Hn in Hr2.
      destruct (RegisterProxy pc c) as [c2 a2]. cbn [fst snd] in *. split; [done|]. split; [done|].
      rewrite told_all_app, Hu, Hr2. split; [apply lookup_insert_eq|].
      intros m Hm. by rewrite lookup_insert_ne, lookup_delete_ne.
    + split; [done|]. split; [done|]. split; [|done]. cbn. rewrite (Hv old eq_refl). f_equal.
      unfold proxy_changed in Hch. apply orb_false_iff in Hch as [Hch H5]. apply orb_false_iff in Hch as [Hch H4].
      apply orb_false_iff in Hch as [Hch _]. apply orb_false_iff in Hch as [H1 _].
      apply negb_false_iff in H1, H4, H5. apply String.eqb_eq in H1. apply Z.eqb_eq in H4.
      apply bool_decide_eq_true in H5. unfold registration_of. by rewrite H1, H4, H5.
  - destruct (register_keeps pc c) as [K1 K2]. destruct (RegisterProxy pc c) as [c2 a2]. cbn [fst snd] in *.
    split; [done|]. split; [done|]. rewrite Hr. split; [apply lookup_insert_eq|].
    intros m Hm. by rewrite lookup_insert_ne.
Qed.
Lemma each_poll l c view : control_stream_ (conn c) = true -> NoDup (map fst l) ->
  (forall n pc, (n, pc) ∈ l -> pc_fits pc /\ pc_name pc = n /\
     forall old, dynamic_proxies_ c !! n = Some old -> view !! n = Some (registration_of old)) ->
  let '(c', a) := each poll_one l c in
  conn c' = conn c /\
  (forall n pc, (n, pc) ∈ l -> told_all view a !! n = Some (registration_of pc)) /\
  (forall m, m ∉ map fst l -> told_all view a !! m = view !! m).
Proof.
  revert c view. induction l as [|[n pc] l IH]; intros c view Hc Hnd Hl; cbn [each].
  { split; [done|]. split; [|done]. intros n pc Hin. by apply not_elem_of_nil in Hin. }
  cbn [map fst] in Hnd. apply NoDup_cons in Hnd as [Hn Hnd].
  destruct (Hl n pc ltac:(by left)) as (Hf & Hname & Hv).
  pose proof (told_poll_one n pc c view Hc Hf Hname Hv) as H1. destruct (poll_one (n, pc) c) as [c1 a1].
  destruct H1 as (K1 & K2 & Hthis & Hother).
  assert (Hfresh : forall m pc', (m, pc') ∈ l -> m <> n).
  { intros m pc' Hin ->. apply Hn. apply list_elem_of_fmap. by exists (n, pc'). }
  specialize (IH c1 (told_all view a1)). rewrite K1, K2 in IH.
  destruct (each poll_one l c1) as [c2 a2]. destruct IH as (J1 & J2 & J3); [done|done| |].
  { intros m pc' Hin. destruct (Hl m pc' ltac:(by right)) as (? & ? & Hv'). split; [done|]. split; [done|].
    intros old Hold. rewrite Hother by (by apply (Hfresh m pc')). by apply Hv'. }
  split; [congruence|]. split.
  - intros m pc' Hin. rewrite told_all_app. apply elem_of_cons in Hin as [[= -> ->]|Hin]; [|by apply J2].
    by rewrite J3.
  - intros m Hm. cbn in Hm. apply not_elem_of_cons in Hm as [Hm1 Hm2]. rewrite told_all_app, J3 by done.
    by apply Hother.
Qed.
Lemma NoDup_keys {A} (m : gmap string A) : NoDup (map fst (map_to_list m)).
Proof. apply NoDup_fst_map_to_list. Qed.
Lemma elem_of_keys {A} (m : gmap string A) n : n ∈ map fst (map_to_list m) <-> is_Some (m !! n).
Proof.
  rewrite list_elem_of_fmap. split.
  - intros ([k v] & -> & Hin%elem_of_map_to_list). by exists v.
  - intros [v Hv]. exists (n, v). split; [done|]. by apply elem_of_map_to_list.
Qed.
(** Every proxy of a directory is filed under its own name and can be sent. *)
Definition conf_fits (conf : gmap string ProxyConfig) : Prop :=
  forall n pc, conf !! n = Some pc -> pc_fits pc /\ pc_name pc = n.


Lemma each_register l c view : control_stream_ (conn c) = true -> Forall pc_fits l ->
  let '(c', a) := each RegisterProxy l c in
  conn c' = conn c /\ dynamic_proxies_ c' = dynamic_proxies_ c /\
  forall n, n ∉ map pc_name l -> told_all view a !! n = view !! n.
Proof.
  revert c view. induction l as [|pc l IH]; intros c view Hc Hl; cbn [each]; [done|].
  apply Forall_cons in Hl as [Hpc Hl].
  pose proof (told_register pc c view Hc Hpc) as Hr. destruct (register_keeps pc c) as [K1 K2].
  destruct (RegisterProxy pc c) as [c1 a1]. cbn [fst snd] in *. specialize (IH c1 (told_all view a1)).
  rewrite K1, K2 in IH. destruct (each RegisterProxy l c1) as [c2 a2]. destruct IH as (J1 & J2 & J3); [done..|].
  split; [done|]. split; [done|]. intros n Hn. cbn in Hn. apply not_elem_of_cons in Hn as [Hn1 Hn2].
  rewrite told_all_app, J3, Hr by done. by apply lookup_insert_ne.
Qed.
Lemma proxy_unchanged pc : proxy_changed pc pc = false.
Proof. unfold proxy_changed. rewrite !String.eqb_refl, !Z.eqb_refl, bool_decide_eq_true_2 by done. done. Qed.
Lemma poll_nothing_new c : PollConfDirectory (dynamic_proxies_ c) c =
  ({| conn := conn c; name_ := name_ c; proxies_ := proxies_ c; dynamic_proxies_ := dynamic_proxies_ c;
      proxy_rate_limiters_ := proxy_rate_limiters_ c; conf_armed := true |}, [arm_conf_timer]).
Proof.
  unfold PollConfDirectory.
  assert (filter (fun n => dynamic_proxies_ c !! n = None) (map fst (map_to_list (dynamic_proxies_ c))) = []) as ->.
  { apply elem_of_nil_inv. intros n. rewrite list_elem_of_filter, elem_of_keys. intros [Hn [v Hv]]. congruence. }
  cbn [each].
  assert (Hl : forall l, (forall n pc, (n, pc) ∈ l -> dynamic_proxies_ c !! n = Some pc) -> each poll_one l c = (c, [])).
  { induction l as [|[n pc] l IH]; intros H1; [done|]. cbn [each]. unfold poll_one at 1. cbn [fst snd].
    rewrite (H1 n pc) by (by left). rewrite proxy_unchanged, IH; [done|]. intros m pc' Hin. apply H1. by right. }
  rewrite Hl by (by intros n pc Hin%elem_of_map_to_list). done.
Qed.

(** The dynamic proxies are lost by a reconnection: the client keeps its
    record of what it registered across a disconnection, so when the new
    connection's login is accepted and the directory holds what it held
    before, only the static proxies are registered with the server, which
    never hears of a proxy of the directory again. *)
Theorem client_dynamic_proxies_lost conf c body resp : conf_d = true -> dynamic_proxies_ c = conf ->
  Forall pc_fits (proxies_ c) -> LoginRespMessage_Deserialize body = Ok resp -> lresp_status resp = "ok" ->
  let c2 := (OnConnect ec_ok (disconnect c).1).1 in
  exists c3 a, HandleMessage {| msg_type := LoginResp; msg_body := body |} conf c2 = Ok (c3, a) /\
    dynamic_proxies_ c3 = conf /\ control_stream_ (conn c3) = true /\
    forall n, n ∉ map pc_name (proxies_ c) -> told_all ∅ a !! n = None.
Proof.
  intros Hd Hconf Hf Hb Hs c2. unfold HandleMessage. cbn [msg_type msg_body]. rewrite Hb. cbn [mbind result_mbind result_bind].
  rewrite Hs. cbn [String.eqb Ascii.eqb Bool.eqb].
  set (c2' := if String.eqb (lresp_name resp) "" then c2 else set_name (lresp_name resp) c2).
  assert (H2 : control_stream_ (conn c2) = true /\ proxies_ c2 = proxies_ c /\ dynamic_proxies_ c2 = conf).
  { unfold c2, OnConnect, disconnect. rewrite decide_True by done.
    by destruct (HandleDisconnect (conn c)) as [k1 a1]. }
  assert (H2' : control_stream_ (conn c2') = true /\ proxies_ c2' = proxies_ c /\ dynamic_proxies_ c2' = conf).
  { unfold c2'. by destruct (String.eqb _ _). }
  destruct H2' as (K1 & K2 & K3). unfold RegisterProxies. rewrite K2, Hd.
  pose proof (each_register (proxies_ c) c2' ∅ K1 Hf) as H3.
  destruct (each RegisterProxy (proxies_ c) c2') as [c3 a3]. destruct H3 as (J1 & J2 & J3).
  replace conf with (dynamic_proxies_ c3) by congruence. rewrite poll_nothing_new.
  eexists _, _. split; [done|]. split; [done|]. split; [cbn [conn]; congruence|].
  intros n Hn. rewrite told_all_app. cbn [told_all foldl told]. rewrite J3 by done. apply lookup_empty.
Qed.

(** A stopped client reconnects: [Stop] leaves the reconnection timer
    armed, and neither its handler nor the completions that follow look at
    [stopping_]; the client connects over TCP or WebSocket, takes the
    connection and logs in again. *)
Theorem client_reconnects_after_stop c d eps :
  reconnect_armed (conn c) = Some d -> current_protocol_ (conn c) <> "quic" ->
  let id := connection_id_ (conn c) + 2 in
  exists c' a, client_run [ev_stop; ev_reconnect_timer; ev_resolved id ec_ok eps all_usable; ev_handshaken id ec_ok] c =
      Some (c', a) /\
    stopping_ (conn c') = true /\ mux_session_ (conn c') = true /\
    exists msg, msg_type msg = Login /\ send_control msg (control_frame compression msg) ∈ a.
Proof.
  intros Hr Hp id. set (c1 := (on_conn Stop c).1).
  assert (H1 : stopping_ (conn c1) = true /\ connection_id_ (conn c1) = connection_id_ (conn c) + 1 /\
               reconnect_armed (conn c1) = Some d /\ current_protocol_ (conn c1) = current_protocol_ (conn c)) by done.
  destruct H1 as (K1 & K2 & K3 & K4). cbn [client_run client_step].
  destruct (on_conn Stop c) as [c1' a1] eqn:E. cbn [mbind option_bind]. subst c1. cbn [fst] in *. rewrite K3.
  assert (Hid : (id =? connection_id_ (conn c) + 1 + 1) = true) by (apply Z.eqb_eq; lia).
  unfold on_conn, on_resolved, OnConnect.
  cbn -[control_frame Z.add String.eqb Z.eqb DoLogin]. rewrite K2, K4, Hid. apply String.eqb_neq in Hp.
  rewrite !decide_True by done. rewrite Hp. cbn -[control_frame Z.add String.eqb Z.eqb DoLogin]. rewrite Hid.
  cbn -[control_frame Z.add String.eqb Z.eqb DoLogin].
  eexists _, _. split; [done|]. split; [done|]. split; [done|].
  exists {| msg_type := Login;
    msg_body := LoginMessage_Serialize {| login_token := token_; login_name := name_ c1' |} |}.
  split; [done|]. apply elem_of_app. right. right. right. left.
Qed.
End Client.

(** ** Instances *)
Section Witnesses.
#[local] Existing Instance rle_zstd.
#[local] Existing Instance rle_laws.
Definition ex_client := new_client "auto" "c".
Definition ex_web : ProxyConfig := {| pc_name := "web"; pc_type := "http"; local_ip := "127.0.0.1"; local_port := 8080;
  remote_port := 80; custom_domains := ["a.example"]; bandwidth_limit := 0 |}.
Definition ex_ssh : ProxyConfig := {| pc_name := "ssh"; pc_type := "tcp"; local_ip := "127.0.0.1"; local_port := 22;
  remote_port := 6000; custom_domains := []; bandwidth_limit := 0 |}.
Definition ex_on_tcp (r : option Z) : Client := set_conn
  {| connection_id_ := 5; current_protocol_ := "tcp"; reconnect_delay_sec_ := 20; stopping_ := false;
     mux_session_ := false; control_stream_ := true; quic_session_ := None; quic_endpoints_ := [];
     quic_endpoint_index_ := 0; handshake_armed := None; reconnect_armed := r;
     control_read := control_header 5; posted := [] |} ex_client.
Definition ex_dynamic (m : gmap string ProxyConfig) (c : Client) : Client :=
  {| conn := conn c; name_ := name_ c; proxies_ := [ex_ssh]; dynamic_proxies_ := m;
     proxy_rate_limiters_ := ∅; conf_armed := true |}.

Lemma client_quic_endpoints_abandoned_witness :
  NoDup [10; 11; 12] /\ exists c, client_run "auto" "" None false
    (ev_resolved 1 ec_ok [10; 11; 12] all_usable :: ev_handshake_timer all_usable ::
     repeat (ev_posted 0 all_usable) 2) (Run (new_client "auto" "c")).1 = Some (c, map (quic_connect 1) [10; 11; 12]) /\
    current_protocol_ (conn c) = "tcp" /\ quic_session_ (conn c) = None /\ posted_connect ∈ posted (conn c).
Proof.
  assert (Hn : NoDup [10; 11; 12]) by (by apply (bool_decide_unpack _); vm_compute).
  split; [exact Hn|].
  exact (client_quic_endpoints_abandoned "auto" "" None false "c" 10 11 [12] eq_refl Hn).
Defined.

Lemma client_reconnects_after_stop_witness :
  exists c' a, client_run "tcp" "" None false
      [ev_stop; ev_reconnect_timer; ev_resolved 7 ec_ok [1] all_usable; ev_handshaken 7 ec_ok] (ex_on_tcp (Some 10)) =
      Some (c', a) /\
    stopping_ (conn c') = true /\ mux_session_ (conn c') = true /\
    exists msg, msg_type msg = Login /\ send_control msg (control_frame None msg) ∈ a.
Proof.
  exact (client_reconnects_after_stop "tcp" "" None false (ex_on_tcp (Some 10)) 10 [1] eq_refl ltac:(discriminate)).
Defined.

Lemma web_fits : pc_fits ex_web.
Proof. repeat split; try (repeat constructor); by vm_compute. Qed.
Lemma ssh_fits : pc_fits ex_ssh.
Proof. repeat split; try (repeat constructor); by vm_compute. Qed.
Lemma conf_web_fits : conf_fits {["web" := ex_web]}.
Proof. intros n pc [<- <-]%lookup_singleton_Some. split; [apply web_fits|done]. Qed.

Definition ex_client_web : Client := ex_dynamic {["web" := ex_web]} (ex_on_tcp None).
Definition ex_view : gmap string registration := {["web" := registration_of ex_web]}.
Definition ex_conf : gmap string ProxyConfig := ∅.

Definition ex_ok : LoginRespMessage := {| lresp_status := "ok"; lresp_name := ""; lresp_message := "" |}.
Lemma client_dynamic_proxies_lost_witness :
  exists c3 a, HandleMessage None true {| msg_type := LoginResp; msg_body := LoginRespMessage_Serialize ex_ok |}
      (dynamic_proxies_ ex_client_web) (OnConnect "tcp" "" None ec_ok (disconnect "tcp" ex_client_web).1).1 = Ok (c3, a) /\
    dynamic_proxies_ c3 = dynamic_proxies_ ex_client_web /\ control_stream_ (conn c3) = true /\
    forall n, n ∉ map pc_name (proxies_ ex_client_web) -> told_all ∅ a !! n = None.
Proof.
  assert (H1 : Forall pc_fits (proxies_ ex_client_web)) by apply Forall_singleton, ssh_fits.
  assert (H2 : LoginRespMessage_Deserialize (LoginRespMessage_Serialize ex_ok) = Ok ex_ok) by (vm_compute; reflexivity).
  exact (client_dynamic_proxies_lost "tcp" "" None true (dynamic_proxies_ ex_client_web) ex_client_web
    (LoginRespMessage_Serialize ex_ok) ex_ok eq_refl eq_refl H1 H2 eq_refl).
Defined.
End Witnesses.
