(* ===== verification/Login.v ===== *)
(** * A client and the server's session for it, over their control stream
    (client.cpp and server.cpp together)

    The [Client] of Client.v and the [ControlSession] of Control.v, each given
    the frames the other one writes, in order: the mux stream between them
    carries bytes unchanged (MuxFlow.v).  A frame is read as its four-byte
    header and its body. *)
From Stdlib Require Import ZArith Lia Strings.Byte String.
From stdpp Require Import base tactics list gmap strings.
From S2P Require Import Prelude Protocol Zstd ControlFrame Pending Registry Control Client.
Local Open Scope Z_scope.

(** ** The wire between the two *)
Definition frames_to_server (acts : list client_action) : list (list byte) :=
  omap (fun a => match a with send_control _ frame => Some frame | _ => None end) acts.
Definition frames_to_client (s : nat) (acts : list (nat * control_action)) : list (list byte) :=
  omap (fun a => match a.2 with write_control bytes => if decide (a.1 = s) then Some bytes else None | _ => None end) acts.
(** The reads that deliver frames; every listener's port can be bound. *)
Definition to_client (conf : gmap string ProxyConfig) (frames : list (list byte)) : list client_event :=
  concat (map (fun f => [ev_header ec_ok (ztake 4 f); ev_body ec_ok (zdrop 4 f) conf]) frames).
Definition to_server (s : nat) (frames : list (list byte)) : list (nat * control_event) :=
  concat (map (fun f => [(s, cev_header ec_ok (ztake 4 f)); (s, cev_body ec_ok (zdrop 4 f) None)]) frames).

Section Login.
Context `{ZstdLaws}.
Variables (token : string) (allowed_ports : list PortRange) (allowed_clients : list string).

Lemma control_run_app xs ys sv :
  control_run token allowed_ports allowed_clients (xs ++ ys) sv =
    ('(sv1, a1) ← control_run token allowed_ports allowed_clients xs sv;
     '(sv2, a2) ← control_run token allowed_ports allowed_clients ys sv1; mret (sv2, a1 ++ a2)).
Proof.
  revert sv. induction xs as [|[s ev] xs IH]; intros sv; cbn [app control_run].
  - cbn. by destruct (control_run _ _ _ ys sv) as [[sv2 a2]|].
  - destruct (control_step _ _ _ s ev sv) as [[sv1 a1]|]; [|done]. cbn [mbind option_bind]. rewrite IH.
    destruct (control_run _ _ _ xs sv1) as [[sv2 a2]|]; [|done]. cbn [mbind option_bind mret option_ret].
    destruct (control_run _ _ _ ys sv2) as [[sv3 a3]|]; [|done]. cbn. by rewrite app_assoc.
Qed.
Lemma frames_to_client_app s xs ys : frames_to_client s (xs ++ ys) = frames_to_client s xs ++ frames_to_client s ys.
Proof. apply omap_app. Qed.
Lemma frames_to_server_app xs ys : frames_to_server (xs ++ ys) = frames_to_server xs ++ frames_to_server ys.
Proof. apply omap_app. Qed.

(** The two reads of a frame. *)
Lemma frame_parts level msg : frame_fits level msg ->
  let f := control_frame level msg in zlen (ztake 4 f) = 4 /\ zlen (zdrop 4 f) = frame_length (be_val (ztake 4 f)).
Proof.
  intros Hfit f. destruct (control_frame_roundtrip level msg Hfit) as (_ & Hlen & _). fold f in Hlen.
  assert (H4 : zlen (ztake 4 f) = 4) by (unfold f, control_frame; repeat case_match; done).
  split; [done|]. rewrite Hlen. pose proof (f_equal zlen (ztake_drop 4 f)) as Hz. rewrite zlen_app, H4 in Hz. lia.
Qed.

(** Of what a session does with a frame only the handler's answers are frames. *)
Lemma frames_of_answer s len a : frames_to_client s (map (pair s) (Control.read_control len :: a ++ [Control.read_control 4])) =
  frames_to_client s (map (pair s) a).
Proof. cbn [map]. rewrite map_app. etrans; [apply frames_to_client_app|]. apply app_nil_r. Qed.

(** ** One frame at the server *)
(** The session while the handler of a message runs. *)
Definition at_message (len : Z) (flag : bool) (cs : ControlSession) : ControlSession :=
  set_reading (at_body len flag) (if flag then set_compression true cs else cs).
Lemma server_frame s level msg sv cs :
  controls sv !! s = Some cs -> reading cs = at_header -> frame_fits level msg ->
  exists flag len, forall cs2 sh2 a2,
    Control.HandleMessage token allowed_ports allowed_clients s msg None (at_message len flag cs) (shared sv) = Ok (cs2, sh2, a2) ->
    control_run token allowed_ports allowed_clients (to_server s [control_frame level msg]) sv =
      Some ({| shared := sh2; controls := <[s := set_reading at_header cs2]> (controls sv) |},
            map (pair s) (Control.read_control len :: a2 ++ [Control.read_control 4])).
Proof.
  intros Hs Hr Hfit. destruct (control_frame_roundtrip level msg Hfit) as (Hacc & Hlen & Hdec).
  set (f := control_frame level msg) in *. set (h := be_val (ztake 4 f)) in *.
  exists (frame_compressed h), (frame_length h). intros cs2 sh2 a2 Hm.
  destruct (frame_parts level msg Hfit) as [H4 Hbody]. fold f in H4, Hbody. fold h in Hbody.
  unfold to_server. cbn [map concat app control_run control_step]. rewrite Hs, Hr, decide_True, H4 by done.
  cbn [Z.eqb Pos.eqb]. unfold on_control_header. fold h. rewrite decide_True, Hacc by done.
  cbn [mbind option_bind controls shared]. rewrite lookup_insert_eq. cbn [reading set_reading].
  rewrite decide_True, Hbody, Z.eqb_refl by done. unfold on_control_body. rewrite decide_True, Hdec by done.
  unfold at_message in Hm. rewrite Hm. cbn [DoReadHeader mbind option_bind mret option_ret fst snd].
  rewrite insert_insert_eq. cbn [app map]. by rewrite app_nil_r.
Qed.

(** ** One frame at the client *)
Section ClientSide.
Variables (protocol_ token_ : string) (compression : option Z) (conf_d : bool) (conf : gmap string ProxyConfig).
Lemma client_run_app xs ys c :
  client_run protocol_ token_ compression conf_d (xs ++ ys) c =
    ('(c1, a1) ← client_run protocol_ token_ compression conf_d xs c;
     '(c2, a2) ← client_run protocol_ token_ compression conf_d ys c1; mret (c2, a1 ++ a2)).
Proof.
  revert c. induction xs as [|ev xs IH]; intros c; cbn [app client_run].
  - cbn. by destruct (client_run _ _ _ _ ys c) as [[c2 a2]|].
  - destruct (client_step _ _ _ _ ev c) as [[c1 a1]|]; [|done]. cbn [mbind option_bind]. rewrite IH.
    destruct (client_run _ _ _ _ xs c1) as [[c2 a2]|]; [|done]. cbn [mbind option_bind mret option_ret].
    destruct (client_run _ _ _ _ ys c2) as [[c3 a3]|]; [|done]. cbn. by rewrite app_assoc.
Qed.
Definition reading_body (len : Z) (flag : bool) (c : Client) : Client :=
  set_conn (set_read (control_body (connection_id_ (conn c)) len flag) (conn c)) c.
Definition reading_header (c : Client) : Client :=
  set_conn (set_read (control_header (connection_id_ (conn c))) (conn c)) c.
Lemma client_frame level msg c :
  control_read (conn c) = control_header (connection_id_ (conn c)) -> frame_fits level msg ->
  exists flag len, forall r, Client.HandleMessage compression conf_d msg conf (reading_body len flag c) = Ok r ->
    connection_id_ (conn r.1) = connection_id_ (conn c) ->
    client_run protocol_ token_ compression conf_d (to_client conf [control_frame level msg]) c =
      Some (reading_header r.1, Client.read_control len :: r.2 ++ [Client.read_control 4]).
Proof.
  intros Hr Hfit. destruct (control_frame_roundtrip level msg Hfit) as (Hacc & Hlen & Hdec).
  set (f := control_frame level msg) in *. set (h := be_val (ztake 4 f)) in *.
  exists (frame_compressed h), (frame_length h). intros r Hm Hid.
  destruct (frame_parts level msg Hfit) as [H4 Hbody]. fold f in H4, Hbody. fold h in Hbody.
  unfold to_client. cbn [map concat app client_run client_step]. rewrite Hr, decide_True, H4 by done.
  cbn [Z.eqb Pos.eqb]. unfold on_client_header. fold h. rewrite Z.eqb_refl, decide_True, Hacc by done.
  cbn [negb mbind option_bind conn set_conn set_read control_read].
  rewrite decide_True, Hbody, Z.eqb_refl by done. unfold on_client_body. cbn [connection_id_ set_read set_conn conn].
  rewrite Z.eqb_refl, decide_True, Hdec by done. cbn [negb]. unfold reading_body in Hm. rewrite Hm.
  cbn [mbind option_bind mret option_ret fst snd app]. unfold reading_header. rewrite Hid. by rewrite app_nil_r.
Qed.
End ClientSide.

(** ** Registering proxies *)
Definition register_fields (pc : ProxyConfig) : RegisterProxyMessage := {|
  rp_name := pc_name pc; rp_type := pc_type pc; rp_remote_port := remote_port pc;
  rp_custom_domains := custom_domains pc; rp_bandwidth_limit := bandwidth_limit pc |}.
Definition register_message (pc : ProxyConfig) : Message :=
  {| msg_type := Protocol.RegisterProxy; msg_body := RegisterProxyMessage_Serialize (register_fields pc) |}.
Definition register_ok (pc : ProxyConfig) : Message := {| msg_type := RegisterProxyResp;
  msg_body := RegisterProxyRespMessage_Serialize {| rresp_status := "ok"; rresp_name := pc_name pc; rresp_message := "" |} |}.
Definition kind_of (pc : ProxyConfig) : string := if String.eqb (pc_type pc) "" then "tcp" else pc_type pc.
Definition is_http (pc : ProxyConfig) : bool := String.eqb (kind_of pc) "http" || String.eqb (kind_of pc) "https".
Definition is_udp (pc : ProxyConfig) : bool := negb (is_http pc) && String.eqb (kind_of pc) "udp".
Definition is_tcp (pc : ProxyConfig) : bool := negb (is_http pc) && negb (String.eqb (kind_of pc) "udp").
(** A message the server writes fits, compressed or not. *)
Definition answer_fits (msg : Message) : Prop := frame_fits None msg /\ frame_fits (Some 1) msg.
Definition proxy_ok (compression : option Z) (pc : ProxyConfig) : Prop :=
  wire_wf (register_fields pc) /\ frame_fits compression (register_message pc) /\
  str_fits (pc_name pc) /\ answer_fits (register_ok pc) /\
  is_http pc || IsPortAllowed allowed_ports (remote_port pc) = true.

(** What the server holds for a session that registered [ps]. *)
Record registered (s : nat) (name : string) (ps : list ProxyConfig) (sv : Server) (cs : ControlSession) : Prop := {
  rg_session : controls sv !! s = Some cs;
  rg_reading : reading cs = at_header;
  rg_auth : authenticated_ cs = true;
  rg_name : client_name_ cs = name;
  rg_known : sessions_ (registry (shared sv)) !! name = Some s;
  rg_tcp : names (Control.proxies_ cs) = map pc_name (List.filter is_tcp ps);
  rg_udp : names (udp_proxies_ cs) = map pc_name (List.filter is_udp ps);
  rg_domains : registered_domains_ cs = list_to_set (concat (map custom_domains (List.filter is_http ps)));
  rg_routes : forall d, d ∈ concat (map custom_domains (List.filter is_http ps)) ->
    exists r, vhost_routes_ (registry (shared sv)) !! d = Some r /\ route_session r = s
}.

Lemma add_routes s name type ds r d :
  d ∈ ds \/ (exists v, vhost_routes_ r !! d = Some v /\ route_session v = s) ->
  exists v, vhost_routes_ (foldl (fun r d => AddVhostRoute d s name type r) r ds) !! d = Some v /\ route_session v = s.
Proof.
  revert r. induction ds as [|d0 ds IH]; intros r Hd; cbn [foldl].
  - destruct Hd as [Hd|Hd]; [by apply not_elem_of_nil in Hd|done].
  - apply IH. cbn. destruct (decide (d0 = d)) as [->|Hne]; [right; rewrite lookup_insert_eq; by eexists|].
    rewrite lookup_insert_ne by done. destruct Hd as [Hd|Hd]; [|by right]. apply elem_of_cons in Hd as [->|Hd]; [done|by left].
Qed.
Lemma filter_snoc {A} (f : A -> bool) l x : List.filter f (l ++ [x]) = List.filter f l ++ if f x then [x] else [].
Proof. rewrite List.filter_app. cbn. by destruct (f x). Qed.
Lemma register_handled s name ps sv cs pc compression len flag :
  registered s name ps sv cs -> proxy_ok compression pc ->
  exists cs2 sh2 a2 level,
    Control.HandleMessage token allowed_ports allowed_clients s (register_message pc) None (at_message len flag cs) (shared sv) =
      Ok (cs2, sh2, a2) /\
    frames_to_client s (map (pair s) a2) = [control_frame level (register_ok pc)] /\ (level = None \/ level = Some 1) /\
    registered s name (ps ++ [pc]) {| shared := sh2; controls := <[s := set_reading at_header cs2]> (controls sv) |}
      (set_reading at_header cs2).
Proof.
  intros [R1 R2 R3 R4 R5 R6 R7 R8 R9] (Hwf & _ & _ & _ & Hport).
  set (c0 := at_message len flag cs).
  assert (Hsame : authenticated_ c0 = authenticated_ cs /\ client_name_ c0 = client_name_ cs /\
    Control.proxies_ c0 = Control.proxies_ cs /\ udp_proxies_ c0 = udp_proxies_ cs /\
    registered_domains_ c0 = registered_domains_ cs) by (unfold c0, at_message; by destruct flag).
  destruct Hsame as (C1 & C2 & C3 & C4 & C5). clearbody c0.
  unfold Control.HandleMessage. cbn [msg_type register_message msg_body]. rewrite C1, R3. cbn [negb].
  unfold HandleRegisterProxy. pose proof (deserialize_serialize (register_fields pc) Hwf) as Hd. cbn [Deserialize Serialize RegisterProxyMessage_wire] in Hd.
  rewrite Hd. cbn [mbind result_mbind result_bind rp_name rp_type rp_remote_port rp_bandwidth_limit rp_custom_domains register_fields].
  fold (kind_of pc). fold (is_http pc).
  set (sh1 := if 0 <? bandwidth_limit pc then _ else _).
  assert (Hreg : sessions_ (registry sh1) = sessions_ (registry (shared sv)) /\
    vhost_routes_ (registry sh1) = vhost_routes_ (registry (shared sv))) by (unfold sh1; by case_match).
  destruct Hreg as [S1 S2]. clearbody sh1.
  replace (negb (is_http pc) && negb (IsPortAllowed allowed_ports (remote_port pc))) with false
    by (rewrite <- negb_orb, Hport; done).
  assert (Hframe : forall c, frames_to_client s (map (pair s) (Control.register_response "ok" (pc_name pc) "" c)) =
    [control_frame (if compression_enabled_ c then Some 1 else None) (register_ok pc)])
    by (intros c; cbn; by rewrite decide_True).
  assert (Hlevel : forall c, (if compression_enabled_ c then Some 1 else None) = None \/ (if compression_enabled_ c then Some 1 else None) = Some 1)
    by (intros c; destruct (compression_enabled_ c); auto).
  assert (Hkinds : is_tcp pc = negb (is_http pc) && negb (String.eqb (kind_of pc) "udp") /\
    is_udp pc = negb (is_http pc) && String.eqb (kind_of pc) "udp") by done.
  destruct Hkinds as [Ht Hu].
  destruct (is_http pc) eqn:Eh; [|destruct (String.eqb (kind_of pc) "udp") eqn:Eu];
    eexists _, _, _, _; (split; [reflexivity|]); (split; [apply Hframe|]); (split; [apply Hlevel|]).
  all: split; cbn [controls shared set_reading set_owned reading authenticated_ client_name_ Control.proxies_ udp_proxies_
    registered_domains_ registry set_registry add_listener]; rewrite ?lookup_insert_eq, ?add_routes_sessions, ?S1, ?C1, ?C2, ?C3, ?C4, ?C5;
    try done; rewrite !filter_snoc, ?Ht, ?Hu, ?Eh; cbn [negb andb]; rewrite ?map_app, ?app_nil_r; try done.
  all: try (unfold names in *; rewrite map_app, ?R6, ?R7; done).
  - rewrite R8, concat_app, list_to_set_app_L. cbn [map concat]. rewrite app_nil_r. set_solver.
  - intros d. rewrite concat_app, elem_of_app. cbn [map concat]. rewrite app_nil_r. intros Hd'. apply add_routes.
    rewrite S2. destruct Hd' as [Hd'|Hd']; [right; by apply R9|by left].
  - by rewrite S2.
  - by rewrite S2.
Qed.

(** A frame that answers with a message. *)
Definition answers (f : list byte) (msg : Message) : Prop :=
  exists level, f = control_frame level msg /\ (level = None \/ level = Some 1).
Lemma to_server_cons s f fs : to_server s (f :: fs) = to_server s [f] ++ to_server s fs.
Proof. reflexivity. Qed.
Lemma server_registers compression s name ps done sv cs :
  registered s name done sv cs -> Forall (proxy_ok compression) ps ->
  exists sv' cs' a,
    control_run token allowed_ports allowed_clients
      (to_server s (map (fun pc => control_frame compression (register_message pc)) ps)) sv = Some (sv', a) /\
    registered s name (done ++ ps) sv' cs' /\ Forall2 answers (frames_to_client s a) (map register_ok ps).
Proof.
  revert done sv cs. induction ps as [|pc ps IH]; intros done sv cs Hr Hok.
  { exists sv, cs, []. rewrite app_nil_r. split; [done|]. by split; [|constructor]. }
  apply Forall_cons in Hok as [Hpc Hok].
  destruct (server_frame s compression (register_message pc) sv cs) as (flag & len & Hrun); [apply Hr|apply Hr|apply Hpc|].
  destruct (register_handled s name done sv cs pc compression len flag Hr Hpc) as (cs2 & sh2 & a2 & level & Hm & Hf & Hl & Hr').
  specialize (Hrun _ _ _ Hm). destruct (IH _ _ _ Hr' Hok) as (sv' & cs' & a' & Hrun' & Hr'' & Hans).
  eexists sv', cs', _. cbn [map]. rewrite to_server_cons, control_run_app, Hrun. cbn [mbind option_bind]. rewrite Hrun'.
  split; [reflexivity|]. split; [by rewrite <- app_assoc in Hr''|].
  rewrite frames_to_client_app, frames_of_answer, Hf. constructor; [by exists level|done].
Qed.

(** ** Logging in *)
Definition login_message (name : string) : Message := {| msg_type := Protocol.Login;
  msg_body := LoginMessage_Serialize {| login_token := token; login_name := name |} |}.
Definition login_ok (name : string) : Message := {| msg_type := Protocol.LoginResp;
  msg_body := LoginRespMessage_Serialize {| lresp_status := "ok"; lresp_name := name; lresp_message := "" |} |}.
Lemma allocated_name_nonempty requested s r name r' : AllocateClientName requested s r = Some (name, r') -> name <> ""%string.
Proof.
  unfold AllocateClientName. intros E.
  assert (Hl : forall fuel active base final k, base <> ""%string -> final <> ""%string ->
    forall n, allocate_loop fuel active base final k = Some n -> n <> ""%string).
  { induction fuel as [|fuel IH]; intros active base final k Hb Hf n; cbn [allocate_loop]; [done|].
    case_decide; [|by intros [= <-]]. apply IH; [done|]. unfold suffixed. by destruct base. }
  assert (Hb : base_name requested <> ""%string) by (unfold base_name; by case_decide).
  destruct (allocate_loop _ _ _ _ _) as [n|] eqn:El; [|done]. cbn in E. injection E as <- _. by eapply Hl.
Qed.
Lemma server_logs_in compression s mux requested name r sv :
  controls sv !! s = None -> IsClientAllowed allowed_clients requested = true ->
  AllocateClientName requested s (registry (shared sv)) = Some (name, r) ->
  str_fits token -> str_fits requested -> frame_fits compression (login_message requested) ->
  exists sv' cs' a,
    control_run token allowed_ports allowed_clients
      ((s, cev_open mux) :: to_server s [control_frame compression (login_message requested)]) sv = Some (sv', a) /\
    registered s name [] sv' cs' /\ Forall2 answers (frames_to_client s a) [login_ok name].
Proof.
  intros Hs Hallow Halloc Hf1 Hf2 Hfit. cbn [control_run control_step]. rewrite Hs.
  cbn [mbind option_bind DoReadHeader]. set (sv1 := {| shared := _; controls := _ |}).
  assert (Hc1 : controls sv1 !! s = Some (set_reading at_header (new_control (Some mux)))) by apply lookup_insert_eq.
  destruct (server_frame s compression (login_message requested) sv1 _ Hc1 eq_refl Hfit) as (flag & len & Hrun).
  set (c0 := at_message len flag _) in Hrun.
  assert (Hlogin : exists cs2 sh2 a2 level,
    Control.HandleMessage token allowed_ports allowed_clients s (login_message requested) None c0 (shared sv1) = Ok (cs2, sh2, a2) /\
    frames_to_client s (map (pair s) a2) = [control_frame level (login_ok name)] /\ (level = None \/ level = Some 1) /\
    registered s name [] {| shared := sh2; controls := <[s := set_reading at_header cs2]> (controls sv1) |} (set_reading at_header cs2)).
  { assert (Ha : exists r', AllocateClientName requested s (registry (shared sv1)) = Some (name, r') /\ sessions_ r' !! name = Some s).
    { unfold AllocateClientName in *. cbn [shared sv1 registry set_registry AddMuxControl set_mux_to_control active_client_names_].
      destruct (allocate_loop _ _ _ _ _) as [n|]; [|done]. cbn in Halloc. injection Halloc as -> _.
      eexists. split; [reflexivity|]. apply lookup_insert_eq. }
    destruct Ha as (r' & Ha & Hknown).
    assert (Hc0 : Control.proxies_ c0 = [] /\ udp_proxies_ c0 = [] /\ registered_domains_ c0 = ∅)
      by (unfold c0, at_message; by destruct flag).
    destruct Hc0 as (C1 & C2 & C3).
    unfold Control.HandleMessage. cbn [msg_type login_message msg_body]. unfold HandleLogin.
    assert (Hd : LoginMessage_Deserialize (LoginMessage_Serialize {| login_token := token; login_name := requested |}) =
      Ok {| login_token := token; login_name := requested |}) by by exact (deserialize_serialize {| login_token := token; login_name := requested |} (conj Hf1 Hf2)).
    rewrite Hd. cbn [mbind result_mbind result_bind login_token login_name]. rewrite String.eqb_refl, Hallow. cbn [negb]. rewrite Ha.
    eexists _, _, _, (if compression_enabled_ c0 then Some 1 else None). split; [reflexivity|]. split; [cbn; by rewrite decide_True|].
    split; [destruct (compression_enabled_ c0); auto|]. split; cbn -[c0]; rewrite ?C1, ?C2, ?C3; try done; [apply lookup_insert_eq|].
    intros d Hd'. by apply not_elem_of_nil in Hd'. }
  destruct Hlogin as (cs2 & sh2 & a2 & level & Hm & Hf & Hl & Hr). specialize (Hrun _ _ _ Hm). rewrite Hrun.
  eexists _, _, _. split; [reflexivity|]. split; [exact Hr|].
  rewrite frames_to_client_app, frames_of_answer, Hf. constructor; [by exists level|constructor].
Qed.

(** ** The client's part *)
Section ClientLogin.
Variables (protocol_ : string) (compression : option Z).
(** No configuration directory. *)
Definition crun := client_run protocol_ token compression false.
Lemma register_all_frames ps c : control_stream_ (conn c) = true ->
  exists c' a, each (Client.RegisterProxy compression) ps c = (c', a) /\ conn c' = conn c /\ name_ c' = name_ c /\
    proxies_ c' = proxies_ c /\ frames_to_server a = map (fun pc => control_frame compression (register_message pc)) ps.
Proof.
  revert c. induction ps as [|pc ps IH]; intros c Hc; cbn [each]; [by exists c, []|].
  unfold Client.RegisterProxy at 1. set (c1 := {| conn := conn c |}).
  destruct (IH c1 Hc) as (c' & a & -> & H1 & H2 & H3 & H4). eexists _, _. split; [reflexivity|].
  split; [done|]. split; [done|]. split; [done|]. rewrite frames_to_server_app, H4.
  unfold Client.SendMessage. by rewrite Hc.
Qed.
(** Answers to registrations change nothing. *)
Lemma client_hears_ok conf fs ps c : control_read (conn c) = control_header (connection_id_ (conn c)) ->
  Forall2 answers fs (map register_ok ps) -> Forall (fun pc => str_fits (pc_name pc) /\ answer_fits (register_ok pc)) ps ->
  exists a, crun (to_client conf fs) c = Some (c, a) /\ frames_to_server a = [].
Proof.
  intros Hr. revert fs. induction ps as [|pc ps IH]; intros fs Hans Hfit; cbn [map] in Hans.
  { apply Forall2_nil_inv_r in Hans as ->. by exists []. }
  apply Forall2_cons_inv_r in Hans as (f & fs' & (level & -> & Hl) & Hans & ->).
  apply Forall_cons in Hfit as [[Hn [Hf1 Hf2]] Hfit].
  assert (Hf : frame_fits level (register_ok pc)) by (by destruct Hl as [-> | ->]).
  destruct (client_frame protocol_ token compression false conf level (register_ok pc) c Hr Hf) as (flag & len & Hrun).
  destruct (IH fs' Hans Hfit) as (a & Ha & Hs).
  assert (Hm : Client.HandleMessage compression false (register_ok pc) conf (reading_body len flag c) = Ok (reading_body len flag c, [])).
  { unfold Client.HandleMessage. cbn [msg_type register_ok msg_body].
    set (m := {| rresp_status := "ok"; rresp_name := pc_name pc; rresp_message := "" |}).
    assert (Hw : wire_wf m) by (split; [done|by split]).
    pose proof (deserialize_serialize m Hw) as Hd. cbn [Deserialize Serialize RegisterProxyRespMessage_wire] in Hd. by rewrite Hd. }
  specialize (Hrun _ Hm eq_refl).
  assert (Hc : reading_header (reading_body len flag c) = c).
  { unfold reading_header, reading_body. destruct c as [k]. cbn in *. unfold set_conn. cbn. f_equal.
    unfold set_read. cbn. rewrite <- Hr. by destruct k. }
  cbn [fst snd] in Hrun. rewrite Hc in Hrun.
  change (to_client conf (control_frame level (register_ok pc) :: fs')) with
    (to_client conf [control_frame level (register_ok pc)] ++ to_client conf fs').
  unfold crun in *. rewrite client_run_app, Hrun. cbn [mbind option_bind]. rewrite Ha.
  eexists. split; [reflexivity|]. rewrite frames_to_server_app, Hs. done.
Qed.
Lemma client_logs_in conf name fs c :
  name <> ""%string -> str_fits name -> answer_fits (login_ok name) ->
  Forall (proxy_ok compression) (proxies_ c) ->
  (exists f0 fs', fs = f0 :: fs' /\ answers f0 (login_ok name) /\ Forall2 answers fs' (map register_ok (proxies_ c))) ->
  exists c' a, crun (ev_handshaken (connection_id_ (conn c)) ec_ok :: to_client conf fs) c = Some (c', a) /\
    name_ c' = name /\ proxies_ c' = proxies_ c /\ control_stream_ (conn c') = true /\
    frames_to_server a = control_frame compression (login_message (name_ c)) ::
      map (fun pc => control_frame compression (register_message pc)) (proxies_ c).
Proof.
  intros Hne Hn [Hf1 Hf2] Hok (f0 & fs' & -> & (level & -> & Hl) & Hans).
  assert (Hf : frame_fits level (login_ok name)) by (by destruct Hl as [-> | ->]).
  unfold crun. cbn [client_run client_step]. rewrite Z.eqb_refl. cbn [negb]. unfold OnConnect. rewrite decide_True by done.
  set (c1 := set_conn _ c). cbn [mbind option_bind].
  assert (H1 : control_read (conn c1) = control_header (connection_id_ (conn c1))) by done.
  destruct (client_frame protocol_ token compression false conf level (login_ok name) c1 H1 Hf) as (flag & len & Hrun).
  set (c2 := set_name name (reading_body len flag c1)).
  destruct (register_all_frames (proxies_ c) c2) as (c3 & a3 & He & E1 & E2 & E3 & E4); [done|].
  assert (Hm : Client.HandleMessage compression false (login_ok name) conf (reading_body len flag c1) = Ok (c3, a3)).
  { unfold Client.HandleMessage. cbn [msg_type login_ok msg_body].
    set (m := {| lresp_status := "ok"; lresp_name := name; lresp_message := "" |}).
    assert (Hw : wire_wf m) by (split; [done|by split]).
    pose proof (deserialize_serialize m Hw) as Hd. cbn [Deserialize Serialize LoginRespMessage_wire] in Hd. rewrite Hd.
    cbn [mbind result_mbind result_bind lresp_status lresp_name m]. rewrite (proj2 (String.eqb_neq name "") Hne).
    unfold RegisterProxies. fold c2. change (proxies_ c2) with (proxies_ c). rewrite He. done. }
  specialize (Hrun _ Hm). cbn [fst snd] in Hrun. rewrite E1 in Hrun. specialize (Hrun eq_refl).
  destruct (client_hears_ok conf fs' (proxies_ c) (reading_header c3)) as (a4 & Hrun4 & Hs4); [done|done| |].
  { eapply Forall_impl; [exact Hok|]. intros pc (_ & _ & Hp & Ha & _). done. }
  change (to_client conf (control_frame level (login_ok name) :: fs')) with
    (to_client conf [control_frame level (login_ok name)] ++ to_client conf fs').
  rewrite client_run_app, Hrun. cbn [mbind option_bind]. unfold crun in Hrun4. rewrite Hrun4.
  eexists _, _. split; [reflexivity|]. split; [done|]. split; [done|]. split; [by cbn; rewrite E1|].
  rewrite !frames_to_server_app. change (Client.read_control len :: ?a) with ([Client.read_control len] ++ a).
  rewrite !frames_to_server_app, E4, Hs4, !app_nil_r. reflexivity.
Qed.
End ClientLogin.
End Login.

(** C9 A client with the token gets what it asks for.  When a client is
    connected and a session is opened for it, the two have one conversation, in
    which each receives exactly the frames the other one writes: the client
    logs in, takes the name the server allocated, and registers its proxies;
    afterwards the session is authenticated, owns under that name a listener
    for every tcp and every udp proxy and the domains of every http and https
    proxy, all of which are routed to it, and every request was answered with
    ok.  This needs a name the server allows, allowed and free ports, and
    messages within the limits of the protocol. *)
Theorem login_registers_proxies `{ZstdLaws} (protocol_ token : string) (compression : option Z)
    (allowed_ports : list PortRange) (allowed_clients : list string) (conf : gmap string ProxyConfig)
    (c : Client) (s mux : nat) (sv : Server) (name : string) (r : Registry) :
  controls sv !! s = None ->
  IsClientAllowed allowed_clients (name_ c) = true ->
  AllocateClientName (name_ c) s (registry (shared sv)) = Some (name, r) ->
  str_fits token -> str_fits (name_ c) -> str_fits name ->
  frame_fits compression (login_message token (name_ c)) -> answer_fits (login_ok name) ->
  Forall (proxy_ok allowed_ports compression) (proxies_ c) ->
  exists c' sent sv' cs' written,
    client_run protocol_ token compression false
      (ev_handshaken (connection_id_ (conn c)) ec_ok :: to_client conf (frames_to_client s written)) c = Some (c', sent) /\
    control_run token allowed_ports allowed_clients
      ((s, cev_open mux) :: to_server s (frames_to_server sent)) sv = Some (sv', written) /\
    name_ c' = name /\ proxies_ c' = proxies_ c /\
    registered s name (proxies_ c) sv' cs' /\
    Forall2 answers (frames_to_client s written) (login_ok name :: map register_ok (proxies_ c)).
Proof.
  intros Hs Hallow Halloc Hf1 Hf2 Hf3 Hfit Hans Hok. pose proof (allocated_name_nonempty _ _ _ _ _ Halloc) as Hne.
  destruct (server_logs_in token allowed_ports allowed_clients compression s mux (name_ c) name r sv)
    as (sv1 & cs1 & a1 & Hrun1 & Hr1 & Ha1); try done.
  destruct (server_registers token allowed_ports allowed_clients compression s name (proxies_ c) [] sv1 cs1 Hr1 Hok)
    as (sv2 & cs2 & a2 & Hrun2 & Hr2 & Ha2).
  assert (Ha : Forall2 answers (frames_to_client s (a1 ++ a2)) (login_ok name :: map register_ok (proxies_ c)))
    by (rewrite frames_to_client_app; change (login_ok name :: ?l) with ([login_ok name] ++ l); by apply Forall2_app).
  pose proof Ha as (f0 & fs & Hf0 & Hfs & Efs)%Forall2_cons_inv_r.
  destruct (client_logs_in token allowed_ports protocol_ compression conf name (frames_to_client s (a1 ++ a2)) c)
    as (c' & sent & Hrunc & Hn & Hp & _ & Hsent); try done; [by exists f0, fs|].
  exists c', sent, sv2, cs2, (a1 ++ a2). split; [exact Hrunc|]. split; [|done].
  rewrite Hsent, to_server_cons, app_comm_cons, control_run_app, Hrun1. cbn [mbind option_bind]. by rewrite Hrun2.
Qed.

(** ** A conversation *)
Section Demo.
#[local] Existing Instance rle_zstd.
#[local] Existing Instance rle_laws.
Definition demo_dns : ProxyConfig := {| pc_name := "dns"; pc_type := "udp"; local_ip := "127.0.0.1"; local_port := 53;
  remote_port := 6053; custom_domains := []; bandwidth_limit := 65536 |}.
Definition demo_web : ProxyConfig := {| pc_name := "web"; pc_type := "https"; local_ip := "127.0.0.1"; local_port := 8443;
  remote_port := 0; custom_domains := ["a.example"; "b.example"]; bandwidth_limit := 0 |}.
Definition demo_ssh : ProxyConfig := {| pc_name := "ssh"; pc_type := ""; local_ip := "127.0.0.1"; local_port := 22;
  remote_port := 6000; custom_domains := []; bandwidth_limit := 0 |}.
Definition demo_ports : list PortRange := [{| range_start := 6000; range_end := 7000 |}].
Definition demo_client : Client := AddProxy demo_ssh (AddProxy demo_web (AddProxy demo_dns (new_client "tcp" ""))).
(** Boolean forms of the conditions. *)
Definition frame_fits_b (level : option Z) (msg : Message) : bool :=
  match msg_type msg with OtherType n => (8 <=? n) && (n <? 256) | _ => true end &&
  (zlen (Encode msg) <=? MAX_DECOMPRESSED_SIZE) && (zlen (control_frame level msg) <=? 4 + MAX_CONTROL_MESSAGE_SIZE).
Lemma frame_fits_spec level msg : frame_fits_b level msg = true -> frame_fits level msg.
Proof.
  unfold frame_fits_b, frame_fits. intros H. apply andb_true_iff in H as [[H1 H2%Z.leb_le]%andb_true_iff H3%Z.leb_le].
  split; [|done]. destruct (msg_type msg); try done. apply andb_true_iff in H1 as [?%Z.leb_le ?%Z.ltb_lt]. lia.
Qed.
Lemma demo_fits pc : pc ∈ proxies_ demo_client -> proxy_ok demo_ports (Some 3) pc.
Proof.
  intros Hp. cbn in Hp. rewrite !elem_of_cons in Hp.
  destruct Hp as [->|[->|[->|Hp]]]; [..|by apply not_elem_of_nil in Hp];
    (split; [repeat split; (done || lia || (repeat constructor; done))|]);
    (split; [by apply frame_fits_spec; vm_compute|]); (split; [done|]);
    (split; [split; by apply frame_fits_spec; vm_compute|done]).
Qed.
Lemma login_registers_proxies_witness :
  exists c' sent sv' cs' written,
    client_run "tcp" "secret" (Some 3) false
      (ev_handshaken 0 ec_ok :: to_client ∅ (frames_to_client 4 written)) demo_client = Some (c', sent) /\
    control_run "secret" demo_ports [] ((4%nat, cev_open 9) :: to_server 4 (frames_to_server sent)) new_server = Some (sv', written) /\
    name_ c' = "client" /\ proxies_ c' = proxies_ demo_client /\
    registered 4 "client" (proxies_ demo_client) sv' cs' /\
    Forall2 answers (frames_to_client 4 written) (login_ok "client" :: map register_ok (proxies_ demo_client)).
Proof.
  assert (Hok : Forall (proxy_ok demo_ports (Some 3)) (proxies_ demo_client)) by (apply Forall_forall; exact demo_fits).
  assert (H1 : frame_fits (Some 3) (login_message "secret" "")) by (apply frame_fits_spec; vm_compute; reflexivity).
  assert (H2 : answer_fits (login_ok "client")) by (split; apply frame_fits_spec; vm_compute; reflexivity).
  exact (login_registers_proxies "tcp" "secret" (Some 3) demo_ports [] ∅ demo_client 4 9 new_server "client" _
    ltac:(reflexivity) eq_refl ltac:(vm_compute; reflexivity) ltac:(done) ltac:(done) ltac:(done) H1 H2 Hok).
Defined.
End Demo.
