(* ===== verification/Config.v ===== *)
(** * Numbers in text, and the program's configuration (src/main.cpp,
    src/common/utils.h)

    [std::stoi] and [std::stoll] on bytes, the parsers built on them, the
    editing of the tool's configuration file, the command line, and the reading
    of server.toml and client.toml.  The TOML library is a class: its nodes and
    the accessors main uses.  The file system and the processes are arguments. *)
From Stdlib Require Import ZArith Lia Strings.Byte String.
From stdpp Require Import base tactics list gmap strings pretty.
From S2P Require Import Prelude Text Protocol BufferPool Registry Client.
Local Open Scope Z_scope.

(** ** Numbers *)
(** [isspace] in the C locale. *)
Definition is_space (b : byte) : bool := let z := byte_to_Z b in (z =? 32) || ((9 <=? z) && (z <=? 13)).
Definition digit (b : byte) : option Z :=
  let z := byte_to_Z b in if (48 <=? z) && (z <=? 57) then Some (z - 48) else None.
Fixpoint scan_digits (acc : Z) (s : list byte) : Z * nat :=
  match s with
  | [] => (acc, 0%nat)
  | b :: s' => match digit b with
               | Some d => let '(v, n) := scan_digits (acc * 10 + d) s' in (v, S n)
               | None => (acc, 0%nat)
               end
  end.
Fixpoint spaces (s : list byte) : nat :=
  match s with b :: s' => if is_space b then S (spaces s') else 0%nat | [] => 0%nat end.
(** [strtoll] in base ten: the number and the characters it took. *)
Definition scan_int (s : list byte) : option (Z * nat) :=
  let k := spaces s in
  let rest := drop k s in
  let '(neg, sg, ds) := match rest with
                        | b :: ds => if byte_to_Z b =? 45 then (true, 1%nat, ds)
                                     else if byte_to_Z b =? 43 then (false, 1%nat, ds) else (false, 0%nat, rest)
                        | [] => (false, 0%nat, [])
                        end in
  let '(v, n) := scan_digits 0 ds in
  match n with O => None | _ => Some (if neg : bool then - v else v, (k + sg + n)%nat) end.
(** [std::stoi] ([w] = 32) and [std::stoll] ([w] = 64); [None] when they throw. *)
Definition sto (w : Z) (s : list byte) : option (Z * nat) :=
  match scan_int s with
  | Some (v, n) => if (- 2 ^ (w - 1) <=? v) && (v <? 2 ^ (w - 1)) then Some (v, n) else None
  | None => None
  end.

(** A port as [main] stores it. *)
Definition port_of (z : Z) : Z := wrap 16 z.
Definition ParsePortRange (s : list byte) : option PortRange :=
  match find [x2d] s with                                                    (* '-' *)
  | Some dash =>
    '(a, _) ← sto 32 (take dash s);
    '(b, _) ← sto 32 (drop (dash + 1) s);
    mret {| range_start := port_of a; range_end := port_of b |}
  | None => '(p, _) ← sto 32 s; mret {| range_start := port_of p; range_end := port_of p |}
  end.

(** The multiplier and what is left of the text. *)
Definition bandwidth_unit (s : list byte) : Z * list byte :=
  match list.last s with
  | Some c =>
    let z := byte_to_Z c in
    if (z =? 75) || (z =? 107) then (1024, take (length s - 1) s)                        (* K *)
    else if (z =? 77) || (z =? 109) then (1024 * 1024, take (length s - 1) s)            (* M *)
    else if (z =? 71) || (z =? 103) then (1024 * 1024 * 1024, take (length s - 1) s)     (* G *)
    else (1, s)
  | None => (1, s)
  end.
(** [None]: the product overflows [int64_t]. *)
Definition ParseBandwidth (s : list byte) : option Z :=
  match s with
  | [] => Some 0
  | _ =>
    let '(multiplier, val_s) := bandwidth_unit s in
    match sto 64 val_s with
    | None => Some 0
    | Some (v, _) => let r := v * multiplier in
                     if (- 2 ^ 63 <=? r) && (r <? 2 ^ 63) then Some r else None
    end
  end.

(** ** Logger *)
Definition lower (b : byte) : byte :=
  let z := byte_to_Z b in if (65 <=? z) && (z <=? 90) then byte_of_Z (z + 32) else b.
(** [LogLevel]: None 0, Error 1, Info 2, Debug 3. *)
Definition SetLevel (level_s : list byte) (level : Z) : Z :=
  let s := map lower level_s in
  let named (name : string) := bool_decide (s = bytes_of name) in
  if named "none"%string || named "0"%string then 0 else if named "error"%string || named "1"%string then 1
  else if named "info"%string || named "2"%string then 2 else if named "debug"%string || named "3"%string then 3 else level.
Definition logged (at_level level : Z) : bool := at_level <=? level.

(** ** [cfrp config set] *)
Definition config_blanks : list byte := [x20; x09].
(** The key of a line: what stands before its first '=', without blanks. *)
Definition line_key (line : list byte) : option (list byte) :=
  option_map (fun eq_pos => trim_back config_blanks (trim_front config_blanks (take eq_pos line))) (find [x3d] line).
Definition format_value (value : list byte) : list byte :=
  let is_bool := bool_decide (value = bytes_of "true") || bool_decide (value = bytes_of "false") in
  let is_num := match sto 64 value with Some (_, pos) => (pos =? length value)%nat | None => false end in
  if is_bool || is_num then value else [x22] ++ value ++ [x22].
Definition config_line (key value : list byte) : list byte := key ++ bytes_of " = " ++ format_value value.
(** The lines written, and whether the key was found. *)
Fixpoint config_loop (key value : list byte) (lines : list (list byte)) : list (list byte) * bool :=
  match lines with
  | [] => ([], false)
  | line :: lines' =>
    if bool_decide (line_key line = Some key) then (config_line key value :: lines', true)
    else let '(ls, found) := config_loop key value lines' in (line :: ls, found)
  end.
Definition config_set (key value : list byte) (lines : list (list byte)) : list (list byte) :=
  let '(ls, found) := config_loop key value lines in
  if found then ls else ls ++ [config_line key value].
(** [std::getline] until the end of the file, and the file written back. *)
Fixpoint getlines (acc : list byte) (s : list byte) : list (list byte) :=
  match s with
  | [] => match acc with [] => [] | _ => [acc] end
  | b :: s' => if Byte.eqb b x0a then acc :: getlines [] s' else getlines (acc ++ [b]) s'
  end.
Definition write_lines (lines : list (list byte)) : list byte := concat (map (fun l => l ++ [x0a]) lines).
Definition config_set_file (key value file : list byte) : list byte :=
  write_lines (config_set key value (getlines [] file)).

(** ** Command line and mode *)
Definition dash : Ascii.ascii := Ascii.ascii_of_nat 45.
Inductive cli : Type :=
| cli_run (config_path ca_path cli_token : string) (levels : list string)
| cli_version
| cli_help
| cli_multiple (first second : string).
Fixpoint parse_args (args : list string) (config ca token : string) (levels : list string) : cli :=
  match args with
  | [] => cli_run config ca token levels
  | arg :: args' =>
    let plain :=
      if String.eqb arg "-v" || String.eqb arg "--version" then cli_version
      else if String.eqb arg "-h" || String.eqb arg "--help" then cli_help
      else match arg with
           | String c _ =>
             if Ascii.eqb c dash then parse_args args' config ca token levels
             else if String.eqb config "" then parse_args args' arg ca token levels
             else cli_multiple config arg
           | EmptyString => parse_args args' config ca token levels
           end in
    match args' with
    | next :: args'' =>
      if String.eqb arg "--ca" || String.eqb arg "-c" then parse_args args'' config next token levels
      else if String.eqb arg "-t" || String.eqb arg "--token" then parse_args args'' config ca next levels
      else if String.eqb arg "-l" || String.eqb arg "--log-level" then parse_args args'' config ca token (levels ++ [next])
      else plain
    | [] => plain
    end
  end.
(** Which configuration is used, with [ca_provided]. *)
Inductive run_mode : Type :=
| mode_file (path : string)
| mode_new_client (ca token : string)
| mode_new_server
| mode_mismatch.
Definition choose_mode (config ca token : string) (server_toml client_toml : bool) : run_mode * bool :=
  let config := if String.eqb config "" then
                  if server_toml then "server.toml"%string else if client_toml then "client.toml"%string else ""%string
                else config in
  let '(ca, token) := if String.eqb config "" then (ca, token) else (""%string, ""%string) in
  let ca_provided := negb (String.eqb ca "") in
  let token_provided := negb (String.eqb token "") in
  if negb (Bool.eqb ca_provided token_provided) then (mode_mismatch, ca_provided)
  else if negb (String.eqb config "") then (mode_file config, ca_provided)
  else if ca_provided then (mode_new_client ca token, ca_provided) else (mode_new_server, ca_provided).
(** The files generated when there is none; an apostrophe stands for the double
    quote and the text ends with a newline. *)
Definition quoted_text (lines : list string) : list byte :=
  write_lines (map (fun l => map (fun b => if Byte.eqb b x27 then x22 else b) (bytes_of l)) lines).
Definition default_client_toml (ca_path cli_token : list byte) : list byte :=
  quoted_text ["# Default Client Configuration"; "[client]"; "server_addr = '127.0.0.1'"; "server_port = 7001"]%string ++
  bytes_of "token = " ++ [x22] ++ cli_token ++ [x22; x0a] ++
  quoted_text ["name = 'my-client'"; "protocol = 'auto'"; "compression = true"; "log_level = 'info'"; "";
    "[client.performance]"; "threads = 2"; "# Buffer Pool settings (optional, optimized for low memory by default)";
    "# buffer_pool = ["; "#   { buffer_size = 512, initial_count = 8, max_count = 32 },";
    "#   { buffer_size = 1024, initial_count = 4, max_count = 16 },";
    "#   { buffer_size = 4096, initial_count = 2, max_count = 8 },";
    "#   { buffer_size = 65536, initial_count = 1, max_count = 4 }"; "# ]"; ""; "[client.ssl]"; "enable = true";
    "verify_peer = true"]%string ++
  bytes_of "ca_file = " ++ [x22] ++ ca_path ++ [x22; x0a] ++
  quoted_text [""; "[[client.proxies]]"; "name = 'ssh'"; "type = 'tcp'"; "local_ip = '127.0.0.1'"; "local_port = 22";
    "remote_port = 6000"; ""]%string.
Definition default_server_toml : list byte :=
  quoted_text ["# Default Server Configuration"; "[server]"; "bind_addr = '0.0.0.0'"; "bind_port = 7001";
    "token = 'secret_token'"; "log_level = 'info'"; ""; "[server.performance]"; "threads = 2";
    "memory_profile = 'low' # Options: low, standard, high. Optimized for edge devices by default."; "";
    "# Virtual Host ports for HTTP and HTTPS (SNI routing)"; "vhost_http_port = 8080"; "vhost_https_port = 8443"; "";
    "[server.ssl]"; "enable = true"; "auto_generate = true"; "cert_file = 'certs/server.crt'";
    "key_file = 'certs/server.key'"; "ca_file = 'certs/ca.crt'"; ""]%string.
Inductive role : Type := run_server | run_client | run_client_on_server_section | no_role.
Definition choose_role (has_server has_client ca_provided : bool) : role :=
  if has_server && negb ca_provided then run_server
  else if has_client then run_client
  else if has_server && ca_provided then run_client_on_server_section else no_role.

(** ** [status] and [stop] *)
(** The process file: absent, unreadable, or a process number. *)
Inductive pid_file : Type := no_pid_file | bad_pid_file | pid_of (pid : Z).
Inductive status_report : Type :=
| status_running (pid : Z) (details : list (list byte))
| status_stale (pid : Z)
| status_not_running.
Definition status_command (f : pid_file) (running : Z -> bool) (details : list (list byte)) : status_report :=
  match f with
  | pid_of pid => if running pid then status_running pid details else status_stale pid
  | _ => status_not_running
  end.
(** The exit code and the file afterwards; [terminate] is [StopProcess]. *)
Definition stop_command (f : pid_file) (running terminate : Z -> bool) : Z * pid_file :=
  match f with
  | pid_of pid =>
    if running pid then if terminate pid then (0, no_pid_file) else (1, f) else (0, no_pid_file)
  | _ => (0, f)
  end.

(** ** TOML documents *)
(** A node and the accessors of toml++ that main uses: a subscript, the exact
    [as_string], [as_integer] and [as_array], [is_table] for [as_table], and the
    converting [value<int>] and [value<bool>] behind [value_or]. *)
Class Toml (T : Type) : Type := {
  t_get : T -> string -> option T;
  t_string : T -> option (list byte);
  t_integer : T -> option Z;
  t_array : T -> option (list T);
  t_table : T -> bool;
  t_value_int : T -> option Z;
  t_value_bool : T -> option bool
}.
(** Integers have 64 bits, [value<int>] gives what fits 32. *)
Class TomlLaws (T : Type) `{Toml T} : Prop := {
  toml_integer_64 (n : T) i : t_integer n = Some i -> - 2 ^ 63 <= i < 2 ^ 63;
  toml_int_32 (n : T) i : t_value_int n = Some i -> - 2 ^ 31 <= i < 2 ^ 31
}.

Record ServerSsl : Type := {
  ssl_enable : bool; ssl_auto_generate : bool; ssl_cert_file : list byte; ssl_key_file : list byte;
  ssl_ca_file : list byte; ssl_domains : list (list byte) }.
Record Management : Type := { mgmt_addr : list byte; mgmt_port : Z; mgmt_user : list byte; mgmt_pass : list byte }.
Record ServerConfig : Type := {
  bind_addr : list byte; bind_port : Z; server_token : list byte; server_protocol : list byte;
  server_ssl : option ServerSsl; allowed_ports : list PortRange; allowed_clients : list (list byte);
  vhost_http_port : Z; vhost_https_port : Z; management : option Management }.
Record ClientSsl : Type := { cssl_enable : bool; cssl_verify_peer : bool; cssl_verify_host : bool; cssl_ca_file : list byte }.
Record ClientConfig : Type := {
  server_addr : list byte; server_port : Z; client_token : list byte; client_name : list byte; conf_d_dir : list byte;
  client_protocol : list byte; client_compression : bool; compression_level : Z; client_ssl : option ClientSsl }.

Section Reading.
Context {T : Type} `{Toml T}.
Definition node (n : option T) (k : string) : option T := m ← n; t_get m k.
Definition int_or (n : option T) (k : string) (d : Z) : Z := default d (m ← node n k; t_value_int m).
Definition bool_or (n : option T) (k : string) (d : bool) : bool := default d (m ← node n k; t_value_bool m).
Definition string_or (n : option T) (k : string) (d : string) : list byte := default (bytes_of d) (m ← node n k; t_string m).
Definition table_at (n : option T) (k : string) : option T := m ← node n k; if t_table m then Some m else None.
Definition array_at (n : option T) (k : string) : list T := default [] (m ← node n k; t_array m).
Definition strings_at (n : option T) (k : string) : list (list byte) := omap t_string (array_at n k).

(** ** Buffer pools *)
Definition ParsePoolConfig (table : T) : PoolConfig := {|
  buffer_size := wrap 64 (int_or (Some table) "buffer_size" 0);
  initial_count := wrap 64 (int_or (Some table) "initial_count" 0);
  max_count := wrap 64 (int_or (Some table) "max_count" 0) |}.
Definition ParseBufferPool (tbl : option T) : BufferPool :=
  match tbl with
  | None => CreateDefault
  | Some _ =>
    let perf := table_at tbl "performance" in
    let profile := match perf with Some _ => string_or perf "memory_profile" "low" | None => bytes_of "low" end in
    let pool_node := match perf with
                     | Some _ => match node perf "buffer_pool" with Some p => Some p | None => node tbl "buffer_pool" end
                     | None => node tbl "buffer_pool"
                     end in
    let tables := List.filter t_table (default [] (m ← pool_node; t_array m)) in
    let configs := List.filter (fun c => 0 <? buffer_size c) (map ParsePoolConfig tables) in
    match configs with
    | [] => CreateByProfile (string_of (map lower profile))
    | _ => make_pool configs
    end
  end.

(** ** server.toml *)
Definition read_server_ssl (ssl : T) : ServerSsl := {|
  ssl_enable := bool_or (Some ssl) "enable" true;
  ssl_auto_generate := bool_or (Some ssl) "auto_generate" true;
  ssl_cert_file := string_or (Some ssl) "cert_file" "certs/server.crt";
  ssl_key_file := string_or (Some ssl) "key_file" "certs/server.key";
  ssl_ca_file := string_or (Some ssl) "ca_file" "certs/ca.crt";
  ssl_domains := strings_at (Some ssl) "domains" |}.
Definition allowed_port (elem : T) : option PortRange :=
  match t_string elem with
  | Some s => ParsePortRange s
  | None => i ← t_integer elem; mret {| range_start := port_of i; range_end := port_of i |}
  end.
Definition read_management (m : T) : option Management :=
  if bool_or (Some m) "enable" false then Some {|
    mgmt_addr := string_or (Some m) "bind_addr" "127.0.0.1";
    mgmt_port := port_of (int_or (Some m) "bind_port" 7002);
    mgmt_user := string_or (Some m) "username" "";
    mgmt_pass := string_or (Some m) "password" "" |} else None.
Definition read_server (root : T) : ServerConfig :=
  let s := node (Some root) "server" in {|
  bind_addr := string_or s "bind_addr" "0.0.0.0";
  bind_port := port_of (int_or s "bind_port" 7000);
  server_token := string_or s "token" "";
  server_protocol := string_or s "protocol" "auto";
  server_ssl := read_server_ssl <$> table_at s "ssl";
  allowed_ports := omap allowed_port (array_at s "allowed_ports");
  allowed_clients := strings_at s "allowed_clients";
  vhost_http_port := port_of (int_or s "vhost_http_port" 0);
  vhost_https_port := port_of (int_or s "vhost_https_port" 0);
  management := m ← table_at s "management"; read_management m |}.
(** The server's pool is read from the root of the document. *)
Definition server_pool (root : T) : BufferPool := ParseBufferPool (if t_table root then Some root else None).

(** ** client.toml *)
(** The node read in client mode, and its settings; [None] when a bandwidth
    overflows. *)
Definition client_node (root : T) : option T :=
  match node (Some root) "client" with Some c => Some c | None => node (Some root) "server" end.
Definition read_client_ssl (ssl : T) : ClientSsl := {|
  cssl_enable := bool_or (Some ssl) "enable" true;
  cssl_verify_peer := bool_or (Some ssl) "verify_peer" false;
  cssl_verify_host := bool_or (Some ssl) "verify_host" false;
  cssl_ca_file := string_or (Some ssl) "ca_file" "certs/ca.crt" |}.
Definition read_client (root : T) : ClientConfig :=
  let c := client_node root in {|
  server_addr := string_or c "server_addr" "127.0.0.1";
  server_port := port_of (int_or c "server_port" 7001);
  client_token := string_or c "token" "";
  client_name := string_or c "name" "";
  conf_d_dir := string_or c "conf_d" "";
  client_protocol := string_or c "protocol" "auto";
  client_compression := bool_or c "compression" true;
  compression_level := int_or c "compression_level" 1;
  client_ssl := read_client_ssl <$> table_at c "ssl" |}.
Definition read_proxy (table : T) : option ProxyConfig :=
  let t := Some table in
  bw ← match node t "bandwidth_limit" with
       | Some n => match t_string n with
                   | Some s => ParseBandwidth s
                   | None => Some (default 0 (t_integer n))
                   end
       | None => Some 0
       end;
  mret {|
    pc_name := string_of (string_or t "name" "");
    pc_type := string_of (string_or t "type" "tcp");
    local_ip := string_of (string_or t "local_ip" "127.0.0.1");
    local_port := port_of (int_or t "local_port" 0);
    remote_port := port_of (int_or t "remote_port" 0);
    custom_domains := map string_of match node t "custom_domains" with
      | Some n => match t_array n with
                  | Some ds => omap t_string ds
                  | None => match t_string n with Some d => [d] | None => [] end
                  end
      | None => []
      end;
    bandwidth_limit := bw |}.
Definition read_proxies (root : T) : option (list ProxyConfig) :=
  mapM read_proxy (List.filter t_table (array_at (client_node root) "proxies")).

(** ** The configuration directory of the client *)
(** A directory entry: a regular file or not, its stem and extension, and what
    [parse_file] gives ([None] when it throws). *)
Record dir_entry : Type := { de_regular : bool; de_stem : string; de_extension : string; de_parsed : option T }.
(** The proxy of a file; [None] when the entry is skipped. *)
Definition dir_proxy (en : dir_entry) : option (option ProxyConfig) :=
  if de_regular en && String.eqb (de_extension en) ".toml" then
    match de_parsed en with
    | None => Some None
    | Some data =>
      pc ← read_proxy data;
      let name := if String.eqb (pc_name pc) "" then de_stem en else pc_name pc in
      Some (if String.eqb name "" then None else Some {|
        pc_name := name; pc_type := pc_type pc; local_ip := local_ip pc; local_port := local_port pc;
        remote_port := remote_port pc; custom_domains := custom_domains pc; bandwidth_limit := bandwidth_limit pc |})
    end
  else Some None.
(** [new_proxies] of [PollConfDirectory]: a later file replaces an earlier one of
    the same name; the outer [None] is the overflow of a bandwidth. *)
Fixpoint read_directory (entries : list dir_entry) (acc : gmap string ProxyConfig) : option (gmap string ProxyConfig) :=
  match entries with
  | [] => Some acc
  | en :: entries' =>
    p ← dir_proxy en;
    read_directory entries' match p with Some pc => <[pc_name pc := pc]> acc | None => acc end
  end.

(** ** Threads *)
Definition thread_count (root : T) (hardware_concurrency : Z) : Z :=
  let threads_of (s : option T) := wrap 32 (int_or (node s "performance") "threads" (int_or s "threads" 2)) in
  let n := match node (Some root) "server" with
           | Some s => threads_of (Some s)
           | None => match node (Some root) "client" with Some c => threads_of (Some c) | None => 2 end
           end in
  if n =? 0 then if hardware_concurrency =? 0 then 2 else hardware_concurrency else n.
End Reading.

(** ** Decimal numbers *)
(** [std::to_string] *)
Definition dec (z : Z) : list byte := bytes_of (pretty z).
Definition decimal (ds : list byte) : Prop := Forall (fun b => is_Some (digit b)) ds.
Definition digits_value (acc : Z) (ds : list byte) : Z := fold_left (fun a b => a * 10 + default 0 (digit b)) ds acc.

Lemma scan_digits_app acc ds rest : decimal ds -> (forall b s, rest = b :: s -> digit b = None) ->
  scan_digits acc (ds ++ rest) = (digits_value acc ds, length ds).
Proof.
  intros Hd Hr. revert acc. induction Hd as [|b ds [d Hb] Hd IH]; intros acc.
  - destruct rest as [|b s]; [done|]. cbn. by rewrite (Hr b s).
  - cbn [app scan_digits digits_value fold_left length]. rewrite Hb, IH. by cbn.
Qed.
Lemma digit_no_space b : is_Some (digit b) -> is_space b = false /\ byte_to_Z b <> 45 /\ byte_to_Z b <> 43 /\ b <> x2d.
Proof.
  unfold digit, is_space. intros [d H]. destruct ((48 <=? byte_to_Z b) && (byte_to_Z b <=? 57)) eqn:E; [|done].
  bool_hyps. split; [|split_and!; [lia|lia|intros ->; cbn in *; lia]].
  apply orb_false_iff. split; [apply Z.eqb_neq; lia|]. apply andb_false_iff. right. apply Z.leb_gt. lia.
Qed.
(** Scanning a number that starts the text. *)
Lemma scan_int_decimal ds rest : decimal ds -> ds <> [] -> (forall b s, rest = b :: s -> digit b = None) ->
  scan_int (ds ++ rest) = Some (digits_value 0 ds, length ds).
Proof.
  intros Hd Hne Hr. unfold scan_int. destruct ds as [|b ds]; [done|]. pose proof Hd as [Hb _]%Forall_cons.
  destruct (digit_no_space b Hb) as (H1 & H2 & H3 & _). cbn [app spaces]. rewrite H1. cbn [drop].
  rewrite (proj2 (Z.eqb_neq _ _) H2), (proj2 (Z.eqb_neq _ _) H3). change (b :: ds ++ rest) with ((b :: ds) ++ rest).
  by rewrite scan_digits_app.
Qed.
Lemma digits_value_app acc xs ys : digits_value acc (xs ++ ys) = digits_value (digits_value acc xs) ys.
Proof. apply fold_left_app. Qed.

Lemma bytes_of_cons c s : bytes_of (String c s) = Ascii.byte_of_ascii c :: bytes_of s.
Proof. done. Qed.
Lemma digit_char x : (x < 10)%N -> digit (Ascii.byte_of_ascii (pretty_N_char x)) = Some (Z.of_N x).
Proof.
  intros H. assert (x = 0 \/ x = 1 \/ x = 2 \/ x = 3 \/ x = 4 \/ x = 5 \/ x = 6 \/ x = 7 \/ x = 8 \/ x = 9)%N as Hx by lia.
  destruct Hx as [->|[->|[->|[->|[->|[->|[->|[->|[->| ->]]]]]]]]]; reflexivity.
Qed.
Lemma pretty_N_go_digits x s : exists ds, bytes_of (pretty_N_go x s) = ds ++ bytes_of s /\ decimal ds /\
  (forall acc, digits_value acc ds = acc * 10 ^ Z.of_nat (length ds) + Z.of_N x) /\ (x <> 0%N -> ds <> []).
Proof.
  revert s. induction (N.lt_wf_0 x) as [x _ IH]; intros s. destruct (decide (x = 0)%N) as [->|Hx].
  { exists []. rewrite pretty_N_go_0. split_and!; [done|by constructor| |done]. intros acc. cbn. lia. }
  rewrite pretty_N_go_step by lia. destruct (IH (x `div` 10)%N) with (s := String (pretty_N_char (x `mod` 10)) s)
    as (ds & E & Hd & Hv & _); [apply N.div_lt; lia|].
  exists (ds ++ [Ascii.byte_of_ascii (pretty_N_char (x `mod` 10))]).
  assert (Hm : (x `mod` 10 < 10)%N) by (apply N.mod_lt; lia).
  rewrite E, bytes_of_cons, <- app_assoc. split_and!; [done| | |].
  - apply Forall_app. split; [done|]. constructor; [|constructor]. by rewrite digit_char.
  - intros acc. rewrite digits_value_app, Hv. cbn [digits_value fold_left]. rewrite digit_char by done. cbn [default].
    rewrite length_app. cbn [length]. replace (Z.of_nat (length ds + 1)) with (Z.of_nat (length ds) + 1) by lia.
    rewrite Z.pow_add_r by lia. assert (Z.of_N x = 10 * Z.of_N (x `div` 10) + Z.of_N (x `mod` 10)) by
      (rewrite N2Z.inj_div, N2Z.inj_mod; apply Z.div_mod; done).
    unfold id. change (10 ^ 1) with 10. rewrite H. ring.
  - intros _. by destruct ds.
Qed.
Lemma dec_digits z : 0 <= z -> decimal (dec z) /\ dec z <> [] /\ digits_value 0 (dec z) = z.
Proof.
  intros Hz. unfold dec. assert (E : pretty z = pretty (Z.to_N z)) by (by destruct z).
  rewrite E. unfold pretty, pretty_N. case_decide as Hd.
  - assert (z = 0) as -> by lia. split_and!; [|done|done]. repeat constructor; cbn; eauto.
  - destruct (pretty_N_go_digits (Z.to_N z) "") as (ds & -> & H1 & H2 & H3). rewrite app_nil_r.
    split_and!; [done|by apply H3|]. rewrite H2. lia.
Qed.
(** A number printed and read again. *)
Lemma sto_dec w z rest : 0 < w -> 0 <= z < 2 ^ (w - 1) -> (forall b s, rest = b :: s -> digit b = None) ->
  sto w (dec z ++ rest) = Some (z, length (dec z)).
Proof.
  intros Hw Hz Hr. destruct (dec_digits z) as (H1 & H2 & H3); [lia|]. unfold sto.
  rewrite scan_int_decimal, H3 by done. rewrite (proj2 (Z.leb_le _ _)), (proj2 (Z.ltb_lt _ _)) by lia. done.
Qed.
Lemma sto_dec_all w z : 0 < w -> 0 <= z < 2 ^ (w - 1) -> sto w (dec z) = Some (z, length (dec z)).
Proof. intros. rewrite <- (app_nil_r (dec z)) at 1. by apply sto_dec. Qed.
Lemma dec_no_dash z : 0 <= z -> x2d ∉ dec z.
Proof.
  intros Hz Hin. destruct (dec_digits z Hz) as (Hd & _). unfold decimal in Hd.
  rewrite Forall_forall in Hd. specialize (Hd _ Hin).
  by apply digit_no_space in Hd as (_ & _ & _ & H).
Qed.

Lemma find_dash a rest : 0 <= a -> find [x2d] (dec a ++ [x2d] ++ rest) = Some (length (dec a)).
Proof.
  intros Ha. apply (find_first x2d [] (dec a) rest); [set_solver|]. apply find_none. by apply dec_no_dash.
Qed.
Lemma port_of_small p : 0 <= p < 65536 -> port_of p = p.
Proof. intros H. apply Z.mod_small. exact H. Qed.

(** Port ranges: the text of a port or of two ports with a dash is read as the
    range it shows, taken modulo 65536 as everything stored in a [uint16_t]; so
    for real ports the range is the one written, and a port is allowed by the
    written ranges exactly when it lies in one of them. *)
Theorem port_ranges_read (ranges : list (Z * Z)) (port : Z) :
  Forall (fun r => 0 <= r.1 < 2 ^ 31 /\ 0 <= r.2 < 2 ^ 31) ranges ->
  omap (fun r => ParsePortRange (dec r.1 ++ [x2d] ++ dec r.2)) ranges =
    map (fun r => {| range_start := port_of r.1; range_end := port_of r.2 |}) ranges /\
  (forall r, r ∈ ranges -> ParsePortRange (dec r.1) = Some {| range_start := port_of r.1; range_end := port_of r.1 |}) /\
  (Forall (fun r => r.1 < 65536 /\ r.2 < 65536) ranges -> ranges <> [] ->
     IsPortAllowed (omap (fun r => ParsePortRange (dec r.1 ++ [x2d] ++ dec r.2)) ranges) port = true <->
     exists r, r ∈ ranges /\ r.1 <= port <= r.2).
Proof.
  intros H. assert (E : omap (fun r => ParsePortRange (dec r.1 ++ [x2d] ++ dec r.2)) ranges =
    map (fun r => {| range_start := port_of r.1; range_end := port_of r.2 |}) ranges).
  { induction H as [|[a b] rs [Ha Hb] _ IH]; [done|]. cbn [omap list_omap map fst snd]. unfold ParsePortRange at 1.
    cbn [fst snd] in *. rewrite find_dash, take_app_length by lia.
    rewrite app_assoc, drop_app_length' by (rewrite length_app; done).
    rewrite !sto_dec_all by lia. cbn [mbind option_bind mret option_ret]. by rewrite IH. }
  split; [done|]. split.
  - intros r Hr. rewrite Forall_forall in H. destruct (H r Hr) as [H1 _]. unfold ParsePortRange.
    rewrite find_none by (apply dec_no_dash; lia). by rewrite sto_dec_all by lia.
  - intros Hsmall Hne. rewrite E. unfold IsPortAllowed.
    assert (Hex : existsb (fun range => (range_start range <=? port) && (port <=? range_end range))
        (map (fun r => {| range_start := port_of r.1; range_end := port_of r.2 |}) ranges) = true <->
      exists r, r ∈ ranges /\ r.1 <= port <= r.2).
    { rewrite existsb_exists. split.
      - intros (x & Hin%list_elem_of_In%list_elem_of_fmap & Hb). destruct Hin as (r & -> & Hr).
        exists r. split; [done|]. rewrite Forall_forall in H, Hsmall. specialize (H r Hr). specialize (Hsmall r Hr).
        cbn in Hb. bool_hyps. rewrite !port_of_small in * by lia. lia.
      - intros (r & Hr & Hp). rewrite Forall_forall in H, Hsmall. specialize (H r Hr). specialize (Hsmall r Hr).
        exists {| range_start := port_of r.1; range_end := port_of r.2 |}. split.
        + apply list_elem_of_In, list_elem_of_fmap. by exists r.
        + cbn. rewrite !port_of_small by lia. apply andb_true_iff. split; apply Z.leb_le; lia. }
    by destruct ranges.
Qed.

(** Bandwidth limits: a number followed by nothing or by a unit in either case
    is read as that many bytes, kibi-, mebi- or gibibytes, unless the product
    leaves the 64-bit range; a text that starts with no number is no limit. *)
Theorem bandwidth_read (n multiplier : Z) (unit : list byte) :
  0 <= n < 2 ^ 63 ->
  (unit, multiplier) ∈ [([], 1); ([x4b], 1024); ([x6b], 1024); ([x4d], 1024 ^ 2); ([x6d], 1024 ^ 2);
                        ([x47], 1024 ^ 3); ([x67], 1024 ^ 3)] ->
  ParseBandwidth (dec n ++ unit) = (if n * multiplier <? 2 ^ 63 then Some (n * multiplier) else None).
Proof.
  intros Hn Hu. destruct (dec_digits n) as (Hd & Hne & _); [lia|].
  assert (Hlast : exists b, list.last (dec n) = Some b /\ is_Some (digit b)).
  { destruct (list.last (dec n)) as [b|] eqn:E; [|by apply last_None in E]. exists b. split; [done|].
    unfold decimal in Hd. rewrite Forall_forall in Hd. apply Hd. by apply last_Some_elem_of. }
  assert (Hparse : forall m, 0 < m -> bandwidth_unit (dec n ++ unit) = (m, dec n) ->
    ParseBandwidth (dec n ++ unit) = if n * m <? 2 ^ 63 then Some (n * m) else None).
  { intros m Hm Hb. unfold ParseBandwidth. rewrite Hb. rewrite sto_dec_all by lia.
    destruct (dec n ++ unit) eqn:E; [by apply app_eq_nil in E as [E _]|].
    rewrite (proj2 (Z.leb_le _ _)) by nia. done. }
  assert (Hcut : forall c, take (length (dec n ++ [c]) - 1) (dec n ++ [c]) = dec n).
  { intros c. rewrite length_app. cbn [length]. rewrite Nat.add_sub. apply take_app_length. }
  apply Hparse; [set_unfold in Hu; naive_solver lia|]. unfold bandwidth_unit.
  repeat (apply elem_of_cons in Hu as [Hu|Hu]); try (by apply elem_of_nil in Hu); injection Hu as -> ->;
    rewrite ?app_nil_r, ?last_snoc, ?Hcut; try done.
  destruct Hlast as (b & -> & Hb). unfold digit in Hb. destruct Hb as [d Hb].
  destruct ((48 <=? byte_to_Z b) && (byte_to_Z b <=? 57)) eqn:E; [|done]. bool_hyps.
  repeat match goal with |- context [byte_to_Z b =? ?k] => rewrite (proj2 (Z.eqb_neq (byte_to_Z b) k)) by lia end. done.
Qed.

(** ** The tool's configuration file *)
(** A key as a line can carry it: no '=' and no blank at either end. *)
Definition plain_key (key : list byte) : Prop :=
  (x3d ∉ key) /\ (forall c, head key = Some c -> c ∉ config_blanks) /\
  (forall c, list.last key = Some c -> c ∉ config_blanks).
Lemma line_key_config key value : plain_key key -> line_key (config_line key value) = Some key.
Proof.
  intros (H1 & H2 & H3). unfold line_key, config_line. change (bytes_of " = ") with ([x20] ++ [x3d] ++ [x20]).
  replace (key ++ ([x20] ++ [x3d] ++ [x20]) ++ format_value value)
    with ((key ++ [x20]) ++ [x3d] ++ [x20] ++ format_value value) by (by rewrite <- !app_assoc).
  rewrite (find_first x3d [] (key ++ [x20])); [|set_solver|apply find_none; set_solver].
  cbn [option_map]. f_equal. rewrite take_app_length.
  apply (trim_both config_blanks [] [x20] key); [by apply Forall_nil| |done|done].
  apply Forall_cons. split; [set_solver|by apply Forall_nil].
Qed.
Definition has_key (key line : list byte) : bool := bool_decide (line_key line = Some key).
Lemma config_loop_spec key value lines :
  let '(ls, found) := config_loop key value lines in
  found = existsb (has_key key) lines /\ (found = false -> ls = lines) /\
  (found = true -> exists pre line post, lines = pre ++ line :: post /\ existsb (has_key key) pre = false /\
     line_key line = Some key /\ ls = pre ++ config_line key value :: post).
Proof.
  induction lines as [|l lines IH]; [done|]. cbn [config_loop existsb]. unfold has_key at 1.
  destruct (bool_decide_reflect (line_key l = Some key)) as [Hl|Hl].
  - split; [done|]. split; [done|]. intros _. by exists [], l, lines.
  - destruct (config_loop key value lines) as [ls found]. destruct IH as (I1 & I2 & I3). cbn [orb].
    split; [done|]. split; [intros Hf; by rewrite I2|]. intros Hf.
    destruct (I3 Hf) as (pre & line & post & -> & H2 & H3 & ->). exists (l :: pre), line, post.
    split_and!; try done. cbn [existsb]. unfold has_key at 1. by rewrite bool_decide_false.
Qed.
Lemma config_loop_first key value pre line post : existsb (has_key key) pre = false -> line_key line = Some key ->
  config_loop key value (pre ++ line :: post) = (pre ++ config_line key value :: post, true).
Proof.
  intros Hp Hl. induction pre as [|l pre IH]; cbn [app config_loop].
  - by rewrite bool_decide_true.
  - cbn [existsb] in Hp. apply orb_false_iff in Hp as [Hp1 Hp2]. apply bool_decide_eq_false in Hp1.
    by rewrite bool_decide_false, IH.
Qed.
(** Where the line of [key] stands in the file written. *)
Lemma config_set_place key value lines : exists pre post,
  config_set key value lines = pre ++ config_line key value :: post /\ existsb (has_key key) pre = false /\
  ((exists line, lines = pre ++ line :: post /\ line_key line = Some key) \/ (lines = pre /\ post = [])).
Proof.
  unfold config_set. pose proof (config_loop_spec key value lines) as L.
  destruct (config_loop key value lines) as [ls found]. destruct L as (L1 & L2 & L3). destruct found.
  - destruct (L3 eq_refl) as (pre & line & post & -> & H2 & H3 & ->). exists pre, post. split_and!; eauto.
  - exists lines, []. rewrite L2 by done. split_and!; auto.
Qed.

Lemma getlines_write lines : Forall (fun l => x0a ∉ l) lines -> getlines [] (write_lines lines) = lines.
Proof.
  assert (H : forall l acc rest, x0a ∉ l -> getlines acc ((l ++ [x0a]) ++ rest) = (acc ++ l) :: getlines [] rest).
  { induction l as [|b l IH]; intros acc rest Hl; [cbn; by rewrite app_nil_r|].
    apply not_elem_of_cons in Hl as [Hb Hl]. cbn [app getlines].
    destruct (Byte.eqb b x0a) eqn:E; [by apply Byte.byte_dec_bl in E|].
    rewrite IH by done. by rewrite <- app_assoc. }
  induction 1 as [|l ls Hl _ IH]; [done|]. unfold write_lines in *. cbn [map concat]. by rewrite H, IH.
Qed.
Lemma getlines_clean s : Forall (fun l => x0a ∉ l) (getlines [] s).
Proof.
  assert (H : forall s acc, x0a ∉ acc -> Forall (fun l => x0a ∉ l) (getlines acc s)); [|apply H; set_solver].
  clear s. induction s as [|b s IH]; intros acc Ha; cbn [getlines].
  - destruct acc; repeat constructor; done.
  - destruct (Byte.eqb b x0a) eqn:E.
    + constructor; [done|]. apply IH. set_solver.
    + apply IH. intros [Hin|Hin]%elem_of_app; [done|]. apply list_elem_of_singleton in Hin. subst b. cbn in E. discriminate.
Qed.

(** [cfrp config set] edits the file as it says: on the file as [getline] reads
    it, exactly the first line with the key - or a new last line - becomes
    "key = value", every other line stays as and where it was; the file written
    reads back as those lines, the first line of the key is the new one, and
    setting the key again leaves only the last value behind. *)
Theorem config_set_edits (key value file : list byte) :
  plain_key key -> x0a ∉ key -> x0a ∉ value ->
  let lines := getlines [] file in
  let lines' := getlines [] (config_set_file key value file) in
  lines' = config_set key value lines /\
  (exists pre post, lines' = pre ++ config_line key value :: post /\ existsb (has_key key) pre = false /\
     ((exists line, lines = pre ++ line :: post /\ line_key line = Some key) \/ (lines = pre /\ post = []))) /\
  List.find (has_key key) lines' = Some (config_line key value) /\
  (forall v2, config_set key v2 lines' = config_set key v2 lines).
Proof.
  intros Hk Hnk Hnv lines lines'.
  assert (Hc : x0a ∉ config_line key value).
  { unfold config_line, format_value. rewrite !not_elem_of_app. split_and!; [done|by vm_compute; set_solver|].
    destruct (_ || _); [done|]. rewrite !not_elem_of_app. split_and!; [set_solver|done|set_solver]. }
  destruct (config_set_place key value lines) as (pre & post & E & Hp & Hor).
  assert (E' : lines' = config_set key value lines).
  { unfold lines', config_set_file. apply getlines_write. fold lines. rewrite E.
    assert (Hl : Forall (fun l => x0a ∉ l) lines) by apply getlines_clean.
    destruct Hor as [(line & Hl' & _)|[Hl' ->]]; rewrite Hl' in Hl.
    - apply Forall_app in Hl as [H1 H2]. apply Forall_cons in H2 as [_ H2]. apply Forall_app. split; [done|]. by constructor.
    - apply Forall_app. split; [done|]. by repeat constructor. }
  assert (Hk' : line_key (config_line key value) = Some key) by by apply line_key_config.
  split; [done|]. rewrite E', E. split; [by exists pre, post|]. split.
  - clear -Hp Hk'. induction pre as [|l pre IH]; cbn [app List.find].
    + unfold has_key. by rewrite bool_decide_true.
    + cbn [existsb] in Hp. apply orb_false_iff in Hp as [-> Hp]. by apply IH.
  - intros v2. unfold config_set. rewrite (config_loop_first key v2 pre _ post Hp Hk').
    destruct Hor as [(line & -> & Hl)|[-> ->]]; [by rewrite (config_loop_first key v2 pre _ post Hp Hl)|].
    pose proof (config_loop_spec key v2 pre) as L. destruct (config_loop key v2 pre) as [ls found].
    destruct L as (-> & L2 & _). rewrite Hp in *. by rewrite L2.
Qed.

(** ** What is read has its type *)
Definition proxy_typed (pc : ProxyConfig) : Prop :=
  uint16_fits (local_port pc) /\ uint16_fits (remote_port pc) /\ int64_fits (bandwidth_limit pc).
Definition range_typed (r : PortRange) : Prop := uint16_fits (range_start r) /\ uint16_fits (range_end r).
Lemma port_of_fits z : uint16_fits (port_of z).
Proof. apply Z.mod_pos_bound. lia. Qed.
#[local] Hint Resolve port_of_fits : core.
Lemma parse_range_typed s r : ParsePortRange s = Some r -> range_typed r.
Proof.
  unfold ParsePortRange. destruct (find _ s) as [k|].
  - destruct (sto 32 (take k s)) as [[a ?]|]; [|done]. cbn [mbind option_bind].
    destruct (sto 32 _) as [[b ?]|]; [|done]. intros [= <-]. by split; cbn.
  - destruct (sto 32 s) as [[a ?]|]; [|done]. intros [= <-]. by split; cbn.
Qed.
Lemma parse_bandwidth_typed s b : ParseBandwidth s = Some b -> int64_fits b.
Proof.
  unfold ParseBandwidth, int64_fits. destruct s; [intros [= <-]; lia|]. destruct (bandwidth_unit _) as [m v].
  destruct (sto 64 v) as [[x ?]|]; [|intros [= <-]; lia]. destruct (_ && _) eqn:E; [|done]. intros [= <-]. bool_hyps. lia.
Qed.

Section Typed.
Context {T : Type} `{TomlLaws T}.
Lemma read_proxy_typed (t : T) pc : read_proxy t = Some pc -> proxy_typed pc.
Proof.
  unfold read_proxy. set (bw := match node (Some t) "bandwidth_limit" with Some n => _ | None => _ end).
  assert (Hb : forall b, bw = Some b -> int64_fits b).
  { intros b. unfold bw. destruct (node _ _) as [n|]; [|intros [= <-]; unfold int64_fits; lia].
    destruct (t_string n) as [s|]; [apply parse_bandwidth_typed|]. intros [= <-]. unfold int64_fits.
    destruct (t_integer n) as [i|] eqn:E; cbn; [by eapply toml_integer_64|lia]. }
  destruct bw as [b|]; [|done]. cbn [mbind option_bind mret option_ret]. intros [= <-]. split_and!; cbn; auto.
Qed.
Lemma dir_proxy_typed (en : dir_entry) pc : dir_proxy en = Some (Some pc) -> proxy_typed pc /\ pc_name pc <> ""%string.
Proof.
  unfold dir_proxy. destruct (_ && _); [|done]. destruct (de_parsed en) as [data|]; [|done].
  destruct (read_proxy data) as [p|] eqn:E; [|done]. cbn [mbind option_bind]. apply read_proxy_typed in E as (E1 & E2 & E3).
  set (name := if String.eqb (pc_name p) "" then de_stem en else pc_name p).
  destruct (String.eqb_spec name "") as [|Hn]; [done|]. intros [= <-]. by split_and!.
Qed.
Lemma read_directory_typed (entries : list dir_entry) acc conf :
  (forall n pc, acc !! n = Some pc -> pc_name pc = n /\ n <> ""%string /\ proxy_typed pc) ->
  read_directory entries acc = Some conf ->
  forall n pc, conf !! n = Some pc -> pc_name pc = n /\ n <> ""%string /\ proxy_typed pc.
Proof.
  revert acc. induction entries as [|en es IH]; intros acc Ha; cbn [read_directory]; [by intros [= <-]|].
  destruct (dir_proxy en) as [p|] eqn:E; [|done]. cbn [mbind option_bind]. apply IH. destruct p as [pc|]; [|done].
  apply dir_proxy_typed in E as [E1 E2]. intros n pc'. destruct (decide (pc_name pc = n)) as [<-|Hne].
  - rewrite lookup_insert_eq. by intros [= <-].
  - rewrite lookup_insert_ne by done. apply Ha.
Qed.

End Typed.

(** ** What the code does besides *)
(** The server's pool settings are looked for at the root of the document: those
    of [server.performance] change nothing. *)
Lemma server_pool_ignores_section {T} `{Toml T} (root : T) : t_table root = true ->
  t_get root "performance" = None -> t_get root "buffer_pool" = None -> server_pool root = CreateByProfile "low".
Proof.
  intros Ht Hp Hb. unfold server_pool, ParseBufferPool, table_at, node. rewrite Ht. cbn [mbind option_bind].
  rewrite Hp, Hb. reflexivity.
Qed.
(** A unit of two letters is not a unit, and a fraction is cut before its unit. *)
Lemma bandwidth_two_letter_unit : ParseBandwidth (bytes_of "10KB") = Some 10 /\ ParseBandwidth (bytes_of "1.5M") = Some 1048576.
Proof. by split. Qed.
(** A port beyond 65535 is taken modulo 65536. *)
Lemma port_range_truncated : ParsePortRange (bytes_of "70000-70010") = Some {| range_start := 4464; range_end := 4474 |}.
Proof. reflexivity. Qed.
(** Options are only looked at without a configuration file, and then the
    forced client mode always runs on the file that was just generated. *)
Lemma forced_client_is_generated config ca token st ct mode ca_provided has_server has_client :
  choose_mode config ca token st ct = (mode, ca_provided) ->
  match mode with
  | mode_file _ => ca_provided = false /\ choose_role has_server has_client ca_provided <> run_client_on_server_section
  | mode_new_client ca' token' => ca' = ca /\ token' = token /\ ca <> ""%string /\ token <> ""%string
  | mode_new_server => ca = ""%string /\ token = ""%string
  | mode_mismatch => ca = ""%string <-> token <> ""%string
  end.
Proof.
  unfold choose_mode. intros H.
  set (config' := if String.eqb config "" then if st then "server.toml"%string else if ct then "client.toml"%string else ""%string
                  else config) in H.
  destruct (String.eqb config' "") eqn:Ec; cbn [negb] in H.
  - destruct (String.eqb_spec ca ""), (String.eqb_spec token ""); injection H as <- <-; cbn; naive_solver.
  - cbn in H. injection H as <- <-. split; [done|]. unfold choose_role. by destruct has_server, has_client.
Qed.
(** After a stop that succeeds nothing is reported running. *)
(** The generated client file holds the token and the certificate given, each on
    a line of its own, when they hold no newline. *)
Lemma getlines_line acc l rest : x0a ∉ l -> getlines acc (l ++ x0a :: rest) = (acc ++ l) :: getlines [] rest.
Proof.
  revert acc. induction l as [|b l IH]; intros acc Hl; cbn [app getlines].
  - by rewrite app_nil_r.
  - apply not_elem_of_cons in Hl as [Hb Hl]. destruct (Byte.eqb b x0a) eqn:E.
    { apply Byte.byte_dec_bl in E. by rewrite E in Hb. }
    rewrite IH by done. by rewrite <- app_assoc.
Qed.
Lemma getlines_write_app ls rest : Forall (fun l => x0a ∉ l) ls -> getlines [] (write_lines ls ++ rest) = ls ++ getlines [] rest.
Proof.
  induction 1 as [|l ls Hl _ IH]; [done|]. unfold write_lines in *. cbn [map concat].
  rewrite <- !app_assoc. cbn [app]. rewrite getlines_line by done. by rewrite IH.
Qed.
Lemma default_client_lines : exists pre mid post, forall ca token, x0a ∉ ca -> x0a ∉ token ->
    getlines [] (default_client_toml ca token) =
      pre ++ [bytes_of "token = " ++ [x22] ++ token ++ [x22]] ++ mid ++ [bytes_of "ca_file = " ++ [x22] ++ ca ++ [x22]] ++ post.
Proof.
  eexists _, _, _. intros ca token Hc Ht. unfold default_client_toml, quoted_text.
  assert (Hl : forall name v rest, x0a ∉ name -> x0a ∉ v -> getlines [] (name ++ [x22] ++ v ++ [x22; x0a] ++ rest) =
    [name ++ [x22] ++ v ++ [x22]] ++ getlines [] rest).
  { intros name v rest Hn Hv. change ([x22; x0a] ++ rest) with ([x22] ++ x0a :: rest).
    rewrite !app_assoc, getlines_line; [by rewrite <- !app_assoc|].
    rewrite !not_elem_of_app, !list_elem_of_singleton. done. }
  rewrite getlines_write_app by (apply (bool_decide_unpack _); vm_compute; done).
  rewrite Hl by (done || (apply (bool_decide_unpack _); vm_compute; done)).
  rewrite getlines_write_app by (apply (bool_decide_unpack _); vm_compute; done).
  rewrite Hl by (done || (apply (bool_decide_unpack _); vm_compute; done)).
  rewrite <- (app_nil_r (write_lines _)), getlines_write_app by (apply (bool_decide_unpack _); vm_compute; done).
  reflexivity.
Qed.
Lemma stop_then_status f running terminate running' details f' :
  stop_command f running terminate = (0, f') -> forall pid ds, status_command f' running' details <> status_running pid ds.
Proof.
  destruct f as [| |p]; cbn; [by intros [= <-]..|]. destruct (running p); [destruct (terminate p)|]; by intros [= <-].
Qed.

(** ** A concrete document *)
Inductive toml : Type :=
| toml_string (s : list byte)
| toml_integer (i : Z)
| toml_boolean (b : bool)
| toml_array (l : list toml)
| toml_table (l : list (string * toml)).
Definition in_bits (w i : Z) : option Z := if (- 2 ^ (w - 1) <=? i) && (i <? 2 ^ (w - 1)) then Some i else None.
#[export] Instance toml_Toml : Toml toml := {|
  t_get := fun t k => match t with
    | toml_table l => option_map snd (List.find (fun p => String.eqb p.1 k) l) | _ => None end;
  t_string := fun t => match t with toml_string s => Some s | _ => None end;
  t_integer := fun t => match t with toml_integer i => in_bits 64 i | _ => None end;
  t_array := fun t => match t with toml_array l => Some l | _ => None end;
  t_table := fun t => match t with toml_table _ => true | _ => false end;
  t_value_int := fun t => match t with toml_integer i => in_bits 32 i | _ => None end;
  t_value_bool := fun t => match t with toml_boolean b => Some b | _ => None end |}.
Lemma in_bits_spec w i j : in_bits w i = Some j -> - 2 ^ (w - 1) <= j < 2 ^ (w - 1).
Proof. unfold in_bits. destruct (_ && _) eqn:E; [|done]. intros [= <-]. bool_hyps. lia. Qed.
#[export] Instance toml_TomlLaws : TomlLaws toml.
Proof.
  split; intros n i; destruct n; cbn; try done; intros Hi.
  - by apply (in_bits_spec 64) in Hi.
  - by apply (in_bits_spec 32) in Hi.
Qed.
(** The values of the server.toml that main generates. *)
Definition generated_server : toml := toml_table [("server"%string, toml_table [
  ("bind_addr"%string, toml_string (bytes_of "0.0.0.0")); ("bind_port"%string, toml_integer 7001);
  ("token"%string, toml_string (bytes_of "secret_token")); ("log_level"%string, toml_string (bytes_of "info"));
  ("performance"%string, toml_table [("threads"%string, toml_integer 2); ("memory_profile"%string, toml_string (bytes_of "low"));
     ("vhost_http_port"%string, toml_integer 8080); ("vhost_https_port"%string, toml_integer 8443)]);
  ("ssl"%string, toml_table [("enable"%string, toml_boolean true); ("auto_generate"%string, toml_boolean true);
     ("cert_file"%string, toml_string (bytes_of "certs/server.crt")); ("key_file"%string, toml_string (bytes_of "certs/server.key"));
     ("ca_file"%string, toml_string (bytes_of "certs/ca.crt"))])])].
(** Its vhost ports stand in the wrong table: no vhost listener is started. *)
Lemma generated_server_vhost_unread :
  vhost_http_port (read_server generated_server) = 0 /\ vhost_https_port (read_server generated_server) = 0 /\
  bind_port (read_server generated_server) = 7001.
Proof. by vm_compute. Qed.

(** ** Witnesses *)
Definition sample_ranges : list (Z * Z) := [(6000, 7000); (8080, 8080)].
Lemma sample_ranges_small : Forall (fun r => 0 <= r.1 < 2 ^ 31 /\ 0 <= r.2 < 2 ^ 31) sample_ranges.
Proof. repeat constructor; cbn; lia. Qed.
Lemma port_ranges_read_witness :
  omap (fun r => ParsePortRange (dec r.1 ++ [x2d] ++ dec r.2)) sample_ranges =
    map (fun r => {| range_start := port_of r.1; range_end := port_of r.2 |}) sample_ranges /\
  (forall r, r ∈ sample_ranges -> ParsePortRange (dec r.1) = Some {| range_start := port_of r.1; range_end := port_of r.1 |}) /\
  (Forall (fun r => r.1 < 65536 /\ r.2 < 65536) sample_ranges -> sample_ranges <> [] ->
     IsPortAllowed (omap (fun r => ParsePortRange (dec r.1 ++ [x2d] ++ dec r.2)) sample_ranges) 6500 = true <->
     exists r, r ∈ sample_ranges /\ r.1 <= 6500 <= r.2).
Proof. exact (port_ranges_read sample_ranges 6500 sample_ranges_small). Defined.
Lemma bandwidth_read_witness : ParseBandwidth (dec 10 ++ [x6b]) = Some 10240.
Proof. exact (bandwidth_read 10 1024 [x6b] ltac:(lia) ltac:(set_solver)). Defined.
Definition sample_file : list byte :=
  bytes_of "working_mode = foreground" ++ [x0a] ++ bytes_of "threads=2" ++ [x0a].
Definition sample_key : list byte := bytes_of "threads".
Lemma sample_key_plain : plain_key sample_key.
Proof.
  unfold plain_key, sample_key. split_and!; [vm_compute; set_solver|intros c [= <-]|intros c [= <-]]; vm_compute; set_solver.
Qed.
Lemma config_set_edits_witness :
  let lines := getlines [] sample_file in
  let lines' := getlines [] (config_set_file sample_key (bytes_of "4") sample_file) in
  lines' = config_set sample_key (bytes_of "4") lines /\
  (exists pre post, lines' = pre ++ config_line sample_key (bytes_of "4") :: post /\ existsb (has_key sample_key) pre = false /\
     ((exists line, lines = pre ++ line :: post /\ line_key line = Some sample_key) \/ (lines = pre /\ post = []))) /\
  List.find (has_key sample_key) lines' = Some (config_line sample_key (bytes_of "4")) /\
  (forall v2, config_set sample_key v2 lines' = config_set sample_key v2 lines).
Proof.
  exact (config_set_edits sample_key (bytes_of "4") sample_file sample_key_plain ltac:(vm_compute; set_solver)
           ltac:(vm_compute; set_solver)).
Defined.
Definition sample_entries : list (@dir_entry toml) :=
  [{| de_regular := true; de_stem := "web"; de_extension := ".toml"; de_parsed := Some (toml_table
       [("type"%string, toml_string (bytes_of "http")); ("bandwidth_limit"%string, toml_string (bytes_of "2M"))]) |};
   {| de_regular := true; de_stem := "readme"; de_extension := ".md"; de_parsed := None |}].
