(* ===== verification/Mgmt.v ===== *)
(** * The management page (src/server/mgmt/mgmt_server.cpp; statistics of
    src/server/server.cpp)

    One request over one connection: what [async_read_until] delivered up to
    the blank line, the credentials, the paths, and the JSON text of the two
    pages.  Base64 (wolfSSL) is a variable, the version a constant of the
    build; the statistics of a listener are those of Pending.v with the name
    and port it was made with. *)
From Stdlib Require Import ZArith Lia Strings.Byte String.
From stdpp Require Import base tactics list gmap strings pretty.
From S2P Require Import Prelude Text Pending Registry Control Config.
Local Open Scope Z_scope.

(** ** Statistics *)
Record ProxyStats : Type := {
  ps_name : string; ps_type : string; ps_port : Z; ps_active : Z; ps_total : Z; ps_sent : Z; ps_received : Z }.
Record ClientInfo : Type := { ci_name : string; ci_endpoint : string; ci_protocol : string; ci_proxies : list ProxyStats }.
(** The traffic counters of a listener, by number. *)
Record Traffic : Type := { bytes_sent : nat -> Z; bytes_received : nat -> Z; listen_port : nat -> Z }.
(** [ProxyListener::GetStats]: counters of 32 and 64 bits into [int32_t]. *)
Definition tcp_stats (tr : Traffic) (n : nat) (l : ProxyListener) : ProxyStats := {|
  ps_name := pl_name l; ps_type := "tcp"; ps_port := listen_port tr n; ps_active := to_signed 32 (active_conns_ l);
  ps_total := to_signed 32 (total_conns_ l); ps_sent := bytes_sent tr n; ps_received := bytes_received tr n |}.
(** [UdpProxyListener::GetStats] *)
Definition udp_stats (tr : Traffic) (n : nat) (l : UdpProxyListener) : ProxyStats := {|
  ps_name := ul_name l; ps_type := "udp"; ps_port := listen_port tr n; ps_active := 0;
  ps_total := to_signed 32 (ul_total_conns l); ps_sent := bytes_sent tr n; ps_received := ul_bytes_received l |}.
(** [ControlSession::GetInfo]; [endpoint] and [protocol] are those of its stream. *)
Definition GetInfo (tr : Traffic) (endpoint protocol : string) (p : Pending) (c : ControlSession) : ClientInfo := {|
  ci_name := client_name_ c; ci_endpoint := endpoint; ci_protocol := protocol;
  ci_proxies := omap (fun x => tcp_stats tr x.1 <$> tcp_listeners p !! x.1) (proxies_ c) ++
                omap (fun x => udp_stats tr x.1 <$> udp_listeners p !! x.1) (udp_proxies_ c) |}.
(** [GetClientsInfo], in the order of the table. *)
Definition GetClientsInfo (tr : Traffic) (peer : nat -> string * string) (sv : Server) : list ClientInfo :=
  omap (fun x => c ← controls sv !! x.2;
                 Some (GetInfo tr (peer x.2).1 (peer x.2).2 (pending (shared sv)) c))
       (map_to_list (sessions_ (registry (shared sv)))).
(** [GetTotalStats]: sums of 64 bits. *)
Definition GetTotalStats (infos : list ClientInfo) : Z * Z :=
  foldl (fun t p => (wrap 64 (t.1 + ps_sent p), wrap 64 (t.2 + ps_received p))) (0, 0) (mjoin (map ci_proxies infos)).

(** ** The pages *)
Definition quote : list byte := [x22].
Definition str_field (name : string) (value : list byte) : list byte :=
  quote ++ bytes_of name ++ quote ++ bytes_of ": " ++ quote ++ value ++ quote.
Definition num_field (name : string) (value : Z) : list byte :=
  quote ++ bytes_of name ++ quote ++ bytes_of ": " ++ dec value.
Fixpoint comma_list (items : list (list byte)) : list byte :=
  match items with
  | [] => []
  | [x] => x
  | x :: items' => x ++ bytes_of "," ++ comma_list items'
  end.
Definition proxy_json (p : ProxyStats) : list byte :=
  bytes_of "{" ++ str_field "name" (bytes_of (ps_name p)) ++ bytes_of "," ++ str_field "type" (bytes_of (ps_type p)) ++
  bytes_of "," ++ num_field "port" (ps_port p) ++ bytes_of "," ++ num_field "active_conns" (ps_active p) ++
  bytes_of "," ++ num_field "total_conns" (ps_total p) ++ bytes_of "," ++ num_field "bytes_sent" (ps_sent p) ++
  bytes_of "," ++ num_field "bytes_received" (ps_received p) ++ bytes_of "}".
Definition client_json (c : ClientInfo) : list byte :=
  bytes_of "{" ++ str_field "name" (bytes_of (ci_name c)) ++ bytes_of "," ++
  str_field "endpoint" (bytes_of (ci_endpoint c)) ++ bytes_of "," ++
  str_field "protocol" (bytes_of (ci_protocol c)) ++ bytes_of "," ++
  quote ++ bytes_of "proxies" ++ quote ++ bytes_of ": [" ++ comma_list (map proxy_json (ci_proxies c)) ++ bytes_of "]}".
Definition GetClientsJson (clients : list ClientInfo) : list byte :=
  bytes_of "[" ++ comma_list (map client_json clients) ++ bytes_of "]".
Definition GetStatusJson (version : list byte) (totals : Z * Z) : list byte :=
  bytes_of "{" ++ str_field "version" version ++ bytes_of "," ++ str_field "status" (bytes_of "running") ++ bytes_of "," ++
  num_field "total_bytes_sent" totals.1 ++ bytes_of "," ++ num_field "total_bytes_received" totals.2 ++ bytes_of "}".

(** ** A request *)
(** [ss >> word] *)
Fixpoint until_space (s : list byte) : list byte * list byte :=
  match s with
  | [] => ([], [])
  | b :: s' => if is_space b then ([], s) else let '(w, r) := until_space s' in (b :: w, r)
  end.
Definition next_word (s : list byte) : list byte * list byte := until_space (drop (spaces s) s).
Definition request_path (line : list byte) : list byte := (next_word (next_word line).2).1.
Definition authorization : list byte := bytes_of "Authorization: ".
(** [pop_back] of a carriage return. *)
Definition strip_cr (s : list byte) : list byte :=
  match list.last s with Some c => if Byte.eqb c x0d then take (length s - 1) s else s | None => s end.
Fixpoint auth_header (lines : list (list byte)) (auth : list byte) : list byte :=
  match lines with
  | [] => auth
  | line :: lines' =>
    if bool_decide (line = [x0d]) then auth
    else auth_header lines' (if is_prefix authorization line then strip_cr (drop 15 line) else auth)
  end.

Record Response : Type := { status_code : Z; status_text : string; extra_headers : list byte; body : list byte }.
(** [common::Base64Encode] over wolfSSL's encoder. *)
Definition Base64Encode (encode : list byte -> list byte) (data : list byte) : list byte :=
  trim_back [x00; x0a; x0d] (encode data).
Section Handler.
(** [Base64_Encode] without the line ends [Base64Encode] strips, and what the
    pages show. *)
Context (base64 : list byte -> list byte) (version : list byte).

Definition SetCredentials (username password : list byte) : list byte :=
  if negb (bool_decide (username = [])) || negb (bool_decide (password = []))
  then base64 (username ++ bytes_of ":" ++ password) else [].
Definition authorized (expected_auth auth : list byte) : bool :=
  bool_decide (expected_auth = []) || bool_decide (auth = bytes_of "Basic " ++ expected_auth).
Definition respond (expected_auth path auth : list byte) (clients : list ClientInfo) : Response :=
  if negb (authorized expected_auth auth) then {|
    status_code := 401; status_text := "Unauthorized";
    extra_headers := bytes_of "WWW-Authenticate: Basic realm=" ++ quote ++ bytes_of "cfrp management" ++ quote ++ crlf;
    body := bytes_of "{" ++ str_field "error" (bytes_of "Unauthorized") ++ bytes_of "}" |}
  else if bool_decide (path = bytes_of "/api/v1/status") then {|
    status_code := 200; status_text := "OK"; extra_headers := []; body := GetStatusJson version (GetTotalStats clients) |}
  else if bool_decide (path = bytes_of "/api/v1/clients") then {|
    status_code := 200; status_text := "OK"; extra_headers := []; body := GetClientsJson clients |}
  else {|
    status_code := 404; status_text := "Not Found"; extra_headers := [];
    body := bytes_of "{" ++ str_field "error" (bytes_of "Not Found") ++ bytes_of "}" |}.
Definition response_bytes (r : Response) : list byte :=
  bytes_of "HTTP/1.1 " ++ dec (status_code r) ++ bytes_of " " ++ line (status_text r) ++
  line "Content-Type: application/json" ++
  bytes_of "Content-Length: " ++ dec (zlen (body r)) ++ crlf ++
  line "Access-Control-Allow-Origin: *" ++ extra_headers r ++ line "Connection: close" ++ crlf ++ body r.
(** [HandleRequest], on the bytes read up to the blank line or beyond it. *)
Definition HandleRequest (expected_auth data : list byte) (clients : list ClientInfo) : option (list byte) :=
  match getlines [] data with
  | [] => None
  | first :: rest =>
    Some (response_bytes (respond expected_auth (request_path first) (auth_header rest []) clients))
  end.
End Handler.

(** ** Credentials *)
Lemma auth_header_found lines auth : auth_header lines auth = auth \/
  exists rest, authorization ++ rest ∈ lines /\ auth_header lines auth = strip_cr rest.
Proof.
  revert auth. induction lines as [|l lines IH]; intros auth; cbn [auth_header]; [by left|].
  destruct (bool_decide (l = [x0d])); [by left|].
  destruct (is_prefix authorization l) eqn:E.
  - destruct (IH (strip_cr (drop 15 l))) as [->|(rest & Hr & ->)].
    + right. exists (drop 15 l). split; [|done]. change 15%nat with (length authorization). rewrite <- is_prefix_split by done. left.
    + right. exists rest. split; [by right|done].
  - destruct (IH auth) as [->|(rest & Hr & ->)]; [by left|]. right. exists rest. split; [by right|done].
Qed.

(** C30 The management page is closed to strangers: with a user name or a password
    set, a request is answered from the statistics only if one of its header
    lines carries exactly these credentials in Base64; any other request gets
    one fixed answer, the same whatever the server's state. *)
Theorem mgmt_needs_credentials (base64 : list byte -> list byte) (version username password data : list byte)
    (clients : list ClientInfo) (out : list byte) :
  (forall x, x <> [] -> base64 x <> []) ->
  username <> [] \/ password <> [] ->
  HandleRequest version (SetCredentials base64 username password) data clients = Some out ->
  (exists rest, authorization ++ rest ∈ getlines [] data /\
     strip_cr rest = bytes_of "Basic " ++ base64 (username ++ bytes_of ":" ++ password)) \/
  (bytes_of "HTTP/1.1 401 Unauthorized" `prefix_of` out /\
   forall version' clients', HandleRequest version' (SetCredentials base64 username password) data clients' = Some out).
Proof.
  intros Hb Hc H. set (cred := username ++ bytes_of ":" ++ password).
  assert (Hne : base64 cred <> []) by (apply Hb; intros E; apply app_eq_nil in E as [_ E]; done).
  assert (Es : SetCredentials base64 username password = base64 cred).
  { unfold SetCredentials. destruct (bool_decide_reflect (username = [])), (bool_decide_reflect (password = [])); try done.
    by destruct Hc. }
  rewrite Es in *. unfold HandleRequest in *. destruct (getlines [] data) as [|first rest]; [done|]. injection H as H.
  assert (Ha : forall auth, authorized (base64 cred) auth = bool_decide (auth = bytes_of "Basic " ++ base64 cred)).
  { intros auth. unfold authorized. by rewrite (bool_decide_false _ Hne). }
  unfold respond in *. setoid_rewrite Ha. rewrite Ha in H.
  destruct (bool_decide_reflect (auth_header rest [] = bytes_of "Basic " ++ base64 cred)) as [E|E]; cbn [negb] in *.
  - left. destruct (auth_header_found rest []) as [E'|(r & Hr & E')].
    + rewrite E' in E. discriminate.
    + exists r. split; [by right|]. congruence.
  - right. split; [|by rewrite H]. rewrite <- H. by eexists.
Qed.

(** ** Framing *)
Definition blank_line : list byte := crlf ++ crlf.
Definition header_lines (ls : list (list byte)) : list byte := concat (map (fun l => l ++ crlf) ls).
Lemma find_blank_line ls rest : ls <> [] -> Forall (fun l => l <> [] /\ x0d ∉ l) ls ->
  find blank_line (header_lines ls ++ crlf ++ rest) = Some (length (header_lines ls) - 2)%nat.
Proof.
  induction ls as [|l ls IH]; [done|]. intros _ [[Hl Hcr] H]%Forall_cons. unfold header_lines in *. cbn [map concat].
  rewrite <- !app_assoc. unfold blank_line. change (crlf ++ crlf) with (x0d :: [x0a; x0d; x0a]).
  rewrite find_skip by done. destruct ls as [|l2 ls].
  - cbn [map concat app]. rewrite app_nil_r, length_app. cbn. f_equal. lia.
  - pose proof H as [[Hl2 Hcr2] _]%Forall_cons. specialize (IH ltac:(done) H). fold header_lines in *.
    set (tail := concat _ ++ crlf ++ rest) in *. destruct l2 as [|c l2]; [done|].
    assert (Hc : Byte.eqb x0d c = false).
    { destruct (Byte.eqb x0d c) eqn:E; [|done]. apply Byte.byte_dec_bl in E. set_solver. }
    assert (Et : exists tl, tail = c :: tl) by (unfold tail; cbn; by eexists). destruct Et as [tl Et].
    change (crlf ++ tail) with (x0d :: x0a :: tail). unfold blank_line in IH. change (crlf ++ crlf) with (x0d :: [x0a; x0d; x0a]) in IH.
    rewrite Et in *. cbn [find is_prefix andb]. rewrite Hc. cbn [andb]. cbn [find is_prefix] in IH. rewrite Hc in IH. cbn [andb] in IH.
    change (Byte.eqb x0d x0a) with false. cbn [andb].
    rewrite IH, andb_false_r. cbn [option_map]. f_equal. rewrite !length_app. cbn [length crlf map concat].
    rewrite !length_app. cbn [length crlf]. lia.
Qed.
Lemma dec_no_cr z : 0 <= z -> x0d ∉ dec z.
Proof.
  intros Hz Hin. destruct (dec_digits z Hz) as (Hd & _). unfold decimal in Hd. rewrite Forall_forall in Hd.
  destruct (Hd _ Hin) as [d Hx]. discriminate.
Qed.
Definition response_lines (r : Response) : list (list byte) :=
  [bytes_of "HTTP/1.1 " ++ dec (status_code r) ++ bytes_of " " ++ bytes_of (status_text r);
   bytes_of "Content-Type: application/json"; bytes_of "Content-Length: " ++ dec (zlen (body r));
   bytes_of "Access-Control-Allow-Origin: *"] ++
  (if bool_decide (extra_headers r = []) then [] else [take (length (extra_headers r) - 2) (extra_headers r)]) ++
  [bytes_of "Connection: close"].
Definition no_cr (s : list byte) : bool := forallb (fun b => negb (Byte.eqb b x0d)) s.
Lemma no_cr_spec s : no_cr s = true <-> (x0d ∉ s).
Proof.
  unfold no_cr. rewrite forallb_forall. split.
  - intros H Hin%list_elem_of_In. by specialize (H _ Hin).
  - intros H b Hb%list_elem_of_In. destruct (Byte.eqb b x0d) eqn:E; [|done]. apply Byte.byte_dec_bl in E. by subst.
Qed.
Lemma header_lines_app xs ys : header_lines (xs ++ ys) = header_lines xs ++ header_lines ys.
Proof. unfold header_lines. by rewrite map_app, concat_app. Qed.
Lemma response_lines_ok version expected path auth clients :
  Forall (fun l => l <> [] /\ x0d ∉ l) (response_lines (respond version expected path auth clients)).
Proof.
  set (r := respond _ _ _ _ _).
  assert (Hno : forall s, no_cr (bytes_of s) = true -> (x0d ∉ bytes_of s)) by (intros s; by rewrite no_cr_spec).
  assert (Hs : 0 <= status_code r /\ (x0d ∉ bytes_of (status_text r)) /\
    Forall (fun l => l <> [] /\ x0d ∉ l) (if bool_decide (extra_headers r = []) then []
      else [take (length (extra_headers r) - 2) (extra_headers r)])).
  { unfold r, respond. destruct (negb _).
    - split; [done|]. split; [by apply Hno|]. constructor; [|by apply Forall_nil]. split; [done|].
      rewrite <- no_cr_spec. reflexivity.
    - destruct (bool_decide (path = bytes_of "/api/v1/status")), (bool_decide (path = bytes_of "/api/v1/clients"));
        (split; [done|]; split; [by apply Hno|by apply Forall_nil]). }
  destruct Hs as (H1 & H2 & H3). unfold response_lines.
  assert (Hz : 0 <= zlen (body r)) by apply zlen_nonneg.
  repeat (apply Forall_app; split); [|done|].
  - rewrite !Forall_cons, Forall_nil, !not_elem_of_app.
    split_and!; try done; try (by apply Hno); by apply dec_no_cr.
  - rewrite !Forall_cons, Forall_nil. split_and!; try done; by apply Hno.
Qed.

(** Every answer of the management page is framed as HTTP: its first blank line
    ends the header, everything after it is the body, and a header line says
    exactly how many bytes that is. *)
Theorem mgmt_response_framed (version expected path auth : list byte) (clients : list ClientInfo) :
  let r := respond version expected path auth clients in
  exists head, response_bytes r = head ++ blank_line ++ body r /\
    find blank_line (response_bytes r) = Some (length head) /\
    (exists before after, head ++ crlf = before ++ (bytes_of "Content-Length: " ++ dec (zlen (body r)) ++ crlf) ++ after) /\
    bytes_of "HTTP/1.1 " ++ dec (status_code r) ++ bytes_of " " ++ line (status_text r) `prefix_of` head ++ crlf.
Proof.
  intros r. assert (Hl : response_bytes r = header_lines (response_lines r) ++ crlf ++ body r).
  { assert (He : extra_headers r = concat (map (fun l => l ++ crlf)
      (if bool_decide (extra_headers r = []) then [] else [take (length (extra_headers r) - 2) (extra_headers r)]))).
    { unfold r, respond. destruct (negb _); [reflexivity|]. destruct (bool_decide _); [reflexivity|].
      by destruct (bool_decide (path = bytes_of "/api/v1/clients")). }
    unfold response_bytes, header_lines, response_lines. rewrite !map_app, !concat_app, <- He.
    unfold line. cbn [map concat]. rewrite <- !app_assoc.
    by rewrite !app_nil_l. }
  pose proof (response_lines_ok version expected path auth clients) as Hok. fold r in Hok.
  set (front := [bytes_of "HTTP/1.1 " ++ dec (status_code r) ++ bytes_of " " ++ bytes_of (status_text r);
   bytes_of "Content-Type: application/json"; bytes_of "Content-Length: " ++ dec (zlen (body r));
   bytes_of "Access-Control-Allow-Origin: *"]).
  set (extra := if bool_decide (extra_headers r = []) then [] else [take (length (extra_headers r) - 2) (extra_headers r)]).
  assert (Hh : header_lines (response_lines r) = (header_lines (front ++ extra) ++ bytes_of "Connection: close") ++ crlf).
  { change (response_lines r) with (front ++ extra ++ [bytes_of "Connection: close"]).
    rewrite app_assoc, header_lines_app, <- app_assoc. done. }
  exists (header_lines (front ++ extra) ++ bytes_of "Connection: close"). split; [|split; [|split]].
  - rewrite Hl, Hh. unfold blank_line. by rewrite <- !app_assoc.
  - rewrite Hl, find_blank_line by done. rewrite Hh, length_app. cbn [length crlf]. f_equal. lia.
  - rewrite <- Hh. unfold response_lines, header_lines. cbn [app map concat].
    exists (((bytes_of "HTTP/1.1 " ++ dec (status_code r) ++ bytes_of " " ++ bytes_of (status_text r)) ++ crlf) ++
            bytes_of "Content-Type: application/json" ++ crlf). eexists. rewrite <- !app_assoc. done.
  - rewrite <- Hh. unfold response_lines, header_lines, line. cbn [app map concat]. eexists. by rewrite <- !app_assoc.
Qed.

(** ** The page determines the clients *)
(** Text without a quotation mark, which the pages do not escape. *)
Definition plain_text (s : string) : Prop := x22 ∉ bytes_of s.
Definition plain_proxy (p : ProxyStats) : Prop := plain_text (ps_name p) /\ plain_text (ps_type p).
Definition plain_client (c : ClientInfo) : Prop :=
  plain_text (ci_name c) /\ plain_text (ci_endpoint c) /\ plain_text (ci_protocol c) /\ Forall plain_proxy (ci_proxies c).

(** Two texts cut at the first byte outside [P]. *)
Lemma cut_at (P : byte -> Prop) x y c d r1 r2 : Forall P x -> Forall P y -> ~ P c -> ~ P d ->
  x ++ c :: r1 = y ++ d :: r2 -> x = y /\ c :: r1 = d :: r2.
Proof.
  intros Hx. revert y. induction Hx as [|a x Ha Hx IH]; intros [|b y] Hy Hc Hd; cbn; intros H.
  - done.
  - injection H as -> _. by apply Forall_cons in Hy as [? _].
  - injection H as -> _. done.
  - injection H as -> H. apply Forall_cons in Hy as [_ Hy]. by destruct (IH y Hy Hc Hd H) as [-> ->].
Qed.
Lemma bytes_of_inj s t : bytes_of s = bytes_of t -> s = t.
Proof. intros H. rewrite <- (string_of_bytes_of s), <- (string_of_bytes_of t). by f_equal. Qed.
Lemma cut_text s t r1 r2 : plain_text s -> plain_text t -> bytes_of s ++ quote ++ r1 = bytes_of t ++ quote ++ r2 ->
  s = t /\ r1 = r2.
Proof.
  intros Hs Ht H. destruct (cut_at (fun b => b <> x22) (bytes_of s) (bytes_of t) x22 x22 r1 r2) as [E1 E2]; try tauto.
  - apply Forall_forall. intros b Hb ->. by apply Hs.
  - apply Forall_forall. intros b Hb ->. by apply Ht.
  - injection E2 as E2. split; [by apply bytes_of_inj|done].
Qed.
Definition number_byte (b : byte) : Prop := is_Some (digit b) \/ b = x2d.
Lemma dec_number z : Forall number_byte (dec z).
Proof.
  destruct (Z.le_gt_cases 0 z) as [Hz|Hz].
  - destruct (dec_digits z Hz) as (Hd & _). eapply Forall_impl; [exact Hd|]. intros b Hb. by left.
  - destruct z as [|p|p]; try lia. unfold dec. change (pretty (Z.neg p)) with ("-" +:+ pretty (Z.pos p)).
    change (bytes_of ("-" +:+ pretty (Z.pos p))) with (x2d :: dec (Z.pos p)). constructor; [by right|].
    destruct (dec_digits (Z.pos p) ltac:(lia)) as (Hd & _). eapply Forall_impl; [exact Hd|]. intros b Hb. by left.
Qed.
Lemma cut_number a b c d r1 r2 : ~ number_byte c -> ~ number_byte d -> dec a ++ c :: r1 = dec b ++ d :: r2 ->
  a = b /\ c :: r1 = d :: r2.
Proof.
  intros Hc Hd H. destruct (cut_at number_byte (dec a) (dec b) c d r1 r2) as [E1 E2]; auto using dec_number.
  split; [|done]. apply (inj pretty). by apply bytes_of_inj.
Qed.
Lemma no_number (b : byte) : digit b = None -> Byte.eqb b x2d = false -> ~ number_byte b.
Proof. intros H1 H2 [[d Hd]| ->]; [congruence|discriminate]. Qed.
Lemma cut_dec a b s r1 r2 c tl : bytes_of s = c :: tl -> digit c = None -> Byte.eqb c x2d = false ->
  dec a ++ bytes_of s ++ r1 = dec b ++ bytes_of s ++ r2 -> a = b /\ r1 = r2.
Proof.
  intros -> H1 H2 H. cbn [app] in H. apply cut_number in H as [-> H]; [|by apply no_number..].
  injection H as H. by apply app_inv_head in H.
Qed.
(** Peels the next field off both sides of an equation of texts. *)
Ltac peel H :=
  repeat apply app_inv_head in H;
  first [apply cut_text in H as [?E H]; [|done|done] | eapply cut_dec in H as [?E H]; [|reflexivity..]].

Lemma cut_proxy p1 p2 r1 r2 : plain_proxy p1 -> plain_proxy p2 -> proxy_json p1 ++ r1 = proxy_json p2 ++ r2 ->
  p1 = p2 /\ r1 = r2.
Proof.
  intros [N1 T1] [N2 T2] H. unfold proxy_json, str_field, num_field in H. rewrite <- !app_assoc in H.
  do 7 peel H. split; [|done]. destruct p1, p2; cbn in *. by subst.
Qed.
(** Lists of objects, up to the bracket that closes them. *)
Lemma cut_list {A} (f : A -> list byte) (ok : A -> Prop) :
  (forall x, exists s, f x = x7b :: s) ->
  (forall x y r1 r2, ok x -> ok y -> f x ++ r1 = f y ++ r2 -> x = y /\ r1 = r2) ->
  forall xs ys r1 r2, Forall ok xs -> Forall ok ys ->
  comma_list (map f xs) ++ x5d :: r1 = comma_list (map f ys) ++ x5d :: r2 -> xs = ys /\ r1 = r2.
Proof.
  intros Hb Hf. assert (Hc : forall x xs r, comma_list (map f (x :: xs)) ++ r =
    f x ++ match xs with [] => r | _ => x2c :: comma_list (map f xs) ++ r end).
  { intros x xs r. destruct xs as [|y xs]; [done|]. cbn [map comma_list]. rewrite <- !app_assoc. done. }
  assert (He : forall x xs r s, x5d :: s <> comma_list (map f (x :: xs)) ++ r).
  { intros x xs r s. rewrite Hc. destruct (Hb x) as [u ->]. discriminate. }
  induction xs as [|x xs IH]; intros [|y ys] r1 r2 Hx Hy H.
  - by injection H as ->.
  - exfalso. exact (He y ys _ _ H).
  - exfalso. symmetry in H. exact (He x xs _ _ H).
  - apply Forall_cons in Hx as [Hx Hxs]. apply Forall_cons in Hy as [Hy Hys]. rewrite !Hc in H.
    apply Hf in H as [-> H]; [|done|done]. destruct xs as [|x2 xs], ys as [|y2 ys]; try discriminate.
    + by injection H as ->.
    + apply (app_inv_head [x2c]) in H. by apply IH in H as [-> ->].
Qed.
Lemma cut_client c1 c2 r1 r2 : plain_client c1 -> plain_client c2 -> client_json c1 ++ r1 = client_json c2 ++ r2 ->
  c1 = c2 /\ r1 = r2.
Proof.
  intros (N1 & E1 & P1 & F1) (N2 & E2 & P2 & F2) H. unfold client_json, str_field in H. rewrite <- !app_assoc in H.
  do 3 peel H. repeat apply app_inv_head in H. change (bytes_of "]}") with [x5d; x7d] in H.
  apply (cut_list proxy_json plain_proxy) in H as [Ep H]; try done.
  - injection H as H. split; [|done]. destruct c1, c2; cbn in *. by subst.
  - intros p. by eexists.
  - intros. by apply cut_proxy.
Qed.

(** The clients page says what it is given: as long as no name, type, address or
    protocol holds a quotation mark, two pages are equal only if they show the
    same clients with the same proxies, ports and counters - so the text, though
    put together without a JSON library, can be read back. *)
Theorem mgmt_clients_page_faithful (clients1 clients2 : list ClientInfo) :
  Forall plain_client clients1 -> Forall plain_client clients2 ->
  GetClientsJson clients1 = GetClientsJson clients2 -> clients1 = clients2.
Proof.
  intros H1 H2 H. unfold GetClientsJson in H. apply app_inv_head in H. change (bytes_of "]") with [x5d] in H.
  apply (cut_list client_json plain_client) in H as [H _]; try done.
  - intros c. by eexists.
  - intros. by apply cut_client.
Qed.
(** A name with a quotation mark ends its string early: here one client's name
    makes the page show another endpoint and protocol as well. *)
Definition forged_name : string := string_of (bytes_of "a" ++ quote ++ bytes_of "," ++ quote ++ bytes_of "endpoint" ++ quote ++
  bytes_of ": " ++ quote ++ bytes_of "b").
Lemma mgmt_name_not_escaped rest :
  str_field "name" (bytes_of forged_name) ++ rest =
  str_field "name" (bytes_of "a") ++ bytes_of "," ++ str_field "endpoint" (bytes_of "b") ++ rest.
Proof. reflexivity. Qed.

(** ** Witnesses *)
Definition demo_base64 (x : list byte) : list byte := bytes_of "b64." ++ x.
Lemma demo_base64_nonempty x : x <> [] -> demo_base64 x <> [].
Proof. done. Qed.
Definition demo_request (auth : string) : list byte :=
  line "GET /api/v1/clients HTTP/1.1" ++ line "Host: example.org" ++ line auth ++ crlf.
Definition demo_stats : ProxyStats := {| ps_name := "ssh"; ps_type := "tcp"; ps_port := 6000; ps_active := 1; ps_total := 7;
  ps_sent := 100; ps_received := 2000 |}.
Definition demo_clients : list ClientInfo :=
  [{| ci_name := "edge"; ci_endpoint := "10.0.0.1:5000"; ci_protocol := "QUIC"; ci_proxies := [demo_stats] |}].
Definition demo_answer : list byte :=
  default [] (HandleRequest (bytes_of "1") (SetCredentials demo_base64 (bytes_of "admin") (bytes_of "pw"))
    (demo_request "Authorization: Basic b64.admin:pw") demo_clients).
Lemma demo_answered : HandleRequest (bytes_of "1") (SetCredentials demo_base64 (bytes_of "admin") (bytes_of "pw"))
    (demo_request "Authorization: Basic b64.admin:pw") demo_clients = Some demo_answer.
Proof. vm_compute. reflexivity. Qed.
Lemma demo_credentials : bytes_of "admin" <> [] \/ bytes_of "pw" <> [].
Proof. by left. Qed.
Lemma mgmt_needs_credentials_witness :
  (exists rest, authorization ++ rest ∈ getlines [] (demo_request "Authorization: Basic b64.admin:pw") /\
     strip_cr rest = bytes_of "Basic " ++ demo_base64 (bytes_of "admin" ++ bytes_of ":" ++ bytes_of "pw")) \/
  (bytes_of "HTTP/1.1 401 Unauthorized" `prefix_of` demo_answer /\
   forall version' clients', HandleRequest version' (SetCredentials demo_base64 (bytes_of "admin") (bytes_of "pw"))
     (demo_request "Authorization: Basic b64.admin:pw") clients' = Some demo_answer).
Proof.
  exact (mgmt_needs_credentials demo_base64 (bytes_of "1") (bytes_of "admin") (bytes_of "pw")
    (demo_request "Authorization: Basic b64.admin:pw") demo_clients demo_answer demo_base64_nonempty
    demo_credentials demo_answered).
Defined.
Lemma demo_clients_plain : Forall plain_client demo_clients.
Proof.
  repeat (apply Forall_cons; split); [|by apply Forall_nil]. unfold plain_client, plain_text.
  split_and!; try (by vm_compute; set_solver).
  repeat (apply Forall_cons; split); [|by apply Forall_nil]. split; by vm_compute; set_solver.
Qed.
Lemma mgmt_clients_page_faithful_witness :
  GetClientsJson demo_clients = GetClientsJson demo_clients -> demo_clients = demo_clients.
Proof. exact (mgmt_clients_page_faithful demo_clients demo_clients demo_clients_plain demo_clients_plain). Defined.
