(* ===== verification/Serve.v ===== *)
(** * A user and the service it reaches (server.cpp and client.cpp together)

    From a connection at a listener to the bridge: the ticket drawn and
    announced, the client's connection to its local service, the work stream
    that carries the ticket back, the splice.  Many users, sessions and clients
    do this at once; [system] holds what is under way between the server's
    tables (Pending.v) and its clients (Client.v), and a step takes any of it on,
    in any order.  A second part follows one user through the frames of the
    control stream. *)
From Stdlib Require Import ZArith Lia Strings.Byte String.
From stdpp Require Import base tactics list gmap strings pretty.
From S2P Require Import Prelude Text Protocol Zstd ControlFrame Pending Registry Bridge Control WorkStream Client Login.
From S2P Require Import Config Mgmt.
Local Open Scope Z_scope.

(** ** Tickets *)
(** [clock]: [system_clock::now().time_since_epoch().count()]; [r]: [rand()]. *)
Definition tcp_ticket (clock : Z) : string := string_of (dec clock).
Definition udp_ticket (clock r : Z) : string := string_of (dec clock ++ bytes_of "_" ++ dec r).
Definition vhost_ticket (clock r : Z) : string := string_of (dec clock ++ bytes_of "_vhost_" ++ dec r).
Definition ticket_of (clock r : Z) (t : string) : Prop :=
  t = tcp_ticket clock \/ t = udp_ticket clock r \/ t = vhost_ticket clock r.

(** ** What is under way *)
Record message : Type := { m_session : nat; m_proxy : string; m_ticket : string }.
Record local_connect : Type := { k_proxy : ProxyConfig; k_ticket : string }.
Record work_stream : Type := { w_proxy : ProxyConfig; w_compressed : bool; w_ticket_bytes : list byte }.
Record splice : Type := { p_result : work_result; p_stream : work_stream }.
Record system : Type := {
  sys_pending : Pending;
  sys_messages : list message;               (* NewUserConn written, not yet handled *)
  sys_connecting : list local_connect;       (* clients connecting to their services *)
  sys_streams : list work_stream;            (* opened, their ticket not yet read *)
  sys_spliced : list splice
}.
Definition new_system : system := {|
  sys_pending := empty_pending; sys_messages := []; sys_connecting := []; sys_streams := []; sys_spliced := [] |}.

(** The ticket an operation draws. *)
Definition drawn (op : pending_op) : option string :=
  match op with
  | op_accept _ _ _ _ t _ | op_datagram _ _ _ _ t _ _ => Some t
  | op_vhost _ _ c => Some (uc_ticket c)
  | _ => None
  end.
(** The NewUserConn messages it causes; the vhost listener sends its own. *)
Definition announced (s : nat) (op : pending_op) (outs : list outcome) : list message :=
  omap (fun o => match o with new_user_conn p t => Some {| m_session := s; m_proxy := p; m_ticket := t |} | _ => None end) outs ++
  match op with
  | op_vhost _ _ c => [{| m_session := s; m_proxy := uc_proxy c; m_ticket := uc_ticket c |}]
  | _ => []
  end.

Section System.
Context `{Zstd}.
Inductive sys_event : Type :=
| sys_server (s : nat) (op : pending_op)                            (* a listener of session [s], or any other change *)
| sys_message (i : nat) (compression : option Z) (c : Client)      (* a message reaches its client *)
| sys_local (i : nat) (ec : error_code) (compression : option Z) (c : Client)   (* a local connection ends *)
| sys_work (i mux : nat) (garbage : list byte) (controls : gmap nat ControlSession) (r : Registry)
| sys_lost (messages connecting streams : list nat).               (* a client is gone with what it had under way *)

(** What a client's handler begins. *)
Definition begun_local (acts : list client_action) : list local_connect :=
  omap (fun a => match a with connect_local pc t => Some {| k_proxy := pc; k_ticket := t |} | _ => None end) acts.
Definition begun_streams (compression : option Z) (acts : list client_action) : list work_stream :=
  omap (fun a => match a with
                 | open_work_stream pc b =>
                   Some {| w_proxy := pc; w_compressed := bool_decide (is_Some compression); w_ticket_bytes := b |}
                 | _ => None
                 end) acts.
Definition act (compression : option Z) (acts : list client_action) (y : system) : system := {|
  sys_pending := sys_pending y; sys_messages := sys_messages y;
  sys_connecting := sys_connecting y ++ begun_local acts;
  sys_streams := sys_streams y ++ begun_streams compression acts; sys_spliced := sys_spliced y |}.
Definition drop_at {A} (ixs : list nat) (l : list A) : list A := foldr delete l ixs.

Definition sys_step (ev : sys_event) (y : system) : option system :=
  match ev with
  | sys_server s op =>
    '(p, outs) ← pending_step op (sys_pending y);
    mret {| sys_pending := p; sys_messages := sys_messages y ++ announced s op outs; sys_connecting := sys_connecting y;
            sys_streams := sys_streams y; sys_spliced := sys_spliced y |}
  | sys_message i compression c =>
    m ← sys_messages y !! i;
    mret (act compression (HandleNewUserConn compression (m_proxy m) (m_ticket m) c)
      {| sys_pending := sys_pending y; sys_messages := delete i (sys_messages y); sys_connecting := sys_connecting y;
         sys_streams := sys_streams y; sys_spliced := sys_spliced y |})
  | sys_local i ec compression c =>
    k ← sys_connecting y !! i;
    mret (act compression (on_local_connected compression (k_proxy k) (k_ticket k) ec c)
      {| sys_pending := sys_pending y; sys_messages := sys_messages y; sys_connecting := delete i (sys_connecting y);
         sys_streams := sys_streams y; sys_spliced := sys_spliced y |})
  | sys_work i mux garbage controls r =>
    w ← sys_streams y !! i;
    let '(p, res) := HandleWorkStream mux garbage (w_ticket_bytes w) controls r (sys_pending y) in
    mret {| sys_pending := p; sys_messages := sys_messages y; sys_connecting := sys_connecting y;
            sys_streams := delete i (sys_streams y);
            sys_spliced := sys_spliced y ++ match res with work_closed => [] | _ => [{| p_result := res; p_stream := w |}] end |}
  | sys_lost ms ks ws =>
    mret {| sys_pending := sys_pending y; sys_messages := drop_at ms (sys_messages y);
            sys_connecting := drop_at ks (sys_connecting y); sys_streams := drop_at ws (sys_streams y);
            sys_spliced := sys_spliced y |}
  end.
Fixpoint sys_run (evs : list sys_event) (y : system) : option system :=
  match evs with [] => Some y | ev :: evs' => y1 ← sys_step ev y; sys_run evs' y1 end.

Definition draws (ev : sys_event) : list string :=
  match ev with sys_server _ op => match drawn op with Some t => [t] | None => [] end | _ => [] end.
(** A client's dynamic proxies are filed under their names, as those of a
    directory are (Config.v). *)
Definition filed (c : Client) : Prop := forall n pc, dynamic_proxies_ c !! n = Some pc -> pc_name pc = n.
Definition honest (ev : sys_event) : Prop := match ev with sys_message _ _ c => filed c | _ => True end.
End System.

(** The proxy whose user was spliced. *)
Definition served_proxy (res : work_result) : option string :=
  match res with
  | work_tcp conn _ _ _ _ => Some (uc_proxy conn)
  | work_udp i _ _ _ => Some (udp_proxy_name i)
  | work_closed => None
  end.
Definition served_compressed (res : work_result) : bool :=
  match res with work_tcp _ b _ _ _ | work_udp _ b _ _ => b | work_closed => false end.
Definition served_socket (x : splice) : option nat :=
  match p_result x with work_tcp conn _ _ _ _ => Some (uc_socket conn) | _ => None end.
(** The ticket a work stream presented. *)
Definition presented (x : splice) : string := (read_ticket (w_ticket_bytes (p_stream x))).2.

(** ** The server's tables *)
Definition quiet (outs : list outcome) : Prop := forall pr t, new_user_conn pr t ∉ outs.
Lemma quiet_nil : quiet [].
Proof. intros pr t. apply not_elem_of_nil. Qed.
Lemma quiet_app xs ys : quiet (xs ++ ys) <-> quiet xs /\ quiet ys.
Proof. unfold quiet. setoid_rewrite elem_of_app. naive_solver. Qed.
Lemma quiet_one o : (forall pr t, o <> new_user_conn pr t) -> quiet [o].
Proof. intros H pr t Hx%list_elem_of_singleton. by eapply H. Qed.
Lemma quiet_dropped c : quiet [conn_dropped c].
Proof. by apply quiet_one. Qed.
#[local] Hint Resolve quiet_nil quiet_dropped : core.

(** The tables after an operation: what was there, or an entry of one name under
    the ticket drawn, in one of the two. *)
Record entries (udp : bool) (d : option string) (name : string) (p p' : Pending) : Prop := {
  en_conns t i : pending_user_conns_ p' !! t = Some i ->
    pending_user_conns_ p !! t = Some i \/ udp = false /\ d = Some t /\ tcp_proxy_name i = name;
  en_udps t i : pending_udp_sessions_ p' !! t = Some i ->
    pending_udp_sessions_ p !! t = Some i \/ udp = true /\ d = Some t /\ udp_proxy_name i = name
}.
Lemma entries_same udp d name p p' : pending_user_conns_ p' = pending_user_conns_ p ->
  pending_udp_sessions_ p' = pending_udp_sessions_ p -> entries udp d name p p'.
Proof. intros E1 E2. split; intros t i; rewrite ?E1, ?E2; auto. Qed.
Lemma entries_trans udp d name p p1 p2 : entries udp d name p p1 -> entries udp d name p1 p2 -> entries udp d name p p2.
Proof. intros [A1 A2] [B1 B2]. split; intros t i Hi; [apply B1 in Hi|apply B2 in Hi]; naive_solver. Qed.
Lemma expire_one_entries udp d name x p : entries udp d name p (expire_one x p).1 /\ quiet (expire_one x p).2.
Proof.
  split; [split; intros t i; rewrite ?expire_one_conns, ?expire_one_udps; case_decide; auto; done|].
  unfold expire_one, erase_conn. destruct (Pending.is_udp x); [destruct (pending_udp_sessions_ p !! _)|destruct (pending_user_conns_ p !! _)]; cbn; auto.
Qed.
Lemma cleanup_entries udp d name now q p : entries udp d name p (cleanup_loop now q p).1 /\ quiet (cleanup_loop now q p).2.
Proof.
  revert p. induction q as [|x q IH]; intros p; cbn [cleanup_loop]; [by split; [apply entries_same|]|].
  destruct (expires_at x <=? now); [|by split; [apply entries_same|]].
  destruct (expire_one_entries udp d name x p) as [A1 A2]. destruct (expire_one x p) as [p1 o1].
  destruct (IH p1) as [B1 B2]. destruct (cleanup_loop now q p1) as [p2 o2]. split; [by eapply entries_trans|by apply quiet_app].
Qed.
Lemma register_conn_entries t0 t1 c p : entries false (Some (uc_ticket c)) (uc_proxy c) p (RegisterUserConn t0 t1 c p).1 /\
  quiet (RegisterUserConn t0 t1 c p).2.
Proof.
  unfold RegisterUserConn, DoLazyCleanup.
  destruct (cleanup_entries false (Some (uc_ticket c)) (uc_proxy c) t0 (ticket_expiration_queue_ p) p) as [A1 A2].
  destruct (cleanup_loop t0 (ticket_expiration_queue_ p) p) as [p1 o1]. cbn [fst snd] in *.
  destruct (_ <=? _); [by split; [|apply quiet_app]|].
  destruct (pending_user_conns_ p1 !! uc_ticket c); cbn [fst snd].
  - split; [|by apply quiet_app]. eapply entries_trans; [exact A1|by apply entries_same].
  - split; [|done]. eapply entries_trans; [exact A1|]. split; cbn; [|auto]. intros t i.
    rewrite lookup_insert_Some. intros [[<- <-]|[_ Hi]]; auto.
Qed.
Lemma register_udp_entries t0 t1 t l e proxy p : entries true (Some t) proxy p (RegisterUdpSession t0 t1 t l e proxy p).1 /\
  quiet (RegisterUdpSession t0 t1 t l e proxy p).2.
Proof.
  unfold RegisterUdpSession, DoLazyCleanup.
  destruct (cleanup_entries true (Some t) proxy t0 (ticket_expiration_queue_ p) p) as [A1 A2].
  destruct (cleanup_loop t0 (ticket_expiration_queue_ p) p) as [p1 o1]. cbn [fst snd] in *.
  destruct (_ <=? _); [done|]. destruct (pending_udp_sessions_ p1 !! t); cbn [fst snd];
    (split; [eapply entries_trans; [exact A1|]|done]); [by apply entries_same|].
  split; cbn; [auto|]. intros t' i. rewrite lookup_insert_Some. intros [[<- <-]|[_ Hi]]; auto.
Qed.
Lemma claim_entries udp d name t p : entries udp d name p (claim t p).1.
Proof.
  unfold claim. destruct (pending_user_conns_ p !! t) eqn:E1; [|destruct (pending_udp_sessions_ p !! t) eqn:E2]; split; cbn;
    try (intros t' i; rewrite ?lookup_delete_Some; naive_solver).
Qed.
Lemma clear_entries udp d name proxy p : entries udp d name p (ClearPendingForProxy proxy p).1 /\ quiet (ClearPendingForProxy proxy p).2.
Proof.
  split; [split; intros t i; cbn; rewrite map_lookup_filter_Some; naive_solver|].
  intros pr t Hx. cbn in Hx. apply list_elem_of_fmap in Hx as (x & Ex & _). done.
Qed.
Lemma announced_quiet s op outs : quiet outs -> announced s op outs = announced s op [].
Proof.
  intros Hq. unfold announced. f_equal. induction outs as [|o outs IH]; [done|].
  apply (quiet_app [o]) in Hq as [Ho Hq]. cbn. destruct o; try by apply IH. exfalso. eapply Ho. by left.
Qed.
Lemma announced_app s op xs pr t : quiet xs -> (match op with op_vhost _ _ _ => False | _ => True end) ->
  announced s op (xs ++ [new_user_conn pr t]) = [{| m_session := s; m_proxy := pr; m_ticket := t |}].
Proof.
  intros Hq Hop. unfold announced. rewrite omap_app. pose proof (announced_quiet s op xs Hq) as E. unfold announced in E.
  destruct op; try done; rewrite app_nil_r in *; cbn [omap list_omap option_bind] in *; by rewrite E.
Qed.

Lemma pending_step_entries s op p p' o : pending_step op p = Some (p', o) -> exists udp name,
  entries udp (drawn op) name p p' /\ forall m, m ∈ announced s op o -> drawn op = Some (m_ticket m) /\ m_proxy m = name.
Proof.
  assert (Hsilent : forall op o (d : option string) name, quiet o -> (match op with op_vhost _ _ _ => False | _ => True end) ->
    forall m, m ∈ announced s op o -> d = Some (m_ticket m) /\ m_proxy m = name).
  { intros op' o' d name Hq Hop m Hm. rewrite announced_quiet in Hm by done. by destruct op'; try apply not_elem_of_nil in Hm. }
  assert (Hann : forall op (alive : bool) o1 pr t m, quiet o1 -> (match op with op_vhost _ _ _ => False | _ => True end) ->
    m ∈ announced s op (o1 ++ if alive then [new_user_conn pr t] else []) -> Some t = Some (m_ticket m) /\ m_proxy m = pr).
  { intros op' alive o1 pr t m Hq Hop Hm. destruct alive; [rewrite announced_app in Hm by done; by apply list_elem_of_singleton in Hm as ->|].
    rewrite app_nil_r in Hm. by eapply Hsilent. }
  intros E. destruct op as [l name|l name|l alive t0 t1 t sk|t0 t1 c|l alive t0 t1 t e n|t|proxy|l]; cbn [pending_step drawn] in *.
  - destruct (tcp_listeners p !! l); [done|]. injection E as <- <-. exists false, name. split; [by apply entries_same|by apply Hsilent].
  - destruct (udp_listeners p !! l); [done|]. injection E as <- <-. exists false, name. split; [by apply entries_same|by apply Hsilent].
  - unfold DoAccept in E. destruct (tcp_listeners p !! l) as [pl|]; [|done]. cbn [mbind option_bind] in E.
    set (c := {| uc_ticket := t; uc_socket := sk; uc_proxy := pl_name pl; uc_data := [] |}) in E.
    set (q := set_tcp_listeners _ p) in E. destruct (register_conn_entries t0 t1 c q) as [B1 B2].
    destruct (RegisterUserConn t0 t1 c q) as [p1 o1]. injection E as <- <-. exists false, (pl_name pl).
    split; [exact (entries_trans _ _ _ p q p1 (entries_same _ _ _ p q eq_refl eq_refl) B1)|]. intros m. by apply Hann.
  - destruct (register_conn_entries t0 t1 c p) as [B1 B2]. injection E as E. rewrite E in B1, B2. exists false, (uc_proxy c). split; [exact B1|].
    intros m Hm. rewrite announced_quiet in Hm by done. by apply list_elem_of_singleton in Hm as ->.
  - unfold DoReceive in E. destruct (udp_listeners p !! l) as [ul|]; [|done]. cbn [mbind option_bind] in E.
    destruct (endpoint_to_ticket_ ul !! e).
    { injection E as <- <-. exists false, "". split; [by apply entries_same|by apply Hsilent]. }
    set (q := set_udp_listeners _ p) in E. destruct (register_udp_entries t0 t1 t l e (ul_name ul) q) as [B1 B2].
    destruct (RegisterUdpSession t0 t1 t l e (ul_name ul) q) as [p1 o1]. injection E as <- <-. exists true, (ul_name ul).
    split; [exact (entries_trans _ _ _ p q p1 (entries_same _ _ _ p q eq_refl eq_refl) B1)|]. intros m. by apply Hann.
  - injection E as E. exists false, "". pose proof (claim_entries false None "" t p) as B. rewrite E in B. split; [exact B|].
    apply Hsilent; [|done]. revert E. unfold claim. repeat case_match; intros [= <- <-]; by apply quiet_one.
  - injection E as <- <-. destruct (clear_entries false None "" proxy p) as [B1 B2]. exists false, "". split; [exact B1|by apply Hsilent].
  - injection E as <- <-. exists false, "". split; [by apply entries_same|by apply Hsilent].
Qed.

(** ** The invariant *)
(** [ds]: the tickets drawn so far; [issued]: the proxy each was drawn for. *)
Record sys_inv (ds : list string) (issued : gmap string string) (y : system) : Prop := {
  si_drawn t n : issued !! t = Some n -> t ∈ ds /\ ticket_ok t;
  si_conns t i : pending_user_conns_ (sys_pending y) !! t = Some i -> issued !! t = Some (tcp_proxy_name i);
  si_udps t i : pending_udp_sessions_ (sys_pending y) !! t = Some i -> issued !! t = Some (udp_proxy_name i);
  si_apart t i : pending_user_conns_ (sys_pending y) !! t = Some i -> pending_udp_sessions_ (sys_pending y) !! t = None;
  si_messages m : m ∈ sys_messages y -> issued !! m_ticket m = Some (m_proxy m);
  si_connecting k : k ∈ sys_connecting y -> issued !! k_ticket k = Some (pc_name (k_proxy k));
  si_streams w : w ∈ sys_streams y -> exists t,
    w_ticket_bytes w = ticket_buf (w_compressed w) t /\ issued !! t = Some (pc_name (w_proxy w));
  si_spliced x : x ∈ sys_spliced y ->
    is_Some (issued !! presented x) /\
    served_proxy (p_result x) = Some (pc_name (w_proxy (p_stream x))) /\
    served_compressed (p_result x) = w_compressed (p_stream x);
  si_once : NoDup (map presented (sys_spliced y));
  si_gone t : t ∈ map presented (sys_spliced y) ->
    pending_user_conns_ (sys_pending y) !! t = None /\ pending_udp_sessions_ (sys_pending y) !! t = None
}.
Lemma new_system_inv : sys_inv [] ∅ new_system.
Proof. by split; cbn; try (intros *; rewrite ?lookup_empty, ?elem_of_nil); try done; constructor. Qed.

Lemma find_proxy_name n c pc : filed c -> find_proxy n c = Some pc -> pc_name pc = n.
Proof.
  unfold find_proxy. intros Hf. destruct (List.find _ _) as [pc'|] eqn:E; [|apply Hf].
  intros [= <-]. apply List.find_some in E as [_ E]. by apply String.eqb_eq in E.
Qed.
Lemma elem_of_delete_at {A} (i : nat) (l : list A) x : x ∈ delete i l -> x ∈ l.
Proof.
  revert i. induction l as [|y l IH]; intros i Hx; [by destruct i|]. destruct i as [|i]; cbn in Hx; [by right|].
  apply elem_of_cons in Hx as [->|Hx]; [by left|right; by eapply IH].
Qed.
Lemma elem_of_drop_at {A} (ixs : list nat) (l : list A) x : x ∈ drop_at ixs l -> x ∈ l.
Proof. induction ixs as [|i ixs IH]; [done|]. intros Hx. apply (elem_of_delete_at i (drop_at ixs l)) in Hx. by apply IH. Qed.

Section Invariant.
Context `{Zstd}.

Lemma act_inv ds issued compression acts y : sys_inv ds issued y ->
  (forall pc t, connect_local pc t ∈ acts -> issued !! t = Some (pc_name pc)) ->
  (forall pc b, open_work_stream pc b ∈ acts -> exists t, b = ticket_buf (bool_decide (is_Some compression)) t /\
     issued !! t = Some (pc_name pc)) ->
  sys_inv ds issued (act compression acts y).
Proof.
  intros [I1 I2 I3 Ia I4 I5 I6 I7 I8 I9] Hc Hw. split; cbn; try done.
  - intros k [Hk|Hk]%elem_of_app; [by apply I5|]. apply list_elem_of_omap in Hk as (a & Ha & Ea).
    destruct a; try done. injection Ea as <-. by apply Hc.
  - intros w [Hk|Hk]%elem_of_app; [by apply I6|]. apply list_elem_of_omap in Hk as (a & Ha & Ea).
    destruct a; try done. injection Ea as <-. by apply Hw.
Qed.
Lemma drop_inv ds issued y ms ks ws :
  (forall m, m ∈ ms -> m ∈ sys_messages y) -> (forall k, k ∈ ks -> k ∈ sys_connecting y) ->
  (forall w, w ∈ ws -> w ∈ sys_streams y) -> sys_inv ds issued y ->
  sys_inv ds issued {| sys_pending := sys_pending y; sys_messages := ms; sys_connecting := ks; sys_streams := ws;
                       sys_spliced := sys_spliced y |}.
Proof. intros Hm Hk Hw [I1 I2 I3 I4 I5 I6 I7 I8 I9]. split; cbn; auto. Qed.
Lemma level_flag (compression : option Z) :
  (match compression with Some _ => true | None => false end) = bool_decide (is_Some compression).
Proof. by destruct compression. Qed.

Lemma server_inv ds issued y s op p outs : sys_inv ds issued y ->
  pending_step op (sys_pending y) = Some (p, outs) ->
  (forall t, drawn op = Some t -> (t ∉ ds) /\ ticket_ok t) ->
  exists issued', sys_inv (ds ++ draws (sys_server s op)) issued'
    {| sys_pending := p; sys_messages := sys_messages y ++ announced s op outs; sys_connecting := sys_connecting y;
       sys_streams := sys_streams y; sys_spliced := sys_spliced y |}.
Proof.
  intros [I1 I2 I3 Ia I4 I5 I6 I7 I8 I9] E Hfresh. destruct (pending_step_entries s _ _ _ _ E) as (udp & name & [E1 E2] & E3).
  set (issued' := match drawn op with Some t => <[t := name]> issued | None => issued end).
  assert (Hold : forall t n, issued !! t = Some n -> issued' !! t = Some n).
  { intros t n Ht. unfold issued'. destruct (drawn op) as [t0|] eqn:Ed; [|done]. rewrite lookup_insert_ne; [done|].
    intros ->. destruct (Hfresh t eq_refl) as [Hn _]. by apply I1 in Ht as [Ht _]. }
  assert (Hnew : forall t, drawn op = Some t -> issued' !! t = Some name)
    by (intros t Ht; unfold issued'; rewrite Ht; apply lookup_insert_eq).
  exists issued'. split; cbn [sys_pending sys_messages sys_connecting sys_streams sys_spliced draws].
  - intros t n Ht. rewrite elem_of_app. unfold issued' in Ht. destruct (drawn op) as [t0|] eqn:Ed.
    + apply lookup_insert_Some in Ht as [[<- _]|[_ Ht]]; [split; [right; by left|by apply Hfresh]|].
      apply I1 in Ht as [Ht Hok]. auto.
    + apply I1 in Ht as [Ht Hok]. auto.
  - intros t i Hi. apply E1 in Hi as [Hi|(_ & Hd & <-)]; auto.
  - intros t i Hi. apply E2 in Hi as [Hi|(_ & Hd & <-)]; auto.
  - intros t i Hi. destruct (pending_udp_sessions_ p !! t) as [j|] eqn:Ej; [|done]. exfalso.
    apply E1 in Hi as [Hi|(Hu & Hd & _)]; apply E2 in Ej as [Ej|(Hu' & Hd' & _)].
    + apply Ia in Hi. congruence.
    + apply I2, I1 in Hi as [Hi _]. by apply Hfresh in Hd' as [? _].
    + apply I3, I1 in Ej as [Ej _]. by apply Hfresh in Hd as [? _].
    + congruence.
  - intros m [Hm|Hm]%elem_of_app; [auto|]. apply E3 in Hm as [Hd ->]. auto.
  - intros k Hk. auto.
  - intros w Hw. destruct (I6 w Hw) as (t & Hb & Ht). eauto.
  - intros x Hx. destruct (I7 x Hx) as ([n Hn] & H2 & H3). split; [exists n; auto|done].
  - done.
  - intros t Ht. pose proof (I9 t Ht) as [G1 G2]. apply list_elem_of_fmap in Ht as (x & -> & Hx).
    destruct (I7 x Hx) as ([n Hn] & _). apply I1 in Hn as [Hn _].
    assert (Hd : drawn op <> Some (presented x)) by (intros Hd; by apply Hfresh in Hd as [? _]).
    split; apply eq_None_not_Some; intros [i Hi]; [apply E1 in Hi as [Hi|(_ & ? & _)]|apply E2 in Hi as [Hi|(_ & ? & _)]]; congruence.
Qed.

Lemma work_inv ds issued y i mux garbage controls r w p res : sys_inv ds issued y ->
  sys_streams y !! i = Some w ->
  HandleWorkStream mux garbage (w_ticket_bytes w) controls r (sys_pending y) = (p, res) ->
  sys_inv ds issued
    {| sys_pending := p; sys_messages := sys_messages y; sys_connecting := sys_connecting y; sys_streams := delete i (sys_streams y);
       sys_spliced := sys_spliced y ++ match res with work_closed => [] | _ => [{| p_result := res; p_stream := w |}] end |}.
Proof.
  intros [I1 I2 I3 Ia I4 I5 I6 I7 I8 I9] Hw E.
  destruct (I6 w (list_elem_of_lookup_2 _ _ _ Hw)) as (t & Hb & Ht). destruct (I1 _ _ Ht) as [_ Hok].
  assert (Hp : forall w', w' ∈ delete i (sys_streams y) -> w' ∈ sys_streams y) by (intros w'; apply elem_of_delete_at).
  unfold HandleWorkStream in E. rewrite Hb, read_ticket_buf in E by done.
  assert (Hpres : forall res, presented {| p_result := res; p_stream := w |} = t)
    by (intros; unfold presented; cbn [p_stream]; by rewrite Hb, read_ticket_buf).
  pose proof (claim_entries false None "" t (sys_pending y)) as [E1 E2].
  assert (Hsub : forall t' i, pending_user_conns_ (claim t (sys_pending y)).1 !! t' = Some i -> pending_user_conns_ (sys_pending y) !! t' = Some i)
    by (intros t' i' Hi; by apply E1 in Hi as [?|(_ & ? & _)]).
  assert (Hsub2 : forall t' i, pending_udp_sessions_ (claim t (sys_pending y)).1 !! t' = Some i -> pending_udp_sessions_ (sys_pending y) !! t' = Some i)
    by (intros t' i' Hi; by apply E2 in Hi as [?|(_ & ? & _)]).
  assert (Hgone : forall t', pending_user_conns_ (sys_pending y) !! t' = None /\ pending_udp_sessions_ (sys_pending y) !! t' = None ->
    pending_user_conns_ (claim t (sys_pending y)).1 !! t' = None /\ pending_udp_sessions_ (claim t (sys_pending y)).1 !! t' = None).
  { intros t' [G1 G2]. split; apply eq_None_not_Some; intros [i' Hi]; [apply Hsub in Hi|apply Hsub2 in Hi]; congruence. }
  (* the splice, if there is one *)
  assert (Hres : res = work_closed \/
    served_proxy res = Some (pc_name (w_proxy w)) /\ served_compressed res = w_compressed w /\
    (t ∉ map presented (sys_spliced y)) /\
    pending_user_conns_ (claim t (sys_pending y)).1 !! t = None /\ pending_udp_sessions_ (claim t (sys_pending y)).1 !! t = None).
  { unfold claim in *. destruct (pending_user_conns_ (sys_pending y) !! t) as [i0|] eqn:Eu;
      [|destruct (pending_udp_sessions_ (sys_pending y) !! t) as [i0|] eqn:Eq]; cbv zeta in E; injection E as <- <-; [right..|by left].
    - pose proof (I2 _ _ Eu). cbn. split_and!; [congruence|done|intros Hg; apply I9 in Hg as [? _]; congruence|apply lookup_delete_eq|by eapply Ia].
    - pose proof (I3 _ _ Eq). cbn. split_and!; [congruence|done|intros Hg; apply I9 in Hg as [_ ?]; congruence|done|apply lookup_delete_eq]. }
  destruct (claim t (sys_pending y)) as [p1 outs]. cbn [fst] in *. cbv zeta in E. injection E as <- _.
  assert (Hxs : match res with work_closed => [] | _ => [{| p_result := res; p_stream := w |}] end = [] \/
    match res with work_closed => [] | _ => [{| p_result := res; p_stream := w |}] end = [{| p_result := res; p_stream := w |}] /\
    served_proxy res = Some (pc_name (w_proxy w)) /\ served_compressed res = w_compressed w /\
    (t ∉ map presented (sys_spliced y)) /\ pending_user_conns_ p1 !! t = None /\ pending_udp_sessions_ p1 !! t = None)
    by (destruct Hres as [->|(H1 & H2 & H3)]; [by left|right; by destruct res]).
  clear Hres. set (xs := match res with work_closed => [] | _ => _ end) in *. clearbody xs.
  split; cbn [sys_pending sys_messages sys_connecting sys_streams sys_spliced]; auto.
  - intros t' i' Hi. destruct (pending_udp_sessions_ p1 !! t') as [j|] eqn:Ej; [|done].
    apply Hsub, Ia in Hi. apply Hsub2 in Ej. congruence.
  - intros x [Hx|Hx]%elem_of_app; [by apply I7|]. destruct Hxs as [->|(-> & H1 & H2 & _)]; [by apply not_elem_of_nil in Hx|].
    apply list_elem_of_singleton in Hx as ->. rewrite Hpres. split_and!; [by eexists|done|done].
  - rewrite map_app. destruct Hxs as [->|(-> & _ & _ & H3 & _)]; [by rewrite app_nil_r|]. cbn [map]. rewrite Hpres.
    apply NoDup_app. split_and!; [done| |apply NoDup_singleton]. intros t' Ht' ->%list_elem_of_singleton. done.
  - rewrite map_app. intros t' [Ht'|Ht']%elem_of_app; [by apply Hgone, I9|].
    destruct Hxs as [->|(-> & _ & _ & _ & H4)]; [by apply not_elem_of_nil in Ht'|]. cbn [map] in Ht'. rewrite Hpres in Ht'.
    by apply list_elem_of_singleton in Ht' as ->.
Qed.
End Invariant.

(** ** The tickets the server draws *)
Definition server_ticket (t : string) : Prop :=
  exists clock r, 0 <= clock < 2 ^ 63 /\ 0 <= r < 2 ^ 31 /\ ticket_of clock r t.
Lemma pretty_go_length n x s : (x < 10 ^ N.of_nat n)%N -> (String.length (pretty_N_go x s) <= n + String.length s)%nat.
Proof.
  revert x s. induction n as [|n IH]; intros x s Hx.
  - assert (x = 0%N) as -> by (change (10 ^ N.of_nat 0)%N with 1%N in Hx; lia). done.
  - destruct (decide (x = 0%N)) as [->|Hn]; [rewrite pretty_N_go_0; lia|].
    rewrite pretty_N_go_step by lia. etrans; [apply IH|cbn; lia].
    rewrite Nat2N.inj_succ, N.pow_succ_r' in Hx. apply N.Div0.div_lt_upper_bound. lia.
Qed.
Lemma dec_length n z : 0 <= z < 10 ^ Z.of_nat (S n) -> (length (dec z) <= S n)%nat.
Proof.
  intros [H0 H1]. unfold dec. assert (E : pretty z = pretty (Z.to_N z)) by (by destruct z).
  assert (L : forall s, length (bytes_of s) = String.length s)
    by (intros s; unfold bytes_of, list_byte_of_string; rewrite List.length_map; induction s as [|a s IH]; cbn; congruence).
  rewrite E, L. unfold pretty, pretty_N. case_decide; [cbn; lia|].
  etrans; [apply (pretty_go_length (S n))|cbn; lia]. apply N2Z.inj_lt. rewrite N2Z.inj_pow, Z2N.id by lia.
  by rewrite nat_N_Z.
Qed.
Lemma digits_last pre z c : 0 <= z -> list.last (pre ++ dec z) = Some c -> is_Some (digit c).
Proof.
  intros Hz. destruct (dec_digits z Hz) as (Hd & Hne & _). rewrite last_app.
  destruct (list.last (dec z)) as [b|] eqn:E; [|by apply last_None in E].
  intros [= <-]. unfold decimal in Hd. rewrite Forall_forall in Hd. apply Hd. apply last_Some in E as [l ->].
  apply elem_of_app. right. by left.
Qed.
Lemma server_ticket_ok t : server_ticket t -> ticket_ok t.
Proof.
  intros (clock & r & Hc & Hr & Ht).
  assert (Lc : (length (dec clock) <= 19)%nat) by (apply (dec_length 18); cbn; lia).
  assert (Lr : (length (dec r) <= 10)%nat) by (apply (dec_length 9); cbn; lia).
  assert (H : forall pre z, 0 <= z -> (length (pre ++ dec z) <= 64)%nat -> ticket_ok (string_of (pre ++ dec z))).
  { intros pre z Hz Hl. unfold ticket_ok. rewrite bytes_of_string_of. split; [unfold zlen; lia|].
    intros c Hlast. destruct (digits_last pre z c Hz Hlast) as [d Hd]. intros Hin. unfold ticket_blanks in Hin.
    repeat (apply elem_of_cons in Hin as [->|Hin]; [vm_compute in Hd; discriminate|]). by apply not_elem_of_nil in Hin. }
  destruct Ht as [->|[->| ->]]; unfold tcp_ticket, udp_ticket, vhost_ticket.
  - apply (H [] clock); [lia|cbn; lia].
  - rewrite app_assoc. apply H; [lia|]. rewrite !length_app. cbn. lia.
  - rewrite app_assoc. apply H; [lia|]. rewrite !length_app. cbn. lia.
Qed.
(** Readings of the clock that differ give tickets that differ. *)
Lemma tickets_differ c1 c2 r1 r2 t1 t2 : 0 <= c1 -> 0 <= c2 -> ticket_of c1 r1 t1 -> ticket_of c2 r2 t2 -> c1 <> c2 -> t1 <> t2.
Proof.
  intros H1 H2 Ht1 Ht2 Hne Heq. apply Hne.
  assert (Hcut : forall c r t, ticket_of c r t -> exists rest, bytes_of t = dec c ++ rest /\ (rest = [] \/ exists b l, rest = b :: l /\ digit b = None)).
  { intros c r t [->|[->| ->]]; unfold tcp_ticket, udp_ticket, vhost_ticket; rewrite bytes_of_string_of.
    - exists []. split; [by rewrite app_nil_r|by left].
    - eexists. split; [done|]. right. by eexists _, _.
    - eexists. split; [done|]. right. by eexists _, _. }
  destruct (Hcut _ _ _ Ht1) as (s1 & E1 & G1), (Hcut _ _ _ Ht2) as (s2 & E2 & G2). rewrite Heq, E2 in E1.
  destruct (dec_digits c1 H1) as (D1 & _ & V1), (dec_digits c2 H2) as (D2 & _ & V2).
  assert (Hs : forall a b s t, decimal a -> decimal b -> (s = [] \/ exists x l, s = x :: l /\ digit x = None) ->
    (t = [] \/ exists x l, t = x :: l /\ digit x = None) -> a ++ s = b ++ t -> a = b).
  { intros a. induction a as [|x a IH]; intros b s t Ha Hb Hs Ht E; cbn [app] in E.
    - destruct b as [|y b]; [done|]. subst s. apply Forall_cons in Hb as [[d Hd] _].
      destruct Hs as [Hs|(x & l & Hs & Hx)]; [done|]. injection Hs as -> _. congruence.
    - destruct b as [|y b].
      + cbn in E. subst t. apply Forall_cons in Ha as [[d Hd] _].
        destruct Ht as [Ht|(z & l & Ht & Hz)]; [done|]. injection Ht as -> _. congruence.
      + cbn in E. injection E as -> E. f_equal. apply Forall_cons in Ha as [_ Ha], Hb as [_ Hb]. exact (IH b s t Ha Hb Hs Ht E). }
  pose proof (Hs _ _ s2 s1 D2 D1 G2 G1 E1) as E. congruence.
Qed.

(** ** Users reach the service they asked for *)
Section Properties.
Context `{Zstd}.

Lemma message_inv ds issued y i m compression c : sys_inv ds issued y -> filed c -> sys_messages y !! i = Some m ->
  sys_inv ds issued (act compression (HandleNewUserConn compression (m_proxy m) (m_ticket m) c)
    {| sys_pending := sys_pending y; sys_messages := delete i (sys_messages y); sys_connecting := sys_connecting y;
       sys_streams := sys_streams y; sys_spliced := sys_spliced y |}).
Proof.
  intros Hi Hf Hm. pose proof (si_messages _ _ _ Hi m (list_elem_of_lookup_2 _ _ _ Hm)) as Ht.
  apply act_inv; [apply drop_inv; auto; intros m'; apply elem_of_delete_at|..]; unfold HandleNewUserConn, HandleNewUdpUserConn;
    (destruct (find_proxy (m_proxy m) c) as [pc|] eqn:Ep; [|intros * Hx; by apply not_elem_of_nil in Hx]);
    apply find_proxy_name in Ep; try done; (destruct (String.eqb (pc_type pc) "udp"); [destruct (mux_session_ (conn c))|]);
    intros pc' t Hx; rewrite ?elem_of_nil, ?list_elem_of_singleton in Hx; try done; simplify_eq; [congruence|].
  exists (m_ticket m). rewrite level_flag. split; [done|congruence].
Qed.
Lemma local_inv ds issued y i k ec compression c : sys_inv ds issued y -> sys_connecting y !! i = Some k ->
  sys_inv ds issued (act compression (on_local_connected compression (k_proxy k) (k_ticket k) ec c)
    {| sys_pending := sys_pending y; sys_messages := sys_messages y; sys_connecting := delete i (sys_connecting y);
       sys_streams := sys_streams y; sys_spliced := sys_spliced y |}).
Proof.
  intros Hi Hk. pose proof (si_connecting _ _ _ Hi k (list_elem_of_lookup_2 _ _ _ Hk)) as Ht.
  apply act_inv; [apply drop_inv; auto; intros m'; apply elem_of_delete_at|..]; unfold on_local_connected;
    (destruct (decide (ec = ec_ok)); [destruct (mux_session_ (conn c))|]);
    intros pc' t Hx; rewrite ?elem_of_nil, ?list_elem_of_singleton in Hx; try done; simplify_eq.
  exists (k_ticket k). by rewrite level_flag.
Qed.
Lemma sys_step_inv ds issued ev y y' : sys_inv ds issued y -> sys_step ev y = Some y' -> honest ev ->
  (forall t, t ∈ draws ev -> (t ∉ ds) /\ ticket_ok t) -> exists issued', sys_inv (ds ++ draws ev) issued' y'.
Proof.
  intros Hi E Hh Hd. destruct ev as [s op|i compression c|i ec compression c|i mux garbage controls r|ms ks ws]; cbn [sys_step] in E.
  - destruct (pending_step op (sys_pending y)) as [[p outs]|] eqn:Ep; [|done]. injection E as <-.
    eapply server_inv; [done|done|]. intros t Ht. apply Hd. cbn. rewrite Ht. by left.
  - destruct (sys_messages y !! i) as [m|] eqn:Em; [|done]. injection E as <-. exists issued. cbn [draws].
    rewrite app_nil_r. by apply message_inv.
  - destruct (sys_connecting y !! i) as [k|] eqn:Ek; [|done]. injection E as <-. exists issued. cbn [draws].
    rewrite app_nil_r. by apply local_inv.
  - destruct (sys_streams y !! i) as [w|] eqn:Ew; [|done]. cbn [mbind option_bind] in E.
    destruct (HandleWorkStream _ _ _ _ _ _) as [p res] eqn:Eh. injection E as <-. exists issued. cbn [draws].
    rewrite app_nil_r. by eapply work_inv.
  - injection E as <-. exists issued. cbn [draws]. rewrite app_nil_r. apply drop_inv; [..|done]; intros x; apply elem_of_drop_at.
Qed.
Lemma sys_run_inv ds issued evs y y' : sys_inv ds issued y -> sys_run evs y = Some y' -> Forall honest evs ->
  NoDup (ds ++ concat (map draws evs)) -> Forall ticket_ok (concat (map draws evs)) ->
  exists issued', sys_inv (ds ++ concat (map draws evs)) issued' y'.
Proof.
  revert ds issued y. induction evs as [|ev evs IH]; intros ds issued y Hi E Hh Hn Hok; cbn [sys_run map concat] in *.
  { injection E as <-. exists issued. by rewrite app_nil_r. }
  destruct (sys_step ev y) as [y1|] eqn:E1; [|done]. cbn [mbind option_bind] in E.
  apply Forall_cons in Hh as [Hh1 Hh]. apply Forall_app in Hok as [Hok1 Hok].
  destruct (sys_step_inv ds issued ev y y1 Hi E1 Hh1) as [issued1 Hi1].
  { intros t Ht. split; [|rewrite Forall_forall in Hok1; by apply Hok1]. intros Hds.
    apply NoDup_app in Hn as (_ & Hn & _). apply (Hn t Hds), elem_of_app. by left. }
  rewrite app_assoc in *. by eapply IH.
Qed.

End Properties.

(** ** One user, frame by frame *)
Definition notify_message (proxy t : string) : Message :=
  {| msg_type := NewUserConn; msg_body := NewUserConnMessage_Serialize {| nuc_proxy_name := proxy; nuc_ticket := t |} |}.
Section OneUser.
Context `{ZstdLaws}.

Lemma register_room t0 t1 c p : pending_user_conns_ p !! uc_ticket c = None -> pending_count p < MAX_PENDING_TICKETS ->
  exists i, pending_user_conns_ (RegisterUserConn t0 t1 c p).1 !! uc_ticket c = Some i /\ conn_of (uc_ticket c) i = c.
Proof.
  intros Hn Hroom. unfold RegisterUserConn, DoLazyCleanup.
  destruct (cleanup_entries false None "" t0 (ticket_expiration_queue_ p) p) as [[A1 A2] _].
  destruct (cleanup_loop t0 (ticket_expiration_queue_ p) p) as [p1 o1]. cbn [fst snd] in *.
  assert (S1 : (size (pending_user_conns_ p1) <= size (pending_user_conns_ p))%nat).
  { apply map_subseteq_size, map_subseteq_spec. intros t i Hi. by apply A1 in Hi as [?|(_ & ? & _)]. }
  assert (S2 : (size (pending_udp_sessions_ p1) <= size (pending_udp_sessions_ p))%nat).
  { apply map_subseteq_size, map_subseteq_spec. intros t i Hi. by apply A2 in Hi as [?|(_ & ? & _)]. }
  unfold pending_count in *. rewrite (proj2 (Z.leb_gt _ _)) by lia.
  destruct (pending_user_conns_ p1 !! uc_ticket c) as [i|] eqn:Ei; [apply A1 in Ei as [?|(_ & ? & _)]; congruence|].
  cbn. eexists. split; [apply lookup_insert_eq|]. by destruct c.
Qed.

Lemma client_hears_user protocol_ token_ compression conf_d conf level proxy t pc c :
  control_read (conn c) = control_header (connection_id_ (conn c)) -> frame_fits level (notify_message proxy t) ->
  str_fits proxy -> str_fits t -> find_proxy proxy c = Some pc -> pc_type pc <> "udp"%string ->
  exists sent, client_run protocol_ token_ compression conf_d (to_client conf [control_frame level (notify_message proxy t)]) c =
    Some (c, sent) /\ connect_local pc t ∈ sent.
Proof.
  intros Hr Hfit Hp Ht Hf Hty.
  destruct (client_frame protocol_ token_ compression conf_d conf level (notify_message proxy t) c Hr Hfit) as (flag & len & Hrun).
  assert (Hm : Client.HandleMessage compression conf_d (notify_message proxy t) conf (reading_body len flag c) =
    Ok (reading_body len flag c, [connect_local pc t])).
  { unfold Client.HandleMessage. cbn [msg_type notify_message msg_body].
    pose proof (deserialize_serialize {| nuc_proxy_name := proxy; nuc_ticket := t |} (conj Hp Ht)) as Hd.
    cbn [Deserialize Serialize NewUserConnMessage_wire] in Hd. rewrite Hd. cbn [mbind result_mbind result_bind nuc_proxy_name nuc_ticket].
    unfold HandleNewUserConn. change (find_proxy proxy (reading_body len flag c)) with (find_proxy proxy c). rewrite Hf.
    by rewrite (proj2 (String.eqb_neq _ _) Hty). }
  specialize (Hrun _ Hm eq_refl). rewrite Hrun. cbn [fst snd]. eexists. split; [|right; by left].
  do 2 f_equal. unfold reading_header, reading_body. destruct c as [k]. cbn in *. unfold set_conn. cbn. f_equal.
  unfold set_read. cbn. rewrite <- Hr. by destruct k.
Qed.

End OneUser.

(** ** Examples *)
Section Demo.
#[local] Existing Instance rle_zstd.
#[local] Existing Instance rle_laws.
(** A connected client with the proxies of Login.v. *)
Definition served_client : Client :=
  let k := conn demo_client in
  set_conn {| connection_id_ := 1; current_protocol_ := current_protocol_ k; reconnect_delay_sec_ := 0; stopping_ := false;
              mux_session_ := true; control_stream_ := true; quic_session_ := None; quic_endpoints_ := [];
              quic_endpoint_index_ := 0; handshake_armed := None; reconnect_armed := None; control_read := control_header 1;
              posted := [] |} demo_client.
Lemma served_client_filed : filed served_client.
Proof. intros n pc Hp. vm_compute in Hp. by destruct n. Qed.

(** Three users at once, taken up out of order; one gives up its place to a
    stranger's claim. *)
Definition user_events : list sys_event :=
  [sys_server 0 (op_listen_tcp 0 "ssh"); sys_server 0 (op_listen_udp 1 "dns");
   sys_server 0 (op_accept 0 true 5 5 (tcp_ticket 1700) 10);
   sys_server 0 (op_datagram 1 true 6 6 (udp_ticket 1701 83) (1, 5)%N 30);
   sys_server 0 (op_vhost 7 7 {| uc_ticket := vhost_ticket 1702 9; uc_socket := 11; uc_proxy := "web"; uc_data := [x47] |});
   sys_server 0 (op_accept 0 true 8 8 (tcp_ticket 1703) 12);
   sys_message 2 (Some 3) served_client; sys_message 0 (Some 3) served_client; sys_message 0 (Some 3) served_client;
   sys_server 7 (op_claim (tcp_ticket 1703)); sys_message 0 (Some 3) served_client;
   sys_local 1 ec_ok (Some 3) served_client; sys_local 0 ec_ok (Some 3) served_client; sys_local 0 ec_ok (Some 3) served_client;
   sys_work 1 7 [] ∅ empty_registry; sys_work 0 7 [] ∅ empty_registry; sys_work 1 7 [] ∅ empty_registry; sys_work 0 7 [] ∅ empty_registry].
Definition user_system : system := default new_system (sys_run user_events new_system).
Lemma user_system_runs : sys_run user_events new_system = Some user_system.
Proof. vm_compute. reflexivity. Qed.
Lemma three_served : map served_socket (sys_spliced user_system) = [Some 10%nat; None; Some 11%nat].
Proof. vm_compute. reflexivity. Qed.
Lemma user_tickets : Forall server_ticket (concat (map draws user_events)).
Proof.
  cbn. rewrite !Forall_cons. split_and!; [exists 1700, 0|exists 1701, 83|exists 1702, 9|exists 1703, 0|constructor];
    (split; [lia|]); (split; [lia|]); unfold ticket_of; auto.
Qed.

(** Tickets are readings of the clock.  When two listeners draw at the same
    reading, the second user is dropped but announced, and the first one
    reaches the service of whichever client connection comes back first. *)
Definition crossed_events : list sys_event :=
  [sys_server 0 (op_listen_tcp 0 "ssh"); sys_server 0 (op_listen_tcp 1 "web");
   sys_server 0 (op_accept 0 true 5 5 (tcp_ticket 1700) 10); sys_server 0 (op_accept 1 true 5 5 (tcp_ticket 1700) 11);
   sys_message 1 None served_client; sys_message 0 None served_client; sys_local 0 ec_ok None served_client;
   sys_work 0 7 [] ∅ empty_registry].
Lemma repeated_clock_crosses : exists y x, sys_run crossed_events new_system = Some y /\ sys_spliced y = [x] /\
  served_socket x = Some 10%nat /\ served_proxy (p_result x) = Some "ssh"%string /\ pc_name (w_proxy (p_stream x)) = "web"%string.
Proof.
  exists (default new_system (sys_run crossed_events new_system)).
  exists (List.hd {| p_result := work_closed; p_stream := {| w_proxy := demo_ssh; w_compressed := false; w_ticket_bytes := [] |} |}
            (sys_spliced (default new_system (sys_run crossed_events new_system)))).
  vm_compute. by split_and!.
Qed.

Definition served_server : Control.Server := {|
  shared := {| registry := AddMuxControl 7 0 empty_registry;
               pending := set_tcp_listeners {[4%nat := {| pl_name := "ssh"; active_conns_ := 0; total_conns_ := 0 |}]} empty_pending;
               next_listener := 5 |};
  controls := {[0%nat := set_reading at_header (new_control (Some 7%nat))]} |}.
Lemma notify_fits_demo : answer_fits (notify_message "ssh" (tcp_ticket 1700)).
Proof. split; apply frame_fits_spec; vm_compute; reflexivity. Qed.
End Demo.
