(* ===== verification/Certs.v ===== *)
(** * Certificates and TLS contexts (src/common/ssl_utils.h, ssl_utils.cpp;
    src/server/server.cpp: the TLS part of Server::Server)

    [SslUtils] on a store of files.  wolfSSL is the environment: what its calls
    answer is a record [gen_env], what its PEM functions write and read is the
    class [Pem].  An X509 object is the record of the fields the program sets.
    Everything that is allocated and freed is recorded, so that a leak or a
    double free would show. *)
From Stdlib Require Import ZArith Lia Strings.Byte String.
From stdpp Require Import base tactics list gmap strings.
From S2P Require Import Prelude Text Config Accept.
Local Open Scope Z_scope.

(** ** Configuration *)
Record CertConfig : Type := {
  ca_cert_file : string; ca_key_file_ : string; server_cert_file : string; server_key_file : string;
  domains : list string; ca_expiry_days : Z; server_expiry_days : Z }.
(** The members' initialisers. *)
Definition default_ca_days : Z := 3650.
Definition default_server_days : Z := 365.

(** ** X509 objects and PEM files *)
(** [P] are public keys. *)
Record x509 (P : Type) : Type := {
  x_version : Z; x_serial : Z; x_not_before : Z; x_not_after : Z; x_pubkey : P;
  x_subject : string; x_issuer : string; x_sans : list string; x_signer : option P }.
Arguments x_version {P}. Arguments x_serial {P}. Arguments x_not_before {P}. Arguments x_not_after {P}.
Arguments x_pubkey {P}. Arguments x_subject {P}. Arguments x_issuer {P}. Arguments x_sans {P}. Arguments x_signer {P}.

(** Key pairs, public keys, contents of files, and the calls on them:
    [PEM_write_bio_X509], [PEM_write_bio_PrivateKey], [PEM_read_X509] and
    [ASN1_TIME_diff] (days and seconds from the first time to the second). *)
Class Pem : Type := {
  keypair : Type; pubkey : Type; content : Type;
  pub : keypair -> pubkey;
  pem_cert : x509 pubkey -> content;
  pem_key : keypair -> content;
  read_cert : content -> option (x509 pubkey);
  time_diff : Z -> Z -> option (Z * Z)
}.
Class PemLaws `{Pem} : Prop := {
  read_pem_cert c : read_cert (pem_cert c) = Some c;
  time_diff_spec from to : time_diff from to = Some (Z.quot (to - from) 86400, Z.rem (to - from) 86400)
}.

(** ** Resources *)
Inductive resource : Type :=
| r_file | r_x509 | r_keygen_ctx | r_ca_key | r_server_key | r_ca_cert | r_server_cert | r_extension | r_bio.
#[export] Instance resource_eq_dec : EqDecision resource.
Proof. solve_decision. Defined.
Inductive cert_event : Type :=
| acquired (r : resource)
| released (r : resource)
| made_directory (path : list byte).
(** What is live after a trace; [None]: acquired twice or freed without being live. *)
Fixpoint live (tr : list cert_event) (l : list resource) : option (list resource) :=
  match tr with
  | [] => Some l
  | acquired r :: tr' => if decide (r ∈ l) then None else live tr' (r :: l)
  | released r :: tr' => if decide (r ∈ l) then live tr' (filter (fun s => s <> r) l) else None
  | made_directory _ :: tr' => live tr' l
  end.

(** ** SslUtils *)
Section SslUtils.
Context `{Pem}.
Abbreviation files := (gmap string content).

(** What the system and wolfSSL answer. *)
Record keygen_env : Type := { kg_ctx : bool; kg_init : Z; kg_bits : Z; kg_keygen : Z; kg_key : keypair }.
Record gen_env : Type := {
  now : Z;                                       (* the clock, in seconds *)
  can_open : string -> bool;                     (* [fopen] of an existing file *)
  can_mkdir : list byte -> bool;                 (* [create_directories] does not throw *)
  ca_keygen : keygen_env; server_keygen : keygen_env;
  ca_new : bool; server_new : bool;              (* [X509_new] *)
  ca_signs : bool; server_signs : bool;          (* [X509_sign] *)
  san_made : string -> bool;                     (* [X509V3_EXT_nconf_nid] *)
  bio_opens : string -> bool;                    (* [BIO_new_file] *)
  pem_written : string -> bool;                  (* the writer's result is positive *)
  partial : string -> content                    (* what the file holds otherwise *)
}.

Definition CreateDirectoryIfNotExists (env : gen_env) (path : string) : bool * list cert_event :=
  match parent_path (bytes_of path) with
  | [] => (true, [])
  | d => if can_mkdir env d then (true, [made_directory d]) else (false, [])
  end.

Definition IsCertValid (env : gen_env) (fs : files) (cert_file : string) : bool * list cert_event :=
  match fs !! cert_file with
  | None => (false, [])
  | Some c =>
    if negb (can_open env cert_file) then (false, []) else
    match read_cert c with
    | None => (false, [acquired r_file; released r_file])
    | Some x =>
      let tr := [acquired r_file; acquired r_x509; released r_file; released r_x509] in
      match time_diff (now env) (x_not_after x) with
      | None => (false, tr)
      | Some (day, _) => (negb (day <? 7), tr)
      end
    end
  end.

Definition GenerateKey (k : keygen_env) (r : resource) : option keypair * list cert_event :=
  if negb (kg_ctx k) then (None, []) else
  let out (made : bool) := [acquired r_keygen_ctx] ++ (if made then [acquired r] else []) ++ [released r_keygen_ctx] in
  if kg_init k <=? 0 then (None, out false) else
  if kg_bits k <=? 0 then (None, out false) else
  if kg_keygen k <=? 0 then (None, out false) else
  (Some (kg_key k), out true).

(** [X509_gmtime_adj] of so many days from now. *)
Definition days_from (t days : Z) : Z := t + days * 24 * 3600.
Definition ca_name : string := "cfrp Root CA".
(** The certificates before [X509_sign] succeeds have no signer. *)
Definition ca_certificate (env : gen_env) (config : CertConfig) (ca_key : keypair) : x509 pubkey := {|
  x_version := 2; x_serial := 1; x_not_before := now env; x_not_after := days_from (now env) (ca_expiry_days config);
  x_pubkey := pub ca_key; x_subject := ca_name; x_issuer := ca_name; x_sans := [];
  x_signer := if ca_signs env then Some (pub ca_key) else None |}.
(** One extension per domain, kept when it could be made. *)
Definition sans_of (env : gen_env) (config : CertConfig) : list string := List.filter (san_made env) (domains config).
Definition san_events (env : gen_env) (config : CertConfig) : list cert_event :=
  concat (map (fun d => if san_made env d then [acquired r_extension; released r_extension] else []) (domains config)).
Definition server_certificate (env : gen_env) (config : CertConfig) (ca_key server_key : keypair) : x509 pubkey := {|
  x_version := 2; x_serial := 2; x_not_before := now env;
  x_not_after := days_from (now env) (server_expiry_days config);
  x_pubkey := pub server_key; x_subject := default "cfrp Server"%string (head (domains config));
  x_issuer := ca_name; x_sans := sans_of env config;
  x_signer := if server_signs env then Some (pub ca_key) else None |}.

(** The lambda [write_pem]; opening the file empties it. *)
Definition write_pem (env : gen_env) (path : string) (c : content) (w : files * bool * list cert_event)
  : files * bool * list cert_event :=
  let '(fs, write_ok, tr) := w in
  if negb (bio_opens env path) then (fs, false, tr)
  else (<[path := if pem_written env path then c else partial env path]> fs,
        if pem_written env path then write_ok else false, tr ++ [acquired r_bio; released r_bio]).

Definition GenerateFullChain (env : gen_env) (config : CertConfig) (fs : files) : bool * files * list cert_event :=
  let tr0 := (CreateDirectoryIfNotExists env (ca_cert_file config)).2 ++
             (CreateDirectoryIfNotExists env (server_cert_file config)).2 in
  let '(ca_key, tr1) := GenerateKey (ca_keygen env) r_ca_key in
  let '(server_key, tr2) := GenerateKey (server_keygen env) r_server_key in
  let tr := tr0 ++ tr1 ++ tr2 in
  match ca_key, server_key with
  | Some ck, Some sk =>
    let free_keys := [released r_ca_key; released r_server_key] in
    if negb (ca_new env) then (false, fs, tr ++ free_keys) else
    let tr := tr ++ [acquired r_ca_cert] in
    if negb (ca_signs env) then (false, fs, tr ++ [released r_ca_cert] ++ free_keys) else
    if negb (server_new env) then (false, fs, tr ++ [released r_ca_cert] ++ free_keys) else
    let tr := tr ++ [acquired r_server_cert] ++ san_events env config in
    let free_all := [released r_server_cert; released r_ca_cert] ++ free_keys in
    if negb (server_signs env) then (false, fs, tr ++ free_all) else
    let '(fs', write_ok, tr) :=
      write_pem env (server_key_file config) (pem_key sk)
        (write_pem env (server_cert_file config) (pem_cert (server_certificate env config ck sk))
          (write_pem env (ca_key_file_ config) (pem_key ck)
            (write_pem env (ca_cert_file config) (pem_cert (ca_certificate env config ck)) (fs, true, tr)))) in
    (write_ok, fs', tr ++ free_all)
  | _, _ =>
    (false, fs, tr ++ (match ca_key with Some _ => [released r_ca_key] | None => [] end) ++
                      (match server_key with Some _ => [released r_server_key] | None => [] end))
  end.

Definition exists_file (fs : files) (path : string) : bool := bool_decide (is_Some (fs !! path)).
Definition EnsureCertificates (env : gen_env) (config : CertConfig) (fs : files) : bool * files * list cert_event :=
  let '(ca_ok, tr1) := IsCertValid env fs (ca_cert_file config) in
  let '(server_ok, tr2) := if ca_ok : bool then IsCertValid env fs (server_cert_file config) else (false, []) in
  if server_ok && exists_file fs (ca_key_file_ config) && exists_file fs (server_key_file config)
  then (true, fs, tr1 ++ tr2)
  else let '(ok, fs', tr3) := GenerateFullChain env config fs in (ok, fs', tr1 ++ tr2 ++ tr3).
End SslUtils.

(** ** What a chain of certificates is *)
Section Chain.
Context `{PemLaws}.
Definition cert_paths (config : CertConfig) : list string :=
  [ca_cert_file config; ca_key_file_ config; server_cert_file config; server_key_file config].
(** A certificate that has at least seven whole days left. *)
Definition fresh_at (t : Z) (fs : gmap string content) (path : string) : Prop :=
  exists c x, fs !! path = Some c /\ read_cert c = Some x /\ t + 7 * 86400 <= x_not_after x.
(** The four files belong together: the CA signed itself and the server's
    certificate, each key file holds the key of its certificate. *)
Definition chain (config : CertConfig) (fs : gmap string content) : Prop :=
  exists ck sk ca server,
    fs !! ca_cert_file config = Some (pem_cert ca) /\ fs !! ca_key_file_ config = Some (pem_key ck) /\
    fs !! server_cert_file config = Some (pem_cert server) /\ fs !! server_key_file config = Some (pem_key sk) /\
    x_pubkey ca = pub ck /\ x_signer ca = Some (pub ck) /\ x_subject ca = x_issuer ca /\
    x_pubkey server = pub sk /\ x_signer server = Some (pub ck) /\ x_issuer server = x_subject ca /\
    Forall (fun d => d ∈ domains config) (x_sans server).
(** Every call on the way succeeds. *)
Definition calls_succeed (env : gen_env) (config : CertConfig) : Prop :=
  (forall k, k = ca_keygen env \/ k = server_keygen env ->
     kg_ctx k = true /\ 0 < kg_init k /\ 0 < kg_bits k /\ 0 < kg_keygen k) /\
  ca_new env = true /\ server_new env = true /\ ca_signs env = true /\ server_signs env = true /\
  Forall (fun p => bio_opens env p = true /\ pem_written env p = true) (cert_paths config).

Lemma live_app tr1 tr2 l : live (tr1 ++ tr2) l = live tr1 l ≫= live tr2.
Proof.
  revert l. induction tr1 as [|[r|r|d] tr1 IH]; intros l; cbn [app live]; try case_decide; done || apply IH.
Qed.
Lemma live_directory env path l : live (CreateDirectoryIfNotExists env path).2 l = Some l.
Proof. unfold CreateDirectoryIfNotExists. destruct (parent_path _); [done|]. by destruct (can_mkdir _ _). Qed.
Lemma live_valid env fs path : live (IsCertValid env fs path).2 [] = Some [].
Proof. unfold IsCertValid. repeat (case_goal; try done). Qed.
Lemma filter_out (r : resource) (l : list resource) : r ∉ l -> filter (fun s => s <> r) l = l.
Proof.
  induction l as [|x l IH]; [done|]. intros [Hx Hl]%not_elem_of_cons.
  rewrite filter_cons_True by congruence. by rewrite IH.
Qed.
Lemma live_pair r (l : list resource) : r ∉ l -> live [acquired r; released r] l = Some l.
Proof.
  intros Hl. cbn [live]. rewrite decide_False by done. rewrite decide_True by (apply list_elem_of_here).
  rewrite filter_cons_False by naive_solver. by rewrite filter_out.
Qed.
Lemma live_sans env config l : r_extension ∉ l -> live (san_events env config) l = Some l.
Proof.
  intros Hl. unfold san_events. induction (domains config) as [|d ds IH]; [done|]. cbn [map concat].
  rewrite live_app. destruct (san_made env d); [|done]. by rewrite live_pair.
Qed.
Lemma live_key k r l : r_keygen_ctx ∉ r :: l -> r ∉ l ->
  live (GenerateKey k r).2 l = Some (match (GenerateKey k r).1 with Some _ => r :: l | None => l end).
Proof.
  intros Hc Hr. assert (Hf : filter (fun s => s <> r_keygen_ctx) l = l) by (apply filter_out; set_solver).
  unfold GenerateKey. repeat (case_goal; [try done|]); cbn [fst snd app live];
    repeat first [rewrite decide_False by set_solver | rewrite decide_True by set_solver | progress cbn [live]];
    rewrite ?filter_cons, ?Hf; repeat case_decide; (done || set_solver).
Qed.

(** Writing one file. *)
Lemma write_pem_spec env path c fs ok tr :
  let '(fs', ok', tr') := write_pem env path c (fs, ok, tr) in
  live tr' [] = (live tr [] ≫= fun l => if bio_opens env path then live [acquired r_bio; released r_bio] l else Some l) /\
  (forall q, q <> path -> fs' !! q = fs !! q) /\
  (ok' = true -> ok = true /\ fs' !! path = Some c) /\
  (ok = true -> bio_opens env path = true /\ pem_written env path = true -> ok' = true).
Proof.
  unfold write_pem. destruct (bio_opens env path); cbn [negb].
  - rewrite live_app. split; [done|]. split; [intros q Hq; by rewrite lookup_insert_ne|].
    destruct (pem_written env path); [|naive_solver]. by rewrite lookup_insert_eq.
  - split; [by destruct (live tr [])|]. naive_solver.
Qed.

(** The four files, and what was acquired for them. *)
Lemma write_all_spec env config (c1 c2 c3 c4 : content) fs tr :
  let '(fs', ok, tr') := write_pem env (server_key_file config) c4 (write_pem env (server_cert_file config) c3
    (write_pem env (ca_key_file_ config) c2 (write_pem env (ca_cert_file config) c1 (fs, true, tr)))) in
  (forall l, live tr [] = Some l -> r_bio ∉ l -> live tr' [] = Some l) /\
  (forall q, q ∉ cert_paths config -> fs' !! q = fs !! q) /\
  (ok = true -> NoDup (cert_paths config) ->
     fs' !! ca_cert_file config = Some c1 /\ fs' !! ca_key_file_ config = Some c2 /\
     fs' !! server_cert_file config = Some c3 /\ fs' !! server_key_file config = Some c4) /\
  (Forall (fun p => bio_opens env p = true /\ pem_written env p = true) (cert_paths config) -> ok = true).
Proof.
  assert (Hbio : forall b l, r_bio ∉ l ->
    (if b : bool then live [acquired r_bio; released r_bio] l else Some l) = Some l)
    by (intros [|] l Hl; [by apply (live_pair r_bio)|done]).
  pose proof (write_pem_spec env (ca_cert_file config) c1 fs true tr) as S1.
  destruct (write_pem _ _ c1 _) as [[f1 o1] t1].
  pose proof (write_pem_spec env (ca_key_file_ config) c2 f1 o1 t1) as S2.
  destruct (write_pem _ _ c2 _) as [[f2 o2] t2].
  pose proof (write_pem_spec env (server_cert_file config) c3 f2 o2 t2) as S3.
  destruct (write_pem _ _ c3 _) as [[f3 o3] t3].
  pose proof (write_pem_spec env (server_key_file config) c4 f3 o3 t3) as S4.
  destruct (write_pem _ _ c4 _) as [[f4 o4] t4].
  destruct S1 as (L1 & F1 & O1 & T1), S2 as (L2 & F2 & O2 & T2), S3 as (L3 & F3 & O3 & T3), S4 as (L4 & F4 & O4 & T4).
  split; [|split; [|split]].
  - intros l Hl Hb. rewrite L4, L3, L2, L1, Hl. cbn [mbind option_bind].
    repeat (rewrite Hbio by done; cbn [mbind option_bind]). done.
  - unfold cert_paths. intros q. rewrite !not_elem_of_cons. intros (? & ? & ? & ? & _). by rewrite F4, F3, F2, F1.
  - unfold cert_paths. rewrite !NoDup_cons, !not_elem_of_cons. intros Ho Hd.
    destruct (O4 Ho) as [H3 E4]. destruct (O3 H3) as [H2 E3]. destruct (O2 H2) as [H1 E2]. destruct (O1 H1) as [_ E1].
    destruct Hd as ((N1 & N2 & N3 & _) & (N4 & N5 & _) & (N6 & _) & _).
    rewrite E4. rewrite (F4 (server_cert_file config)), E3 by done.
    rewrite (F4 (ca_key_file_ config)), (F3 (ca_key_file_ config)), E2 by done.
    rewrite (F4 (ca_cert_file config)), (F3 (ca_cert_file config)), (F2 (ca_cert_file config)), E1 by done. done.
  - unfold cert_paths. rewrite !Forall_cons. intros (H1 & H2 & H3 & H4 & _). auto.
Qed.
(** The files hold a chain just made. *)
Definition written (env : gen_env) (config : CertConfig) (fs : gmap string content) (ck sk : keypair) : Prop :=
  fs !! ca_cert_file config = Some (pem_cert (ca_certificate env config ck)) /\
  fs !! ca_key_file_ config = Some (pem_key ck) /\
  fs !! server_cert_file config = Some (pem_cert (server_certificate env config ck sk)) /\
  fs !! server_key_file config = Some (pem_key sk) /\ ca_signs env = true /\ server_signs env = true.
(** Generating the chain. *)
Lemma generate_spec env config fs :
  let '(ok, fs', tr) := GenerateFullChain env config fs in
  live tr [] = Some [] /\
  (forall q, q ∉ cert_paths config -> fs' !! q = fs !! q) /\
  (ok = true -> NoDup (cert_paths config) -> exists ck sk, written env config fs' ck sk) /\
  (calls_succeed env config -> ok = true).
Proof.
  unfold GenerateFullChain. set (tr0 := (_ ++ _ : list cert_event)).
  assert (L0 : live tr0 [] = Some []) by (unfold tr0; rewrite live_app, live_directory; apply live_directory).
  pose proof (live_key (ca_keygen env) r_ca_key []) as L1. pose proof (live_key (server_keygen env) r_server_key) as L2.
  assert (K : forall k r, (kg_ctx k = true /\ 0 < kg_init k /\ 0 < kg_bits k /\ 0 < kg_keygen k) -> (GenerateKey k r).1 = Some (kg_key k)).
  { intros k r (K0 & K1 & K2 & K3). unfold GenerateKey. rewrite K0. cbn [negb]. by rewrite !(proj2 (Z.leb_gt _ _)) by done. }
  pose proof (K (ca_keygen env) r_ca_key) as K1. pose proof (K (server_keygen env) r_server_key) as K2. clear K.
  destruct (GenerateKey (ca_keygen env) r_ca_key) as [ca_key tr1]. specialize (L1 ltac:(set_solver) ltac:(set_solver)).
  assert (Hd : (r_keygen_ctx ∉ r_server_key :: match ca_key with Some _ => [r_ca_key] | None => [] end) /\
    (r_server_key ∉ match ca_key with Some _ => [r_ca_key] | None => [] end))
    by (destruct ca_key; split; apply (bool_decide_unpack _); reflexivity).
  specialize (L2 _ (proj1 Hd) (proj2 Hd)). clear Hd.
  destruct (GenerateKey (server_keygen env) r_server_key) as [server_key tr2]. cbn [fst snd] in *.
  assert (L : live (tr0 ++ tr1 ++ tr2) [] = Some ((match server_key with Some _ => [r_server_key] | None => [] end) ++
    match ca_key with Some _ => [r_ca_key] | None => [] end)).
  { rewrite !live_app, L0. cbn [mbind option_bind]. rewrite live_app, L1. cbn [mbind option_bind].
    rewrite L2. by destruct server_key, ca_key. }
  clear L1 L2 L0. set (tr := tr0 ++ tr1 ++ tr2) in *. clearbody tr. clear tr0 tr1 tr2.
  assert (Hfail : forall tr' : list cert_event, live tr' [] = Some [] -> ~ calls_succeed env config ->
    live tr' [] = Some [] /\ (forall q, q ∉ cert_paths config -> fs !! q = fs !! q) /\
    (false = true -> NoDup (cert_paths config) -> exists ck sk, written env config fs ck sk) /\
    (calls_succeed env config -> false = true)) by (intros; split_and!; [done..|naive_solver]).
  destruct ca_key as [ck|], server_key as [sk|]; cbn [app] in L.
  2-4: apply Hfail; [rewrite !live_app, L; reflexivity|intros (Hk & _); naive_solver].
  destruct (ca_new env) eqn:E1; cbn [negb];
    [|apply Hfail; [rewrite !live_app, L; reflexivity|intros (_ & ? & _); congruence]].
  destruct (ca_signs env) eqn:E2; cbn [negb];
    [|apply Hfail; [rewrite !live_app, L; reflexivity|intros (_ & _ & _ & ? & _); congruence]].
  destruct (server_new env) eqn:E3; cbn [negb];
    [|apply Hfail; [rewrite !live_app, L; reflexivity|intros (_ & _ & ? & _); congruence]].
  set (trs := (tr ++ [acquired r_ca_cert]) ++ [acquired r_server_cert] ++ san_events env config).
  assert (Ls : live trs [] = Some [r_server_cert; r_ca_cert; r_server_key; r_ca_key]).
  { unfold trs. rewrite !live_app, L. cbn [mbind option_bind live]. rewrite !decide_False by set_solver.
    cbn [mbind option_bind]. rewrite live_app. cbn [live mbind option_bind]. rewrite decide_False by set_solver.
    cbn [mbind option_bind]. apply live_sans. set_solver. }
  destruct (server_signs env) eqn:E4; cbn [negb];
    [|apply Hfail; [rewrite !live_app, Ls; reflexivity|intros (_ & _ & _ & _ & ? & _); congruence]].
  pose proof (write_all_spec env config (pem_cert (ca_certificate env config ck)) (pem_key ck)
    (pem_cert (server_certificate env config ck sk)) (pem_key sk) fs trs) as W.
  destruct (write_pem env (server_key_file config) _ _) as [[fs' ok] tr']. destruct W as (W1 & W2 & W3 & W4).
  split; [|split; [done|split]].
  - rewrite live_app, (W1 _ Ls) by set_solver. reflexivity.
  - intros Ho Hd. exists ck, sk. destruct (W3 Ho Hd) as (? & ? & ? & ?). done.
  - intros (_ & _ & _ & _ & _ & Hp). auto.
Qed.

(** [IsCertValid] is the test for seven whole days. *)
Lemma quot_days t na : (Z.quot (na - t) 86400 <? 7) = false <-> t + 7 * 86400 <= na.
Proof.
  rewrite Z.ltb_ge. destruct (Z.le_gt_cases 0 (na - t)).
  - rewrite Z.quot_div_nonneg by lia. split; intros.
    + pose proof (Z.mul_div_le (na - t) 86400). lia.
    + apply Z.div_le_lower_bound; lia.
  - assert (Z.quot (na - t) 86400 <= 0) by (apply Z.quot_le_upper_bound; lia). lia.
Qed.
Lemma valid_fresh env fs path : (IsCertValid env fs path).1 = true <-> can_open env path = true /\ fresh_at (now env) fs path.
Proof.
  unfold IsCertValid, fresh_at. destruct (fs !! path) as [c|]; [|split; [done|by intros (_ & ? & ? & ? & _)]].
  destruct (can_open env path); cbn [negb]; [|by split; [|intros [? _]]].
  destruct (read_cert c) as [x|] eqn:E; [|split; [done|intros (_ & c' & x' & [= <-] & ? & _); congruence]].
  rewrite time_diff_spec. cbn [fst]. rewrite negb_true_iff, quot_days. split.
  - intros Hd. split; [done|]. by exists c, x.
  - intros (_ & c' & x' & [= <-] & Hr & Hd). congruence.
Qed.
Lemma exists_file_true (fs : gmap string content) path c : fs !! path = Some c -> exists_file fs path = true.
Proof. intros H1. unfold exists_file. rewrite H1. by apply bool_decide_eq_true. Qed.
(** Two valid certificates and two key files are left as they are. *)
Lemma ensure_accepts env config fs :
  (IsCertValid env fs (ca_cert_file config)).1 = true -> (IsCertValid env fs (server_cert_file config)).1 = true ->
  exists_file fs (ca_key_file_ config) = true -> exists_file fs (server_key_file config) = true ->
  (EnsureCertificates env config fs).1 = (true, fs).
Proof.
  unfold EnsureCertificates. destruct (IsCertValid env fs (ca_cert_file config)) as [b1 t1]. cbn [fst]. intros -> H2 H3 H4.
  destruct (IsCertValid env fs (server_cert_file config)) as [b2 t2]. cbn [fst] in H2. subst b2.
  by rewrite H3, H4.
Qed.

Lemma written_chain env config fs ck sk : written env config fs ck sk -> chain config fs.
Proof.
  intros (P1 & P2 & P3 & P4 & S1 & S2).
  exists ck, sk, (ca_certificate env config ck), (server_certificate env config ck sk).
  split_and!; try done; [cbn; by rewrite S1|cbn; by rewrite S2|].
  cbn. unfold sans_of. apply Forall_forall. intros d Hd.
  by apply list_elem_of_In, filter_In in Hd as [?%list_elem_of_In _].
Qed.
Lemma written_lasts env config fs ck sk later : written env config fs ck sk ->
  can_open later (ca_cert_file config) = true -> can_open later (server_cert_file config) = true ->
  now later + 7 * 86400 <= days_from (now env) (Z.min (ca_expiry_days config) (server_expiry_days config)) ->
  (EnsureCertificates later config fs).1 = (true, fs).
Proof.
  intros (P1 & P2 & P3 & P4 & _) O1 O2 Hl. unfold days_from in Hl.
  apply ensure_accepts; [apply valid_fresh; split; [done|]..|by eapply exists_file_true|by eapply exists_file_true];
    eexists _, _; [rewrite P1|rewrite P3]; rewrite read_pem_cert; split_and!; try done;
    cbn [ca_certificate server_certificate x_not_after]; unfold days_from; lia.
Qed.
(** The two ways of [EnsureCertificates]. *)
Lemma ensure_spec env config fs :
  let '(ok, fs', tr) := EnsureCertificates env config fs in
  live tr [] = Some [] /\ (forall path, path ∉ cert_paths config -> fs' !! path = fs !! path) /\
  (ok = true -> NoDup (cert_paths config) ->
     (fs' = fs /\ fresh_at (now env) fs (ca_cert_file config) /\ fresh_at (now env) fs (server_cert_file config) /\
      is_Some (fs !! ca_key_file_ config) /\ is_Some (fs !! server_key_file config)) \/
     exists ck sk, written env config fs' ck sk) /\
  (calls_succeed env config -> ok = true).
Proof.
  unfold EnsureCertificates.
  pose proof (live_valid env fs (ca_cert_file config)) as V1. pose proof (live_valid env fs (server_cert_file config)) as V2.
  pose proof (proj1 (valid_fresh env fs (ca_cert_file config))) as F1.
  pose proof (proj1 (valid_fresh env fs (server_cert_file config))) as F2.
  destruct (IsCertValid env fs (ca_cert_file config)) as [ca_ok tr1]. cbn [fst snd] in *.
  assert (exists server_ok tr2, (if ca_ok then IsCertValid env fs (server_cert_file config) else (false, [])) = (server_ok, tr2) /\
    live tr2 [] = Some [] /\ (server_ok = true -> ca_ok = true /\ fresh_at (now env) fs (server_cert_file config)))
    as (server_ok & tr2 & -> & V & F).
  { destruct ca_ok; [|by exists false, []]. destruct (IsCertValid env fs (server_cert_file config)) as [b t].
    exists b, t. split_and!; [done..|]. intros Hb. split; [done|]. by apply F2. }
  destruct (server_ok && exists_file fs (ca_key_file_ config) && exists_file fs (server_key_file config)) eqn:E.
  - bool_hyps. unfold exists_file in *. repeat match goal with E : bool_decide _ = true |- _ => apply bool_decide_eq_true in E end.
    rewrite live_app, V1. split_and!; [done..| |done]. intros _ _. left. destruct (F ltac:(done)) as [Hca ?].
    destruct (F1 Hca). done.
  - pose proof (generate_spec env config fs) as G. destruct (GenerateFullChain env config fs) as [[ok fs'] tr3].
    destruct G as (G1 & G2 & G3 & G4). rewrite !live_app, V1. cbn [mbind option_bind]. rewrite live_app, V.
    split_and!; [done..| |done]. intros Ho Hnd. right. by apply G3.
Qed.

(** C18 [EnsureCertificates] does what it promises.  Whatever wolfSSL and the
    file system answer, everything it allocates is freed exactly once and no
    file but the four is touched.  When it says true, either the files were left
    alone, and both certificates have at least seven days left and both keys
    exist, or the four files are one chain: a CA that signed itself and the
    server's certificate, each key beside its certificate.  Such a new chain is
    left alone by later calls until a week before it expires, and when every
    call succeeds the answer is true. *)
Theorem certificates_ensured env config fs :
  NoDup (cert_paths config) ->
  let '(ok, fs', tr) := EnsureCertificates env config fs in
  live tr [] = Some [] /\
  (forall path, path ∉ cert_paths config -> fs' !! path = fs !! path) /\
  (ok = true ->
     (fs' = fs /\ fresh_at (now env) fs (ca_cert_file config) /\ fresh_at (now env) fs (server_cert_file config) /\
      is_Some (fs !! ca_key_file_ config) /\ is_Some (fs !! server_key_file config)) \/
     (chain config fs' /\ forall later,
        can_open later (ca_cert_file config) = true -> can_open later (server_cert_file config) = true ->
        now later + 7 * 86400 <= days_from (now env) (Z.min (ca_expiry_days config) (server_expiry_days config)) ->
        (EnsureCertificates later config fs').1 = (true, fs'))) /\
  (calls_succeed env config -> ok = true).
Proof.
  intros Hnd. pose proof (ensure_spec env config fs) as E. destruct (EnsureCertificates env config fs) as [[ok fs'] tr].
  destruct E as (E1 & E2 & E3 & E4). split_and!; [done..| |done]. intros Ho.
  destruct (E3 Ho Hnd) as [?|(ck & sk & W)]; [by left|right]. split; [by eapply written_chain|].
  intros later. by apply (written_lasts env config fs' ck sk).
Qed.
End Chain.

(** ** The contexts of the server *)
Section ServerTls.
Context `{PemLaws}.
(** Whether wolfSSL takes the contents of a certificate chain file, and of a key
    file for the chain already taken; otherwise, or when the file is missing,
    the call throws. *)
Context (chain_loads : content -> bool) (key_fits : content -> content -> bool).

Record tls_context : Type := { ctx_chain : option content; ctx_key : option content }.
Definition new_context : tls_context := {| ctx_chain := None; ctx_key := None |}.
Definition use_certificate_chain_file (fs : gmap string content) (path : string) (c : tls_context) : option tls_context :=
  x ← fs !! path; if chain_loads x then Some {| ctx_chain := Some x; ctx_key := ctx_key c |} else None.
Definition use_private_key_file (fs : gmap string content) (path : string) (c : tls_context) : option tls_context :=
  k ← fs !! path; x ← ctx_chain c;
  if key_fits x k then Some {| ctx_chain := ctx_chain c; ctx_key := Some k |} else None.
(** The body of the [try]: the two contexts as the exception leaves them, and
    whether there was none. *)
Definition load_contexts (fs : gmap string content) (cert key : string) : tls_context * tls_context * bool :=
  match use_certificate_chain_file fs cert new_context with
  | None => (new_context, new_context, false)
  | Some c1 =>
    match use_private_key_file fs key c1 with
    | None => (c1, new_context, false)
    | Some c2 =>
      match use_certificate_chain_file fs cert new_context with
      | None => (c2, new_context, false)
      | Some q1 => match use_private_key_file fs key q1 with None => (c2, q1, false) | Some q2 => (c2, q2, true) end
      end
    end
  end.

Record ServerTls : Type := { ssl_ctx_ : option tls_context; quic_ssl_ctx_ : option tls_context; tls_warned : bool }.
Definition cert_config (ssl : ServerSsl) (ca_key : list byte) : CertConfig := {|
  ca_cert_file := string_of (ssl_ca_file ssl); ca_key_file_ := string_of ca_key;
  server_cert_file := string_of (ssl_cert_file ssl); server_key_file := string_of (ssl_key_file ssl);
  domains := map string_of (ssl_domains ssl);
  ca_expiry_days := default_ca_days; server_expiry_days := default_server_days |}.
(** The constructor's TLS part; [None] when [replace] throws on the name of the
    CA's key.  The answer of [EnsureCertificates] is not looked at. *)
Definition make_server_tls (env : gen_env) (protocol : string) (ssl : ServerSsl) (fs : gmap string content)
  : option (ServerTls * gmap string content) :=
  if needs_tls protocol (ssl_enable ssl) then
    fs' ← (if ssl_auto_generate ssl then
             ca_key ← ca_key_file (ssl_ca_file ssl);
             mret (EnsureCertificates env (cert_config ssl ca_key) fs).1.2
           else Some fs);
    let '(c, q, loaded) := load_contexts fs' (string_of (ssl_cert_file ssl)) (string_of (ssl_key_file ssl)) in
    mret ({| ssl_ctx_ := Some c; quic_ssl_ctx_ := Some q;
             tls_warned := negb loaded && (String.eqb protocol "quic" || String.eqb protocol "auto") |}, fs')
  else Some ({| ssl_ctx_ := None; quic_ssl_ctx_ := None; tls_warned := false |}, fs).

(** wolfSSL takes a certificate that was written, with the key it was made for. *)
Definition loads_what_was_written : Prop :=
  (forall x, chain_loads (pem_cert x) = true) /\
  (forall x k, key_fits (pem_cert x) (pem_key k) = true <-> x_pubkey x = pub k).

(** A server that starts without certificates has TLS.  When a certificate
    or a key is missing or about to expire, generation is on, the file names are
    distinct and every call succeeds, the constructor leaves a chain in the
    files and both of its contexts, for TCP and for QUIC, holding the server's
    certificate of that chain and its key, and warns of nothing. *)
Theorem server_tls_ready env protocol ssl fs ca_key :
  loads_what_was_written -> needs_tls protocol (ssl_enable ssl) = true -> ssl_auto_generate ssl = true ->
  ca_key_file (ssl_ca_file ssl) = Some ca_key ->
  let config := cert_config ssl ca_key in
  NoDup (cert_paths config) -> calls_succeed env config ->
  ~ (fresh_at (now env) fs (ca_cert_file config) /\ fresh_at (now env) fs (server_cert_file config) /\
     is_Some (fs !! ca_key_file_ config) /\ is_Some (fs !! server_key_file config)) ->
  exists x k fs', chain config fs' /\ x_pubkey x = pub k /\
    fs' !! server_cert_file config = Some (pem_cert x) /\ fs' !! server_key_file config = Some (pem_key k) /\
    let ctx := {| ctx_chain := Some (pem_cert x); ctx_key := Some (pem_key k) |} in
    make_server_tls env protocol ssl fs =
      Some ({| ssl_ctx_ := Some ctx; quic_ssl_ctx_ := Some ctx; tls_warned := false |}, fs').
Proof.
  intros [L1 L2] Hn Ha Hk config Hnd Hc Hold. pose proof (ensure_spec env config fs) as E.
  unfold make_server_tls. rewrite Hn, Ha, Hk. cbn [mbind option_bind mret option_ret]. fold config.
  destruct (EnsureCertificates env config fs) as [[ok fs'] tr]. destruct E as (_ & _ & E1 & E2). cbn [fst snd].
  destruct (E1 (E2 Hc) Hnd) as [(_ & ? & ? & ? & ?)|(ck0 & sk0 & Hch%written_chain)]; [exfalso; by apply Hold|].
  pose proof Hch as (ck & sk & ca & server & P1 & P2 & P3 & P4 & _ & _ & _ & K & _).
  exists server, sk, fs'. split_and!; [done..|]. unfold load_contexts, use_certificate_chain_file, use_private_key_file.
  cbn [config cert_config server_cert_file server_key_file] in P3, P4. rewrite P3, P4.
  cbn [mbind option_bind]. rewrite L1. cbn [ctx_chain mbind option_bind]. by rewrite (proj2 (L2 server sk) K).
Qed.
End ServerTls.

(** ** A concrete wolfSSL: keys are numbers *)
Inductive demo_content : Type := demo_cert (c : x509 Z) | demo_key (k : Z) | demo_other.
#[local] Instance demo_pem : Pem := {|
  keypair := Z; pubkey := Z; content := demo_content; pub := fun k => k; pem_cert := demo_cert; pem_key := demo_key;
  read_cert := fun c => match c with demo_cert x => Some x | _ => None end;
  time_diff := fun from to => Some (Z.quot (to - from) 86400, Z.rem (to - from) 86400) |}.
#[local] Instance demo_pem_laws : PemLaws.
Proof. by split. Qed.
Definition demo_chain_loads (c : content) : bool := match c : demo_content with demo_cert _ => true | _ => false end.
Definition demo_key_fits (c k : content) : bool :=
  match (c : demo_content), (k : demo_content) with demo_cert x, demo_key k => x_pubkey x =? k | _, _ => false end.
(** Every call succeeds but the opening of [locked] for writing; the keys made
    are [k] and [k + 1]. *)
Definition demo_env (t k : Z) (locked : string) : gen_env :=
  let keygen key := {| kg_ctx := true; kg_init := 1; kg_bits := 1; kg_keygen := 1; kg_key := key : keypair |} in {|
  now := t; can_open := fun _ => true; can_mkdir := fun _ => true; ca_keygen := keygen k; server_keygen := keygen (k + 1);
  ca_new := true; server_new := true; ca_signs := true; server_signs := true; san_made := fun _ => true;
  bio_opens := fun p => negb (String.eqb p locked); pem_written := fun _ => true; partial := fun _ => demo_other |}.
(** [SslConfig] as its members are initialised. *)
Definition default_ssl : ServerSsl := {|
  ssl_enable := true; ssl_auto_generate := true; ssl_cert_file := bytes_of "certs/server.crt";
  ssl_key_file := bytes_of "certs/server.key"; ssl_ca_file := bytes_of "certs/ca.crt"; ssl_domains := [] |}.
Definition default_certs : CertConfig := cert_config default_ssl (bytes_of "certs/ca.key").
Definition first_files : gmap string content := (EnsureCertificates (demo_env 0 1 "") default_certs ∅).1.2.
Lemma demo_loads : loads_what_was_written demo_chain_loads demo_key_fits.
Proof. split; [done|]. intros x k. cbn. apply Z.eqb_eq. Qed.
Lemma demo_succeeds t k : calls_succeed (demo_env t k "") default_certs.
Proof. split_and!; try done; [by intros ? [-> | ->]|]. repeat constructor. Qed.
Lemma default_paths : NoDup (cert_paths default_certs).
Proof. apply (bool_decide_unpack _). by vm_compute. Qed.

(** ** What the code does besides *)
(** The answer of a failed generation is dropped, and the next call does not see
    it: when the server's certificate cannot be overwritten, the old certificate
    under the new CA and beside the new key is taken for good, and the server
    runs with contexts that have no key. *)
Lemma half_written_chain_accepted :
  let config := default_certs in
  let fs0 := delete (server_key_file config) first_files in
  let env := demo_env 86400 3 (server_cert_file config) in
  let fs1 := (EnsureCertificates env config fs0).1.2 in
  (EnsureCertificates env config fs0).1.1 = false /\ (EnsureCertificates env config fs1).1 = (true, fs1) /\ ~ chain config fs1 /\
  option_map (fun r => ssl_ctx_ r.1) (make_server_tls demo_chain_loads demo_key_fits env "tcp" default_ssl fs1) =
    Some (Some {| ctx_chain := fs1 !! server_cert_file config; ctx_key := None |}).
Proof.
  intros config fs0 env fs1. split; [reflexivity|]. split; [vm_compute; reflexivity|]. split; [|reflexivity].
  intros (ck & sk & ca & server & P1 & P2 & P3 & P4 & K1 & _ & _ & _ & K2 & _).
  vm_compute in P1, P2, P3. injection P1 as <-. injection P3 as <-. vm_compute in K1, K2. congruence.
Qed.
(** The CA expires with the server's certificate: a week before the year is
    over the whole chain is made again, with a new key for the CA that clients
    were given for ten years. *)
Lemma ca_replaced_with_server_certificate :
  let config := default_certs in
  let env := demo_env (359 * 86400) 3 "" in
  (IsCertValid env first_files (ca_cert_file config)).1 = true /\
  exists ca ca', first_files !! ca_cert_file config = Some (pem_cert ca) /\
    (EnsureCertificates env config first_files).1.2 !! ca_cert_file config = Some (pem_cert ca') /\
    x_pubkey ca = 1 /\ x_pubkey ca' = 3.
Proof. split; [by vm_compute|]. eexists _, _. by vm_compute. Qed.

(** ** Witnesses *)
Lemma certificates_ensured_witness :
  let env := demo_env 0 1 "" in
  let '(ok, fs', tr) := EnsureCertificates env default_certs ∅ in
  live tr [] = Some [] /\
  (forall path, path ∉ cert_paths default_certs -> fs' !! path = (∅ : gmap string content) !! path) /\
  (ok = true ->
     (fs' = ∅ /\ fresh_at (now env) ∅ (ca_cert_file default_certs) /\ fresh_at (now env) ∅ (server_cert_file default_certs) /\
      is_Some ((∅ : gmap string content) !! ca_key_file_ default_certs) /\
      is_Some ((∅ : gmap string content) !! server_key_file default_certs)) \/
     (chain default_certs fs' /\ forall later,
        can_open later (ca_cert_file default_certs) = true -> can_open later (server_cert_file default_certs) = true ->
        now later + 7 * 86400 <=
          days_from (now env) (Z.min (ca_expiry_days default_certs) (server_expiry_days default_certs)) ->
        (EnsureCertificates later default_certs fs').1 = (true, fs'))) /\
  (calls_succeed env default_certs -> ok = true).
Proof. exact (certificates_ensured (demo_env 0 1 "") default_certs ∅ default_paths). Defined.
Lemma server_tls_ready_witness :
  exists x k fs', chain default_certs fs' /\ x_pubkey x = pub k /\
    fs' !! server_cert_file default_certs = Some (pem_cert x) /\
    fs' !! server_key_file default_certs = Some (pem_key k) /\
    let ctx := {| ctx_chain := Some (pem_cert x); ctx_key := Some (pem_key k) |} in
    make_server_tls demo_chain_loads demo_key_fits (demo_env 0 1 "") "auto" default_ssl ∅ =
      Some ({| ssl_ctx_ := Some ctx; quic_ssl_ctx_ := Some ctx; tls_warned := false |}, fs').
Proof.
  apply (server_tls_ready demo_chain_loads demo_key_fits (demo_env 0 1 "") "auto" default_ssl ∅ (bytes_of "certs/ca.key")
           demo_loads eq_refl eq_refl eq_refl default_paths (demo_succeeds 0 1)).
  by intros ((c & x & E & _) & _).
Defined.
