(* ===== verification/Transport.v ===== *)
(** * Transports (src/common/stream.h: AsyncStream, TcpStream, SslStream;
    src/client/client.cpp: TLS contexts, the UDP socket of QUIC and the streams
    of a connection; src/common/hash_utils.h)

    The streams of the program are towers: a socket, perhaps TLS on it, perhaps
    bytes read ahead, perhaps WebSocket.  Each accessor of [AsyncStream] is a
    function on towers.  The client's contexts decide what a handshake verifies,
    and the server's front door (Accept.v) builds the tower that meets the
    client's. *)
From Stdlib Require Import ZArith Lia Strings.Byte String.
From stdpp Require Import base tactics list gmap strings pretty.
From S2P Require Import Prelude Text MuxFrame WebSocket Accept Client Config.
Local Open Scope Z_scope.

(** ** Towers of streams *)
Definition address : Type := (string * Z)%type.
Inductive stream : Type :=
| tcp_stream (socket : nat)
| ssl_stream (socket : nat)
| buffered_stream (initial : list byte) (underlying : stream)
| websocket_stream (is_client underlying_handshake : bool) (underlying : stream)
| quic_stream (session : option address).      (* the peer of its session, if that still exists *)

(** [ep.address().to_string() + ":" + std::to_string(ep.port())] *)
Definition endpoint_string (ep : address) : string := (ep.1 ++ ":" ++ pretty ep.2)%string.
Section Accessors.
(** [remote_endpoint] of a socket; [None] when it fails. *)
Variable peer : nat -> option address.
Definition peer_string (ep : option address) : string :=
  match ep with Some ep => endpoint_string ep | None => "unknown" end.
Fixpoint remote_endpoint_string (s : stream) : string :=
  match s with
  | tcp_stream k | ssl_stream k => peer_string (peer k)
  | buffered_stream _ u | websocket_stream _ _ u => remote_endpoint_string u
  | quic_stream session => peer_string session
  end.
End Accessors.
Fixpoint protocol_name (s : stream) : string :=
  match s with
  | tcp_stream _ => "TCP"
  | ssl_stream _ => "SSL"
  | buffered_stream _ u => protocol_name u
  | websocket_stream _ _ _ => "WebSocket"
  | quic_stream _ => "QUIC"
  end.
(** A [MuxStream] answers for the stream under its session. *)
Definition mux_protocol_name (session : option stream) : string :=
  match session with Some u => protocol_name u | None => "unknown" end.
Definition mux_endpoint_string (peer : nat -> option address) (session : option stream) : string :=
  match session with Some u => remote_endpoint_string peer u | None => "unknown" end.

Inductive stream_call : Type :=
| close_socket (socket : nat)
| close_quic_stream
| set_tls_host (socket : nat) (host : string).
Fixpoint close_stream (s : stream) : list stream_call :=
  match s with
  | tcp_stream k | ssl_stream k => [close_socket k]
  | buffered_stream _ u | websocket_stream _ _ u => close_stream u
  | quic_stream session => match session with Some _ => [close_quic_stream] | None => [] end
  end.
Fixpoint set_host_name (host : string) (s : stream) : list stream_call :=
  match s with
  | ssl_stream k => [set_tls_host k host]
  | buffered_stream _ u | websocket_stream _ _ u => set_host_name host u
  | tcp_stream _ | quic_stream _ => []
  end.
(** The socket whose TLS object [get_native_handle] gives. *)
Fixpoint get_native_handle (s : stream) : option nat :=
  match s with
  | ssl_stream k => Some k
  | buffered_stream _ u => get_native_handle u
  | tcp_stream _ | websocket_stream _ _ _ | quic_stream _ => None
  end.
(** What [async_handshake] goes through, in order. *)
Inductive handshake : Type := tls_handshake | ws_handshake (as_client : bool).
Fixpoint handshakes (s : stream) : list handshake :=
  match s with
  | tcp_stream _ | quic_stream _ => []
  | ssl_stream _ => [tls_handshake]
  | buffered_stream _ u => handshakes u
  | websocket_stream c under u => (if under then handshakes u else []) ++ [ws_handshake c]
  end.
Fixpoint socket_of (s : stream) : option nat :=
  match s with
  | tcp_stream k | ssl_stream k => Some k
  | buffered_stream _ u | websocket_stream _ _ u => socket_of u
  | quic_stream _ => None
  end.

(** ** The keys of the endpoint tables *)
Section Hash.
Variables (hash_string : string -> Z) (hash_port : Z -> Z).
Definition UdpEndpointHash (ep : address) : Z :=
  Z.lxor (hash_string ep.1) (wrap 64 (Z.shiftl (hash_port ep.2) 1)).
Definition UdpEndpointEqual (lhs rhs : address) : bool := String.eqb lhs.1 rhs.1 && (lhs.2 =? rhs.2).
Lemma equal_hash lhs rhs : UdpEndpointEqual lhs rhs = true -> UdpEndpointHash lhs = UdpEndpointHash rhs.
Proof.
  destruct lhs as [a p], rhs as [b q]. unfold UdpEndpointEqual, UdpEndpointHash. cbn. intros H. bool_hyps.
  by rewrite (proj1 (String.eqb_eq a b)), H0.
Qed.
End Hash.

(** ** Socket options *)
Inductive socket_option : Type :=
| no_delay | keep_alive | keepidle (seconds : Z) | keepintvl (seconds : Z) | keepcnt (probes : Z).
(** [SetTcpKeepalive] on Linux. *)
Definition SetTcpKeepalive : list socket_option := [no_delay; keep_alive; keepidle 10; keepintvl 5; keepcnt 3].
(** Seconds of silence after which a dead peer is noticed. *)
Definition keepalive_seconds (opts : list socket_option) : Z :=
  let get f := foldr (fun o acc => default acc (f o)) 0 opts in
  get (fun o => match o with keepidle s => Some s | _ => None end) +
  get (fun o => match o with keepintvl s => Some s | _ => None end) *
  get (fun o => match o with keepcnt n => Some n | _ => None end).

(** ** The client's TLS contexts *)
Inductive roots : Type := no_roots | roots_file (path : list byte) | system_roots.
Record client_context : Type := { cx_verify_peer : bool; cx_roots : roots; cx_host : option string }.
(** What a handshake verifies: against which roots, which name, and the name it
    announces. *)
Record verification : Type := { v_roots : option roots; v_host : option string; v_sni : option string }.

Section ClientTls.
(** [ssl_config_], [server_addr_], and whether [load_verify_file] takes a file;
    otherwise it throws. *)
Variables (cfg : ClientSsl) (server_addr : string) (loads : list byte -> bool).

(** The constructor: [ssl_ctx_]; the outer [None] when it throws. *)
Definition make_client_context : option (option client_context) :=
  if cssl_enable cfg then
    if cssl_verify_peer cfg then
      let host := if cssl_verify_host cfg then Some server_addr else None in
      match cssl_ca_file cfg with
      | [] => Some (Some {| cx_verify_peer := true; cx_roots := system_roots; cx_host := host |})
      | f => if loads f then Some (Some {| cx_verify_peer := true; cx_roots := roots_file f; cx_host := host |}) else None
      end
    else Some (Some {| cx_verify_peer := false; cx_roots := no_roots; cx_host := None |})
  else Some None.
(** [DoQuicConnect]: [quic_ssl_ctx_] is made once; the boolean is false when
    loading throws, which leaves the context behind as it is then. *)
Definition make_quic_context (quic_ssl_ctx : option client_context) : option client_context * bool :=
  match quic_ssl_ctx with
  | Some c => (Some c, true)
  | None =>
    if cssl_verify_peer cfg then
      match cssl_ca_file cfg with
      | [] => (Some {| cx_verify_peer := true; cx_roots := system_roots; cx_host := None |}, true)
      | f => if loads f then (Some {| cx_verify_peer := true; cx_roots := roots_file f; cx_host := None |}, true)
             else (Some {| cx_verify_peer := true; cx_roots := no_roots; cx_host := None |}, false)
      end
    else (Some {| cx_verify_peer := false; cx_roots := no_roots; cx_host := None |}, true)
  end.
Fixpoint quic_attempts (n : nat) (quic_ssl_ctx : option client_context) : option client_context :=
  match n with O => quic_ssl_ctx | S n => quic_attempts n (make_quic_context quic_ssl_ctx).1 end.

Definition peer_roots (c : client_context) : option roots := if cx_verify_peer c then Some (cx_roots c) else None.
(** Over TCP or WebSocket; [None] is a connection without TLS. *)
Definition tcp_verification (ssl_ctx : option client_context) : option verification :=
  c ← ssl_ctx; mret {| v_roots := peer_roots c; v_host := if cx_verify_peer c then cx_host c else None;
                       v_sni := Some server_addr |}.
Definition quic_verification (c : client_context) : verification := {|
  v_roots := peer_roots c;
  v_host := if cssl_enable cfg && cssl_verify_peer cfg && cssl_verify_host cfg then Some server_addr else None;
  v_sni := if cssl_enable cfg then Some server_addr else None |}.
End ClientTls.

(** ** The UDP socket of QUIC *)
Inductive udp_socket : Type := udp_closed | udp_connected (endpoint : Z) | udp_other.
Record rebind_env : Type := { open_ec : error_code; bind_ec : error_code; connect_ec : error_code }.
(** Whatever was open is closed first. *)
Definition RebindUdpSocketForEndpoint (env : rebind_env) (endpoint : Z) (udp_socket_ : udp_socket) : bool * udp_socket :=
  match open_ec env with
  | ec_ok => match bind_ec env with
             | ec_ok => match connect_ec env with
                        | ec_ok => (true, udp_connected endpoint)
                        | _ => (false, udp_closed)
                        end
             | _ => (false, udp_closed)
             end
  | _ => (false, udp_closed)
  end.
(** The loop of [TryNextQuicEndpoint] with the socket. *)
Fixpoint try_endpoints (env : Z -> rebind_env) (eps : list Z) (index : nat) (udp_socket_ : udp_socket)
  : option (Z * nat) * udp_socket :=
  match eps with
  | [] => (None, udp_socket_)
  | e :: eps' =>
    let '(ok, s) := RebindUdpSocketForEndpoint (env e) e udp_socket_ in
    if ok : bool then (Some (e, S index), s) else try_endpoints env eps' (S index) s
  end.
Definition rebinds (env : Z -> rebind_env) (e : Z) : bool :=
  match open_ec (env e), bind_ec (env e), connect_ec (env e) with ec_ok, ec_ok, ec_ok => true | _, _, _ => false end.

(** ** The stream of a connection *)
(** What [DoConnect] puts on a connected socket. *)
Definition client_stream (ssl_enable : bool) (protocol : string) (socket : nat) : stream :=
  let s := if ssl_enable then ssl_stream socket else tcp_stream socket in
  if String.eqb protocol "websocket" then websocket_stream true true s else s.
(** The tower the server's accept handler has built after its actions, and the
    handshakes it has begun. *)
Fixpoint server_stream (acts : list conn_act) (socket : nat) (s : option stream) : option stream :=
  match acts with
  | [] => s
  | a :: acts' => server_stream acts' socket
      match a with
      | make_tls => Some (ssl_stream socket)
      | make_tcp => Some (tcp_stream socket)
      | wrap_websocket => websocket_stream false true <$> s
      | begin_ws_handshake initial => (fun u => websocket_stream false false (buffered_stream initial u)) <$> s
      | start_mux false ((_ :: _) as initial) => buffered_stream initial <$> s
      | _ => s
      end
  end.
Fixpoint handshakes_begun (acts : list conn_act) (socket : nat) (s : option stream) : list handshake :=
  match acts with
  | [] => []
  | a :: acts' =>
    let s' := server_stream [a] socket s in
    match a with
    | begin_handshake | begin_ws_handshake _ => from_option handshakes [] s'
    | _ => []
    end ++ handshakes_begun acts' socket s'
  end.
Definition other_side (h : handshake) : handshake :=
  match h with tls_handshake => tls_handshake | ws_handshake c => ws_handshake (negb c) end.
(** Bytes read ahead of the session. *)
Fixpoint read_ahead (s : stream) : list byte :=
  match s with buffered_stream initial u => initial ++ read_ahead u | websocket_stream _ _ u => [] | _ => [] end.
(** The first byte a client writes on its stream once TLS, if any, is set up:
    of its WebSocket request, or of the first frame of its session. *)
Definition first_sent (protocol : string) (key : list byte) (h : Header) : byte :=
  List.hd x00 (if String.eqb protocol "websocket" then client_request key else encode h).
(** The completions of a connection that goes well; a TLS client opens with a
    handshake record. *)
Definition connection_events (server_protocol protocol : string) (ssl : bool) (first : byte) : list conn_event :=
  (if ssl then [peeked ec_ok [x16]] else []) ++ [handshaken ec_ok] ++
  (if String.eqb server_protocol "auto"
   then got_first_byte ec_ok first :: (if String.eqb protocol "websocket" then [ws_handshaken ec_ok] else []) else []).

(** ** Both ends build matching towers *)
(** C17 The transport is negotiated.  A client that connects over TCP or WebSocket
    to a server of the same protocol or of protocol auto, both with TLS or both
    without, is handed to a mux session of its kind: the server's tower has the
    client's protocol name, on the accepted socket; each handshake the server
    began answers one of the client's, in the client's order; and the byte read
    to recognise the protocol is in front of the stream.  A client without TLS
    at a server with TLS is closed at its first byte. *)
Theorem transport_negotiated (protocol server_protocol : string) (ssl : bool) (key : list byte) (h : Header) (socket client_socket : nat) :
  protocol = "tcp"%string \/ protocol = "websocket"%string ->
  server_protocol = "auto"%string \/ server_protocol = protocol -> version h = 0 ->
  let first := first_sent protocol key h in
  let mine := client_stream ssl protocol client_socket in
  (exists c acts s,
     Accept.connection {| cfg_protocol := server_protocol; cfg_ssl := ssl |}
       (connection_events server_protocol protocol ssl first) = Some (c, acts) /\
     conn_phase_ c = muxed (String.eqb protocol "websocket") /\ (close_conn ∉ acts) /\
     server_stream acts socket None = Some s /\ socket_of s = Some socket /\
     protocol_name s = protocol_name mine /\
     map other_side (handshakes_begun acts socket None) = handshakes mine /\
     read_ahead s = if String.eqb server_protocol "auto" && negb (String.eqb protocol "websocket") then [first] else []) /\
  exists c acts, Accept.connection {| cfg_protocol := server_protocol; cfg_ssl := true |} [peeked ec_ok [first]] = Some (c, acts) /\
    conn_phase_ c = dropped /\ close_conn ∈ acts.
Proof.
  intros Hp Hs Hv first mine. assert (Hf : first = if String.eqb protocol "websocket" then x47 else x00).
  { unfold first, first_sent. destruct Hp as [-> | ->]; [|reflexivity]. cbn. by rewrite Hv. }
  rewrite Hf. split; destruct Hp as [-> | ->], Hs as [-> | ->].
  1-4: destruct ssl; eexists _, _, _; (split; [vm_compute; reflexivity|]); (split; [reflexivity|]);
    (split; [repeat (apply not_elem_of_cons; split; [discriminate|]); apply not_elem_of_nil|]); (split; [reflexivity|]); split_and!; reflexivity.
  all: eexists _, _; (split; [vm_compute; reflexivity|]); (split; [reflexivity|]);
    repeat first [apply list_elem_of_here|apply list_elem_of_further].
Qed.

(** Failing over never weakens what a client verifies.  With TLS on and a
    constructor that did not throw, every QUIC attempt, however many came
    before, and every TCP or WebSocket connection verify the same: with
    [verify_peer] the server's certificate, against the configured roots; with
    [verify_host] as well, the name of the server; and they announce it. *)
Theorem client_verification_uniform (cfg : ClientSsl) (server_addr : string) (loads : list byte -> bool)
    (ssl_ctx : option client_context) (attempts : nat) :
  cssl_enable cfg = true -> make_client_context cfg server_addr loads = Some ssl_ctx ->
  exists quic_ctx v,
    make_quic_context cfg loads (quic_attempts cfg loads attempts None) = (Some quic_ctx, true) /\
    tcp_verification server_addr ssl_ctx = Some v /\ quic_verification cfg server_addr quic_ctx = v /\
    v_sni v = Some server_addr /\
    v_roots v = (if cssl_verify_peer cfg
                 then Some (match cssl_ca_file cfg with [] => system_roots | f => roots_file f end) else None) /\
    v_host v = if cssl_verify_peer cfg && cssl_verify_host cfg then Some server_addr else None.
Proof.
  intros He Hc. unfold make_client_context in Hc. rewrite He in Hc.
  assert (H : exists q, make_quic_context cfg loads None = (Some q, true) /\
    exists v, tcp_verification server_addr ssl_ctx = Some v /\ quic_verification cfg server_addr q = v /\
      v_sni v = Some server_addr /\
      v_roots v = (if cssl_verify_peer cfg
                   then Some (match cssl_ca_file cfg with [] => system_roots | f => roots_file f end) else None) /\
      v_host v = if cssl_verify_peer cfg && cssl_verify_host cfg then Some server_addr else None).
  { unfold make_quic_context, quic_verification, tcp_verification. rewrite He.
    destruct (cssl_verify_peer cfg); [|injection Hc as <-; eexists; split; [done|]; eexists; by split_and!].
    destruct (cssl_ca_file cfg) as [|b f]; [|destruct (loads (b :: f)); [|done]]; injection Hc as <-;
      (eexists; split; [done|]); (eexists; split_and!; [done|..]); cbn; by destruct (cssl_verify_host cfg). }
  destruct H as (q & Hq & v & Hv). exists q, v. split; [|exact Hv].
  assert (Hn : forall n, quic_attempts cfg loads n (Some q) = Some q) by (induction n; done).
  destruct attempts as [|n]; [done|]. cbn [quic_attempts]. by rewrite Hq, Hn.
Qed.

(** The QUIC socket is connected to the endpoint chosen, and the choice is the
    one of Client.v; when every endpoint failed nothing is left open. *)
Theorem quic_socket_follows env eps index s :
  let '(found, s') := try_endpoints env eps index s in
  found = next_endpoint (rebinds env) eps index /\
  s' = match found, eps with Some (e, _), _ => udp_connected e | None, [] => s | None, _ => udp_closed end.
Proof.
  revert index s. induction eps as [|e eps IH]; intros index s; [done|]. cbn [try_endpoints next_endpoint].
  assert (Hr : RebindUdpSocketForEndpoint (env e) e s = (rebinds env e, if rebinds env e then udp_connected e else udp_closed)).
  { unfold RebindUdpSocketForEndpoint, rebinds. by destruct (open_ec (env e)), (bind_ec (env e)), (connect_ec (env e)). }
  rewrite Hr. destruct (rebinds env e); [done|]. specialize (IH (S index) udp_closed).
  destruct (try_endpoints env eps (S index) udp_closed) as [found s']. destruct IH as [-> ->]. split; [done|].
  destruct (next_endpoint _ _ _) as [[]|]; [done|]. by destruct eps.
Qed.

(** ** What the code does besides *)
(** When the file of roots cannot be loaded, the first QUIC attempt throws out of
    its handler, and every later one runs with a context that verifies against
    no roots at all. *)
Lemma quic_context_left_without_roots addr :
  let cfg := {| cssl_enable := false; cssl_verify_peer := true; cssl_verify_host := true; cssl_ca_file := bytes_of "ca.crt" |} in
  let loads := fun _ : list byte => false in
  make_client_context cfg addr loads = Some None /\ (make_quic_context cfg loads None).2 = false /\
  forall n, exists c, make_quic_context cfg loads (quic_attempts cfg loads (S n) None) = (Some c, true) /\
    peer_roots c = Some no_roots.
Proof.
  intros cfg loads. split_and!; [done..|]. intros n.
  exists {| cx_verify_peer := true; cx_roots := no_roots; cx_host := None |}. split; [|done].
  cbn [quic_attempts make_quic_context fst]. by induction n.
Qed.
(** Without [enable] the host is never verified, and TCP and WebSocket run in
    the clear while QUIC verifies the peer. *)
Lemma verification_depends_on_transport addr :
  let cfg := {| cssl_enable := false; cssl_verify_peer := true; cssl_verify_host := true; cssl_ca_file := [] |} in
  exists q, make_quic_context cfg (fun _ => true) None = (Some q, true) /\
    quic_verification cfg addr q = {| v_roots := Some system_roots; v_host := None; v_sni := None |} /\
    tcp_verification addr None = None /\ make_client_context cfg addr (fun _ => true) = Some None.
Proof. by eexists. Qed.
(** A silent peer is noticed after 25 seconds, as the comment says. *)
Lemma keepalive_noticed : keepalive_seconds SetTcpKeepalive = 25.
Proof. reflexivity. Qed.

(** ** Witnesses *)
Definition sample_syn : Header := {| version := 0; type := 0; flags := 1; stream_id := 1; length_ := 0 |}.
Lemma transport_negotiated_witness :
  let first := first_sent "websocket" (bytes_of "key") sample_syn in
  let mine := client_stream true "websocket" 7 in
  (exists c acts s,
     Accept.connection {| cfg_protocol := "auto"; cfg_ssl := true |} (connection_events "auto" "websocket" true first) = Some (c, acts) /\
     conn_phase_ c = muxed (String.eqb "websocket" "websocket") /\ (close_conn ∉ acts) /\
     server_stream acts 3 None = Some s /\ socket_of s = Some 3%nat /\
     protocol_name s = protocol_name mine /\
     map other_side (handshakes_begun acts 3 None) = handshakes mine /\
     read_ahead s = if String.eqb "auto" "auto" && negb (String.eqb "websocket" "websocket") then [first] else []) /\
  exists c acts, Accept.connection {| cfg_protocol := "auto"; cfg_ssl := true |} [peeked ec_ok [first]] = Some (c, acts) /\
    conn_phase_ c = dropped /\ close_conn ∈ acts.
Proof.
  exact (transport_negotiated "websocket" "auto" true (bytes_of "key") sample_syn 3 7 (or_intror eq_refl) (or_introl eq_refl) eq_refl).
Defined.
Definition sample_client_ssl : ClientSsl :=
  {| cssl_enable := true; cssl_verify_peer := true; cssl_verify_host := true; cssl_ca_file := bytes_of "certs/ca.crt" |}.
Lemma client_verification_uniform_witness :
  exists quic_ctx v,
    make_quic_context sample_client_ssl (fun _ => true) (quic_attempts sample_client_ssl (fun _ => true) 2 None) = (Some quic_ctx, true) /\
    tcp_verification "example.org" (Some {| cx_verify_peer := true; cx_roots := roots_file (bytes_of "certs/ca.crt"); cx_host := Some "example.org"%string |}) = Some v /\
    quic_verification sample_client_ssl "example.org" quic_ctx = v /\ v_sni v = Some "example.org"%string /\
    v_roots v = (if cssl_verify_peer sample_client_ssl
                 then Some (match cssl_ca_file sample_client_ssl with [] => system_roots | f => roots_file f end) else None) /\
    v_host v = if cssl_verify_peer sample_client_ssl && cssl_verify_host sample_client_ssl then Some "example.org"%string else None.
Proof. exact (client_verification_uniform sample_client_ssl "example.org" (fun _ => true) _ 2 eq_refl eq_refl). Defined.
