(* ===== verification/QuicSetup.v ===== *)
(** * Setting a QUIC session up and taking it down (src/common/quic_ngtcp2.cpp)

    The constructor, [init] and the destructor of [QuicSession] with what they
    ask of wolfSSL and ngtcp2: the TLS object and its connection reference, the
    connection identifiers, the transport parameters, the callbacks.  The
    session that [init] leaves behind is the one of QuicSession.v, its streams
    those of QuicStream.v.  Random bytes and the results of wolfSSL and ngtcp2
    are arguments. *)
From Stdlib Require Import ZArith Lia Strings.Byte String.
From stdpp Require Import base tactics list gmap.
From S2P Require Import Prelude MuxFrame MuxStream QuicStream QuicSession Accept Transport.
Local Open Scope Z_scope.

(** ** What is asked of the libraries *)
Record transport_params : Type := {
  initial_max_stream_data_bidi_local : Z;
  initial_max_stream_data_bidi_remote : Z;
  initial_max_stream_data_uni : Z;
  initial_max_data : Z;
  initial_max_streams_bidi : Z;
  initial_max_streams_uni : Z;
  max_idle_timeout : Z;                       (* nanoseconds *)
  active_connection_id_limit : Z;
  original_dcid : option (list byte)          (* [original_dcid_present] *)
}.
Definition ngtcp2_seconds : Z := 1000000000.
Definition session_params (odcid : option (list byte)) : transport_params := {|
  initial_max_stream_data_bidi_local := 10 * 1024 * 1024;
  initial_max_stream_data_bidi_remote := 10 * 1024 * 1024;
  initial_max_stream_data_uni := 10 * 1024 * 1024;
  initial_max_data := 20 * 1024 * 1024;
  initial_max_streams_bidi := 1000;
  initial_max_streams_uni := 1000;
  max_idle_timeout := 60 * ngtcp2_seconds;
  active_connection_id_limit := 8;
  original_dcid := odcid |}.

(** The members of [ngtcp2_callbacks] the session sets, and one it leaves
    unset. *)
Inductive callback_slot : Type :=
| recv_stream_data | stream_close | get_new_connection_id_slot | handshake_completed | rand_slot
| client_initial | recv_client_initial | recv_crypto_data | encrypt | decrypt | hp_mask | recv_retry | update_key
| delete_crypto_aead_ctx | delete_crypto_cipher_ctx | get_path_challenge_data | version_negotiation
| acked_stream_data_offset.
Definition has_callback (is_server : bool) (slot : callback_slot) : bool :=
  match slot with
  | recv_client_initial => is_server
  | acked_stream_data_offset => false
  | _ => true
  end.

Inductive resource : Type := the_ssl | the_conn_ref | the_conn.
Global Instance resource_eq_dec : EqDecision resource. Proof. solve_decision. Defined.
Record conn_args : Type := {
  ca_server : bool;
  ca_dcid : list byte;
  ca_scid : list byte;
  ca_path : address * address;                (* local, remote *)
  ca_version : Z;
  ca_params : transport_params
}.
Inductive setup_act : Type :=
| configure_context (server : bool)
| set_accept_state | set_connect_state
| use_alpn (protocol : string)
| acquire (r : resource)
| dispose (r : resource)
| conn_new (args : conn_args)                 (* [ngtcp2_conn_server_new] or [_client_new] *)
| set_tls_native_handle
| post_schedule_timer
| end_stream (obj : nat).                     (* the destructor tells a stream *)
Definition proto_ver_v1 : Z := 1.

(** ** Random bytes *)
Section Random.
(** The [i]-th generator gives its [n] bytes, or cannot be set up. *)
Variable block : nat -> nat -> option (list byte).
(** What the memory held that it should have filled. *)
Variable stale : nat -> list byte.
Variable stateless_reset_tokenlen : nat.

(** [get_new_connection_id]: the identifier and its token, or the failure of
    the callback; [n1] and [n2] are the two calls. *)
Definition get_new_connection_id (gen1 gen2 cidlen : nat) : option (list byte * list byte) :=
  cid ← block gen1 cidlen; token ← block gen2 stateless_reset_tokenlen; mret (cid, token).
Definition rand_cb (gen destlen : nat) : list byte := default (stale destlen) (block gen destlen).

(** The identifiers [init] uses, the client's original one, the next generator. *)
Definition session_cids (is_server : bool) (client_cids : option (list byte * list byte)) (gen : nat)
  : list byte * list byte * option (list byte) * nat :=
  match is_server, client_cids with
  | true, Some (client_dcid, client_scid) => (client_scid, rand_cb gen 8, Some client_dcid, S gen)
  | _, _ => (rand_cb gen 8, rand_cb (S gen) 8, None, S (S gen))
  end.

(** ** The session *)
Record Session : Type := {
  is_server_ : bool;
  path_ : address * address;
  ssl_ : bool;
  app_data : bool;                            (* the TLS object has its connection reference *)
  quic : QuicSession
}.
Definition make_session (is_server : bool) (local remote : address) : Session := {|
  is_server_ := is_server; path_ := (local, remote); ssl_ := false; app_data := false; quic := new_quic_session |}.
Definition with_quic (q : QuicSession) (s : Session) : Session := {|
  is_server_ := is_server_ s; path_ := path_ s; ssl_ := ssl_ s; app_data := app_data s; quic := q |}.

(** [ssl_ctx] is not null; [wolfSSL_new] gives an object; ngtcp2's result. *)
Record setup_env : Type := { se_ctx : bool; se_ssl : bool; se_conn : Z }.

Definition session_init (e : setup_env) (client_cids : option (list byte * list byte)) (gen : nat) (s : Session)
  : Session * list setup_act :=
  if negb (se_ctx e) then (s, []) else
  let '(dcid, scid, odcid, _) := session_cids (is_server_ s) client_cids gen in
  let args := {| ca_server := is_server_ s; ca_dcid := dcid; ca_scid := scid; ca_path := path_ s;
                 ca_version := proto_ver_v1; ca_params := session_params odcid |} in
  let a := [configure_context (is_server_ s)] ++ (if se_ssl e then [acquire the_ssl] else []) ++
           [if is_server_ s then set_accept_state else set_connect_state; use_alpn "cfrp"; acquire the_conn_ref;
            conn_new args] in
  let s1 ok := {| is_server_ := is_server_ s; path_ := path_ s; ssl_ := se_ssl e; app_data := se_ssl e;
                  quic := QuicSession.init ok (quic s) |} in
  if negb (se_conn e =? 0) then (s1 false, a)
  else (s1 true, a ++ [acquire the_conn; set_tls_native_handle; post_schedule_timer]).

Definition session_destroy (s : Session) : list setup_act :=
  map end_stream (objects (quic s)) ++
  (if conn_ (quic s) then [dispose the_conn] else []) ++
  (if ssl_ s then (if app_data s then [dispose the_conn_ref] else []) ++ [dispose the_ssl] else []).

Definition acquired (a : list setup_act) : list resource :=
  omap (fun x => match x with acquire r => Some r | _ => None end) a.
Definition disposed (a : list setup_act) : list resource :=
  omap (fun x => match x with dispose r => Some r | _ => None end) a.

(** A life: set up, used, destroyed. *)
Definition session_life (e : setup_env) (client_cids : option (list byte * list byte)) (gen : nat)
    (ops : list quic_op) (s : Session) : list setup_act * list session_act * list setup_act :=
  let '(s1, a1) := session_init e client_cids gen s in
  let '(q, a2) := quic_session_run ops (quic s1) in
  (a1, a2, session_destroy (with_quic q s1)).
End Random.

(** ** The connection outlives everything but the destructor *)
Definition no_init (op : quic_op) : Prop := match op with q_init _ _ => False | _ => True end.

Lemma conn_close_session send sent s : conn_ (close_session send sent s).1 = conn_ s.
Proof. unfold close_session. by destruct (dead s). Qed.
Lemma conn_check_closed closing s : conn_ (check_closed closing s).1 = conn_ s.
Proof. unfold check_closed. by destruct (dead s), closing. Qed.
Lemma conn_schedule e s : conn_ (schedule_timer e s) = conn_ s.
Proof. unfold schedule_timer. by destruct (dead s), e. Qed.
Lemma conn_do_write e s : conn_ (do_write e s).1 = conn_ s.
Proof.
  unfold do_write. destruct (dead s); [done|]. destruct (do_write_loop _ _ _ _) as [[[q1 a1] failed] n].
  pose proof (conn_close_session true true (set_quic_writes q1 s)) as H.
  destruct failed; [destruct (close_session _ _ _) as [s2 a2]|]; by destruct (_ && _).
Qed.
Lemma conn_send_packets e s : conn_ (send_packets e s).1 = conn_ s.
Proof.
  unfold send_packets. destruct (dead s); [done|]. destruct (packet_loop _ _ _) as [a1 failed].
  assert (H : conn_ (if failed then close_session true true s else (s, [])).1 = conn_ s)
    by (destruct failed; [apply conn_close_session|done]).
  destruct (if failed then _ else _) as [s2 a2]. pose proof (conn_do_write e s2) as H3.
  destruct (do_write e s2) as [s3 a3]. pose proof (conn_check_closed (ng_closing e) (schedule_timer (ng_expiry e) s3)) as H4.
  destruct (check_closed _ _) as [s4 a4]. cbn in *. rewrite conn_schedule in H4. congruence.
Qed.
Lemma conn_callbacks cbs s : conn_ (run_callbacks cbs s).1 = conn_ s.
Proof.
  revert s. induction cbs as [|cb cbs IH]; intros s; [done|]. cbn [run_callbacks].
  assert (H : conn_ (run_callback cb s).1 = conn_ s).
  { assert (Hc : forall id s, conn_ (on_stream_close id s).1 = conn_ s)
      by (intros id s0; unfold on_stream_close; by destruct (_ !! id)).
    assert (Hd : forall id d s, conn_ (on_stream_data id d s).1 = conn_ s)
      by (intros id d s0; unfold on_stream_data; by destruct (_ !! id)).
    destruct cb as [id d fin|id|]; [|apply Hc|done]. cbn [run_callback]. specialize (Hd id d s).
    destruct (on_stream_data id d s) as [s1 a1]. specialize (Hc id s1).
    destruct fin; [destruct (on_stream_close id s1) as [s2 a2]|]; cbn in *; congruence. }
  destruct (run_callback cb s) as [s1 a1]. specialize (IH s1). destruct (run_callbacks cbs s1) as [s2 a2].
  cbn in *. congruence.
Qed.
Lemma conn_handle_packet e cbs res s : conn_ (handle_packet e cbs res s).1 = conn_ s.
Proof.
  unfold handle_packet. destruct (dead s); [done|]. pose proof (conn_callbacks cbs s) as H.
  destruct (run_callbacks cbs s) as [s1 a1]. destruct res.
  - pose proof (conn_send_packets e s1) as H2. destruct (send_packets e s1) as [s2 a2].
    pose proof (conn_check_closed (ng_closing e) s2) as H3. destruct (check_closed _ s2). cbn in *. congruence.
  - pose proof (conn_close_session false true s1) as H2. destruct (close_session _ _ s1). cbn in *. congruence.
  - pose proof (conn_close_session true true s1) as H2. destruct (close_session _ _ s1). cbn in *. congruence.
Qed.
Lemma conn_step op s : no_init op -> conn_ (quic_session_step op s).1 = conn_ s.
Proof.
  intros Hop. destruct op as [|e cbs res|e|id|e id|e id bufs h|e expired|send]; cbn [quic_session_step]; [done|..].
  - apply conn_handle_packet.
  - apply conn_send_packets.
  - cbn [fst]. unfold open_stream. destruct (dead s); [done|]. by destruct id.
  - unfold QuicSession.close_stream. destruct (dead s); [done|]. pose proof (conn_send_packets e s) as H.
    by destruct (send_packets e s).
  - unfold write_stream. destruct (dead s); [done|]. destruct (_ <=? _); [done|]. apply (conn_do_write e (set_quic_writes _ s)).
  - unfold on_timer. destruct (timer_ s) as [use|]; [|done]. destruct (dead _); [done|].
    destruct use; [destruct expired|]; [apply (conn_close_session _ _ (set_timer None s))
      |apply (conn_send_packets e (set_timer None s))|apply (conn_do_write e (set_timer None s))].
  - apply conn_close_session.
Qed.
Lemma conn_run ops s : Forall no_init ops -> conn_ (quic_session_run ops s).1 = conn_ s.
Proof.
  intros Hops. revert s. induction Hops as [|op ops Hop _ IH]; intros s; [done|]. cbn [quic_session_run].
  pose proof (conn_step op s Hop) as H. destruct (quic_session_step op s) as [s1 a1]. specialize (IH s1).
  destruct (quic_session_run ops s1) as [s2 a2]. cbn in *. congruence.
Qed.

(** ** Properties *)
Section Properties.
Variable block : nat -> nat -> option (list byte).
Variable stale : nat -> list byte.

Lemma session_init_asks e cids gen s : se_ctx e = true -> se_conn e = 0 ->
  let '(s1, a) := session_init block stale e cids gen s in
  let '(dcid, scid, odcid, _) := session_cids block stale (is_server_ s) cids gen in
  conn_ (quic s1) = true /\ use_alpn "cfrp" ∈ a /\
  conn_new {| ca_server := is_server_ s; ca_dcid := dcid; ca_scid := scid; ca_path := path_ s;
              ca_version := proto_ver_v1; ca_params := session_params odcid |} ∈ a.
Proof.
  intros Hx Hc. unfold session_init. rewrite Hx, Hc. cbn [negb Z.eqb].
  destruct (session_cids _ _ _ _ _) as [[[dcid scid] odcid] g].
  split_and!; [done|..]; destruct (se_ssl e); rewrite !elem_of_app, !elem_of_cons; tauto.
Qed.

(** What a QUIC session acquires it gives back once: for every outcome of the
    set-up in which wolfSSL gives its TLS object, whatever the session then
    does, the destructor disposes of exactly the connection, the connection
    reference and the TLS object that were acquired, the connection first and
    the TLS object last, and tells every stream that is left. *)
Theorem quic_resources_released e cids gen server local remote ops :
  (se_ctx e = true -> se_ssl e = true) -> Forall no_init ops ->
  let '(a1, a2, a3) := session_life block stale e cids gen ops (make_session server local remote) in
  let q := (quic_session_run ops (quic (session_init block stale e cids gen (make_session server local remote)).1)).1 in
  disposed a3 = reverse (acquired a1) /\ NoDup (acquired a1) /\
  acquired a1 = (if se_ctx e then [the_ssl; the_conn_ref] ++ (if se_conn e =? 0 then [the_conn] else []) else []) /\
  conn_ q = (se_ctx e && (se_conn e =? 0)) /\
  omap (fun x => match x with end_stream o => Some o | _ => None end) a3 = objects q.
Proof.
  intros Hssl Hops. unfold session_life.
  destruct (session_init block stale e cids gen (make_session server local remote)) as [s1 a1] eqn:Ei.
  cbn [fst]. pose proof (conn_run ops (quic s1) Hops) as Hq.
  destruct (quic_session_run ops (quic s1)) as [q a2]. cbn [fst] in *.
  assert (Hd : forall l : list nat, disposed (map end_stream l) = [] /\
    omap (fun x => match x with end_stream o => Some o | _ => None end) (map end_stream l) = l).
  { induction l as [|o l [IH1 IH2]]; [done|]. unfold disposed in *. cbn [map omap list_omap] in *. by rewrite IH1, IH2. }
  destruct (Hd (objects q)) as [Hd1 Hd2]. unfold session_destroy. cbn [quic with_quic ssl_ app_data].
  unfold disposed in *. rewrite !omap_app, Hd1, Hd2, Hq. unfold session_init in Ei.
  destruct (se_ctx e) eqn:Ex; cbn [negb] in Ei;
    [|injection Ei as <- <-; cbn; by (split_and!; [done|apply NoDup_nil_2|done|done|rewrite app_nil_r])].
  rewrite (Hssl eq_refl) in Ei. destruct (session_cids _ _ _ _ _) as [[[dcid scid] odcid] g].
  destruct (se_conn e =? 0), server; injection Ei as <- <-; cbn;
    (split_and!; [done|by apply (bool_decide_unpack (NoDup _))|done|done|by rewrite app_nil_r]).
Qed.

(** C28 The two ends of a QUIC connection are set up for each other: a client
    session makes its connection with two fresh identifiers of 8 bytes; the
    server that receives its first packet from an endpoint it does not know
    makes one session, hands it that packet, and sets its connection up with
    the client's source identifier as destination, the client's destination as
    the original one, an own identifier of the 8 bytes at which later packets
    are decoded, and the same version, protocol and limits. *)
Theorem quic_ends_meet ec es genc gens clocal remote slocal peer decode e d u :
  (forall i, exists b, block i 8 = Some b /\ length b = 8%nat) ->
  se_ctx ec = true -> se_conn ec = 0 -> se_ctx es = true -> se_conn es = 0 ->
  quic_sessions_ u !! e = None -> udp_open u = true ->
  let '(c, ac) := session_init block stale ec None genc (make_session false clocal remote) in
  exists cargs, conn_new cargs ∈ ac /\ use_alpn "cfrp" ∈ ac /\ conn_ (quic c) = true /\
    length (ca_dcid cargs) = 8%nat /\ length (ca_scid cargs) = 8%nat /\ original_dcid (ca_params cargs) = None /\
    (decode d = Some (ca_dcid cargs, ca_scid cargs) ->
     exists n, (on_datagram decode e d u).2 = [new_quic n e (ca_dcid cargs, ca_scid cargs); packet_to n d] /\
     quic_sessions_ (on_datagram decode e d u).1 !! e = Some n /\
     let '(s, as_) := session_init block stale es (Some (ca_dcid cargs, ca_scid cargs)) gens
                        (make_session true slocal peer) in
     conn_ (quic s) = true /\ use_alpn "cfrp" ∈ as_ /\
     exists sargs, conn_new sargs ∈ as_ /\ ca_server sargs = negb (ca_server cargs) /\
       ca_dcid sargs = ca_scid cargs /\ length (ca_scid sargs) = 8%nat /\
       ca_params sargs = session_params (Some (ca_dcid cargs)) /\ ca_params cargs = session_params None /\
       ca_version sargs = ca_version cargs).
Proof.
  intros Hb Hxc Hcc Hxs Hcs Hu Ho.
  pose proof (session_init_asks ec None genc (make_session false clocal remote) Hxc Hcc) as Hc.
  destruct (session_init _ _ ec _ _ _) as [c ac]. cbn [session_cids is_server_ make_session] in Hc.
  destruct Hc as (Hc1 & Hc2 & Hc3).
  assert (Hl : forall i, length (rand_cb block stale i 8) = 8%nat)
    by (intros i; destruct (Hb i) as (b & E & L); unfold rand_cb; by rewrite E).
  eexists. split_and!; [exact Hc3|done|done|apply Hl|apply Hl|done|]. cbn [ca_dcid ca_scid]. intros Hd.
  unfold on_datagram. rewrite Hu, Hd, Ho. cbn [negb]. eexists. split_and!; [done|apply lookup_insert_eq|].
  pose proof (session_init_asks es (Some (rand_cb block stale genc 8, rand_cb block stale (S genc) 8)) gens
    (make_session true slocal peer) Hxs Hcs) as Hs.
  destruct (session_init _ _ es _ _ _) as [s sa]. destruct Hs as (Hs1 & Hs2 & Hs3).
  split_and!; [done|done|]. eexists. split_and!; [exact Hs3|done|done|apply Hl|done|done|done].
Qed.

(** The identifiers handed out later have the length asked for, and a token of
    the full length. *)
Lemma new_connection_id_lengths tokenlen g1 g2 n cid token :
  (forall i k b, block i k = Some b -> length b = k) ->
  get_new_connection_id block tokenlen g1 g2 n = Some (cid, token) -> length cid = n /\ length token = tokenlen.
Proof.
  intros Hb. unfold get_new_connection_id. destruct (block g1 n) as [b1|] eqn:E1; [|done].
  destruct (block g2 tokenlen) as [b2|] eqn:E2; [|done]. cbn. intros [= <- <-]. split; by eapply Hb.
Qed.
End Properties.

(** ** What the set-up does not do *)
(** Without a TLS object the connection reference has no owner: nothing frees it. *)
Lemma quic_reference_leaked block stale cids gen server local remote :
  let e := {| se_ctx := true; se_ssl := false; se_conn := 0 |} in
  let '(a1, _, a3) := session_life block stale e cids gen [] (make_session server local remote) in
  the_conn_ref ∈ acquired a1 /\ disposed a3 = [the_conn].
Proof.
  cbn zeta. unfold session_life, session_init. cbn [se_ctx negb].
  destruct (session_cids _ _ _ _ _) as [[[dcid scid] odcid] g]. destruct server; cbn; (split; [by left|done]).
Qed.
(** [rand_cb] cannot report that the generator failed: ngtcp2 is given what the
    memory held. *)
Lemma failed_generator_unreported stale gen n : rand_cb (fun _ _ => None) stale gen n = stale n.
Proof. done. Qed.

(** The buffer of a write is given back by the write's handler, and the handler
    is posted as soon as ngtcp2 has taken the last byte, in the same turn as the
    packet is sent; [acked_stream_data_offset], which would tell that the bytes
    are acknowledged, has no callback.  A retransmission reads the buffer after
    that. *)
Lemma quic_buffer_released_unacknowledged server :
  has_callback server acked_stream_data_offset = false /\
  let s := (quic_session_run [q_init true exp_later; q_open (Some 0)] new_quic_session).1 in
  let e := {| ng_packet := fun _ => (0, ec_ok);
              ng_writev := fun _ _ d => {| wr_res := zlen d; wr_consumed := zlen d; wr_ec := ec_ok |};
              ng_expiry := exp_later; ng_closing := false |} in
  (write_stream_data e 0 [x61; x62] 7 s).2 = [stream_bytes 0 [x61; x62]; send_packet 2; write_done 7 ec_ok 2].
Proof. by split; [destruct server|vm_compute]. Qed.

(** ** The credit of a connection *)
(** What the peer may still send: on the connection, and on each stream. *)
Record credit : Type := { conn_credit : Z; stream_credit : gmap Z Z }.
Definition granted (p : transport_params) (id : Z) (acts : list quic_action) (c : credit) : credit := {|
  conn_credit := conn_credit c;
  stream_credit := <[id := default (initial_max_stream_data_bidi_remote p) (stream_credit c !! id) + extended acts]> (stream_credit c) |}.
(** Data of the peer, when its credit allows it. *)
Definition receive (p : transport_params) (id : Z) (n : Z) (c : credit) : option credit :=
  let avail := default (initial_max_stream_data_bidi_remote p) (stream_credit c !! id) in
  if (n <=? conn_credit c) && (n <=? avail)
  then Some {| conn_credit := conn_credit c - n; stream_credit := <[id := avail - n]> (stream_credit c) |} else None.
Inductive credit_op : Type := op_receive (id n : Z) | op_read (id : Z) (acts : list quic_action).
Fixpoint credit_run (p : transport_params) (ops : list credit_op) (c : credit) : option credit :=
  match ops with
  | [] => Some c
  | op_receive id n :: ops' => receive p id n c ≫= credit_run p ops'
  | op_read id acts :: ops' => credit_run p ops' (granted p id acts c)
  end.
Fixpoint volume (ops : list credit_op) : Z :=
  match ops with
  | [] => 0
  | op_receive _ n :: ops' => n + volume ops'
  | op_read _ _ :: ops' => volume ops'
  end.
Definition initial_credit (p : transport_params) : credit := {| conn_credit := initial_max_data p; stream_credit := ∅ |}.

(** Whatever the streams read, a session receives 20 MiB in its life and no
    more. *)
Lemma quic_session_receives_20MiB odcid ops c :
  let p := session_params odcid in
  Forall (fun op => match op with op_receive _ n => 0 <= n | _ => True end) ops ->
  credit_run p ops (initial_credit p) = Some c -> volume ops <= 20 * 1024 * 1024.
Proof.
  cbn zeta. intros Hops.
  assert (H : forall c0, 0 <= conn_credit c0 -> credit_run (session_params odcid) ops c0 = Some c -> volume ops <= conn_credit c0).
  { induction Hops as [|op ops Hop _ IH]; intros c0 H0 H; [cbn in *; lia|]. destruct op as [id n|id acts]; cbn [credit_run volume] in *.
    - unfold receive in H. destruct (_ && _) eqn:E; [|done]. cbn in H. apply andb_true_iff in E as [E%Z.leb_le _].
      match type of H with credit_run _ _ ?c1 = _ => assert (Hc1 : 0 <= conn_credit c1) by (cbn; lia); specialize (IH c1 Hc1 H) end.
      cbn in IH. lia.
    - exact (IH (granted (session_params odcid) id acts c0) H0 H). }
  intros Hr. by apply (H (initial_credit (session_params odcid))).
Qed.

(** ** Witnesses *)
Definition sample_block (i n : nat) : option (list byte) := Some (repeat x2a n).
Definition sample_setup : setup_env := {| se_ctx := true; se_ssl := true; se_conn := 0 |}.
Definition here_addr : address := ("10.0.0.1"%string, 7000).
Definition there_addr : address := ("10.0.0.2"%string, 51000).
Definition sample_setup_ops : list quic_op := [q_open (Some 0); q_write big_env 0 [[x61]] 1; q_timer big_env false].
Lemma quic_resources_released_witness :
  let e := sample_setup in
  let s := make_session true here_addr there_addr in
  let '(a1, a2, a3) := session_life sample_block (repeat x00) e (Some ([x01], [x02])) 0 sample_setup_ops s in
  let q := (quic_session_run sample_setup_ops (quic (session_init sample_block (repeat x00) e (Some ([x01], [x02])) 0 s).1)).1 in
  disposed a3 = reverse (acquired a1) /\ NoDup (acquired a1) /\
  acquired a1 = (if se_ctx e then [the_ssl; the_conn_ref] ++ (if se_conn e =? 0 then [the_conn] else []) else []) /\
  conn_ q = (se_ctx e && (se_conn e =? 0)) /\
  omap (fun x => match x with end_stream o => Some o | _ => None end) a3 = objects q.
Proof.
  apply (quic_resources_released sample_block (repeat x00) sample_setup (Some ([x01], [x02])) 0 true here_addr there_addr
    sample_setup_ops); [done|]. unfold sample_setup_ops. by rewrite !Forall_cons.
Defined.
Lemma quic_ends_meet_witness :
  let decode := fun _ : list byte => Some (repeat x2a 8, repeat x2a 8) in
  let '(c, ac) := session_init sample_block (repeat x00) sample_setup None 0 (make_session false there_addr here_addr) in
  exists cargs, conn_new cargs ∈ ac /\ use_alpn "cfrp" ∈ ac /\ conn_ (quic c) = true /\
    length (ca_dcid cargs) = 8%nat /\ length (ca_scid cargs) = 8%nat /\ original_dcid (ca_params cargs) = None /\
    (decode [xc0] = Some (ca_dcid cargs, ca_scid cargs) ->
     exists n, (on_datagram decode (1, 5)%N [xc0] new_udp_server).2 =
       [new_quic n (1, 5)%N (ca_dcid cargs, ca_scid cargs); packet_to n [xc0]] /\
     quic_sessions_ (on_datagram decode (1, 5)%N [xc0] new_udp_server).1 !! (1, 5)%N = Some n /\
     let '(s, as_) := session_init sample_block (repeat x00) sample_setup (Some (ca_dcid cargs, ca_scid cargs)) 7
                        (make_session true here_addr there_addr) in
     conn_ (quic s) = true /\ use_alpn "cfrp" ∈ as_ /\
     exists sargs, conn_new sargs ∈ as_ /\ ca_server sargs = negb (ca_server cargs) /\
       ca_dcid sargs = ca_scid cargs /\ length (ca_scid sargs) = 8%nat /\
       ca_params sargs = session_params (Some (ca_dcid cargs)) /\ ca_params cargs = session_params None /\
       ca_version sargs = ca_version cargs).
Proof.
  apply (quic_ends_meet sample_block (repeat x00) sample_setup sample_setup 0 7 there_addr here_addr here_addr there_addr
    (fun _ => Some (repeat x2a 8, repeat x2a 8)) (1, 5)%N [xc0] new_udp_server); [|done..].
  intros i. by exists (repeat x2a 8).
Defined.
