(* ===== verification/Daemon.v ===== *)
(** * The program as a process (src/main.cpp: commands, background mode, the
    signal handler, the event loop; src/common/utils.h: Logger, paths)

    What [main] does with its process file: the checks before a start, the fork,
    what the child and the handler of signals write and remove, and the commands
    [status], [stop] and [config].  Processes are numbers; a history of the
    machine is a list of events, each one step of one process. *)
From Stdlib Require Import ZArith Lia Strings.Byte String.
From stdpp Require Import base tactics list gmap strings pretty.
From S2P Require Import Prelude Text Config.
Local Open Scope Z_scope.

(** ** Paths and commands *)
(** The files beside the executable. *)
Definition exe_dir (exe_path : list byte) : list byte :=
  match exe_path with [] => bytes_of "." | _ => parent_path exe_path end.
Definition pid_path (exe_path : list byte) : list byte := path_join (exe_dir exe_path) (bytes_of "cfrp.pid").
Definition status_path (exe_path : list byte) : list byte := path_join (exe_dir exe_path) (bytes_of "cfrp.status").
(** The tool's own configuration: empty without a home directory. *)
Definition home_config_file (home : list byte) : list byte :=
  match home with [] => [] | _ => path_join (path_join home (bytes_of ".cfrp")) (bytes_of "config") end.

(** utils.h, as on Linux: the link [/proc/self/exe], read or not, and the
    environment. *)
Definition GetExecutablePath (link : option (list byte)) : list byte := default [] link.
Definition GetHomeDirectory (getenv : string -> option (list byte)) : list byte := default [] (getenv "HOME"%string).
(** [!home_config_path.empty()], which the commands below take as [have_home]. *)
Definition has_home (getenv : string -> option (list byte)) : bool :=
  negb (bool_decide (home_config_file (GetHomeDirectory getenv) = [])).
Lemma path_join_named dir name : name <> [] -> path_join dir name <> [].
Proof. unfold path_join. intros H. destruct (list.last dir); [destruct (Byte.eqb _ _)|done]; by destruct dir, name. Qed.
Lemma has_home_spec getenv : has_home getenv = true <-> exists home, getenv "HOME"%string = Some home /\ home <> [].
Proof.
  unfold has_home, GetHomeDirectory. rewrite negb_true_iff, bool_decide_eq_false. destruct (getenv _) as [[|b home]|]; cbn [default id home_config_file].
  - split; [done|]. intros (h & [= <-] & Hh). done.
  - split; [intros _; by eexists|]. intros _. by apply path_join_named.
  - split; [done|]. by intros (h & ? & _).
Qed.
(** Without the link the files are kept in the working directory. *)
Lemma pid_path_unlinked : pid_path (GetExecutablePath None) = bytes_of "./cfrp.pid".
Proof. reflexivity. Qed.

Definition is_daemon_worker (args : list string) : bool := existsb (fun a => String.eqb a "--daemon-worker") args.
Inductive command : Type :=
| command_status
| command_stop
| command_config (args : list string)
| command_run (args : list string).
(** [args]: [argv] without the program's name.  An unknown [config] falls
    through to a run. *)
Definition main_command (args : list string) : command :=
  match args with
  | a :: rest =>
    if String.eqb a "status" then command_status
    else if String.eqb a "stop" then command_stop
    else if String.eqb a "config" then
      match rest with
      | sub :: _ => if String.eqb sub "ls" || String.eqb sub "get" || String.eqb sub "set" then command_config rest
                    else command_run args
      | [] => command_config []
      end
    else command_run args
  | [] => command_run []
  end.

(** ** [cfrp config] *)
(** The entries of a table in the library's order, and the scalars that [Toml]
    does not have; a number's text as the stream prints it. *)
Class TomlPrint (T : Type) : Type := {
  t_entries : T -> list (string * T);
  t_boolean : T -> option bool;
  t_float : T -> option (list byte)
}.
Section ConfigCommand.
Context {T : Type} `{Toml T} `{TomlPrint T}.
Definition scalar_text (quoted : bool) (v : T) : option (list byte) :=
  match t_string v with
  | Some s => Some (if quoted then [x22] ++ s ++ [x22] else s)
  | None =>
    match t_integer v with
    | Some i => Some (dec i)
    | None =>
      match t_boolean v with
      | Some b => Some (bytes_of (if b : bool then "true" else "false"))
      | None => t_float v
      end
    end
  end.
Definition config_ls (config : T) : list (list byte) :=
  map (fun kv => bytes_of kv.1 ++ bytes_of " = " ++ default (bytes_of "<complex type>") (scalar_text true kv.2)) (t_entries config).
Definition config_get (key : string) (config : T) : list (list byte) :=
  match t_get config key with
  | Some v => match scalar_text false v with Some t => [t] | None => [] end
  | None => []
  end.

(** The exit code, the lines printed and the file afterwards.  [parse] is
    [parse_file]; [None] when it throws.  [have_file]: there is a home. *)
Definition config_command (parse : list byte -> option T) (have_home : bool) (file : option (list byte)) (args : list string)
  : Z * list (list byte) * option (list byte) :=
  let shown (f : T -> list (list byte)) :=
    match have_home, file with
    | true, Some text => match parse text with Some config => (0, f config, file) | None => (1, [], file) end
    | _, _ => (0, [], file)
    end in
  match args with
  | [] => (1, [], file)
  | sub :: rest =>
    if String.eqb sub "ls" then shown config_ls
    else if String.eqb sub "get" then match rest with key :: _ => shown (config_get key) | [] => (1, [], file) end
    else match rest with
         | key :: value :: _ =>
           if have_home then
             (0, [bytes_of "Updated global config: " ++ config_line (bytes_of key) (bytes_of value)],
              Some (config_set_file (bytes_of key) (bytes_of value) (default [] file)))
           else (1, [], file)
         | _ => (1, [], file)
         end
  end.

(** The tool's configuration at a start: the mode, and the file generated when
    there is none. *)
Definition default_tool_config : list byte :=
  write_lines [bytes_of "# cfrp global tool configuration"; bytes_of "working_mode = " ++ [x22] ++ bytes_of "foreground" ++ [x22]].
Definition working_mode (parse : list byte -> option T) (have_home can_write : bool) (file : option (list byte))
  : list byte * option (list byte) :=
  let foreground := bytes_of "foreground" in
  match have_home, file with
  | false, _ => (foreground, file)
  | true, None => (foreground, if can_write then Some default_tool_config else None)
  | true, Some text =>
    (match parse text with Some c => string_or (Some c) "working_mode" "foreground" | None => foreground end, file)
  end.
End ConfigCommand.

(** ** Processes *)
(** A process of the program: forked and about to write the process file, reading
    its configuration, or serving. *)
Inductive proc : Type := forked | configuring | serving.
Record machine : Type := {
  procs : gmap Z proc;
  others : gset Z;                              (* running processes of other programs *)
  pid_file_ : pid_file;
  status_file : bool
}.
Definition IsProcessRunning (m : machine) (p : Z) : bool := bool_decide (is_Some (procs m !! p) \/ p ∈ others m).
Definition with_procs (f : gmap Z proc -> gmap Z proc) (m : machine) : machine :=
  {| procs := f (procs m); others := others m; pid_file_ := pid_file_ m; status_file := status_file m |}.
Definition with_files (f : pid_file) (s : bool) (m : machine) : machine :=
  {| procs := procs m; others := others m; pid_file_ := f; status_file := s |}.

Inductive main_act : Type :=
| exit_code (p : Z) (code : Z)
| sigterm (p : Z)
| reported (r : status_report).

(** A start in process [p], up to the fork or to the reading of the
    configuration.  [child] is what [fork] answers; [writable]: the process file
    can be opened. *)
Definition launch (p : Z) (background worker : bool) (child : option Z) (writable : bool) (m : machine)
  : machine * list main_act :=
  if background || worker then
    if negb worker && (match pid_file_ m with pid_of q => IsProcessRunning m q | _ => false end)
    then (m, [exit_code p 1])
    else if background && negb worker then
      match child with
      | None => (m, [exit_code p 1])
      | Some c => (with_procs (insert c forked) m, [exit_code p 0])
      end
    else (with_files (if writable then pid_of p else pid_file_ m) (status_file m) (with_procs (insert p configuring) m), [])
  else (with_procs (insert p configuring) m, []).
(** The child writes its number and goes on. *)
Definition write_pid (p : Z) (writable : bool) (m : machine) : machine :=
  with_files (if writable then pid_of p else pid_file_ m) (status_file m) (with_procs (insert p configuring) m).
(** The configuration is read: the process serves or ends with 1, leaving the
    process file as it is.  The status file may have been written by then. *)
Definition configured (p : Z) (ok status_written : bool) (m : machine) : machine * list main_act :=
  let m1 := with_files (pid_file_ m) (status_file m || status_written) m in
  if ok then (with_procs (insert p serving) m1, []) else (with_procs (delete p) m1, [exit_code p 1]).
(** The handler of SIGINT and SIGTERM. *)
Definition on_signal (p : Z) (m : machine) : machine * list main_act :=
  let m1 := with_procs (delete p) m in
  match pid_file_ m with
  | pid_of saved_pid => if saved_pid =? p then (with_files no_pid_file false m1, [exit_code p 0]) else (m1, [exit_code p 0])
  | _ => (m1, [exit_code p 0])
  end.
(** [cfrp stop]; [killed q]: [kill] succeeds. *)
Definition stop_main (p : Z) (killed : Z -> bool) (m : machine) : machine * list main_act :=
  let '(code, f) := stop_command (pid_file_ m) (IsProcessRunning m) killed in
  (with_files f (match pid_file_ m, f with pid_of _, no_pid_file => false | _, _ => status_file m end) m,
   match pid_file_ m with
   | pid_of q => if IsProcessRunning m q && killed q then [sigterm q] else []
   | _ => []
   end ++ [exit_code p code]).
Definition status_main (p : Z) (m : machine) : list main_act :=
  [reported (status_command (pid_file_ m) (IsProcessRunning m) []); exit_code p 0].

Inductive main_event : Type :=
| ev_launch (p : Z) (background worker : bool) (child : option Z) (writable : bool)
| ev_write_pid (p : Z) (writable : bool)
| ev_configured (p : Z) (ok status_written : bool)
| ev_signal (p : Z)
| ev_died (p : Z)                     (* killed or crashed: no handler runs *)
| ev_other_started (p : Z)
| ev_other_ended (p : Z)
| ev_stop_command (p : Z) (killed : Z -> bool)
| ev_status_command (p : Z).
(** A number is given to a new process only when it is free. *)
Definition main_step (ev : main_event) (m : machine) : option (machine * list main_act) :=
  match ev with
  | ev_launch p background worker child writable =>
    if IsProcessRunning m p || from_option (IsProcessRunning m) false child then None
    else Some (launch p background worker child writable m)
  | ev_write_pid p writable => match procs m !! p with Some forked => Some (write_pid p writable m, []) | _ => None end
  | ev_configured p ok sw => match procs m !! p with Some configuring => Some (configured p ok sw m) | _ => None end
  | ev_signal p => match procs m !! p with Some serving => Some (on_signal p m) | _ => None end
  | ev_died p => match procs m !! p with Some _ => Some (with_procs (delete p) m, []) | None => None end
  | ev_other_started p =>
    if IsProcessRunning m p then None
    else Some ({| procs := procs m; others := {[p]} ∪ others m; pid_file_ := pid_file_ m; status_file := status_file m |}, [])
  | ev_other_ended p =>
    Some ({| procs := procs m; others := others m ∖ {[p]}; pid_file_ := pid_file_ m; status_file := status_file m |}, [])
  | ev_stop_command p killed => Some (stop_main p killed m)
  | ev_status_command p => Some (m, status_main p m)
  end.
Fixpoint main_run (evs : list main_event) (m : machine) : option (machine * list main_act) :=
  match evs with
  | [] => Some (m, [])
  | ev :: evs' => '(m1, a1) ← main_step ev m; '(m2, a2) ← main_run evs' m1; mret (m2, a1 ++ a2)
  end.
Definition new_machine : machine := {| procs := ∅; others := ∅; pid_file_ := no_pid_file; status_file := false |}.

(** ** The daemon can be found *)
(** The process that wrote the process file last, as long as it has not ended
    and no [stop] has succeeded since. *)
Definition forget (p : Z) (d : option Z) : option Z := if decide (d = Some p) then None else d.
Definition daemon_step (ev : main_event) (m : machine) (d : option Z) : option Z :=
  match ev with
  | ev_launch p _ true _ true | ev_write_pid p true => Some p
  | ev_configured p false _ | ev_signal p | ev_died p => forget p d
  | ev_stop_command _ killed =>
    match pid_file_ m with pid_of q => if IsProcessRunning m q && negb (killed q) then d else None | _ => d end
  | _ => d
  end.
Fixpoint daemon (evs : list main_event) (m : machine) (d : option Z) : option Z :=
  match evs with
  | [] => d
  | ev :: evs' => match main_step ev m with Some (m1, _) => daemon evs' m1 (daemon_step ev m d) | None => d end
  end.
(** The processes that wrote their number. *)
Definition writers (evs : list main_event) : list Z :=
  omap (fun ev => match ev with
                  | ev_launch p _ true _ true | ev_write_pid p true => Some p
                  | _ => None end) evs.

Definition daemon_named (m : machine) (d : option Z) : Prop :=
  forall x, d = Some x -> pid_file_ m = pid_of x /\ is_Some (procs m !! x).
Definition file_written (ws : list Z) (m : machine) : Prop := forall q, pid_file_ m = pid_of q -> q ∈ ws.

Lemma forget_some p d x : forget p d = Some x -> d = Some x /\ x <> p.
Proof. unfold forget. case_decide; [done|]. intros ->. split; congruence. Qed.
Lemma running_proc m p : is_Some (procs m !! p) -> IsProcessRunning m p = true.
Proof. intros H. unfold IsProcessRunning. apply bool_decide_eq_true. by left. Qed.
Lemma insert_some {A} (m : gmap Z A) p a x : is_Some (m !! x) -> is_Some (<[p := a]> m !! x).
Proof. intros H. destruct (decide (p = x)) as [->|]; [rewrite lookup_insert_eq|rewrite lookup_insert_ne by done]; eauto. Qed.
Lemma delete_some {A} (m : gmap Z A) p x : is_Some (m !! x) -> x <> p -> is_Some (delete p m !! x).
Proof. intros H Hne. by rewrite lookup_delete_ne. Qed.
#[local] Hint Resolve insert_some delete_some : core.

(** The state a step leaves. *)
Lemma step_state {A B} (r : A * B) a b : Some r = Some (a, b) -> a = r.1.
Proof. by intros [= ->]. Qed.

Lemma daemon_step_named ev m m' acts d :
  daemon_named m d -> main_step ev m = Some (m', acts) -> daemon_named m' (daemon_step ev m d).
Proof.
  intros Hd. destruct ev as [p background worker child writable|p writable|p ok sw|p|p|p|p|p killed|p]; cbn [main_step].
  - case_goal; [done|]. intros ->%step_state. unfold launch. intros x.
    destruct worker; [rewrite orb_true_r|rewrite orb_false_r]; cbn [negb andb daemon_step].
    + rewrite andb_false_r. destruct writable; [intros [= ->]|intros [? ?]%Hd]; cbn; rewrite ?lookup_insert_eq; eauto.
    + rewrite andb_true_r. destruct background; [|intros [? ?]%Hd; cbn; eauto]. case_goal; [apply Hd|].
      destruct child; [intros [? ?]%Hd; cbn; eauto|apply Hd].
  - destruct (procs m !! p) as [[| |]|]; try done. intros ->%step_state x. cbn [daemon_step].
    destruct writable; [intros [= ->]|intros [? ?]%Hd]; cbn; rewrite ?lookup_insert_eq; eauto.
  - destruct (procs m !! p) as [[| |]|]; try done. intros ->%step_state x. unfold configured.
    destruct ok; cbn [daemon_step]; [intros [? ?]%Hd|intros [[? ?]%Hd ?]%forget_some]; cbn; eauto.
  - destruct (procs m !! p) as [[| |]|]; try done. intros ->%step_state x. unfold on_signal. cbn [daemon_step].
    intros [[Hf ?]%Hd ?]%forget_some. rewrite Hf. destruct (Z.eqb_spec x p); [done|]. cbn. eauto.
  - destruct (procs m !! p) as [q|]; try done. intros ->%step_state x. cbn [daemon_step].
    intros [[? ?]%Hd ?]%forget_some. cbn. eauto.
  - case_goal; [done|]. intros ->%step_state. exact Hd.
  - intros ->%step_state. exact Hd.
  - intros ->%step_state x. unfold stop_main, stop_command. cbn [daemon_step].
    destruct (pid_file_ m) as [| |q] eqn:Ef; cbn; try (intros [? ?]%Hd; rewrite Ef in *; done).
    destruct (IsProcessRunning m q); cbn; [|done]. destruct (killed q); cbn; [done|]. intros [? ?]%Hd. by rewrite <- Ef.
  - intros ->%step_state. exact Hd.
Qed.
Lemma daemon_step_written ev m m' acts ws :
  file_written ws m -> main_step ev m = Some (m', acts) -> file_written (ws ++ writers [ev]) m'.
Proof.
  intros Hw Hs q Hq. apply elem_of_app.
  destruct ev as [p background worker child writable|p writable|p ok sw|p|p|p|p|p killed|p]; cbn [main_step] in Hs.
  - case_step; [done|]. apply step_state in Hs as ->. unfold launch in Hq. destruct worker.
    + rewrite orb_true_r, andb_false_r in Hq. cbn in Hq. destruct writable; [injection Hq as <-; right; cbn; set_solver|left; auto].
    + left. apply Hw. rewrite orb_false_r in Hq. cbn [negb andb] in Hq. rewrite andb_true_r in Hq.
      destruct background; [|done]. destruct (match pid_file_ m with pid_of _ => _ | _ => _ end); [done|]. by destruct child.
  - case_step; [|done]. case_step; try done. apply step_state in Hs as ->. cbn in Hq.
    destruct writable; [injection Hq as <-; right; cbn; set_solver|left; auto].
  - left. case_step; [|done]. case_step; try done. apply step_state in Hs as ->. unfold configured in Hq. destruct ok; auto.
  - left. case_step; [|done]. case_step; try done. apply step_state in Hs as ->. unfold on_signal in Hq.
    destruct (pid_file_ m) as [| |s] eqn:Ef; cbn in Hq; rewrite ?Ef in Hq; try done. case_step; cbn in Hq; [done|].
    rewrite Ef in Hq. apply Hw. congruence.
  - left. case_step; [|done]. apply step_state in Hs as ->. auto.
  - left. case_step; [done|]. apply step_state in Hs as ->. auto.
  - left. apply step_state in Hs as ->. auto.
  - left. apply step_state in Hs as ->. unfold stop_main, stop_command in Hq.
    destruct (pid_file_ m) as [| |s] eqn:Ef; cbn in Hq; try done.
    apply Hw. destruct (IsProcessRunning m s); [destruct (killed s)|]; cbn in Hq; congruence.
  - left. apply step_state in Hs as ->. auto.
Qed.
Lemma daemon_run_inv evs m m' acts d ws :
  daemon_named m d -> file_written ws m -> main_run evs m = Some (m', acts) ->
  daemon_named m' (daemon evs m d) /\ file_written (ws ++ writers evs) m'.
Proof.
  revert m acts d ws. induction evs as [|ev evs IH]; intros m acts d ws Hd Hw; cbn [main_run daemon].
  - intros [= <- _]. by rewrite app_nil_r.
  - destruct (main_step ev m) as [[m1 a1]|] eqn:E1; [|done]. cbn [mbind option_bind].
    destruct (main_run evs m1) as [[m2 a2]|] eqn:E2; [|done]. intros [= <- _].
    destruct (IH m1 a2 (daemon_step ev m d) (ws ++ writers [ev])) as [I1 I2];
      [by eapply daemon_step_named|by eapply daemon_step_written|done|]. split; [done|].
    intros q Hq. apply I2 in Hq. rewrite <- app_assoc in Hq. unfold writers in *. by rewrite <- omap_app in Hq.
Qed.

(** C19 The daemon can be found.  After any history of starts, forks, failures,
    crashes, signals and stops of any number of processes, in any order: the
    process that wrote the process file last and still runs, with no successful
    [stop] since, is the one [status] reports; while it runs every further start
    in background mode is refused with 1 and changes nothing; [stop] terminates it
    and removes the file, and so does its own handler.  And the file never names
    a process that did not write it. *)
Theorem daemon_found evs m acts :
  main_run evs new_machine = Some (m, acts) ->
  (forall d, daemon evs new_machine None = Some d ->
     (forall p, status_main p m = [reported (status_running d []); exit_code p 0]) /\
     (forall p child writable, launch p true false child writable m = (m, [exit_code p 1])) /\
     (forall p killed, killed d = true ->
        (stop_main p killed m).2 = [sigterm d; exit_code p 0] /\ pid_file_ (stop_main p killed m).1 = no_pid_file) /\
     pid_file_ (on_signal d m).1 = no_pid_file) /\
  (forall q, pid_file_ m = pid_of q -> q ∈ writers evs).
Proof.
  intros H. destruct (daemon_run_inv evs new_machine m acts None []) as [I1 I2]; [done|by intros q|done|].
  split; [|exact I2]. intros d Hd. destruct (I1 d Hd) as [Hf Hr%running_proc]. split_and!.
  - intros p. unfold status_main, status_command. by rewrite Hf, Hr.
  - intros p child writable. unfold launch. cbn [orb negb andb]. by rewrite Hf, Hr.
  - intros p killed Hk. unfold stop_main, stop_command. by rewrite Hf, Hr, Hk.
  - unfold on_signal. rewrite Hf, Z.eqb_refl. done.
Qed.

(** ** Log lines and event loop threads *)
(** [localtime] of the clock, and its milliseconds. *)
Record log_time : Type := { lt_year : Z; lt_month : Z; lt_day : Z; lt_hour : Z; lt_minute : Z; lt_second : Z; lt_ms : Z }.
(** [std::setw(n)] with [std::setfill('0')]. *)
Definition padded (n : nat) (z : Z) : list byte := repeat x30 (n - length (dec z)) ++ dec z.
Definition GetTimestamp (t : log_time) : list byte :=
  bytes_of "[" ++ padded 4 (lt_year t) ++ bytes_of "-" ++ padded 2 (lt_month t) ++ bytes_of "-" ++ padded 2 (lt_day t) ++
  bytes_of " " ++ padded 2 (lt_hour t) ++ bytes_of ":" ++ padded 2 (lt_minute t) ++ bytes_of ":" ++ padded 2 (lt_second t) ++
  bytes_of "." ++ padded 3 (lt_ms t) ++ bytes_of "] ".
Inductive log_output : Type := to_cerr (text : list byte) | to_cout (text : list byte).
(** [Logger::Error], [Info] and [Debug] at a level. *)
Definition log_error (level : Z) (t : log_time) (msg : list byte) : list log_output :=
  if logged 1 level then [to_cerr (GetTimestamp t ++ msg ++ [x0a])] else [].
Definition log_info (level : Z) (t : log_time) (msg : list byte) : list log_output :=
  if logged 2 level then [to_cout (GetTimestamp t ++ msg ++ [x0a])] else [].
Definition log_debug (level : Z) (t : log_time) (msg : list byte) : list log_output :=
  if logged 3 level then [to_cout (GetTimestamp t ++ bytes_of "[DEBUG] " ++ msg ++ [x0a])] else [].

(** How a call of [io_context.run] ends, and a thread of [main]: it calls [run]
    again after an exception and ends when [run] returns.  The messages logged,
    and whether the thread has ended. *)
Inductive run_outcome : Type := run_returned | run_threw (what : list byte) | run_threw_other.
Fixpoint event_loop (i : Z) (outcomes : list run_outcome) : list (list byte) * bool :=
  match outcomes with
  | [] => ([], false)
  | run_returned :: _ => ([], true)
  | o :: outcomes' =>
    let '(msgs, ended) := event_loop i outcomes' in
    (match o with
     | run_threw what => bytes_of "[EventLoop " ++ dec i ++ bytes_of "] Unhandled exception: " ++ what ++ bytes_of " -- resuming event loop."
     | _ => bytes_of "[EventLoop " ++ dec i ++ bytes_of "] Unhandled non-standard exception -- resuming event loop."
     end :: msgs, ended)
  end.

(** Exceptions never end a thread, and each is logged. *)
Lemma event_loop_survives i exceptions rest : Forall (fun o => o <> run_returned) exceptions ->
  (event_loop i (exceptions ++ rest)).2 = (event_loop i rest).2 /\
  length (event_loop i (exceptions ++ rest)).1 = (length exceptions + length (event_loop i rest).1)%nat.
Proof.
  induction 1 as [|o os Ho _ [IH1 IH2]]; [done|]. cbn [app event_loop length].
  destruct (event_loop i (os ++ rest)) as [msgs ended]. cbn [fst snd] in *. destruct o; [done|..]; cbn; by rewrite <- IH2.
Qed.
Lemma padded_length n z : (length (dec z) <= n)%nat -> length (padded n z) = n.
Proof. intros H. unfold padded. rewrite length_app, repeat_length. lia. Qed.
(** A higher level shows what a lower one shows. *)
Lemma logger_levels level level' t msg : level <= level' ->
  (log_error level t msg <> [] -> log_error level' t msg = log_error level t msg) /\
  (log_info level t msg <> [] -> log_info level' t msg = log_info level t msg /\ log_error level t msg <> []).
Proof.
  intros H. unfold log_error, log_info, logged. split.
  - destruct (1 <=? level) eqn:E1; [|done]. bool_hyps. by rewrite (proj2 (Z.leb_le 1 level')) by lia.
  - destruct (2 <=? level) eqn:E1; [|done]. bool_hyps. by rewrite (proj2 (Z.leb_le 2 level')), (proj2 (Z.leb_le 1 level)) by lia.
Qed.

Section ConfigLemmas.
Context {T : Type} `{Toml T} `{TomlPrint T}.
(** [config ls] shows every entry, a scalar with the text [config get] shows for
    it, strings in quotation marks. *)
Lemma config_ls_shows_get (config v : T) (k : string) :
  (k, v) ∈ t_entries config -> t_get config k = Some v ->
  (forall s, t_string v = Some s -> config_get k config = [s] /\ bytes_of k ++ bytes_of " = " ++ [x22] ++ s ++ [x22] ∈ config_ls config) /\
  (t_string v = None -> forall text, config_get k config = [text] -> bytes_of k ++ bytes_of " = " ++ text ∈ config_ls config).
Proof.
  intros Hin Hg. assert (Hl : bytes_of k ++ bytes_of " = " ++ default (bytes_of "<complex type>") (scalar_text true v) ∈ config_ls config).
  { unfold config_ls. apply list_elem_of_fmap. by exists (k, v). }
  unfold config_get. rewrite Hg. split.
  - intros s Hs. unfold scalar_text in *. rewrite Hs in *. by split.
  - intros Hs text. assert (E : scalar_text true v = scalar_text false v) by (unfold scalar_text; by rewrite Hs).
    rewrite E in Hl. destruct (scalar_text false v); [|done]. by intros [= <-].
Qed.
End ConfigLemmas.

(** ** What the code does besides *)
(** The process file of a daemon that crashed outlives it: when its number is
    given to another program, starts are refused and [stop] terminates that
    program. *)
Lemma stop_terminates_reused_number :
  let history := [ev_launch 10 true false (Some 11) true; ev_write_pid 11 true; ev_configured 11 true true; ev_died 11; ev_other_started 11] in
  exists m, main_run history new_machine = Some (m, [exit_code 10 0]) /\
    launch 12 true false (Some 13) true m = (m, [exit_code 12 1]) /\
    (stop_main 14 (fun _ => true) m).2 = [sigterm 11; exit_code 14 0] /\ 11 ∈ others m.
Proof. eexists. split; [vm_compute; reflexivity|]. split; [reflexivity|]. split; [reflexivity|]. vm_compute. done. Qed.
(** A process in the foreground writes the status file and leaves it behind. *)
Lemma foreground_leaves_status :
  exists m, main_run [ev_launch 10 false false None true; ev_configured 10 true true; ev_signal 10] new_machine =
    Some (m, [exit_code 10 0]) /\ status_file m = true /\ procs m = ∅.
Proof. by eexists. Qed.
(** Without a writable directory of the executable a daemon is not found. *)
Lemma unwritable_daemon_not_found :
  exists m, main_run [ev_launch 10 true false (Some 11) true; ev_write_pid 11 false; ev_configured 11 true false] new_machine =
    Some (m, [exit_code 10 0]) /\ status_main 12 m = [reported status_not_running; exit_code 12 0] /\ procs m !! 11 = Some serving.
Proof. by eexists. Qed.

(** ** Witness *)
Definition sample_history : list main_event :=
  [ev_launch 10 true false (Some 11) true; ev_write_pid 11 true; ev_configured 11 true true;
   ev_launch 20 false false None true; ev_configured 20 true true; ev_signal 20; ev_status_command 21].
Definition sample_machine : machine :=
  {| procs := {[11 := serving]}; others := ∅; pid_file_ := pid_of 11; status_file := true |}.
Definition sample_main_acts : list main_act :=
  [exit_code 10 0; exit_code 20 0; reported (status_running 11 []); exit_code 21 0].
Lemma sample_main_run : main_run sample_history new_machine = Some (sample_machine, sample_main_acts).
Proof. vm_compute. reflexivity. Qed.
Lemma daemon_found_witness :
  daemon sample_history new_machine None = Some 11 /\
  (forall d, daemon sample_history new_machine None = Some d ->
     (forall p, status_main p sample_machine = [reported (status_running d []); exit_code p 0]) /\
     (forall p child writable, launch p true false child writable sample_machine = (sample_machine, [exit_code p 1])) /\
     (forall p killed, killed d = true ->
        (stop_main p killed sample_machine).2 = [sigterm d; exit_code p 0] /\
        pid_file_ (stop_main p killed sample_machine).1 = no_pid_file) /\
     pid_file_ (on_signal d sample_machine).1 = no_pid_file) /\
  (forall q, pid_file_ sample_machine = pid_of q -> q ∈ writers sample_history).
Proof. split; [reflexivity|]. exact (daemon_found sample_history sample_machine sample_main_acts sample_main_run). Defined.
