(* ===== verification/Startup.v ===== *)
(** * From the command line to a running service (src/main.cpp: main)

    What [main] does after the commands and the background mode of Daemon.v:
    options, the configuration file used or generated, the role, the settings,
    the status file, and every way to end with an error.  toml++ and what
    starting a server or a client meets in the system are arguments. *)
From Stdlib Require Import ZArith Lia Strings.Byte String.
From stdpp Require Import base tactics list gmap strings.
From S2P Require Import Prelude BufferPool Client Config.
Local Open Scope Z_scope.

Abbreviation files := (gmap string (list byte)).
Inductive service : Type :=
| serves (cfg : ServerConfig) (pool : BufferPool)
| dials (cfg : ClientConfig) (proxies : list ProxyConfig) (pool : BufferPool).
(** The process has ended, or its event loops run. *)
Inductive outcome : Type :=
| ended (code : Z)
| running (s : service) (level threads : Z).

(** The status file [cfrp status] shows. *)
Definition status_text (mode config_path : string) : list byte :=
  write_lines [bytes_of "Mode:        " ++ bytes_of mode; bytes_of "Config:      " ++ bytes_of config_path].
Definition with_server_token (cli_token : option string) (c : ServerConfig) : ServerConfig :=
  match cli_token with
  | None => c
  | Some t => {| bind_addr := bind_addr c; bind_port := bind_port c; server_token := bytes_of t; server_protocol := server_protocol c;
      server_ssl := server_ssl c; allowed_ports := allowed_ports c; allowed_clients := allowed_clients c;
      vhost_http_port := vhost_http_port c; vhost_https_port := vhost_https_port c; management := management c |}
  end.
Definition with_client_token (cli_token : option string) (c : ClientConfig) : ClientConfig :=
  match cli_token with
  | None => c
  | Some t => {| server_addr := server_addr c; server_port := server_port c; client_token := bytes_of t; client_name := client_name c;
      conf_d_dir := conf_d_dir c; client_protocol := client_protocol c; client_compression := client_compression c;
      compression_level := compression_level c; client_ssl := client_ssl c |}
  end.

Section Start.
Context {T : Type} `{Toml T}.
(** [parse_file]: [None] when it throws.  [server_ready], [client_ready]: the
    objects are constructed and run without an exception. *)
Record start_env : Type := {
  parse_file : string -> list byte -> option T;
  writable : string -> bool;
  server_ready : ServerConfig -> bool;
  client_ready : ClientConfig -> bool;
  hardware_concurrency : Z;
  status_file_path : string
}.
Variable e : start_env.
Definition write_file (path : string) (text : list byte) (fs : files) : files * bool :=
  if writable e path then (<[path := text]> fs, true) else (fs, false).
Definition has_section (k : string) (root : T) : bool := match node (Some root) k with Some _ => true | None => false end.
Definition configured_level (section : option T) (level : Z) : Z :=
  match (m ← node section "log_level"; t_string m) with Some s => SetLevel s level | None => level end.
Definition client_pool (root : T) : BufferPool :=
  ParseBufferPool (c ← client_node root; if t_table c then Some c else None).

Definition start_server (root : T) (path : string) (cli_token : option string) (level : Z) (fs : files) : outcome * files :=
  let cfg := with_server_token cli_token (read_server root) in
  let '(fs1, _) := write_file (status_file_path e) (status_text "Server" path) fs in
  if server_ready e cfg
  then (running (serves cfg (server_pool root)) (configured_level (node (Some root) "server") level)
          (thread_count root (hardware_concurrency e)), fs1)
  else (ended 1, fs1).
Definition start_client (root : T) (path : string) (cli_token : option string) (level : Z) (fs : files) : outcome * files :=
  let cfg := with_client_token cli_token (read_client root) in
  if client_ready e cfg then
    let '(fs1, _) := write_file (status_file_path e) (status_text "Client" path) fs in
    match read_proxies root with
    | Some proxies =>
      (running (dials cfg proxies (client_pool root)) (configured_level (client_node root) level)
         (thread_count root (hardware_concurrency e)), fs1)
    | None => (ended 1, fs1)
    end
  else (ended 1, fs).
Definition run_file (path : string) (cli_token : option string) (ca_provided : bool) (level : Z) (fs : files) : outcome * files :=
  match fs !! path with
  | None => (ended 1, fs)
  | Some text =>
    match parse_file e path text with
    | None => (ended 1, fs)
    | Some root =>
      match choose_role (has_section "server" root) (has_section "client" root) ca_provided with
      | run_server => start_server root path cli_token level fs
      | run_client | run_client_on_server_section => start_client root path cli_token level fs
      | no_role => (ended 1, fs)
      end
    end
  end.
Definition generate_and_run (path : string) (text : list byte) (cli_token : option string) (ca_provided : bool) (level : Z)
    (fs : files) : outcome * files :=
  match write_file path text fs with
  | (fs1, true) => run_file path cli_token ca_provided level fs1
  | (fs1, false) => (ended 1, fs1)
  end.
Definition file_exists (path : string) (fs : files) : bool := bool_decide (is_Some (fs !! path)).
(** [args]: [argv] without the program's name; the level starts as Info. *)
Definition start_program (args : list string) (fs : files) : outcome * files :=
  match parse_args args "" "" "" [] with
  | cli_version | cli_help => (ended 0, fs)
  | cli_multiple _ _ => (ended 1, fs)
  | cli_run config ca token levels =>
    let level := fold_left (fun l s => SetLevel (bytes_of s) l) levels 2 in
    let '(mode, ca_provided) := choose_mode config ca token (file_exists "server.toml" fs) (file_exists "client.toml" fs) in
    match mode with
    | mode_mismatch => (ended 1, fs)
    | mode_file path => run_file path None ca_provided level fs
    | mode_new_client ca token =>
      generate_and_run "client.toml" (default_client_toml (bytes_of ca) (bytes_of token)) (Some token) ca_provided level fs
    | mode_new_server => generate_and_run "server.toml" default_server_toml None ca_provided level fs
    end
  end.

(** ** What a start leaves *)
(** The service a document asks for. *)
Definition service_of (root : T) (cli_token : option string) (ca_provided : bool) (s : service) : Prop :=
  match s with
  | serves cfg pool => has_section "server" root = true /\ ca_provided = false /\ server_ready e cfg = true /\
      cfg = with_server_token cli_token (read_server root) /\ pool = server_pool root
  | dials cfg proxies pool => (has_section "client" root = true \/ has_section "server" root = true /\ ca_provided = true) /\
      (has_section "server" root = true -> ca_provided = true) /\ client_ready e cfg = true /\
      cfg = with_client_token cli_token (read_client root) /\ read_proxies root = Some proxies /\ pool = client_pool root
  end.
Definition mode_name (s : service) : string := match s with serves _ _ => "Server" | dials _ _ _ => "Client" end.
Lemma write_file_kept path text fs fs1 ok p t : write_file path text fs = (fs1, ok) -> p <> path -> fs !! p = t -> fs1 !! p = t.
Proof. unfold write_file. destruct (writable e path); intros [= <- <-] Hp; [by rewrite lookup_insert_ne|done]. Qed.
Record ran (path : string) (cli_token : option string) (ca_provided : bool) (level : Z) (fs : files) (o : outcome) (fs' : files) : Prop := {
  ran_kept : forall p, p <> status_file_path e -> fs' !! p = fs !! p;
  ran_outcome : match o with
    | ended code => code = 1
    | running s lv threads => exists text root, fs !! path = Some text /\ parse_file e path text = Some root /\
        service_of root cli_token ca_provided s /\ threads = thread_count root (hardware_concurrency e) /\
        fs' = (write_file (status_file_path e) (status_text (mode_name s) path) fs).1
    end
}.
Lemma run_file_ran path cli_token ca_provided level fs o fs' : run_file path cli_token ca_provided level fs = (o, fs') ->
  ran path cli_token ca_provided level fs o fs'.
Proof.
  assert (Hend : ended 1 = o -> fs = fs' -> ran path cli_token ca_provided level fs o fs') by (intros <- <-; by split).
  unfold run_file. destruct (fs !! path) as [text|] eqn:Ef; [|intros [= ??]; by apply Hend].
  destruct (parse_file e path text) as [root|] eqn:Ep; [|intros [= ??]; by apply Hend].
  unfold choose_role. intros E.
  assert (Hc : start_client root path cli_token level fs = (o, fs') ->
    (has_section "client" root = true \/ has_section "server" root = true /\ ca_provided = true) ->
    (has_section "server" root = true -> ca_provided = true) -> ran path cli_token ca_provided level fs o fs').
  { unfold start_client. intros Ec H1 H2. destruct (client_ready e _) eqn:Er; [|injection Ec as ??; by apply Hend].
    destruct (write_file _ _ fs) as [fs1 ok] eqn:Ew.
    assert (Hk : forall p, p <> status_file_path e -> fs1 !! p = fs !! p) by (intros p Hp; by eapply write_file_kept).
    destruct (read_proxies root) as [ps|] eqn:Eps; injection Ec as <- <-; split; try done.
    exists text, root. cbn [mode_name service_of]. by rewrite Ew. }
  destruct (has_section "server" root && negb ca_provided) eqn:Es.
  - apply andb_true_iff in Es as [Hs Hca]. apply negb_true_iff in Hca. unfold start_server in E.
    destruct (write_file _ _ fs) as [fs1 ok] eqn:Ew.
    assert (Hk : forall p, p <> status_file_path e -> fs1 !! p = fs !! p) by (intros p Hp; by eapply write_file_kept).
    destruct (server_ready e _) eqn:Er; injection E as <- <-; split; try done.
    exists text, root. cbn [mode_name service_of]. by rewrite Ew.
  - assert (Hs : has_section "server" root = true -> ca_provided = true) by (intros Hs; rewrite Hs in Es; by destruct ca_provided).
    destruct (has_section "client" root) eqn:Ec; [apply Hc; auto|].
    destruct (has_section "server" root && ca_provided) eqn:Es2; [|injection E as ??; by apply Hend].
    apply andb_true_iff in Es2 as [??]. apply Hc; auto.
Qed.
(** A second run of the same file finds what the first one found. *)
Lemma run_file_again path cli_token ca_provided level fs s lv threads fs' : path <> status_file_path e ->
  run_file path cli_token ca_provided level fs = (running s lv threads, fs') ->
  run_file path cli_token ca_provided level fs' = (running s lv threads, fs').
Proof.
  intros Hp E. pose proof (run_file_ran _ _ _ _ _ _ _ E) as [Hk _]. unfold run_file in *. rewrite (Hk path Hp).
  destruct (fs !! path) as [text|]; [|done]. destruct (parse_file e path text) as [root|]; [|done].
  assert (Hw : forall m, (write_file (status_file_path e) (status_text m path) (write_file (status_file_path e) (status_text m path) fs).1) =
    write_file (status_file_path e) (status_text m path) fs).
  { intros m. unfold write_file. destruct (writable e _) eqn:Ew; cbn [fst]; [by rewrite insert_insert_eq|done]. }
  assert (Hs : forall m fs1 ok, write_file (status_file_path e) (status_text m path) fs = (fs1, ok) ->
    write_file (status_file_path e) (status_text m path) fs1 = (fs1, ok)).
  { intros m fs1 ok Ew. specialize (Hw m). by rewrite Ew in Hw. }
  assert (Hc : start_client root path cli_token level fs = (running s lv threads, fs') ->
    start_client root path cli_token level fs' = (running s lv threads, fs')).
  { unfold start_client. intros Ec. destruct (client_ready e _); [|done]. destruct (write_file _ _ fs) as [fs1 ok] eqn:Ew.
    destruct (read_proxies root); [|done]. injection Ec as <- <- <- <-. by rewrite (Hs _ _ _ Ew). }
  destruct (choose_role _ _ _); [|by apply Hc..|done].
  unfold start_server in *. destruct (write_file _ _ fs) as [fs1 ok] eqn:Ew.
  destruct (server_ready e _); [|done]. injection E as <- <- <- <-. by rewrite (Hs _ _ _ Ew).
Qed.

(** The file that is run, the options that go with it and the files before. *)
Definition config_used (args : list string) (fs fs1 : files) (path : string) (cli_token : option string) (ca_provided : bool) : Prop :=
  let absent := fs !! "server.toml"%string = None /\ fs !! "client.toml"%string = None in
  (fs1 = fs /\ cli_token = None /\ ca_provided = false /\ (args = [] -> path = "server.toml"%string \/ path = "client.toml"%string /\ fs !! "server.toml"%string = None)) \/
  (absent /\ path = "server.toml"%string /\ cli_token = None /\ ca_provided = false /\ fs1 = <[path := default_server_toml]> fs) \/
  (absent /\ path = "client.toml"%string /\ ca_provided = true /\ args <> [] /\
   exists ca token, cli_token = Some token /\ fs1 = <[path := default_client_toml (bytes_of ca) (bytes_of token)]> fs).
Lemma file_exists_none path fs : file_exists path fs = false -> fs !! path = None.
Proof. unfold file_exists. intros E%bool_decide_eq_false. by apply eq_None_not_Some. Qed.
Lemma choose_mode_cases config ca token se ce mode provided : choose_mode config ca token se ce = (mode, provided) ->
  match mode with
  | mode_mismatch => True
  | mode_file path => provided = false /\ (config = ""%string ->
      se = true /\ path = "server.toml"%string \/ se = false /\ ce = true /\ path = "client.toml"%string)
  | mode_new_client _ _ => se = false /\ ce = false /\ provided = true /\ ca <> ""%string
  | mode_new_server => se = false /\ ce = false /\ provided = false
  end.
Proof.
  unfold choose_mode. destruct (String.eqb_spec config "") as [->|Hc].
  - destruct se; [intros [= <- <-]; cbn; auto|]. destruct ce; [intros [= <- <-]; cbn; auto 6|].
    destruct (String.eqb_spec "" "") as [_|]; [|done]. destruct (String.eqb_spec ca "") as [->|Hca], (String.eqb token ""); intros [= <- <-]; done.
  - destruct (String.eqb_spec config "") as [|_]; [done|]. by intros [= <- <-].
Qed.
Lemma start_cases args fs o fs' : start_program args fs = (o, fs') ->
  (fs' = fs /\ (o = ended 0 \/ o = ended 1)) \/
  exists path cli_token ca_provided level fs1, config_used args fs fs1 path cli_token ca_provided /\
    (args = [] -> level = 2) /\ run_file path cli_token ca_provided level fs1 = (o, fs').
Proof.
  unfold start_program. destruct (parse_args args "" "" "" []) as [config ca token levels| | |] eqn:Ea;
    try (intros [= <- <-]; left; auto; done).
  assert (Hlevel : args = [] -> fold_left (fun l s => SetLevel (bytes_of s) l) levels 2 = 2)
    by (intros ->; injection Ea as _ _ _ <-; done).
  assert (Hargs : args = [] -> config = ""%string /\ ca = ""%string) by (intros ->; by injection Ea as <- <- _ _).
  generalize dependent (fold_left (fun l s => SetLevel (bytes_of s) l) levels 2). intros level Hlevel.
  destruct (choose_mode _ _ _ _ _) as [mode provided] eqn:Em. apply choose_mode_cases in Em.
  assert (Hgen : forall path text tok, generate_and_run path text tok provided level fs = (o, fs') ->
    (fs' = fs /\ (o = ended 0 \/ o = ended 1)) \/ run_file path tok provided level (<[path := text]> fs) = (o, fs')).
  { intros path text tok. unfold generate_and_run, write_file. destruct (writable e path); [by right|]. intros [= <- <-]. left; auto. }
  destruct mode as [path|ca' token'| |]; intros E.
  - destruct Em as [-> Hp]. right. exists path, None, false, level, fs. split; [|done]. left. repeat split; try done.
    intros Hn. destruct (Hargs Hn) as [Hc _]. destruct (Hp Hc) as [[_ ->]|(Hs & _ & ->)]; [by left|right]. by apply file_exists_none in Hs.
  - destruct Em as (Hs%file_exists_none & Hc%file_exists_none & -> & Hca). apply Hgen in E as [E|E]; [by left|right].
    eexists _, _, _, level, _. split; [|split; [done|exact E]]. right; right. repeat split; try done; [by intros ->; destruct Hargs|eauto].
  - destruct Em as (Hs%file_exists_none & Hc%file_exists_none & ->). apply Hgen in E as [E|E]; [by left|right].
    eexists _, _, _, level, _. split; [|split; [done|exact E]]. right; left. done.
  - injection E as <- <-. left; auto.
Qed.
Lemma start_again fs s lv threads fs' : status_file_path e <> "server.toml"%string -> status_file_path e <> "client.toml"%string ->
  start_program [] fs = (running s lv threads, fs') -> start_program [] fs' = (running s lv threads, fs').
Proof.
  intros Hs Hc E. apply start_cases in E as [[_ [?|?]]|(path & tok & provided & level & fs1 & Hu & Hl & E)]; [done|done|].
  specialize (Hl eq_refl). subst level. pose proof (run_file_ran _ _ _ _ _ _ _ E) as [Hk (text & root & Hf & _)].
  destruct Hu as [(-> & -> & -> & Hp)|[((Hns & Hnc) & -> & -> & -> & ->)|(_ & _ & _ & Hn & _)]]; [| |done].
  - specialize (Hp eq_refl). assert (Hne : path <> status_file_path e) by (by destruct Hp as [->|[-> _]]).
    apply run_file_again in E; [|done]. unfold start_program, file_exists. cbn [parse_args fold_left].
    destruct Hp as [->|[-> Hns]].
    + rewrite bool_decide_eq_true_2 by (rewrite Hk by done; by eexists). done.
    + rewrite bool_decide_eq_false_2 by (rewrite Hk, Hns by done; by intros [? ?]).
      rewrite bool_decide_eq_true_2 by (rewrite Hk by done; by eexists). done.
  - apply run_file_again in E; [|done]. unfold start_program, file_exists. cbn [parse_args fold_left].
    rewrite bool_decide_eq_true_2 by (rewrite Hk by done; by eexists). done.
Qed.
End Start.


(** ** A first start and the next one *)
Definition sample_env : @start_env toml := {|
  parse_file := fun path text => if bool_decide (text = default_server_toml) then Some generated_server else None;
  writable := fun _ => true; server_ready := fun _ => true; client_ready := fun _ => true; hardware_concurrency := 4;
  status_file_path := "/opt/cfrp.status" |}.
Definition first_start : outcome * files := Eval vm_compute in start_program sample_env [] ∅.
(** The status file is written before the server is: a start that fails then
    leaves it behind. *)
Lemma failed_start_leaves_status : let e := {| parse_file := parse_file sample_env; writable := writable sample_env;
    server_ready := fun _ => false; client_ready := fun _ => true; hardware_concurrency := 4;
    status_file_path := "/opt/cfrp.status" |} in
  let '(o, fs) := start_program e [] ∅ in
  o = ended 1 /\ fs !! "/opt/cfrp.status"%string = Some (status_text "Server" "server.toml").
Proof. vm_compute. done. Qed.
