(* ===== verification/Listeners.v ===== *)
(** * Accept loops and their ends (src/server/server.cpp: ProxyListener,
    UdpProxyListener, Server::DoAccept, Server::DoVhostAccept;
    src/server/mgmt/mgmt_server.cpp: ManagementServer::DoAccept and the
    connection of HandleRequest)

    Every listener is a loop: one accept (or receive) outstanding, or a pause of
    100 ms after an error.  The loops differ in when they look whether the socket
    is still open, and so in whether [Stop] ends them.  What an accept brings in
    is in Pending.v, Accept.v, Vhost.v and Mgmt.v. *)
From Stdlib Require Import ZArith Lia Strings.Byte String.
From stdpp Require Import base tactics list.
From S2P Require Import Prelude Mgmt.
Local Open Scope Z_scope.

(** ** The loops *)
(** What a handler does last: begin the operation again, arm the timer, or
    nothing, which lets the listener go. *)
Inductive loop_next : Type := begin_again | pause_100ms | leave.
(** The end of the handler of the operation, and the handler of the timer, given
    whether the socket is open. *)
Record loop_code : Type := {
  on_completion : error_code -> bool -> loop_next;
  on_pause_over : bool -> loop_next
}.
Definition ProxyListener_DoAccept : loop_code := {|
  on_completion := fun ec _ => match ec with ec_ok => begin_again | ec_operation_aborted => leave | _ => pause_100ms end;
  on_pause_over := fun _ => begin_again |}.
Definition UdpProxyListener_DoReceive : loop_code := {|
  on_completion := fun ec is_open => match ec with
    | ec_ok => begin_again
    | ec_operation_aborted => leave
    | _ => if is_open then pause_100ms else leave
    end;
  on_pause_over := fun is_open => if is_open then begin_again else leave |}.
Definition Server_DoAccept : loop_code := {|
  on_completion := fun ec _ => match ec with ec_ok => begin_again | ec_operation_aborted => leave | _ => pause_100ms end;
  on_pause_over := fun _ => begin_again |}.
Definition Server_DoVhostAccept : loop_code := {|
  on_completion := fun ec _ => match ec with ec_ok => begin_again | ec_operation_aborted => leave | _ => pause_100ms end;
  on_pause_over := fun _ => begin_again |}.
Definition ManagementServer_DoAccept : loop_code := {|
  on_completion := fun ec is_open => match ec with
    | ec_ok => if is_open then begin_again else leave
    | ec_operation_aborted => leave
    | _ => if is_open then pause_100ms else leave
    end;
  on_pause_over := fun is_open => if is_open then begin_again else leave |}.

(** ** A listener *)
(** An operation begun on an open socket or on a closed one. *)
Inductive loop_state : Type := outstanding (begun_open : bool) | pausing | let_go.
Record listener : Type := { listener_open : bool; listener_loop : loop_state }.
Definition next_state (is_open : bool) (n : loop_next) : loop_state :=
  match n with begin_again => outstanding is_open | pause_100ms => pausing | leave => let_go end.
(** The constructor binds, [Start] begins. *)
Definition start_listener : listener := {| listener_open := true; listener_loop := outstanding true |}.
(** [Stop] closes the socket. *)
Definition stop_listener (l : listener) : listener := {| listener_open := false; listener_loop := listener_loop l |}.

Inductive listener_event : Type := completed (ec : error_code) | pause_over | listener_stop.
(** What the system can answer: an operation begun on a closed socket fails at
    once with an error that is not an abort, one whose socket is closed under it
    is aborted or had already completed. *)
Definition completion_possible (is_open begun_open : bool) (ec : error_code) : bool :=
  match ec with
  | ec_ok => begun_open
  | ec_operation_aborted => begun_open && negb is_open
  | _ => true
  end.
Definition listener_step (code : loop_code) (ev : listener_event) (l : listener) : option listener :=
  match ev, listener_loop l with
  | completed ec, outstanding b =>
    if completion_possible (listener_open l) b ec
    then Some {| listener_open := listener_open l;
                 listener_loop := next_state (listener_open l) (on_completion code ec (listener_open l)) |}
    else None
  | pause_over, pausing =>
    Some {| listener_open := listener_open l; listener_loop := next_state (listener_open l) (on_pause_over code (listener_open l)) |}
  | listener_stop, _ => Some (stop_listener l)
  | _, _ => None
  end.
Fixpoint listener_run (code : loop_code) (evs : list listener_event) (l : listener) : option listener :=
  match evs with [] => Some l | ev :: evs' => listener_step code ev l ≫= listener_run code evs' end.
(** Completions and pauses of a history. *)
Definition turns (evs : list listener_event) : nat :=
  length (List.filter (fun ev => match ev with listener_stop => false | _ => true end) evs).

(** The two kinds of loops. *)
Definition checks_open (code : loop_code) : Prop :=
  on_pause_over code false = leave /\ (forall ec, ec <> ec_ok -> on_completion code ec false = leave).
Definition never_checks (code : loop_code) : Prop :=
  on_pause_over code false = begin_again /\ on_completion code ec_ok false = begin_again /\
  (forall ec, ec <> ec_ok -> ec <> ec_operation_aborted -> on_completion code ec false = pause_100ms) /\
  on_completion code ec_operation_aborted false = leave.

(** How many more turns a stopped listener of the first kind can take. *)
Definition turns_left (l : listener) : nat :=
  match listener_loop l with outstanding true => 2 | outstanding false | pausing => 1 | let_go => 0 end.
Lemma checked_turn code ev l l' : checks_open code -> listener_open l = false -> listener_step code ev l = Some l' ->
  listener_open l' = false /\
  match ev with listener_stop => turns_left l' = turns_left l | _ => (turns_left l' < turns_left l)%nat end.
Proof.
  intros [C1 C2]. destruct l as [o st]. cbn [listener_open]. intros ->. unfold listener_step, turns_left. cbn [listener_open listener_loop].
  destruct ev as [ec| |]; [|destruct st; [done| |done]|]; [destruct st as [b| |]; [|done..]|..].
  - destruct (completion_possible false b ec) eqn:Hc; [|done]. intros [= <-]. cbn [listener_open listener_loop]. split; [done|].
    destruct (decide (ec = ec_ok)) as [->|Hne]; [|rewrite C2 by done; cbn; destruct b; lia].
    cbn in Hc. subst b. destruct (on_completion code ec_ok false); cbn; lia.
  - intros [= <-]. cbn [listener_open listener_loop]. rewrite C1. cbn. split; [done|lia].
  - by intros [= <-].
Qed.
Lemma checked_turns code evs l l' : checks_open code -> listener_open l = false -> listener_run code evs l = Some l' ->
  (turns evs + turns_left l' <= turns_left l)%nat.
Proof.
  intros C. revert l. induction evs as [|ev evs IH]; intros l Hl; cbn [listener_run]; [intros [= <-]; cbn; lia|].
  destruct (listener_step code ev l) as [l1|] eqn:E; [|done]. cbn [mbind option_bind]. intros Hr.
  destruct (checked_turn _ _ _ _ C Hl E) as [Hl1 Ht]. specialize (IH l1 Hl1 Hr). unfold turns in *.
  destruct ev; cbn [List.filter length] in *; lia.
Qed.
(** A listener that has not been let go can always take a turn. *)
Lemma can_turn code l : listener_loop l <> let_go -> exists ev l', listener_step code ev l = Some l' /\ turns [ev] = 1%nat.
Proof.
  unfold listener_step. destruct (listener_loop l) as [b| |]; [|by exists pause_over; eexists|done]. intros _.
  exists (completed (ec_other 0)). by eexists.
Qed.

(** Stopped, paused or about to fail, a loop of the second kind never ends. *)
Definition undead (l : listener) : Prop :=
  listener_open l = false /\ (listener_loop l = pausing \/ listener_loop l = outstanding false).
Lemma undead_turn code ev l l' : never_checks code -> undead l -> listener_step code ev l = Some l' -> undead l'.
Proof.
  intros (N1 & N2 & N3 & N4). destruct l as [o st]. unfold undead, listener_step. cbn [listener_open listener_loop]. intros [-> Hl].
  destruct ev as [ec| |]; [|destruct st; [done| |done]|]; [destruct st as [b| |]; [|done..]|..].
  - destruct Hl as [|[= ->]]; [done|]. destruct ec; cbn [completion_possible negb andb]; try done; intros [= <-];
      cbn [listener_open listener_loop]; rewrite N3 by done; auto.
  - intros [= <-]. cbn [listener_open listener_loop]. rewrite N1. auto.
  - intros [= <-]. auto.
Qed.
Lemma undead_run code evs l l' : never_checks code -> undead l -> listener_run code evs l = Some l' -> undead l'.
Proof.
  intros C. revert l. induction evs as [|ev evs IH]; intros l Hl; cbn [listener_run]; [by intros [= <-]|].
  destruct (listener_step code ev l) as [l1|] eqn:E; [|done]. intros Hr. eapply IH; [|exact Hr]. by eapply undead_turn.
Qed.

Lemma udp_checks : checks_open UdpProxyListener_DoReceive.
Proof. split; [done|]. by intros [] ?. Qed.
Lemma mgmt_checks : checks_open ManagementServer_DoAccept.
Proof. split; [done|]. by intros [] ?. Qed.
Lemma accept_never_checks code :
  code = ProxyListener_DoAccept \/ code = Server_DoAccept \/ code = Server_DoVhostAccept -> never_checks code.
Proof. by intros [-> |[-> | ->]]; (split_and!; [done..| |done]; intros [] ? ?). Qed.

Definition is_turn (ev : listener_event) : bool := match ev with listener_stop => false | _ => true end.
Definition first_turn (evs : list listener_event) : option listener_event := head (List.filter is_turn evs).
Lemma never_checks_ends code evs l l' : never_checks code -> listener_open l = false -> listener_run code evs l = Some l' ->
  listener_loop l' = let_go <-> listener_loop l = let_go \/ first_turn evs = Some (completed ec_operation_aborted).
Proof.
  intros C. revert l. induction evs as [|ev evs IH]; intros [o st]; cbn [listener_open]; intros ->; cbn [listener_run];
    [intros [= <-]; naive_solver|].
  destruct (listener_step code ev _) as [l1|] eqn:E; [|done]. cbn [mbind option_bind]. intros Hr.
  pose proof C as (N1 & N2 & N3 & N4). unfold listener_step in E. cbn [listener_open listener_loop] in *.
  assert (Hu : undead l1 -> listener_loop l' <> let_go).
  { intros Hu. destruct (undead_run _ _ _ _ C Hu Hr) as [_ [-> | ->]]; done. }
  destruct ev as [ec| |]; [|destruct st; [done| |done]|]; [destruct st as [b| |]; [|done..]|..].
  - destruct (completion_possible false b ec) eqn:Hc; [|done]. injection E as <-. cbn [first_turn List.filter is_turn head].
    destruct (decide (ec = ec_operation_aborted)) as [->|Ha].
    + apply IH in Hr; [|done]. cbn [listener_loop next_state] in Hr. rewrite N4 in Hr. naive_solver.
    + split; [|intros [?|[= ?]]; done]. intros Hg. exfalso. revert Hg. apply Hu. split; [done|]. cbn [listener_loop].
      destruct (decide (ec = ec_ok)) as [->|Ho]; [rewrite N2|rewrite N3 by done]; auto.
  - injection E as <-. split; [|intros [?|[= ?]]; done]. intros Hg. exfalso. revert Hg. apply Hu. split; [done|].
    cbn [listener_loop]. rewrite N1. auto.
  - injection E as <-. by apply IH in Hr.
Qed.

(** C29 What becomes of a listener after [Stop].  The loops that look at their
    socket, of UDP proxies and of the management server, end: whatever state
    [Stop] finds them in, they take at most two more turns.  The others - TCP
    proxies, the server's own acceptor, the virtual hosts - end exactly when
    [Stop] aborts an outstanding accept and nothing else comes first: found in
    the pause after an error, or with an accept that had just succeeded, they
    accept on the closed socket, fail and pause for ever.  Until it has been let
    go, a listener always has a further turn to take. *)
Theorem listener_stops (code : loop_code) (after : list listener_event) (l l' : listener) :
  listener_run code after (stop_listener l) = Some l' ->
  (code = UdpProxyListener_DoReceive \/ code = ManagementServer_DoAccept -> (turns after <= 2)%nat) /\
  (code = ProxyListener_DoAccept \/ code = Server_DoAccept \/ code = Server_DoVhostAccept ->
     listener_loop l' = let_go <->
     listener_loop l = let_go \/ first_turn after = Some (completed ec_operation_aborted)) /\
  (listener_loop l' <> let_go -> exists ev l2, listener_step code ev l' = Some l2 /\ turns [ev] = 1%nat).
Proof.
  intros Hr. split; [|split; [|apply can_turn]].
  - intros Hc. assert (C : checks_open code) by (destruct Hc as [-> | ->]; [apply udp_checks|apply mgmt_checks]).
    pose proof (checked_turns code after (stop_listener l) l' C eq_refl Hr) as Ht.
    unfold turns_left in Ht at 2. cbn [stop_listener listener_loop] in Ht. destruct (listener_loop l) as [[|]| |]; lia.
  - intros Hc%accept_never_checks. by apply (never_checks_ends code after (stop_listener l) l').
Qed.

(** A stopped TCP proxy in the pause after an error turns round for as long as
    the process runs. *)
Lemma proxy_listener_never_ends n :
  exists l, listener_run ProxyListener_DoAccept ([completed (ec_other 24); listener_stop] ++
      concat (repeat [pause_over; completed (ec_other 9)] n)) start_listener = Some l /\ listener_loop l = pausing.
Proof.
  exists {| listener_open := false; listener_loop := pausing |}. split; [|done]. cbn. by induction n.
Qed.

(** ** A connection of the management server *)
Inductive mgmt_timer : Type := timer_waiting | timer_queued | timer_idle.
Inductive mgmt_phase : Type := mgmt_reading | mgmt_answering | mgmt_done.
Record mgmt_conn : Type := { mc_phase : mgmt_phase; mc_timer : mgmt_timer; mc_open : bool }.
Inductive mgmt_act : Type := mgmt_write (bytes : list byte) | mgmt_close | mgmt_shutdown.
Inductive mgmt_event : Type :=
| mev_read (ec : error_code) (data : list byte) (clients : list ClientInfo)
| mev_expired                              (* the ten seconds are over: the handler is queued *)
| mev_timer                                (* and runs *)
| mev_written.

Section MgmtConnection.
Context (base64 : list byte -> list byte) (version expected_auth : list byte).
(** [HandleRequest] up to its first wait. *)
Definition mgmt_accepted : mgmt_conn := {| mc_phase := mgmt_reading; mc_timer := timer_waiting; mc_open := true |}.
(** The end of [async_read_until]; [cancel] does not reach a queued handler. *)
Definition on_request (ec : error_code) (data : list byte) (clients : list ClientInfo) (c : mgmt_conn) : mgmt_conn * list mgmt_act :=
  let t := match mc_timer c with timer_queued => timer_queued | _ => timer_idle end in
  match ec with
  | ec_ok =>
    match HandleRequest version expected_auth data clients with
    | Some bytes => ({| mc_phase := mgmt_answering; mc_timer := t; mc_open := mc_open c |}, [mgmt_write bytes])
    | None => ({| mc_phase := mgmt_done; mc_timer := t; mc_open := mc_open c |}, [])
    end
  | _ => ({| mc_phase := mgmt_done; mc_timer := t; mc_open := mc_open c |}, [])
  end.
(** The socket is gone with the last handler that holds it. *)
Definition mgmt_step (ev : mgmt_event) (c : mgmt_conn) : option (mgmt_conn * list mgmt_act) :=
  match ev with
  | mev_read ec data clients =>
    match mc_phase c with
    | mgmt_reading => if mc_open c || negb (bool_decide (ec = ec_ok)) then Some (on_request ec data clients c) else None
    | _ => None
    end
  | mev_expired =>
    match mc_timer c with
    | timer_waiting => Some ({| mc_phase := mc_phase c; mc_timer := timer_queued; mc_open := mc_open c |}, [])
    | _ => None
    end
  | mev_timer =>
    match mc_timer c with
    | timer_queued =>
      match mc_phase c with
      | mgmt_done => Some ({| mc_phase := mgmt_done; mc_timer := timer_idle; mc_open := mc_open c |}, [])
      | p => Some ({| mc_phase := p; mc_timer := timer_idle; mc_open := false |}, [mgmt_close])
      end
    | _ => None
    end
  | mev_written =>
    match mc_phase c with
    | mgmt_answering => Some ({| mc_phase := mgmt_done; mc_timer := mc_timer c; mc_open := mc_open c |}, [mgmt_shutdown])
    | _ => None
    end
  end.
Fixpoint mgmt_run (evs : list mgmt_event) (c : mgmt_conn) : option (mgmt_conn * list mgmt_act) :=
  match evs with
  | [] => Some (c, [])
  | ev :: evs' => '(c1, a1) ← mgmt_step ev c; '(c2, a2) ← mgmt_run evs' c1; mret (c2, a1 ++ a2)
  end.

Definition mgmt_answers (a : list mgmt_act) : list (list byte) :=
  omap (fun x => match x with mgmt_write b => Some b | _ => None end) a.
Lemma mgmt_no_more_answers evs c c' a : mc_phase c <> mgmt_reading -> mgmt_run evs c = Some (c', a) ->
  mgmt_answers a = [] /\ mc_phase c' <> mgmt_reading.
Proof.
  revert c a. induction evs as [|ev evs IH]; intros c a Hp; cbn [mgmt_run]; [by intros [= <- <-]|].
  destruct (mgmt_step ev c) as [[c1 a1]|] eqn:E; [|done]. cbn [mbind option_bind].
  destruct (mgmt_run evs c1) as [[c2 a2]|] eqn:E2; [|done]. intros [= <- <-].
  assert (Hs : mc_phase c1 <> mgmt_reading /\ mgmt_answers a1 = []).
  { unfold mgmt_step in E. destruct c as [p t o]. cbn [mc_phase mc_timer mc_open] in *.
    destruct ev; destruct p; try done; try (destruct t; try done); injection E as <- <-; done. }
  destruct Hs as [Hs Ha]. unfold mgmt_answers in *. rewrite omap_app, Ha. by apply (IH c1).
Qed.
(** A request is answered at most once, only when it was read, and as
    [HandleRequest] says; until it has been read the ten seconds are running or
    have closed the connection. *)
Theorem mgmt_connection_answers_once evs c a : mgmt_run evs mgmt_accepted = Some (c, a) ->
  (mgmt_answers a = [] \/ exists data clients bytes, mev_read ec_ok data clients ∈ evs /\
     HandleRequest version expected_auth data clients = Some bytes /\ mgmt_answers a = [bytes]) /\
  (mc_phase c = mgmt_reading -> mgmt_answers a = [] /\ (mc_timer c <> timer_idle \/ (mc_open c = false /\ mgmt_close ∈ a))).
Proof.
  assert (H : forall c0, mc_phase c0 = mgmt_reading -> mgmt_run evs c0 = Some (c, a) ->
    (mgmt_answers a = [] \/ exists data clients bytes, mev_read ec_ok data clients ∈ evs /\
       HandleRequest version expected_auth data clients = Some bytes /\ mgmt_answers a = [bytes]) /\
    (mc_phase c = mgmt_reading -> mgmt_answers a = [] /\
       (mc_timer c0 <> timer_idle -> mc_timer c <> timer_idle \/ (mc_open c = false /\ mgmt_close ∈ a)) /\
       (mc_timer c0 = timer_idle -> mc_timer c = timer_idle /\ mc_open c = mc_open c0))).
  2: { intros Hr. destruct (H mgmt_accepted eq_refl Hr) as [H1 H2]. split; [done|]. intros Hp.
       destruct (H2 Hp) as (? & Ht & _). split; [done|]. by apply Ht. }
  revert a. induction evs as [|ev evs' IH]; intros a c0 Hp; cbn [mgmt_run].
  { intros [= <- <-]. split; [by left|]. intros _. split; [done|]. auto. }
  destruct (mgmt_step ev c0) as [[c1 a1]|] eqn:E; [|done]. cbn [mbind option_bind].
  destruct (mgmt_run evs' c1) as [[c2 a2]|] eqn:E2; [|done]. intros [= <- <-].
  unfold mgmt_step in E. destruct c0 as [p t o]. cbn [mc_phase mc_timer mc_open] in *. subst p. destruct ev as [ec data clients| | |].
  - destruct (o || _); [|done]. injection E as E. unfold on_request in E.
    destruct (decide (ec = ec_ok)) as [->|Hne].
    + destruct (HandleRequest version expected_auth data clients) as [bytes|] eqn:Hh; injection E as <- <-;
        (apply mgmt_no_more_answers in E2 as [Ha Hn]; [|done]).
      * split; [|done]. right. exists data, clients, bytes. split; [by left|]. split; [done|]. cbn. unfold mgmt_answers in Ha. by rewrite Ha.
      * split; [|done]. left. done.
    + assert (Ec : c1 = {| mc_phase := mgmt_done; mc_timer := match t with timer_queued => timer_queued | _ => timer_idle end; mc_open := o |} /\ a1 = [])
        by (destruct ec; first [by destruct Hne | injection E; intros; subst; done]). destruct Ec as [-> ->].
      apply mgmt_no_more_answers in E2 as [Ha Hn]; [|done]. split; [by left|done].
  - destruct t; try done. injection E as <- <-. apply IH in E2 as [H1 H2]; [|done]. split.
    + destruct H1 as [|(d & cl & b & ? & ?)]; [by left|right]. exists d, cl, b. split; [by right|done].
    + intros Hr. destruct (H2 Hr) as (? & Ht & _). split; [done|]. split; [|done]. intros _. by apply Ht.
  - destruct t; try done. injection E as <- <-. apply IH in E2 as [H1 H2]; [|done]. split.
    + destruct H1 as [|(d & cl & b & ? & ? & ?)]; [by left|right]. exists d, cl, b. split; [by right|done].
    + intros Hr. destruct (H2 Hr) as (? & _ & Hi). split; [done|]. split; [|done]. intros _. right.
      destruct (Hi eq_refl) as [_ ->]. split; [done|]. by left.
  - done.
Qed.
End MgmtConnection.

(** ** Witness *)
Lemma listener_stops_witness :
  (ProxyListener_DoAccept = UdpProxyListener_DoReceive \/ ProxyListener_DoAccept = ManagementServer_DoAccept ->
     (turns [completed ec_operation_aborted] <= 2)%nat) /\
  (ProxyListener_DoAccept = ProxyListener_DoAccept \/ ProxyListener_DoAccept = Server_DoAccept \/
   ProxyListener_DoAccept = Server_DoVhostAccept ->
     let_go = let_go <->
     listener_loop start_listener = let_go \/ first_turn [completed ec_operation_aborted] = Some (completed ec_operation_aborted)) /\
  (let_go <> let_go -> exists ev l2, listener_step ProxyListener_DoAccept ev {| listener_open := false; listener_loop := let_go |} = Some l2 /\
     turns [ev] = 1%nat).
Proof.
  exact (listener_stops ProxyListener_DoAccept [completed ec_operation_aborted] start_listener
           {| listener_open := false; listener_loop := let_go |} eq_refl).
Defined.
